(* ===== verification/_CoqProject ===== *)
-Q . S2P
Prelude.v
Allocator.v
V8.v
Bridge.v
Storage.v
Blockchain.v
CryptoApi.v
Instruction.v
Execution.v
LibJsCore.v
LibJsApi.v
LibJsCompile.v
Modules.v
Compile.v
Lifecycle.v
JsValue.v
Loader.v
InjectGas.v
GasLedger.v
GasFacts.v
GasNode.v
GasTraverse.v
GasPaid.v
Operators.v
VmOps.v
Validate.v
StorageJs.v
Int64.v
Format.v
ConsoleJs.v
Words.v
Fips.v
Sha256.v
Sha256Facts.v
Field.v
FieldFacts.v
FieldOps.v
Primality.v
FieldExp.v
Scalar.v
ScalarFacts.v
ScalarOps.v
ScalarExp.v
Curve.v
CurveFacts.v
GroupLaw.v
GroupAssoc.v
PointMul.v
PointOrder.v
Group.v
GroupFacts.v
GroupOps.v
Points.v
PointConv.v
Tables.v
Ecmult.v
Wnaf.v
EcmultFacts.v
DoubleMul.v
EcmultGen.v
GenTable.v
GenFacts.v
CurveProps.v
Ecdsa.v
EcdsaFacts.v
Der.v
Eckey.v
Api.v
ApiKeys.v
ApiFacts.v
ApiSign.v
ApiProps.v
EcmultConst.v
ConstWnaf.v
ConstMul.v
ConstProps.v
