(* ===== verification/Prelude.v ===== *)
(** * Verification of the contract virtual machine of go-iost

    go-iost is a blockchain node. Its smart contracts are JavaScript programs
    that run in V8 behind a layer of C++ code (src/vm/v8vm/v8) and a set of
    JavaScript libraries embedded into it (src/vm/v8vm/v8/libjs); signatures are
    checked with a vendored C library (libsecp256k1). This development models
    that code and proves what makes it correct.

    ** The parts and how they interact

    A contract is published once and executed many times.

    - Publishing. Go escapes the source (module.go, moduleReplacer) and hands it
      to [compile] and [validate] of compile.cc, which paste it as a string
      literal into a script and run that in V8. The script is the JavaScript of
      validate.js, which compares the class of the contract with its ABI, or of
      inject_gas.js, which rewrites operators into calls and inserts calls that
      charge gas.
    - Executing. sandbox.cc creates a sandbox (an isolate with a global template,
      limits and counters), [RealExecute] runs the compiled contract on one
      thread while [Execution] polls gas, result and clock on another. The
      inserted calls reach instruction.cc, which adds to the gas counter.
    - Host calls. storage.cc, blockchain.cc, crypto.cc, console.cc and require.cc
      are the native methods a contract can call, most of them through wrappers
      (storage.js, utils.js, int64.js, float64.js); each checks its arguments,
      calls one Go function through a function pointer, and charges gas.
    - Signatures. The Go side signs with, verifies and recovers from ECDSA
      signatures through libsecp256k1 (secp256k1.c, its recovery module and the
      functions ext.h adds to them). Underneath are the encodings of keys and
      signatures, multiplication of points with precomputed tables, the curve,
      and the arithmetic of its field and of the scalars.

    ** Files

    Shared:
    - Prelude: words with wrap-around, C strings, hint databases.
    - V8: the part of the V8 interface the callbacks use, the [Sandbox] object
      (sandbox.h, vm.h), and the monad of a callback: go on, return early, or
      undefined behaviour. Bridge: the contract every native method follows
      ([api_spec]), the predicate [implements], and the automation that proves a
      callback implements it.

    Native code (src/vm/v8vm/v8), one file per component:
    - Allocator (allocator.cc), Storage (storage.cc), Blockchain (blockchain.cc),
      CryptoApi (crypto.cc), Instruction (instruction.cc), Modules (require.cc,
      console.cc, loadVM of sandbox.cc), Compile (compile.cc, module.go).
    - Loader (nativeLog, nativeRun of sandbox.cc and the module loader of vm.js):
      a cache over the native functions, with V8's compiler as a class.
    - Execution (RealExecute, Execution, reportException of sandbox.cc): the two
      threads as a transition system over the shared variables.
    - Lifecycle (newIsolate, releaseIsolate of vm.cc; newSandbox, resetSandbox,
      releaseSandbox and the setters of sandbox.cc) on a heap of typed cells.
    - LibJsCore, LibJsApi, LibJsCompile: the text of the ten embedded libraries
      (libjs/include/*.js.h), byte for byte.

    JavaScript libraries (src/vm/v8vm/v8/libjs):
    - JsValue: values, strings as UTF-16 code units, property access.
    - InjectGas (inject_gas.js: addInjection, processNode, traverse,
      genNewScript); GasLedger, the reference for what is charged where and the
      layout of a parser's ranges; GasFacts, GasNode, GasTraverse, the proof that
      the injector keeps the ledger; GasPaid, the theorems.
    - Operators (inject_gas.js: processOperator, traverseOperator, handleOperator,
      checkInvalidKeyword, injectGas) on a store of objects, since the pass
      shares nodes.
    - VmOps (the operator functions of vm.js that the rewritten code calls, on top
      of Instruction).
    - Validate (validate.js), StorageJs (storage.js, on top of Storage), Int64
      (int64.js, float64.js, over a class for the arbitrary-precision library),
      Format (utils.js), ConsoleJs (console.js, on top of Format and Modules).

    Vendored C (libsecp256k1/src, in the configuration the build selects):
    - Words: accumulators and limbs. Fips: SHA-256, HMAC and the RFC 6979
      generator as their standards define them. Sha256, Sha256Facts (hash_impl.h).
    - Field, FieldFacts, FieldOps, FieldExp (field_5x52*.h, field_impl.h); Scalar,
      ScalarFacts, ScalarOps, ScalarExp (scalar_4x64_impl.h, scalar_impl.h);
      Primality: the field prime and the group order are prime, by certificates
      (Pocklington) checked with the BigZ numbers.
    - Curve: the points of the curve with their chord-and-tangent addition, as a
      definition of their own. CurveFacts, GroupLaw, GroupAssoc, PointMul and
      PointOrder show that they are a cyclic group of prime order generated by
      the constant of the code, and what the endomorphism multiplies by.
    - Group (group.h, group_impl.h): affine, Jacobian and stored points.
      GroupFacts, GroupOps, Points, PointConv and Tables relate each operation to
      the curve, on limbs of bounded magnitude and on isomorphic curves.
    - Ecmult (ecmult_impl.h), with Wnaf, EcmultFacts and DoubleMul; EcmultGen
      (ecmult_gen_impl.h), with GenTable and GenFacts; CurveProps, the theorems.
    - Ecdsa (signing, verification and recovery, ecdsa_impl.h and the recovery
      module), EcdsaFacts; Der (the DER parser and serialiser of ecdsa_impl.h);
      Eckey (eckey_impl.h).
    - Api (secp256k1.c, modules/recovery/main_impl.h, ext.h): every exported
      function on bytes, with its argument checks; ApiKeys, ApiFacts, ApiSign and
      ApiProps, the theorems.
    - EcmultConst (ecmult_const_impl.h, secp256k1_ext_scalar_mul of ext.h), with
      ConstWnaf, ConstMul and ConstProps.

    ** What the theorems show

    - Native methods (Storage, Blockchain, CryptoApi): each implements its
      contract on every argument list; the one exception, an unchecked RAM payer
      in put and mapPut, is part of the statement ([undefined_on]) and StorageJs
      shows exactly how contracts reach it.
    - Metering: [incr] charges the integer part of a number from 0 up to INT_MAX
      and rejects every other argument list
      (Instruction); the injector's entries hold exactly the charges of the
      ledger, the script is the source with the entries spliced in, and no node
      with a cost and no pass of a loop is left out of the script (GasPaid);
      rewritten operators compute what a table of the language's operators says
      at their price (VmOps).
    - Execution: for every interleaving the returned tuple is the text of the
      script's value with the gas it charged, the report of its failure, out of
      gas or out of time, and the polling loop ends after the deadline or the
      thread's exit.
    - Compiling: no source can leave its string literal, which has the value of
      the source but for the spelling of NUL bytes; the status and the buffers of
      every end of the script; [validate] accepts exactly the well-formed
      contracts.
    - Loading: a library is compiled once, byte for byte, and cached (Loader).
    - Life cycle: no double free and nothing left over for sandboxes; what
      releasing an isolate leaves behind.
    - Numbers: Int64 is exact or throws, but for negative exponents far out,
      where it gives 0. Formatting follows the reading of its format, where the
      placeholder for numbers meets big numbers only.
    - Hashes equal their standards; field and scalar operations compute modulo
      their primes, stay inside their magnitudes, and their inverse and square
      root chains are right.
    - Curve: every point function computes the operation of the curve, in every
      case but the one the constant-time addition excludes; both multiplications and the constant-time one stay inside their
      tables and return the multiple, whatever the blinding and the memory that
      is not initialised.
    - Signatures: verification and recovery decide exactly what the definition of
      ECDSA says ([ecdsa_valid], [recovers]), signing ends with a signature that
      verifies and recovers, its nonces are those of RFC 6979 for messages below
      the group order (others the code does not reduce), and key tweaks,
      conversions and shared secrets agree with the group (ApiProps, ConstProps);
      DER is strict and its round trip is the identity (Der).
    - Where the code does not do what it means to, a theorem or an example pins
      down the behaviour: [put_undefined_iff], [contract_reaches_undefined],
      [preload_gas_race], [isolate_release_leaks], [console_drops_error],
      [compound_assignment_duplicates], [spread_wrapped_twice], [label_detached],
      [arrow_loses_this], [default_paid_once], [format_d_skips],
      [float64_accepts_nan], [computed_method_accepted],
      [normalize_overflows_2048].

    ** Conventions, bounds and fuel

    Unsigned words are [Z] with their reduction written out; doubles are the
    IEEE-754 values of the Standard Library ([spec_float], 53 and 1024). Undefined
    behaviour, exceptions and early returns are values of the monads. Code that
    is not in the repository (V8, Go behind cgo, the esprima and escodegen
    parsers and generators as third-party text, the arbitrary-precision library)
    enters as arguments or classes, with what is relied on as named hypotheses.
    Recursion is structural except: [secp256k1_sha256_write] and the generator's
    loop, whose fuel is the number of bytes, enough because each pass consumes at
    least one; the generator's copy length fits an [int]; [traverseOperator],
    whose fuel is the depth of the tree; the window expansions, whose fuel is one
    more than the number of bits, every round taking at least one; and the loops that draw
    again (the context of the generator, its blinding, the nonce of a signature),
    whose fuel is the number of attempts: building a context is proved to need
    one, and signing is proved to return whenever some attempt within the fuel is
    usable. The polling loop has no fuel: it is a
    relation, with a bound on its length as a theorem; the shared strings and
    flags are read and written in one step each, although the code does not
    synchronise them. Magnitudes of field
    elements are bounds on the limbs, proved for all operations. The layout
    [place] that the theorems on the injector assume is what the parser gives:
    ranges that are not empty, nested, in order, with a token between the parts of
    a control structure.

    ** Not modelled

    V8 and its headers; the Go code of the node; the third-party JavaScript
    libraries (esprima, escodegen, bignumber) and the binary snapshots;
    blockchain.js, json.js and environment.js, wrappers of JSON conversions and
    of built-in methods that are V8's (of environment.js, the precision it sets
    for big numbers is in the laws of [Int64]); of libsecp256k1 the configurations
    the build does not select (32-bit limbs, assembly, GMP, the static table of
    the generator), its other modules and its tests and tools; the time its
    constant-time functions take, which the model does not have; snapshot.cc, an
    experiment that is not built. *)

From Stdlib Require Import ZArith Lia List.
From stdpp Require Import base list strings.

Declare Scope word_scope.
Delimit Scope word_scope with word.

(** ** Machine integers

    A [w]-bit unsigned integer is a [Z] kept in [0 .. 2^w - 1]; every
    operation that can leave the range writes its reduction out. *)

Definition wrap (w z : Z) : Z := (z mod 2 ^ w)%Z.

Notation "'u32' x" := (wrap 32 x) (at level 10, x at next level) : word_scope.
Notation "'u64' x" := (wrap 64 x) (at level 10, x at next level) : word_scope.
Notation "'u128' x" := (wrap 128 x) (at level 10, x at next level) : word_scope.

(** Conversion of an unsigned value to a signed [w]-bit integer. *)
Definition swrap (w z : Z) : Z := ((z + 2 ^ (w - 1)) mod 2 ^ w - 2 ^ (w - 1))%Z.

Definition SIZE_MAX : Z := (2 ^ 64 - 1)%Z.
Definition INT_MAX : Z := 2147483647%Z.

Section Wrap.
Local Open Scope Z_scope.

Lemma wrap_range w z : 0 <= w -> 0 <= wrap w z < 2 ^ w.
Proof. intros Hw. apply Z.mod_pos_bound, Z.pow_pos_nonneg; lia. Qed.

Lemma wrap_small w z : 0 <= z < 2 ^ w -> wrap w z = z.
Proof. apply Z.mod_small. Qed.

Lemma swrap_small w z : 0 <= z < 2 ^ (w - 1) -> 1 <= w -> swrap w z = z.
Proof.
  intros Hz Hw. unfold swrap. rewrite Z.mod_small; [lia|].
  replace (2 ^ w) with (2 * 2 ^ (w - 1)); [lia|]. rewrite <- Z.pow_succ_r by lia. f_equal. lia.
Qed.

Lemma wrap_wrap w z : wrap w (wrap w z) = wrap w z.
Proof. unfold wrap. apply Zmod_mod. Qed.

Lemma wrap_add_l w a b : wrap w (wrap w a + b) = wrap w (a + b).
Proof. unfold wrap. apply Zplus_mod_idemp_l. Qed.

Lemma wrap_add_r w a b : wrap w (a + wrap w b) = wrap w (a + b).
Proof. unfold wrap. apply Zplus_mod_idemp_r. Qed.
End Wrap.

Create HintDb words discriminated.
#[export] Hint Resolve wrap_range : words.

Create Rewrite HintDb wraps.
#[export] Hint Rewrite wrap_wrap wrap_add_l wrap_add_r : wraps.

(** ** C strings

    A [string] is a run of bytes. Where the code reads a buffer without a
    length, it sees the bytes in front of the first NUL. *)

Fixpoint c_str (s : string) : string :=
  match s with
  | EmptyString => EmptyString
  | String a s' => if Ascii.eqb a Ascii.zero then EmptyString else String a (c_str s')
  end.

Fixpoint no_nul (s : string) : bool :=
  match s with
  | EmptyString => true
  | String a s' => negb (Ascii.eqb a Ascii.zero) && no_nul s'
  end.

(** The byte 0. *)
Definition NUL : string := String Ascii.zero EmptyString.

(** Text with the tilde standing for the double quote. *)
Fixpoint js (s : string) : string :=
  match s with
  | EmptyString => EmptyString
  | String a s' => String (if Ascii.eqb a (Ascii.ascii_of_nat 126) then Ascii.ascii_of_nat 34 else a) (js s')
  end.

Lemma app_cons a s t : String a s +:+ t = String a (s +:+ t).
Proof. reflexivity. Qed.

Lemma app_assoc3 r s t : (r +:+ s) +:+ t = r +:+ (s +:+ t).
Proof. induction r as [|a r IH]; [done|]. by rewrite !app_cons, IH. Qed.

Lemma no_nul_app s t : no_nul (s +:+ t) = no_nul s && no_nul t.
Proof.
  induction s as [|a s IH]; [done|]. rewrite app_cons. cbn [no_nul]. by rewrite IH, andb_assoc.
Qed.

Lemma c_str_no_nul s : no_nul (c_str s) = true.
Proof.
  induction s as [|a s IH]; [done|]. cbn. destruct (Ascii.eqb a _) eqn:E; [done|].
  cbn. by rewrite E, IH.
Qed.

Lemma c_str_id s : no_nul s = true -> c_str s = s.
Proof.
  induction s as [|a s IH]; [done|]. cbn. intros [Ha Hs]%andb_prop.
  apply negb_true_iff in Ha. by rewrite Ha, IH.
Qed.

#[export] Hint Resolve c_str_no_nul : words.

Create Rewrite HintDb strings.
#[export] Hint Rewrite no_nul_app c_str_no_nul : strings.

Lemma c_str_app_nul s t : no_nul s = true -> c_str (s +:+ NUL +:+ t) = s.
Proof.
  induction s as [|a s IH]; [done|]. cbn [no_nul]. intros [Ha Hs]%andb_prop.
  apply negb_true_iff in Ha. change (c_str (String a (s +:+ NUL +:+ t)) = String a s).
  cbn [c_str]. rewrite Ha. f_equal. by apply IH.
Qed.
