(* ===== verification/Allocator.v ===== *)
(** * The array-buffer allocator (vm/v8vm/v8/allocator.h, allocator.cc)

    The allocator only keeps two counters beside [calloc]/[malloc]/[free]:
    the bytes handed out and their high-water mark, which the sandbox adds to
    the V8 heap size to decide whether a contract uses too much memory. *)

From Stdlib Require Import ZArith Lia List.
From stdpp Require Import base list strings.
From S2P Require Import Prelude.
Local Open Scope Z_scope.
Local Open Scope word_scope.

Module Allocator.

(** ** The class *)

Record ArrayBufferAllocator := mkAllocator {
  current_allocated_size : Z;   (* size_t *)
  max_allocated_size : Z;       (* size_t *)
}.

Definition new_allocator : ArrayBufferAllocator := mkAllocator 0 0.

Definition AddAllocatedSize (length : Z) (a : ArrayBufferAllocator) : ArrayBufferAllocator :=
  let cur := u64 (current_allocated_size a + length) in
  mkAllocator cur
    (if cur >? max_allocated_size a then cur else max_allocated_size a).

(** [calloc]/[malloc] may fail: [ok] is whether they returned a block. The
    counters move before the call, whatever it returns. *)
Definition Allocate (length : Z) (ok : bool) (a : ArrayBufferAllocator)
  : bool * ArrayBufferAllocator :=
  let a' := AddAllocatedSize length a in (ok, a').

Definition AllocateUninitialized (length : Z) (ok : bool) (a : ArrayBufferAllocator)
  : bool * ArrayBufferAllocator :=
  let a' := AddAllocatedSize length a in (ok, a').

Definition Free (length : Z) (a : ArrayBufferAllocator) : ArrayBufferAllocator :=
  mkAllocator (u64 (current_allocated_size a - length)) (max_allocated_size a).

Definition GetCurrentAllocatedMemSize (a : ArrayBufferAllocator) : Z :=
  current_allocated_size a.

Definition GetMaxAllocatedMemSize (a : ArrayBufferAllocator) : Z :=
  max_allocated_size a.

(** ** Runs of the allocator and what they should count *)

Inductive event :=
  | EvAllocate (length : Z) (ok : bool)
  | EvAllocateUninitialized (length : Z) (ok : bool)
  | EvFree (length : Z).

Definition step (a : ArrayBufferAllocator) (e : event) : ArrayBufferAllocator :=
  match e with
  | EvAllocate n ok => snd (Allocate n ok a)
  | EvAllocateUninitialized n ok => snd (AllocateUninitialized n ok a)
  | EvFree n => Free n a
  end.

Definition run (evs : list event) : ArrayBufferAllocator :=
  fold_left step evs new_allocator.

(** The change an event makes to the number of bytes requested and not given
    back, and that number after each prefix of a run. *)
Definition delta (e : event) : Z :=
  match e with
  | EvAllocate n _ | EvAllocateUninitialized n _ => n
  | EvFree n => - n
  end.

Definition outstanding (evs : list event) : Z := fold_right Z.add 0 (map delta evs).

Definition prefixes (evs : list event) : list (list event) :=
  map (fun n => firstn n evs) (seq 0 (S (length evs))).

Definition peak (evs : list event) : Z :=
  fold_right Z.max 0 (map outstanding (prefixes evs)).

(** The sizes are [size_t] values, no [Free] gives back more than is out, and
    the total stays below [2^64]. *)
Definition event_ok (e : event) : Prop :=
  match e with
  | EvAllocate n _ | EvAllocateUninitialized n _ | EvFree n => 0 <= n
  end.

Definition run_ok (evs : list event) : Prop :=
  Forall event_ok evs /\
  Forall (fun p => 0 <= outstanding p <= SIZE_MAX) (prefixes evs).

Lemma outstanding_snoc evs e : outstanding (evs ++ [e]) = outstanding evs + delta e.
Proof.
  unfold outstanding. rewrite map_app, fold_right_app. cbn [map fold_right].
  induction (map delta evs) as [|x l IH]; cbn [fold_right]; lia.
Qed.

Lemma prefixes_snoc evs e : prefixes (evs ++ [e]) = prefixes evs ++ [evs ++ [e]].
Proof.
  unfold prefixes. rewrite length_app. cbn [length].
  replace (S (length evs + 1)) with (S (length evs) + 1)%nat by lia.
  rewrite seq_app, map_app. f_equal.
  - apply map_ext_in. intros n Hn%in_seq. rewrite firstn_app.
    replace (n - length evs)%nat with 0%nat by lia. apply app_nil_r.
  - cbn. rewrite firstn_all2 by (rewrite length_app; cbn; lia). done.
Qed.

Lemma peak_snoc evs e :
  peak (evs ++ [e]) = Z.max (peak evs) (outstanding (evs ++ [e])).
Proof.
  unfold peak. rewrite prefixes_snoc, map_app, fold_right_app.
  cbn [map fold_right].
  induction (map outstanding (prefixes evs)) as [|x l IH]; cbn [fold_right]; lia.
Qed.

Lemma run_snoc evs e : run (evs ++ [e]) = step (run evs) e.
Proof. unfold run. by rewrite fold_left_app. Qed.

Lemma run_ok_snoc evs e :
  run_ok (evs ++ [e]) ->
  run_ok evs /\ event_ok e /\ 0 <= outstanding (evs ++ [e]) <= SIZE_MAX.
Proof.
  intros [H1 H2]. rewrite prefixes_snoc in H2.
  apply Forall_app in H1 as [H1 He%Forall_inv]. apply Forall_app in H2 as [H2 H3%Forall_inv].
  unfold run_ok. auto.
Qed.

Lemma peak_bounds evs : run_ok evs -> outstanding evs <= peak evs /\ 0 <= peak evs <= SIZE_MAX.
Proof.
  induction evs as [|e evs IH] using rev_ind; intros Hok.
  - unfold SIZE_MAX. cbn. lia.
  - apply run_ok_snoc in Hok as (Hok & _ & Hb). rewrite peak_snoc.
    specialize (IH Hok). lia.
Qed.

(** C33: on every run in which no [Free] gives back more than is outstanding
    and the total fits a [size_t], the allocator's counters are the bytes
    requested and not freed (a request counts even when [calloc]/[malloc]
    fails) and the maximum of that number over the whole run. *)
Theorem allocator_counts (evs : list event) (Hok : run_ok evs) :
  GetCurrentAllocatedMemSize (run evs) = outstanding evs /\
  GetMaxAllocatedMemSize (run evs) = peak evs.
Proof.
  induction evs as [|e evs IH] using rev_ind; [done|].
  apply run_ok_snoc in Hok as (Hok & He & Hb). destruct (IH Hok) as [Hc Hm].
  destruct (peak_bounds _ Hok) as [? ?].
  rewrite run_snoc, peak_snoc. rewrite outstanding_snoc in *.
  unfold GetCurrentAllocatedMemSize, GetMaxAllocatedMemSize, SIZE_MAX in *.
  destruct e as [n ok|n ok|n];
    cbn [step snd Allocate AllocateUninitialized delta event_ok] in *;
    unfold AddAllocatedSize, Free; cbn [current_allocated_size max_allocated_size];
    rewrite Hc, ?Hm, wrap_small by lia; split; try lia;
    destruct (Z.gtb_spec (outstanding evs + n) (peak evs)); lia.
Qed.

Lemma allocator_counts_witness :
  let evs := [EvAllocate 100 true; EvAllocateUninitialized 28 false; EvFree 100] in
  current_allocated_size (run evs) = 28 /\ max_allocated_size (run evs) = 128.
Proof.
  intros evs.
  refine (allocator_counts evs _).
  split; repeat constructor; vm_compute; congruence.
Defined.

End Allocator.
