(* ===== verification/V8.v ===== *)
(** * The V8 interface, as the native code of the virtual machine uses it

    V8 itself is not part of the repository: this file models the part of its
    API (vm/v8vm/v8/include/*/v8.h) that the native callbacks touch, together
    with the C strings that cross the boundary to Go (vm/v8vm/v8/vm.h,
    vm/v8vm/ctypes.go) and the [Sandbox] object (vm/v8vm/v8/sandbox.h). A C++
    callback becomes a computation in the monad [M]: it can continue, return
    early, or run into undefined behaviour. *)

From Stdlib Require Import ZArith Lia SpecFloat.
From stdpp Require Import base gmap strings list.
From S2P Require Import Prelude Allocator.
Local Open Scope Z_scope.

(** ** JavaScript values *)

(** A string is a sequence of UTF-16 code units; [String::Length] counts them. *)
Abbreviation jsstring := (list Z).

(** The C++ objects an [External] can point to. *)
Inductive NativePtr :=
  PSandbox | PBlockchain | PCrypto | PInstruction | PStorage.

#[export] Instance NativePtr_eq_dec : EqDecision NativePtr.
Proof. solve_decision. Defined.

Inductive Value :=
  | Undefined
  | Null
  | Boolean (b : bool)
  | Number (d : spec_float)
  | JsString (s : jsstring)
  | External (p : NativePtr)
  | ObjectRef (id : nat).

Definition IsString (v : Value) : bool := match v with JsString _ => true | _ => false end.
Definition IsNumber (v : Value) : bool := match v with Number _ => true | _ => false end.
Definition IsBoolean (v : Value) : bool := match v with Boolean _ => true | _ => false end.
Definition IsUndefined (v : Value) : bool := match v with Undefined => true | _ => false end.
Definition IsExternal (v : Value) : bool := match v with External _ => true | _ => false end.

(** [ReturnValue::Set(int)]: the number with that integer value. *)
Definition double_of_Z (z : Z) : spec_float := binary_normalize 53 1024 z 0 false.
Definition NumberOfInt (z : Z) : Value := Number (double_of_Z z).

(** The two conversions between JavaScript strings and UTF-8 bytes are V8's:
    [String::Utf8Value] and [String::NewFromUtf8]. *)
Class V8Codec := {
  Utf8Value : jsstring -> string;
  NewFromUtf8 : string -> jsstring;
}.

(** ** What a callback receives *)

Record FunctionCallbackInfo := mkInfo {
  info_args : list Value;
  holder_field : Value;      (* args.Holder()->GetInternalField(0) *)
  global_field : Value;      (* context->Global()->GetInternalField(0) *)
}.

Definition Length (info : FunctionCallbackInfo) : Z := Z.of_nat (length (info_args info)).

(** [args[i]] is [undefined] past the end. *)
Definition arg (info : FunctionCallbackInfo) (i : nat) : Value :=
  default Undefined (info_args info !! i).

(** [args.Holder()]. *)
Definition Holder : Value := ObjectRef 0.

(** ** C strings across the cgo boundary *)

(** A [CStr] built from a [Utf8Value]: bytes owned by the callback's frame. *)
Record CStr := mkCStr { data : string; size : Z }.

Definition cstr_of (s : string) : CStr := mkCStr s (Z.of_nat (String.length s)).

(** A [char *] that Go allocated with [C.CString]: an index into the C heap. *)
Abbreviation cptr := (option nat).

Record CStrOut := mkCStrOut { out_data : cptr; out_size : Z }.

(** [CStr resultStr = {nullptr, 0};] *)
Definition null_cstr : CStrOut := mkCStrOut None 0.

(** ** The sandbox object *)

Record Sandbox := mkSandbox {
  allocator : Allocator.ArrayBufferAllocator;
  jsPath : option string;
  gasUsed : Z;          (* size_t *)
  gasLimit : Z;         (* size_t *)
  memLimit : Z;         (* size_t *)
  instr_count : Z;      (* int IOSTContractInstruction::count *)
}.

Definition set_gasUsed (g : Z) (s : Sandbox) : Sandbox :=
  mkSandbox (allocator s) (jsPath s) g (gasLimit s) (memLimit s) (instr_count s).
Definition set_gasLimit (g : Z) (s : Sandbox) : Sandbox :=
  mkSandbox (allocator s) (jsPath s) (gasUsed s) g (memLimit s) (instr_count s).
Definition set_memLimit (m : Z) (s : Sandbox) : Sandbox :=
  mkSandbox (allocator s) (jsPath s) (gasUsed s) (gasLimit s) m (instr_count s).
Definition set_jsPath (p : option string) (s : Sandbox) : Sandbox :=
  mkSandbox (allocator s) p (gasUsed s) (gasLimit s) (memLimit s) (instr_count s).
Definition set_count (c : Z) (s : Sandbox) : Sandbox :=
  mkSandbox (allocator s) (jsPath s) (gasUsed s) (gasLimit s) (memLimit s) c.

(** ** The state a callback runs in *)

Section State.
Context {H : Type}.   (* the state of the Go host behind the callbacks *)

Record State := mkState {
  exception : option string;     (* the pending exception's message *)
  retval : Value;                (* args.GetReturnValue() *)
  stdout : list string;
  heap : gmap nat string;        (* live buffers malloc'ed by C.CString *)
  next : nat;
  total_heap_size : Z;           (* V8's own heap statistics *)
  sbx : Sandbox;
  host : H;
}.

Definition set_exception (e : option string) (st : State) : State :=
  mkState e (retval st) (stdout st) (heap st) (next st) (total_heap_size st) (sbx st) (host st).
Definition set_retval (v : Value) (st : State) : State :=
  mkState (exception st) v (stdout st) (heap st) (next st) (total_heap_size st) (sbx st) (host st).
Definition set_stdout (o : list string) (st : State) : State :=
  mkState (exception st) (retval st) o (heap st) (next st) (total_heap_size st) (sbx st) (host st).
Definition set_heap (h : gmap nat string) (st : State) : State :=
  mkState (exception st) (retval st) (stdout st) h (next st) (total_heap_size st) (sbx st) (host st).
Definition set_next (n : nat) (st : State) : State :=
  mkState (exception st) (retval st) (stdout st) (heap st) n (total_heap_size st) (sbx st) (host st).
Definition set_sbx (s : Sandbox) (st : State) : State :=
  mkState (exception st) (retval st) (stdout st) (heap st) (next st) (total_heap_size st) s (host st).
Definition set_host (h : H) (st : State) : State :=
  mkState (exception st) (retval st) (stdout st) (heap st) (next st) (total_heap_size st) (sbx st) h.

(** Every live buffer was handed out before [next]. *)
Definition heap_wf (st : State) : Prop :=
  forall i, (next st <= i)%nat -> heap st !! i = None.

(** ** The monad of C++ callbacks *)

Inductive Outcome (A : Type) :=
  | Ret (a : A) (st : State)    (* the next statement runs *)
  | Return (st : State)         (* the callback has returned *)
  | UB.                         (* undefined behaviour *)

Definition M (A : Type) : Type := State -> Outcome A.

#[global] Arguments Ret {A} a st.
#[global] Arguments Return {A} st.
#[global] Arguments UB {A}.

Definition mret {A} (a : A) : M A := fun st => Ret a st.

Definition mbind {A B} (m : M A) (k : A -> M B) : M B := fun st =>
  match m st with
  | Ret a st' => k a st'
  | Return st' => Return st'
  | UB => UB
  end.

(** [return;] *)
Definition creturn {A} : M A := fun st => Return st.

Definition modify (f : State -> State) : M unit := fun st => Ret tt (f st).
Definition gets {A} (f : State -> A) : M A := fun st => Ret (f st) st.

(** The whole callback: [None] when it ran into undefined behaviour. *)
Definition run (m : M unit) (st : State) : option State :=
  match m st with
  | Ret _ st' | Return st' => Some st'
  | UB => None
  end.
End State.

Arguments State : clear implicits.
Arguments M : clear implicits.
Arguments Outcome : clear implicits.

Declare Scope cpp_scope.
Delimit Scope cpp_scope with cpp.
Notation "x <- m ; k" := (mbind m (fun x => k))
  (at level 100, m at next level, right associativity) : cpp_scope.
Notation "m ;; k" := (mbind m (fun _ => k))
  (at level 100, right associativity) : cpp_scope.

Section Api.
Context {H : Type} {codec : V8Codec}.
Local Open Scope cpp_scope.

(** [isolate->ThrowException(Exception::Error(...))]: it only records the
    exception, the C++ code goes on. *)
Definition ThrowError (msg : string) : M H unit := modify (set_exception (Some msg)).

(** [if (!cond) { throw msg; return; }] *)
Definition check (cond : bool) (msg : string) : M H unit :=
  if cond then mret tt else (ThrowError msg ;; creturn).

Definition SetReturnValue (v : Value) : M H unit := modify (set_retval v).
Definition SetNull : M H unit := SetReturnValue Null.

Definition cout (line : string) : M H unit :=
  modify (fun st => set_stdout (stdout st ++ [line]) st).

Definition INPUT_MAX_LENGTH : Z := 65536.

(** The macro [NewCStrChecked]. [Local<String>::Cast] is not checked in the
    build the Makefile makes (V8_ENABLE_CHECKS is not defined), so that
    [Length()] on a value that is not a string reads foreign memory. *)
Definition NewCStrChecked (v : Value) : M H CStr :=
  match v with
  | JsString s =>
      if Z.of_nat (length s) >? INPUT_MAX_LENGTH
      then ThrowError "input string too long" ;; creturn
      else mret (cstr_of (Utf8Value s))
  | _ => fun _ => UB
  end.

(** [Local<External>::Cast(field)], the [IsExternal] test and the
    [static_cast] of its value to the class [p]. *)
Definition UnwrapExternal (field : Value) (p : NativePtr) (msg : string) : M H unit :=
  match field with
  | External q => if decide (p = q) then mret tt else fun _ => UB
  | _ => cout msg ;; creturn
  end.

(** [C.CString(s)]: a fresh buffer. *)
Definition CString (s : string) : M H nat := fun st =>
  Ret (next st) (set_next (S (next st)) (set_heap (<[next st := s]> (heap st)) st)).

(** [free(p)]: freeing a buffer that is not live is undefined. *)
Definition free (p : nat) : M H unit := fun st =>
  match heap st !! p with
  | Some _ => Ret tt (set_heap (delete p (heap st)) st)
  | None => UB
  end.

Definition read (p : nat) : M H string := fun st =>
  match heap st !! p with
  | Some s => Ret s st
  | None => UB
  end.

(** [String::NewFromUtf8(isolate, data, kNormalString, size)]: a negative
    size stands for [strlen]. *)
Definition NewFromUtf8N (s : string) (n : Z) : jsstring :=
  NewFromUtf8 (if n <? 0 then c_str s else String.substring 0 (Z.to_nat n) s).

(** What a Go callback does with its [*C.char] result. *)
Definition go_error (e : option string) : M H cptr :=
  match e with
  | None => mret None
  | Some msg => p <- CString msg ; mret (Some p)
  end.

(** [CStr.SetString] of ctypes.go, when the callback sets its result. *)
Definition SetString (r : option string) : M H CStrOut :=
  match r with
  | None => mret null_cstr
  | Some s =>
      p <- CString s ;
      mret (mkCStrOut (Some p) (swrap 32 (Z.of_nat (String.length s))))
  end.

(** [sbx->gasUsed += gasUsed] on [size_t]. *)
Definition AddGas (g : Z) : M H unit :=
  modify (fun st => set_sbx (set_gasUsed (wrap 64 (gasUsed (sbx st) + g)) (sbx st)) st).

(** [if (ret != nullptr) { throw ret; free(ret); return; }] *)
Definition ThrowIfError (ret : cptr) : M H unit :=
  match ret with
  | None => mret tt
  | Some p => msg <- read p ; ThrowError (c_str msg) ;; free p ;; creturn
  end.

(** [Set(NewFromUtf8(data, size)); if (data != nullptr) free(data);] *)
Definition ReturnCStr (r : CStrOut) : M H unit :=
  match out_data r with
  | None => SetReturnValue (JsString (NewFromUtf8 ""))
  | Some p =>
      s <- read p ;
      SetReturnValue (JsString (NewFromUtf8N s (out_size r))) ;;
      free p
  end.

(** The variant that returns [null] for a missing value. *)
Definition ReturnCStrOrNull (r : CStrOut) : M H unit :=
  match out_data r with
  | None => SetNull
  | Some p =>
      s <- read p ;
      SetReturnValue (JsString (NewFromUtf8N s (out_size r))) ;;
      free p
  end.

(** [MemoryUsage]: the V8 heap plus the allocator's high-water mark. *)
Definition MemoryUsage (st : State H) : Z :=
  wrap 64 (total_heap_size st + Allocator.GetMaxAllocatedMemSize (allocator (sbx st))).
End Api.

(** ** Concrete instances, to run the callbacks on *)

(** One byte per code unit: V8's conversions on Latin-1 text. *)
Definition latin1 : V8Codec := {|
  Utf8Value s := String.string_of_list_ascii (map (fun c => Ascii.ascii_of_nat (Z.to_nat c)) s);
  NewFromUtf8 s := map (fun a => Z.of_nat (Ascii.nat_of_ascii a)) (String.list_ascii_of_string s);
|}.

Definition initial_state {H} (s : Sandbox) (h : H) : State H :=
  mkState None Undefined [] ∅ 0 0 s h.
