(* ===== verification/Bridge.v ===== *)
(** * The bridge between native callbacks and the Go host

    Every native method that a contract can call follows one contract: check
    the arguments, call one Go function, charge the gas it reports, and turn
    its error into a JavaScript exception. This file states that contract once
    ([api_spec]) and holds the automation that proves a callback refines it. *)

From Stdlib Require Import ZArith Lia SpecFloat.
From stdpp Require Import base gmap strings list.
From S2P Require Import Prelude Allocator V8.
Local Open Scope Z_scope.

(** ** The result of a Go callback *)

Record GoRes (H A : Type) := mkGoRes {
  go_err : option string;   (* the returned char *: nil or C.CString(err) *)
  go_out : A;               (* the result parameter *)
  go_gas : Z;               (* the gasUsed parameter, a size_t *)
  go_host : H;
}.
Arguments mkGoRes {H A}.
Arguments go_err {H A}.
Arguments go_out {H A}.
Arguments go_gas {H A}.
Arguments go_host {H A}.

(** What the result parameter holds. *)
Inductive GoOut :=
  | OutUnit
  | OutBool (b : bool)
  | OutStr (s : option string)         (* nullptr shows as the empty string *)
  | OutStrOrNull (s : option string)   (* nullptr shows as null *)
  | OutLen (n : Z).

Definition map_out {H A} (f : A -> GoOut) (r : GoRes H A) : GoRes H GoOut :=
  mkGoRes (go_err r) (f (go_out r)) (go_gas r) (go_host r).

Definition out_buffer (o : GoOut) : option string :=
  match o with OutStr s | OutStrOrNull s => s | _ => None end.

(** The Go callbacks set their string result only when they return no error
    (vm/v8vm/storage.go, blockchain.go). *)
Definition go_ok {H} (r : GoRes H GoOut) : Prop :=
  is_Some (go_err r) -> out_buffer (go_out r) = None.

Section Bridge.
Context {H : Type} {codec : V8Codec}.
Local Open Scope cpp_scope.

(** ** Calling Go *)

Definition callGo {A} (f : H -> GoRes H A) : M H (GoRes H A) := fun st =>
  let r := f (host st) in Ret r (set_host (go_host r) st).

(** The bodies of the class methods: the call, then the gas. *)
Definition goUnit (f : H -> GoRes H unit) : M H cptr :=
  r <- callGo f ; ret <- go_error (go_err r) ; AddGas (go_gas r) ;; mret ret.

Definition goVal {A} (f : H -> GoRes H A) : M H (cptr * A) :=
  r <- callGo f ; ret <- go_error (go_err r) ; AddGas (go_gas r) ;;
  mret (ret, go_out r).

Definition goStr (f : H -> GoRes H (option string)) : M H (cptr * CStrOut) :=
  r <- callGo f ; result <- SetString (go_out r) ;
  ret <- go_error (go_err r) ; AddGas (go_gas r) ;; mret (ret, result).

(** ** The contract of a native method *)

Record ApiCall := mkApi {
  api_arity : option nat;     (* [None]: the arguments are not looked at *)
  api_go : list CStr -> H -> GoRes H GoOut;
}.

Definition value_of_str (s : string) : Value :=
  JsString (NewFromUtf8N s (swrap 32 (Z.of_nat (String.length s)))).

Definition value_of_out (o : GoOut) : Value :=
  match o with
  | OutUnit => Null
  | OutBool b => Boolean b
  | OutStr None => JsString (NewFromUtf8 "")
  | OutStrOrNull None => Null
  | OutStr (Some s) | OutStrOrNull (Some s) => value_of_str s
  | OutLen n => NumberOfInt (swrap 32 n)
  end.

Definition charge (g : Z) (st : State H) : State H :=
  set_sbx (set_gasUsed (wrap 64 (gasUsed (sbx st) + g)) (sbx st)) st.

(** One call: the host moves, the gas is charged, and the error or the
    result reaches JavaScript. *)
Definition api_result (r : GoRes H GoOut) (st : State H) : State H :=
  let st1 := charge (go_gas r) (set_host (go_host r) st) in
  match go_err r with
  | Some msg => set_exception (Some (c_str msg)) st1
  | None => set_retval (value_of_out (go_out r)) st1
  end.

Definition short (s : jsstring) : Prop := Z.of_nat (length s) <= INPUT_MAX_LENGTH.

(** The arguments a method accepts, as the C strings it passes to Go. *)
Inductive accepts (a : ApiCall) (info : FunctionCallbackInfo) : list CStr -> Prop :=
  | accepts_any : api_arity a = None -> accepts a info []
  | accepts_strings n (strs : list jsstring) :
      api_arity a = Some n -> length strs = n ->
      info_args info = map JsString strs -> Forall short strs ->
      accepts a info (map (fun s => cstr_of (Utf8Value s)) strs).

(** The contract: accepted arguments make exactly one Go call and no buffer
    stays allocated; anything else throws and changes nothing else. *)
Inductive api_spec (a : ApiCall) (info : FunctionCallbackInfo) (st : State H)
  : State H -> Prop :=
  | api_reject msg :
      (forall l, ~ accepts a info l) ->
      api_spec a info st (set_exception (Some msg) st)
  | api_accept l n :
      accepts a info l ->
      api_spec a info st (set_next n (api_result (api_go a l (host st)) st)).

Definition sat (a : ApiCall) (info : FunctionCallbackInfo) (st : State H) (m : M H unit) : Prop :=
  exists st', run m st = Some st' /\ api_spec a info st st'.

(** The native method [m] implements [a] on [info]. *)
Definition implements (m : M H unit) (a : ApiCall) (info : FunctionCallbackInfo) : Prop :=
  forall st, heap_wf st -> (forall l, go_ok (api_go a l (host st))) -> sat a info st m.

(** ** Accepting is deterministic and decidable argument by argument *)

Lemma reject_length a info n :
  api_arity a = Some n -> length (info_args info) <> n ->
  forall l, ~ accepts a info l.
Proof.
  intros Ha Hl l Hacc. inversion Hacc as [E|? strs E Hn Hi]; simplify_eq.
  rewrite Hi, length_map in Hl. done.
Qed.

Lemma reject_arg a info n v :
  api_arity a = Some n -> v ∈ info_args info ->
  (forall s, v = JsString s -> ~ short s) ->
  forall l, ~ accepts a info l.
Proof.
  intros Ha Hv Hbad l Hacc. inversion Hacc as [E|? strs E Hn Hi Hs]; simplify_eq.
  rewrite Hi in Hv. apply list_elem_of_In, in_map_iff in Hv as (s & <- & Hin).
  rewrite Forall_forall in Hs. apply (Hbad s); [done|].
  apply Hs. by apply list_elem_of_In.
Qed.

Lemma accept_intro a info strs :
  api_arity a = Some (length strs) -> info_args info = map JsString strs ->
  Forall short strs ->
  accepts a info (map (fun s => cstr_of (Utf8Value s)) strs).
Proof. intros. eapply accepts_strings; eauto. Qed.

(** ** Weakest-precondition style rules for the steps of a callback *)

Lemma sat_throw {A} a info st msg (k : A -> M H unit) :
  (forall l, ~ accepts a info l) ->
  sat a info st (mbind (mbind (ThrowError msg) (fun _ => creturn)) k).
Proof. intros Hr. eexists; split; [done|]. by apply api_reject. Qed.

Lemma sat_check_length a info st n z msg k :
  api_arity a = Some n -> z = Z.of_nat n ->
  (length (info_args info) = n -> sat a info st k) ->
  sat a info st (check (Length info =? z) msg ;; k).
Proof.
  intros Ha -> Hk. unfold check, Length.
  destruct (Z.eqb_spec (Z.of_nat (length (info_args info))) (Z.of_nat n)).
  - apply Hk. lia.
  - apply sat_throw. eapply reject_length; eauto; lia.
Qed.

Lemma sat_check_string a info st n v msg k :
  api_arity a = Some n -> v ∈ info_args info ->
  (forall s, v = JsString s -> sat a info st k) ->
  sat a info st (check (IsString v) msg ;; k).
Proof.
  intros Ha Hv Hk. unfold check.
  destruct v as [| | | |s| |]; cbn [IsString]; [..|by apply (Hk s)| |];
    apply sat_throw; eapply reject_arg; eauto; naive_solver.
Qed.

Lemma IsString_inv v : IsString v = true -> exists s, v = JsString s.
Proof. destruct v; naive_solver. Qed.

Lemma sat_check_true a info st msg k :
  sat a info st k -> sat a info st (check true msg ;; k).
Proof. done. Qed.

Lemma sat_cstr a info st n s k :
  api_arity a = Some n -> JsString s ∈ info_args info ->
  (short s -> sat a info st (k (cstr_of (Utf8Value s)))) ->
  sat a info st (x <- NewCStrChecked (JsString s) ; k x).
Proof.
  intros Ha Hv Hk. unfold NewCStrChecked, short in *.
  destruct (Z.gtb_spec (Z.of_nat (length s)) INPUT_MAX_LENGTH).
  - apply sat_throw. eapply reject_arg; eauto. unfold short. naive_solver lia.
  - by apply Hk.
Qed.

Lemma sat_unwrap a info st p msg k :
  sat a info st k -> sat a info st (UnwrapExternal (External p) p msg ;; k).
Proof. unfold UnwrapExternal. by rewrite decide_True. Qed.

(** ** The last steps: the Go call and its result *)

Lemma heap_roundtrip (m : gmap nat string) i (s : string) :
  m !! i = None -> delete i (<[i := s]> m) = m.
Proof. intros. by rewrite delete_insert_id. Qed.

Definition tail_ok (k : M H unit) (f : H -> GoRes H GoOut) : Prop :=
  forall st, heap_wf st -> go_ok (f (host st)) ->
    exists n, run k st = Some (set_next n (api_result (f (host st)) st)).

Ltac tail_start st :=
  intros st Hwf Hgo; destruct st as [exc rv so hp nx ths sb ho];
  unfold heap_wf in Hwf; cbn in Hwf, Hgo; specialize (Hwf nx (le_n _));
  unfold run, mbind, goUnit, goVal, goStr, callGo, go_error, SetString; cbn.

Ltac tail_step :=
  progress (cbn; rewrite ?lookup_insert_eq, ?heap_roundtrip by done).

Lemma tail_unit f :
  tail_ok (ret <- goUnit f ; ThrowIfError ret ;; SetNull)
    (fun h => map_out (fun _ => OutUnit) (f h)).
Proof.
  tail_start st. unfold api_result, charge, map_out.
  destruct (f ho) as [[e|] [] g h']; cbn; unfold mbind, read, free; repeat tail_step; eauto.
Qed.

Lemma tail_val {A} f (out : A -> GoOut) :
  (forall v, out_buffer (out v) = None) ->
  tail_ok (r <- goVal f ; ThrowIfError (fst r) ;; SetReturnValue (value_of_out (out (snd r))))
    (fun h => map_out out (f h)).
Proof.
  intros _. tail_start st. unfold api_result, charge, map_out.
  destruct (f ho) as [[e|] v g h']; cbn; unfold mbind, read, free; repeat tail_step; eauto.
Qed.

Lemma tail_str f :
  tail_ok (r <- goStr f ; ThrowIfError (fst r) ;; ReturnCStr (snd r))
    (fun h => map_out OutStr (f h)).
Proof.
  tail_start st. unfold api_result, charge, map_out, go_ok in *.
  destruct (f ho) as [[e|] [v|] g h']; cbn in *; [naive_solver|..];
    unfold ReturnCStr, mbind, read, free; repeat tail_step; eauto.
Qed.

Lemma tail_str_or_null f :
  tail_ok (r <- goStr f ; ThrowIfError (fst r) ;; ReturnCStrOrNull (snd r))
    (fun h => map_out OutStrOrNull (f h)).
Proof.
  tail_start st. unfold api_result, charge, map_out, go_ok in *.
  destruct (f ho) as [[e|] [v|] g h']; cbn in *; [naive_solver|..];
    unfold ReturnCStrOrNull, mbind, read, free; repeat tail_step; eauto.
Qed.

Lemma sat_tail a info st k l :
  tail_ok k (api_go a l) -> heap_wf st -> go_ok (api_go a l (host st)) ->
  accepts a info l -> sat a info st k.
Proof.
  intros Hk Hwf Hgo Hacc. destruct (Hk st Hwf Hgo) as [n Hn].
  eexists; split; [exact Hn|]. by apply api_accept.
Qed.
End Bridge.

(** The rule for the last statements of a callback. *)
Ltac api_tail :=
  first [ exact (tail_unit _) | exact (tail_str _) | exact (tail_str_or_null _)
        | exact (tail_val _ OutBool (fun _ => eq_refl))
        | exact (tail_val _ OutLen (fun _ => eq_refl)) ].

(** One step of a callback, by the rule for its head. *)
Ltac api_step :=
  lazymatch goal with
  | |- sat _ _ _ (mbind (check (Length _ =? _) _) _) =>
      eapply sat_check_length; [reflexivity|reflexivity|];
      cbn [info_args length]; intros Hlen
  | |- sat _ _ _ (let _ := _ in _) => cbv zeta
  | |- sat _ _ _ (mbind (check (IsString (JsString _)) _) _) => apply sat_check_true
  | |- sat _ _ _ (mbind (check (IsString ?v) _) _) =>
      eapply (sat_check_string _ _ _ _ v); [reflexivity|set_solver|];
      let s := fresh "s" in intros s ->
  | |- sat _ _ _ (mbind (NewCStrChecked (JsString ?s)) _) =>
      eapply sat_cstr; [reflexivity|set_solver|]; intros ?
  | |- sat _ _ _ (mbind (UnwrapExternal (External _) _ _) _) => apply sat_unwrap
  end.

(** The list of arguments, once its length is known. *)
Ltac api_args :=
  repeat lazymatch goal with
  | Hlen : length ?args = ?n |- _ =>
      lazymatch n with
      | O => apply nil_length_inv in Hlen; subst args
      | S _ =>
          let v := fresh "v" in let tl := fresh "args" in
          destruct args as [|v tl]; [discriminate Hlen|];
          cbn [length] in Hlen; apply Nat.succ_inj in Hlen
      end
  end; cbv [arg default id info_args holder_field lookup list_lookup] in *.

(** The Go call at the end, for the C strings made from the arguments. *)
Ltac api_strings args :=
  lazymatch args with
  | JsString ?s :: ?tl => let r := api_strings tl in constr:(s :: r)
  | _ => constr:(@nil jsstring)
  end.

Ltac api_finish :=
  lazymatch goal with
  | |- sat _ (mkInfo ?args _ _) _ _ =>
      let strs := api_strings args in
      eapply (sat_tail _ _ _ _ (map (fun s => cstr_of (Utf8Value s)) strs))
  end;
  [cbn [map api_go]; api_tail|assumption|auto|
   apply accept_intro; [reflexivity|reflexivity|repeat (constructor; [assumption|]); constructor]].

(** A whole callback: its checks, then its Go call. *)
Ltac api_strings_known :=
  repeat match goal with
  | Hs : IsString ?v = true |- _ => apply IsString_inv in Hs as [? ->]
  end.

Ltac api_method :=
  lazymatch goal with |- sat _ _ _ (?f _) => unfold f end;
  api_step; api_args; api_strings_known; repeat api_step; api_finish.

(** A callback that does not look at its arguments. *)
Ltac api_nullary :=
  lazymatch goal with |- sat _ _ _ (?f _) => unfold f end;
  cbn [holder_field]; api_step;
  eapply (sat_tail _ _ _ _ []);
  [cbn [api_go]; api_tail|assumption|auto|by apply accepts_any].
