(* ===== verification/Storage.v ===== *)
(** * Contract storage (vm/v8vm/v8/storage.h, storage.cc)

    The sixteen native methods behind [IOSTStorage]. The Go functions they call
    are the fields of [GoStorage], which [InitGoStorage] fills. *)

From Stdlib Require Import ZArith Lia SpecFloat.
From stdpp Require Import base gmap strings list.
From S2P Require Import Prelude Allocator V8 Bridge.
Local Open Scope Z_scope.

Module Storage.

(** The static function pointers [CPut], [CHas], ... of storage.cc. *)
Class GoStorage (H : Type) := InitGoStorage {
  CPut : CStr -> CStr -> CStr -> H -> GoRes H unit;
  CHas : CStr -> CStr -> H -> GoRes H bool;
  CGet : CStr -> CStr -> H -> GoRes H (option string);
  CDel : CStr -> CStr -> H -> GoRes H unit;
  CMapPut : CStr -> CStr -> CStr -> CStr -> H -> GoRes H unit;
  CMapHas : CStr -> CStr -> CStr -> H -> GoRes H bool;
  CMapGet : CStr -> CStr -> CStr -> H -> GoRes H (option string);
  CMapDel : CStr -> CStr -> CStr -> H -> GoRes H unit;
  CMapKeys : CStr -> CStr -> H -> GoRes H (option string);
  CMapLen : CStr -> CStr -> H -> GoRes H Z;
  CGHas : CStr -> CStr -> CStr -> H -> GoRes H bool;
  CGGet : CStr -> CStr -> CStr -> H -> GoRes H (option string);
  CGMapHas : CStr -> CStr -> CStr -> CStr -> H -> GoRes H bool;
  CGMapGet : CStr -> CStr -> CStr -> CStr -> H -> GoRes H (option string);
  CGMapKeys : CStr -> CStr -> CStr -> H -> GoRes H (option string);
  CGMapLen : CStr -> CStr -> CStr -> H -> GoRes H Z;
}.

Section Storage.
Context {H : Type} {codec : V8Codec} {go : GoStorage H}.
Local Open Scope cpp_scope.

(** ** class IOSTContractStorage *)

Definition Put (key value ramPayer : CStr) : M H cptr :=
  goUnit (CPut key value ramPayer).
Definition Has (key ramPayer : CStr) : M H (cptr * bool) :=
  goVal (CHas key ramPayer).
Definition Get (key ramPayer : CStr) : M H (cptr * CStrOut) :=
  goStr (CGet key ramPayer).
Definition Del (key ramPayer : CStr) : M H cptr :=
  goUnit (CDel key ramPayer).
Definition MapPut (key field value ramPayer : CStr) : M H cptr :=
  goUnit (CMapPut key field value ramPayer).
Definition MapHas (key field ramPayer : CStr) : M H (cptr * bool) :=
  goVal (CMapHas key field ramPayer).
Definition MapGet (key field ramPayer : CStr) : M H (cptr * CStrOut) :=
  goStr (CMapGet key field ramPayer).
Definition MapDel (key field ramPayer : CStr) : M H cptr :=
  goUnit (CMapDel key field ramPayer).
Definition MapKeys (key ramPayer : CStr) : M H (cptr * CStrOut) :=
  goStr (CMapKeys key ramPayer).
Definition MapLen (key ramPayer : CStr) : M H (cptr * Z) :=
  goVal (CMapLen key ramPayer).
Definition GlobalHas (contract key ramPayer : CStr) : M H (cptr * bool) :=
  goVal (CGHas contract key ramPayer).
Definition GlobalGet (contract key ramPayer : CStr) : M H (cptr * CStrOut) :=
  goStr (CGGet contract key ramPayer).
Definition GlobalMapHas (contract key field ramPayer : CStr) : M H (cptr * bool) :=
  goVal (CGMapHas contract key field ramPayer).
Definition GlobalMapGet (contract key field ramPayer : CStr) : M H (cptr * CStrOut) :=
  goStr (CGMapGet contract key field ramPayer).
Definition GlobalMapKeys (contract key ramPayer : CStr) : M H (cptr * CStrOut) :=
  goStr (CGMapKeys contract key ramPayer).
Definition GlobalMapLen (contract key ramPayer : CStr) : M H (cptr * Z) :=
  goVal (CGMapLen contract key ramPayer).

(** ** The constructor: it ties the new object to the sandbox's native part *)

Definition NewIOSTContractStorage (info : FunctionCallbackInfo) : M H Value :=
  UnwrapExternal (global_field info) PSandbox "NewIOSTContractStorage val error" ;;
  SetReturnValue Holder ;;
  mret (External PStorage).

(** ** The callbacks *)

Definition IOSTContractStorage_Put (info : FunctionCallbackInfo) : M H unit :=
  check (Length info =? 3) "IOSTContractStorage_Put invalid argument length." ;;
  let key := arg info 0 in
  check (IsString key) "IOSTContractStorage_Put key must be string." ;;
  let val := arg info 1 in
  check (IsString val) "IOSTContractStorage_Put value must be string." ;;
  let ramPayer := arg info 2 in
  check (IsString val) "IOSTContractStorage_Put ramPayer must be string." ;;
  keyStr <- NewCStrChecked key ;
  valStr <- NewCStrChecked val ;
  ramPayerStr <- NewCStrChecked ramPayer ;
  UnwrapExternal (holder_field info) PStorage "IOSTContractStorage_Put val error" ;;
  ret <- Put keyStr valStr ramPayerStr ;
  ThrowIfError ret ;;
  SetNull.

Definition IOSTContractStorage_Has (info : FunctionCallbackInfo) : M H unit :=
  check (Length info =? 2) "IOSTContractStorage_Has invalid argument length" ;;
  let key := arg info 0 in
  check (IsString key) "IOSTContractStorage_Has key must be string" ;;
  let ramPayer := arg info 1 in
  check (IsString ramPayer) "IOSTContractStorage_Has ramPayer must be string." ;;
  keyStr <- NewCStrChecked key ;
  ramPayerStr <- NewCStrChecked ramPayer ;
  UnwrapExternal (holder_field info) PStorage "IOSTContractStorage_Has val error" ;;
  r <- Has keyStr ramPayerStr ;
  ThrowIfError (fst r) ;;
  SetReturnValue (Boolean (snd r)).

Definition IOSTContractStorage_Get (info : FunctionCallbackInfo) : M H unit :=
  check (Length info =? 2) "IOSTContractStorage_Get invalid argument length" ;;
  let key := arg info 0 in
  check (IsString key) "IOSTContractStorage_Get key must be string" ;;
  let ramPayer := arg info 1 in
  check (IsString ramPayer) "IOSTContractStorage_Get ramPayer must be string." ;;
  keyStr <- NewCStrChecked key ;
  ramPayerStr <- NewCStrChecked ramPayer ;
  UnwrapExternal (holder_field info) PStorage "IOSTContractStorage_Get val error" ;;
  r <- Get keyStr ramPayerStr ;
  ThrowIfError (fst r) ;;
  ReturnCStrOrNull (snd r).

Definition IOSTContractStorage_Del (info : FunctionCallbackInfo) : M H unit :=
  check (Length info =? 2) "IOSTContractStorage_Del invalid argument length." ;;
  let key := arg info 0 in
  check (IsString key) "IOSTContractStorage_Del key must be string." ;;
  let ramPayer := arg info 1 in
  check (IsString ramPayer) "IOSTContractStorage_Del ramPayer must be string." ;;
  keyStr <- NewCStrChecked key ;
  ramPayerStr <- NewCStrChecked ramPayer ;
  UnwrapExternal (holder_field info) PStorage "IOSTContractStorage_Del val error" ;;
  ret <- Del keyStr ramPayerStr ;
  ThrowIfError ret ;;
  SetNull.

Definition IOSTContractStorage_MapPut (info : FunctionCallbackInfo) : M H unit :=
  check (Length info =? 4) "IOSTContractStorage_MapPut invalid argument length." ;;
  let key := arg info 0 in
  check (IsString key) "IOSTContractStorage_MapPut key must be string." ;;
  let field := arg info 1 in
  check (IsString field) "IOSTContractStorage_MapPut key must be string." ;;
  let val := arg info 2 in
  check (IsString val) "IOSTContractStorage_MapPut value must be string." ;;
  let ramPayer := arg info 3 in
  check (IsString val) "IOSTContractStorage_MapPut ramPayer must be string." ;;
  keyStr <- NewCStrChecked key ;
  fieldStr <- NewCStrChecked field ;
  valStr <- NewCStrChecked val ;
  ramPayerStr <- NewCStrChecked ramPayer ;
  UnwrapExternal (holder_field info) PStorage "IOSTContractStorage_MapPut val error" ;;
  ret <- MapPut keyStr fieldStr valStr ramPayerStr ;
  ThrowIfError ret ;;
  SetNull.

Definition IOSTContractStorage_MapHas (info : FunctionCallbackInfo) : M H unit :=
  check (Length info =? 3) "IOSTContractStorage_MapHas invalid argument length" ;;
  let key := arg info 0 in
  check (IsString key) "IOSTContractStorage_MapHas key must be string" ;;
  let field := arg info 1 in
  check (IsString field) "IOSTContractStorage_MapHas key must be string" ;;
  let ramPayer := arg info 2 in
  check (IsString ramPayer) "IOSTContractStorage_MapHas ramPayer must be string." ;;
  keyStr <- NewCStrChecked key ;
  fieldStr <- NewCStrChecked field ;
  ramPayerStr <- NewCStrChecked ramPayer ;
  UnwrapExternal (holder_field info) PStorage "IOSTContractStorage_MapHas val error" ;;
  r <- MapHas keyStr fieldStr ramPayerStr ;
  ThrowIfError (fst r) ;;
  SetReturnValue (Boolean (snd r)).

Definition IOSTContractStorage_MapGet (info : FunctionCallbackInfo) : M H unit :=
  check (Length info =? 3) "IOSTContractStorage_MapGet invalid argument length" ;;
  let key := arg info 0 in
  check (IsString key) "IOSTContractStorage_MapGet key must be string" ;;
  let field := arg info 1 in
  check (IsString field) "IOSTContractStorage_MapGet key must be string" ;;
  let ramPayer := arg info 2 in
  check (IsString ramPayer) "IOSTContractStorage_MapGet ramPayer must be string." ;;
  keyStr <- NewCStrChecked key ;
  fieldStr <- NewCStrChecked field ;
  ramPayerStr <- NewCStrChecked ramPayer ;
  UnwrapExternal (holder_field info) PStorage "IOSTContractStorage_MapGet val error" ;;
  r <- MapGet keyStr fieldStr ramPayerStr ;
  ThrowIfError (fst r) ;;
  ReturnCStrOrNull (snd r).

Definition IOSTContractStorage_MapDel (info : FunctionCallbackInfo) : M H unit :=
  check (Length info =? 3) "IOSTContractStorage_MapDel invalid argument length" ;;
  let key := arg info 0 in
  check (IsString key) "IOSTContractStorage_MapDel key must be string" ;;
  let field := arg info 1 in
  check (IsString field) "IOSTContractStorage_MapDel key must be string" ;;
  let ramPayer := arg info 2 in
  check (IsString ramPayer) "IOSTContractStorage_MapDel ramPayer must be string." ;;
  keyStr <- NewCStrChecked key ;
  fieldStr <- NewCStrChecked field ;
  ramPayerStr <- NewCStrChecked ramPayer ;
  UnwrapExternal (holder_field info) PStorage "IOSTContractStorage_MapDel val error" ;;
  ret <- MapDel keyStr fieldStr ramPayerStr ;
  ThrowIfError ret ;;
  SetNull.

Definition IOSTContractStorage_MapKeys (info : FunctionCallbackInfo) : M H unit :=
  check (Length info =? 2) "IOSTContractStorage_MapKeys invalid argument length" ;;
  let key := arg info 0 in
  check (IsString key) "IOSTContractStorage_MapKeys key must be string" ;;
  let ramPayer := arg info 1 in
  check (IsString ramPayer) "IOSTContractStorage_MapKeys ramPayer must be string." ;;
  keyStr <- NewCStrChecked key ;
  ramPayerStr <- NewCStrChecked ramPayer ;
  UnwrapExternal (holder_field info) PStorage "IOSTContractStorage_MapKeys val error" ;;
  r <- MapKeys keyStr ramPayerStr ;
  ThrowIfError (fst r) ;;
  ReturnCStr (snd r).

Definition IOSTContractStorage_MapLen (info : FunctionCallbackInfo) : M H unit :=
  check (Length info =? 2) "IOSTContractStorage_MapLen invalid argument length" ;;
  let key := arg info 0 in
  check (IsString key) "IOSTContractStorage_MapLen key must be string" ;;
  let ramPayer := arg info 1 in
  check (IsString ramPayer) "IOSTContractStorage_MapLen ramPayer must be string." ;;
  keyStr <- NewCStrChecked key ;
  ramPayerStr <- NewCStrChecked ramPayer ;
  UnwrapExternal (holder_field info) PStorage "IOSTContractStorage_MapLen val error" ;;
  r <- MapLen keyStr ramPayerStr ;
  ThrowIfError (fst r) ;;
  SetReturnValue (NumberOfInt (swrap 32 (snd r))).

Definition IOSTContractStorage_GlobalHas (info : FunctionCallbackInfo) : M H unit :=
  check (Length info =? 3) "IOSTContractStorage_GlobalHas invalid argument length" ;;
  let contract := arg info 0 in
  check (IsString contract) "IOSTContractStorage_GlobalHas contract must be string" ;;
  let key := arg info 1 in
  check (IsString key) "IOSTContractStorage_GlobalHas key must be string" ;;
  let ramPayer := arg info 2 in
  check (IsString ramPayer) "IOSTContractStorage_GlobalHas ramPayer must be string." ;;
  contractStr <- NewCStrChecked contract ;
  keyStr <- NewCStrChecked key ;
  ramPayerStr <- NewCStrChecked ramPayer ;
  UnwrapExternal (holder_field info) PStorage "IOSTContractStorage_GlobalHas val error" ;;
  r <- GlobalHas contractStr keyStr ramPayerStr ;
  ThrowIfError (fst r) ;;
  SetReturnValue (Boolean (snd r)).

Definition IOSTContractStorage_GlobalGet (info : FunctionCallbackInfo) : M H unit :=
  check (Length info =? 3) "IOSTContractStorage_GlobalGet invalid argument length" ;;
  let contract := arg info 0 in
  check (IsString contract) "IOSTContractStorage_GlobalGet contract must be string" ;;
  let key := arg info 1 in
  check (IsString key) "IOSTContractStorage_GlobalGet key must be string" ;;
  let ramPayer := arg info 2 in
  check (IsString ramPayer) "IOSTContractStorage_GlobalGet ramPayer must be string." ;;
  contractStr <- NewCStrChecked contract ;
  keyStr <- NewCStrChecked key ;
  ramPayerStr <- NewCStrChecked ramPayer ;
  UnwrapExternal (holder_field info) PStorage "IOSTContractStorage_GlobalGet val error" ;;
  r <- GlobalGet contractStr keyStr ramPayerStr ;
  ThrowIfError (fst r) ;;
  ReturnCStrOrNull (snd r).

Definition IOSTContractStorage_GlobalMapHas (info : FunctionCallbackInfo) : M H unit :=
  check (Length info =? 4) "IOSTContractStorage_GlobalMapHas invalid argument length" ;;
  let contract := arg info 0 in
  check (IsString contract) "IOSTContractStorage_GlobalMapHas contract must be string" ;;
  let key := arg info 1 in
  check (IsString key) "IOSTContractStorage_GlobalMapHas key must be string" ;;
  let field := arg info 2 in
  check (IsString field) "IOSTContractStorage_GlobalMapHas field must be string" ;;
  let ramPayer := arg info 3 in
  check (IsString ramPayer) "IOSTContractStorage_GlobalMapHas ramPayer must be string." ;;
  contractStr <- NewCStrChecked contract ;
  keyStr <- NewCStrChecked key ;
  fieldStr <- NewCStrChecked field ;
  ramPayerStr <- NewCStrChecked ramPayer ;
  UnwrapExternal (holder_field info) PStorage "IOSTContractStorage_GlobalMapHas val error" ;;
  r <- GlobalMapHas contractStr keyStr fieldStr ramPayerStr ;
  ThrowIfError (fst r) ;;
  SetReturnValue (Boolean (snd r)).

Definition IOSTContractStorage_GlobalMapGet (info : FunctionCallbackInfo) : M H unit :=
  check (Length info =? 4) "IOSTContractStorage_GlobalMapGet invalid argument length" ;;
  let contract := arg info 0 in
  check (IsString contract) "IOSTContractStorage_GlobalMapGet contract must be string" ;;
  let key := arg info 1 in
  check (IsString key) "IOSTContractStorage_GlobalMapGet key must be string" ;;
  let field := arg info 2 in
  check (IsString field) "IOSTContractStorage_GlobalMapGet field must be string" ;;
  let ramPayer := arg info 3 in
  check (IsString ramPayer) "IOSTContractStorage_GlobalMapGet ramPayer must be string." ;;
  contractStr <- NewCStrChecked contract ;
  keyStr <- NewCStrChecked key ;
  fieldStr <- NewCStrChecked field ;
  ramPayerStr <- NewCStrChecked ramPayer ;
  UnwrapExternal (holder_field info) PStorage "IOSTContractStorage_GlobalMapGet val error" ;;
  r <- GlobalMapGet contractStr keyStr fieldStr ramPayerStr ;
  ThrowIfError (fst r) ;;
  ReturnCStrOrNull (snd r).

Definition IOSTContractStorage_GlobalMapKeys (info : FunctionCallbackInfo) : M H unit :=
  check (Length info =? 3) "IOSTContractStorage_GlobalMapKeys invalid argument length" ;;
  let contract := arg info 0 in
  check (IsString contract) "IOSTContractStorage_GlobalMapKeys contract must be string" ;;
  let key := arg info 1 in
  check (IsString key) "IOSTContractStorage_GlobalMapKeys key must be string" ;;
  let ramPayer := arg info 2 in
  check (IsString ramPayer) "IOSTContractStorage_GlobalMapKeys ramPayer must be string." ;;
  contractStr <- NewCStrChecked contract ;
  keyStr <- NewCStrChecked key ;
  ramPayerStr <- NewCStrChecked ramPayer ;
  UnwrapExternal (holder_field info) PStorage "IOSTContractStorage_GlobalMapKeys val error" ;;
  r <- GlobalMapKeys contractStr keyStr ramPayerStr ;
  ThrowIfError (fst r) ;;
  ReturnCStr (snd r).

Definition IOSTContractStorage_GlobalMapLen (info : FunctionCallbackInfo) : M H unit :=
  check (Length info =? 3) "IOSTContractStorage_GlobalMapLen invalid argument length" ;;
  let contract := arg info 0 in
  check (IsString contract) "IOSTContractStorage_GlobalMapLen contract must be string" ;;
  let key := arg info 1 in
  check (IsString key) "IOSTContractStorage_GlobalMapLen key must be string" ;;
  let ramPayer := arg info 2 in
  check (IsString ramPayer) "IOSTContractStorage_GlobalMapLen ramPayer must be string." ;;
  contractStr <- NewCStrChecked contract ;
  keyStr <- NewCStrChecked key ;
  ramPayerStr <- NewCStrChecked ramPayer ;
  UnwrapExternal (holder_field info) PStorage "IOSTContractStorage_GlobalMapLen val error" ;;
  r <- GlobalMapLen contractStr keyStr ramPayerStr ;
  ThrowIfError (fst r) ;;
  SetReturnValue (NumberOfInt (swrap 32 (snd r))).


(** ** The class template [IOSTStorage] *)

Definition InitStorage : list (string * (FunctionCallbackInfo -> M H unit)) :=
  [ ("put", IOSTContractStorage_Put);
    ("has", IOSTContractStorage_Has);
    ("get", IOSTContractStorage_Get);
    ("del", IOSTContractStorage_Del);
    ("mapPut", IOSTContractStorage_MapPut);
    ("mapHas", IOSTContractStorage_MapHas);
    ("mapGet", IOSTContractStorage_MapGet);
    ("mapDel", IOSTContractStorage_MapDel);
    ("mapKeys", IOSTContractStorage_MapKeys);
    ("mapLen", IOSTContractStorage_MapLen);
    ("globalGet", IOSTContractStorage_GlobalGet);
    ("globalHas", IOSTContractStorage_GlobalHas);
    ("globalMapHas", IOSTContractStorage_GlobalMapHas);
    ("globalMapGet", IOSTContractStorage_GlobalMapGet);
    ("globalMapKeys", IOSTContractStorage_GlobalMapKeys);
    ("globalMapLen", IOSTContractStorage_GlobalMapLen) ].

(** ** What each method promises

    The Go call a method makes, by the arguments it was given. *)

Definition storage_api (method : string) : option ApiCall :=
  match method with
  | "put" => Some (mkApi (Some 3%nat) (fun l h => match l with
      | [a; b; c] => map_out (fun _ => OutUnit) (CPut a b c h)
      | _ => mkGoRes None OutUnit 0 h end))
  | "has" => Some (mkApi (Some 2%nat) (fun l h => match l with
      | [a; b] => map_out OutBool (CHas a b h)
      | _ => mkGoRes None OutUnit 0 h end))
  | "get" => Some (mkApi (Some 2%nat) (fun l h => match l with
      | [a; b] => map_out OutStrOrNull (CGet a b h)
      | _ => mkGoRes None OutUnit 0 h end))
  | "del" => Some (mkApi (Some 2%nat) (fun l h => match l with
      | [a; b] => map_out (fun _ => OutUnit) (CDel a b h)
      | _ => mkGoRes None OutUnit 0 h end))
  | "mapPut" => Some (mkApi (Some 4%nat) (fun l h => match l with
      | [a; b; c; d] => map_out (fun _ => OutUnit) (CMapPut a b c d h)
      | _ => mkGoRes None OutUnit 0 h end))
  | "mapHas" => Some (mkApi (Some 3%nat) (fun l h => match l with
      | [a; b; c] => map_out OutBool (CMapHas a b c h)
      | _ => mkGoRes None OutUnit 0 h end))
  | "mapGet" => Some (mkApi (Some 3%nat) (fun l h => match l with
      | [a; b; c] => map_out OutStrOrNull (CMapGet a b c h)
      | _ => mkGoRes None OutUnit 0 h end))
  | "mapDel" => Some (mkApi (Some 3%nat) (fun l h => match l with
      | [a; b; c] => map_out (fun _ => OutUnit) (CMapDel a b c h)
      | _ => mkGoRes None OutUnit 0 h end))
  | "mapKeys" => Some (mkApi (Some 2%nat) (fun l h => match l with
      | [a; b] => map_out OutStr (CMapKeys a b h)
      | _ => mkGoRes None OutUnit 0 h end))
  | "mapLen" => Some (mkApi (Some 2%nat) (fun l h => match l with
      | [a; b] => map_out OutLen (CMapLen a b h)
      | _ => mkGoRes None OutUnit 0 h end))
  | "globalHas" => Some (mkApi (Some 3%nat) (fun l h => match l with
      | [a; b; c] => map_out OutBool (CGHas a b c h)
      | _ => mkGoRes None OutUnit 0 h end))
  | "globalGet" => Some (mkApi (Some 3%nat) (fun l h => match l with
      | [a; b; c] => map_out OutStrOrNull (CGGet a b c h)
      | _ => mkGoRes None OutUnit 0 h end))
  | "globalMapHas" => Some (mkApi (Some 4%nat) (fun l h => match l with
      | [a; b; c; d] => map_out OutBool (CGMapHas a b c d h)
      | _ => mkGoRes None OutUnit 0 h end))
  | "globalMapGet" => Some (mkApi (Some 4%nat) (fun l h => match l with
      | [a; b; c; d] => map_out OutStrOrNull (CGMapGet a b c d h)
      | _ => mkGoRes None OutUnit 0 h end))
  | "globalMapKeys" => Some (mkApi (Some 3%nat) (fun l h => match l with
      | [a; b; c] => map_out OutStr (CGMapKeys a b c h)
      | _ => mkGoRes None OutUnit 0 h end))
  | "globalMapLen" => Some (mkApi (Some 3%nat) (fun l h => match l with
      | [a; b; c] => map_out OutLen (CGMapLen a b c h)
      | _ => mkGoRes None OutUnit 0 h end))
  | _ => None
  end%string.

(** The receiver is an [IOSTStorage] object. *)
Definition on_storage (info : FunctionCallbackInfo) : Prop :=
  holder_field info = External PStorage.

(** [put] and [mapPut] test the value where they mean to test the RAM payer. *)
Definition payer_checked (method : string) (info : FunctionCallbackInfo) : Prop :=
  match method with
  | "put" => IsString (arg info 2) = true
  | "mapPut" => IsString (arg info 3) = true
  | _ => True
  end%string.

Lemma storage_implements (method : string) handler (info : FunctionCallbackInfo) :
  (method, handler) ∈ InitStorage -> on_storage info -> payer_checked method info ->
  exists a, storage_api method = Some a /\ implements (handler info) a info.
Proof.
  destruct info as [args h g]. unfold on_storage; cbn [holder_field]. intros Hin -> Hpay.
  unfold InitStorage in Hin.
  repeat (apply elem_of_cons in Hin as [[= -> ->]|Hin];
    [eexists; split; [reflexivity|]; intros st Hwf Hgo|]); [..|by apply elem_of_nil in Hin].
  all: unfold payer_checked in Hpay; api_method.
Qed.

(** The argument lists on which [put] and [mapPut] go wrong. *)
Definition unchecked_payer (n : nat) (info : FunctionCallbackInfo) : Prop :=
  exists strs p, info_args info = map JsString strs ++ [p] /\ length strs = n /\
    Forall short strs /\ IsString p = false.

Lemma not_undefined method handler info st a :
  (method, handler) ∈ InitStorage -> on_storage info -> payer_checked method info ->
  heap_wf st -> storage_api method = Some a -> (forall l, go_ok (api_go a l (host st))) ->
  run (handler info) st <> None.
Proof.
  intros Hin Hon Hp Hwf Ha Hgo. destruct (storage_implements _ _ _ Hin Hon Hp) as (a' & Ha' & Hi).
  simplify_eq. destruct (Hi st Hwf Hgo) as (st' & -> & _). done.
Qed.

(** ** The callbacks that can be undefined *)

Lemma unchecked_payer_inv n info :
  unchecked_payer n info ->
  length (info_args info) = S n /\
  (forall i v, (i < n)%nat -> arg info i = v -> exists s, v = JsString s /\ short s) /\
  IsString (arg info n) = false.
Proof.
  intros (strs & p & Hi & Hn & Hs & Hp). unfold arg. rewrite Hi, length_app, length_map.
  split; [cbn; lia|]. split.
  - intros i v Hin <-. destruct (lookup_lt_is_Some_2 strs i ltac:(lia)) as [s Hl].
    exists s. split; [|by eapply Forall_lookup_1].
    rewrite lookup_app_l by (rewrite length_map; lia).
    change (map JsString strs) with (JsString <$> strs).
    by rewrite list_lookup_fmap, Hl.
  - rewrite lookup_app_r by (rewrite length_map; lia). by rewrite length_map, Hn, Nat.sub_diag.
Qed.

(** The rest [m] of a callback is undefined exactly on an unchecked payer. *)
Definition undef_iff (n : nat) (info : FunctionCallbackInfo) (m : M H unit) (st : State H) : Prop :=
  run m st = None <-> unchecked_payer n info.

Lemma undef_length n info z msg k st :
  z = Z.of_nat (S n) -> (length (info_args info) = S n -> undef_iff n info k st) ->
  undef_iff n info (mbind (check (Length info =? z) msg) (fun _ => k)) st.
Proof.
  intros -> Hk. unfold check, Length. destruct (Z.eqb_spec (Z.of_nat (length (info_args info))) (Z.of_nat (S n))).
  - apply Hk. lia.
  - split; [done|]. intros [Hl _]%unchecked_payer_inv. lia.
Qed.

Lemma undef_string n info i v msg k st :
  arg info i = v -> (i < n)%nat -> (forall s, v = JsString s -> undef_iff n info k st) ->
  undef_iff n info (mbind (check (IsString v) msg) (fun _ => k)) st.
Proof.
  intros Hi Hlt Hk. destruct v as [| | | |s| |]; cbn [IsString]; [..|by apply (Hk s)| |];
    (split; [done|]); intros (_ & Hu & _)%unchecked_payer_inv;
    destruct (Hu i _ Hlt Hi) as (? & ? & _); done.
Qed.

Lemma undef_short n info i s k st :
  arg info i = JsString s -> (i < n)%nat ->
  (short s -> undef_iff n info (k (cstr_of (Utf8Value s))) st) ->
  undef_iff n info (mbind (NewCStrChecked (JsString s)) k) st.
Proof.
  intros Hi Hlt Hk. unfold NewCStrChecked, short in *.
  destruct (Z.gtb_spec (Z.of_nat (length s)) INPUT_MAX_LENGTH); [|by apply Hk].
  split; [done|]. intros (_ & Hu & _)%unchecked_payer_inv.
  destruct (Hu i _ Hlt Hi) as (? & [= <-] & ?). unfold short in *. lia.
Qed.

Lemma undef_payer n info strs v k st :
  IsString v = false -> info_args info = map JsString strs ++ [v] -> length strs = n ->
  Forall short strs -> undef_iff n info (mbind (NewCStrChecked v) k) st.
Proof.
  intros Hv Hi Hn Hs. split; [|by destruct v]. intros _. by exists strs, v.
Qed.

Lemma undef_checked method handler n info st a :
  (method, handler) ∈ InitStorage -> on_storage info -> payer_checked method info ->
  heap_wf st -> storage_api method = Some a -> (forall l, go_ok (api_go a l (host st))) ->
  IsString (arg info n) = true -> undef_iff n info (handler info) st.
Proof.
  intros Hin Hon Hp Hwf Ha Hgo Hs. split; intros Hn; exfalso.
  - by eapply not_undefined.
  - apply unchecked_payer_inv in Hn as (_ & _ & ?). congruence.
Qed.

Ltac undef_step i :=
  first [ eapply (undef_string _ _ i); [reflexivity|lia|]; let s := fresh "s" in intros s ->
        | eapply (undef_short _ _ i); [reflexivity|lia|]; intros ? ].

Lemma put_undefined (info : FunctionCallbackInfo) (st : State H) :
  on_storage info -> heap_wf st ->
  (run (IOSTContractStorage_Put info) st = None <-> unchecked_payer 2 info) /\
  (run (IOSTContractStorage_MapPut info) st = None <-> unchecked_payer 3 info).
Proof.
  intros Hon Hwf. split.
  - destruct (IsString (arg info 2)) eqn:Hp.
    { eapply (undef_checked "put"); [left|done..|reflexivity| |done].
      by intros [|? [|? [|? []]]]. }
    apply undef_length; [done|]. destruct info as [args h g]. cbn [info_args]. intros Hlen. api_args.
    undef_step 0%nat. undef_step 1%nat. cbn [IsString check mbind mret].
    undef_step 0%nat. undef_step 1%nat.
    apply (undef_payer _ _ [s; s0]); auto.
  - destruct (IsString (arg info 3)) eqn:Hp.
    { eapply (undef_checked "mapPut"); [unfold InitStorage; set_solver|done..|reflexivity| |done].
      by intros [|? [|? [|? [|? []]]]]. }
    apply undef_length; [done|]. destruct info as [args h g]. cbn [info_args]. intros Hlen. api_args.
    undef_step 0%nat. undef_step 1%nat. undef_step 2%nat. cbn [IsString check mbind mret].
    undef_step 0%nat. undef_step 1%nat. undef_step 2%nat.
    apply (undef_payer _ _ [s; s0; s1]); auto.
Qed.

(** ** The whole contract of a method *)

(** The calls with undefined behaviour: the RAM payer of [put] or [mapPut] is
    the one argument that is not a short string. *)
Definition undefined_on (method : string) (info : FunctionCallbackInfo) : Prop :=
  match method with
  | "put" => unchecked_payer 2 info
  | "mapPut" => unchecked_payer 3 info
  | _ => False
  end%string.

(** Without a string for a payer, an argument before it is rejected. *)
Lemma put_rejects (info : FunctionCallbackInfo) (st : State H) a :
  on_storage info -> heap_wf st -> storage_api "put" = Some a ->
  IsString (arg info 2) = false -> ~ unchecked_payer 2 info ->
  sat a info st (IOSTContractStorage_Put info).
Proof.
  destruct info as [args h g]. unfold on_storage. cbn [holder_field]. intros -> Hwf [= <-] Hp Hu.
  unfold IOSTContractStorage_Put. api_step. api_args. repeat api_step.
  exfalso. apply Hu. eexists [_; _], _. by repeat constructor.
Qed.

Lemma mapPut_rejects (info : FunctionCallbackInfo) (st : State H) a :
  on_storage info -> heap_wf st -> storage_api "mapPut" = Some a ->
  IsString (arg info 3) = false -> ~ unchecked_payer 3 info ->
  sat a info st (IOSTContractStorage_MapPut info).
Proof.
  destruct info as [args h g]. unfold on_storage. cbn [holder_field]. intros -> Hwf [= <-] Hp Hu.
  unfold IOSTContractStorage_MapPut. api_step. api_args. repeat api_step.
  exfalso. apply Hu. eexists [_; _; _], _. by repeat constructor.
Qed.

Definition contract_of (method : string) (handler : FunctionCallbackInfo -> M H unit) (info : FunctionCallbackInfo) : Prop :=
  exists a, storage_api method = Some a /\
    forall st, heap_wf st -> (forall l, go_ok (api_go a l (host st))) ->
      (run (handler info) st = None <-> undefined_on method info) /\
      (~ undefined_on method info -> sat a info st (handler info)).

Lemma contract_defined method handler info :
  (method, handler) ∈ InitStorage -> on_storage info -> payer_checked method info ->
  ~ undefined_on method info -> contract_of method handler info.
Proof.
  intros Hin Hon Hp Hu. destruct (storage_implements _ _ _ Hin Hon Hp) as (a & Ha & Hi).
  exists a. split; [done|]. intros st Hwf Hgo. specialize (Hi st Hwf Hgo).
  split; [|done]. destruct Hi as (st' & -> & _). split; [done|]. intros Hx. by destruct Hu.
Qed.

Lemma storage_contract (method : string) handler (info : FunctionCallbackInfo) :
  (method, handler) ∈ InitStorage -> on_storage info -> contract_of method handler info.
Proof.
  intros Hin Hon. destruct (decide (method = "put")) as [->|Hput];
    [|destruct (decide (method = "mapPut")) as [->|Hmap]].
  - assert (handler = IOSTContractStorage_Put) as -> by (unfold InitStorage in Hin; set_solver).
    destruct (IsString (arg info 2)) eqn:Hp.
    + apply contract_defined; [done..|]. intros (_ & _ & ?)%unchecked_payer_inv. congruence.
    + eexists. split; [reflexivity|]. intros st Hwf Hgo. split; [by apply put_undefined|].
      by apply put_rejects.
  - assert (handler = IOSTContractStorage_MapPut) as -> by (unfold InitStorage in Hin; set_solver).
    destruct (IsString (arg info 3)) eqn:Hp.
    + apply contract_defined; [done..|]. intros (_ & _ & ?)%unchecked_payer_inv. congruence.
    + eexists. split; [reflexivity|]. intros st Hwf Hgo. split; [by apply put_undefined|].
      by apply mapPut_rejects.
  - apply contract_defined; [done..| |]; unfold InitStorage in Hin;
    repeat (apply elem_of_cons in Hin as [[= -> ->]|Hin]; [first [done|by intros ?]|]); by apply elem_of_nil in Hin.
Qed.


(** [put] and [mapPut] have undefined behaviour exactly when the RAM payer
    is the only argument that is not an acceptable string: the guard meant for
    it tests the value a second time, and the unchecked cast reads a value that
    is not a string. *)
Theorem put_undefined_iff (info : FunctionCallbackInfo) (st : State H) :
  on_storage info -> heap_wf st ->
  (run (IOSTContractStorage_Put info) st = None <-> unchecked_payer 2 info) /\
  (run (IOSTContractStorage_MapPut info) st = None <-> unchecked_payer 3 info).
Proof. apply put_undefined. Qed.

End Storage.

(** ** A host to run the methods on: one flat key-value map *)

Definition flat_storage : GoStorage (gmap string string) :=
  let join (a b : CStr) := (data a +:+ "." +:+ data b)%string in
  let join3 (a b c : CStr) := (data a +:+ "." +:+ data b +:+ "." +:+ data c)%string in
  let put k v h := mkGoRes None tt 300 (<[k := v]> h) in
  let has k (h : gmap string string) := mkGoRes None (bool_decide (is_Some (h !! k))) 300 h in
  let get k (h : gmap string string) := mkGoRes None (h !! k) 300 h in
  let del k h := mkGoRes None tt 300 (delete k h) in
  InitGoStorage (gmap string string)
    (fun k v _ => put (data k) (data v)) (fun k _ => has (data k))
    (fun k _ => get (data k)) (fun k _ => del (data k))
    (fun k f v _ => put (join k f) (data v)) (fun k f _ => has (join k f))
    (fun k f _ => get (join k f)) (fun k f _ => del (join k f))
    (fun k _ => get (data k)) (fun k _ h => mkGoRes None (Z.of_nat (base.size h)) 300 h)
    (fun c k _ => has (join c k)) (fun c k _ => get (join c k))
    (fun c k f _ => has (join3 c k f)) (fun c k f _ => get (join3 c k f))
    (fun c k _ => get (join c k)) (fun c k _ h => mkGoRes None (Z.of_nat (base.size h)) 300 h).

#[local] Existing Instance latin1.
#[local] Existing Instance flat_storage.

Definition start : State (gmap string string) :=
  initial_state (mkSandbox Allocator.new_allocator None 0 1000 100000000 0) ∅.

Definition put_info (payer : Value) : FunctionCallbackInfo :=
  mkInfo [JsString [107]; JsString [118; 49]; payer] (External PStorage) Undefined.


Lemma put_undefined_iff_witness :
  run (IOSTContractStorage_Put (put_info Undefined)) start = None <->
  unchecked_payer 2 (put_info Undefined).
Proof.
  apply (put_undefined_iff); [reflexivity|].
  intros i _. reflexivity.
Defined.

(** A value stored by [put] is read back by [get]. *)
Example put_get :
  match run (IOSTContractStorage_Put (put_info (JsString [97]))) start with
  | Some st =>
      match run (IOSTContractStorage_Get
        (mkInfo [JsString [107]; JsString []] (External PStorage) Undefined)) st with
      | Some st => retval st = JsString [118; 49] /\ gasUsed (sbx st) = 600 /\ heap st = ∅
      | None => False
      end
  | None => False
  end.
Proof. vm_compute. done. Qed.

End Storage.
