(* ===== verification/Blockchain.v ===== *)
(** * The blockchain API of contracts (vm/v8vm/v8/blockchain.h, blockchain.cc)

    The eight native methods behind [IOSTBlockchain]: information about the
    block, the transaction and the call, calls to other contracts, permission
    checks, receipts and events. *)

From Stdlib Require Import ZArith Lia SpecFloat.
From stdpp Require Import base gmap strings list.
From S2P Require Import Prelude Allocator V8 Bridge.
Local Open Scope Z_scope.

Module Blockchain.

(** The static function pointers [CBlkInfo], [CTxInfo], ... of blockchain.cc. *)
Class GoBlockchain (H : Type) := InitGoBlockchain {
  CBlkInfo : H -> GoRes H (option string);
  CTxInfo : H -> GoRes H (option string);
  CCtxInfo : H -> GoRes H (option string);
  CCall : CStr -> CStr -> CStr -> H -> GoRes H (option string);
  CCallWA : CStr -> CStr -> CStr -> H -> GoRes H (option string);
  CRequireAuth : CStr -> CStr -> H -> GoRes H bool;
  CReceipt : CStr -> H -> GoRes H unit;
  CEvent : CStr -> H -> GoRes H unit;
}.

Section Blockchain.
Context {H : Type} {codec : V8Codec} {go : GoBlockchain H}.
Local Open Scope cpp_scope.

(** ** class IOSTBlockchain *)

Definition BlockInfo : M H (cptr * CStrOut) := goStr CBlkInfo.
Definition TxInfo : M H (cptr * CStrOut) := goStr CTxInfo.
Definition ContextInfo : M H (cptr * CStrOut) := goStr CCtxInfo.
Definition Call (contract api args : CStr) : M H (cptr * CStrOut) :=
  goStr (CCall contract api args).
Definition CallWithAuth (contract api args : CStr) : M H (cptr * CStrOut) :=
  goStr (CCallWA contract api args).
Definition RequireAuth (accountID permission : CStr) : M H (cptr * bool) :=
  goVal (CRequireAuth accountID permission).
Definition Receipt (content : CStr) : M H cptr :=
  goUnit (CReceipt content).
Definition Event (content : CStr) : M H cptr :=
  goUnit (CEvent content).

(** ** The constructor: it ties the new object to the sandbox's native part *)

Definition NewIOSTBlockchain (info : FunctionCallbackInfo) : M H Value :=
  UnwrapExternal (global_field info) PSandbox "NewIOSTBlockchain val error" ;;
  SetReturnValue Holder ;;
  mret (External PBlockchain).

(** ** The callbacks *)

Definition IOSTBlockchain_blockInfo (info : FunctionCallbackInfo) : M H unit :=
  UnwrapExternal (holder_field info) PBlockchain "IOSTBlockchain_blockInfo val error" ;;
  r <- BlockInfo ;
  ThrowIfError (fst r) ;;
  ReturnCStr (snd r).

Definition IOSTBlockchain_txInfo (info : FunctionCallbackInfo) : M H unit :=
  UnwrapExternal (holder_field info) PBlockchain "IOSTBlockchain_txInfo val error" ;;
  r <- TxInfo ;
  ThrowIfError (fst r) ;;
  ReturnCStr (snd r).

Definition IOSTBlockchain_contextInfo (info : FunctionCallbackInfo) : M H unit :=
  UnwrapExternal (holder_field info) PBlockchain "IOSTBlockchain_contextInfo val error" ;;
  r <- ContextInfo ;
  ThrowIfError (fst r) ;;
  ReturnCStr (snd r).

Definition IOSTBlockchain_call (info : FunctionCallbackInfo) : M H unit :=
  check (Length info =? 3) "IOSTBlockchain_call invalid argument length" ;;
  let contract := arg info 0 in
  check (IsString contract) "IOSTBlockchain_call contract must be string" ;;
  let api := arg info 1 in
  check (IsString api) "IOSTBlockchain_call api must be string" ;;
  let arg := arg info 2 in
  check (IsString arg) "IOSTBlockchain_call arg must be string" ;;
  contractStr <- NewCStrChecked contract ;
  apiStr <- NewCStrChecked api ;
  argStr <- NewCStrChecked arg ;
  UnwrapExternal (holder_field info) PBlockchain "IOSTBlockchain_call val error" ;;
  r <- Call contractStr apiStr argStr ;
  ThrowIfError (fst r) ;;
  ReturnCStr (snd r).

Definition IOSTBlockchain_callWithAuth (info : FunctionCallbackInfo) : M H unit :=
  check (Length info =? 3) "IOSTBlockchain_callWithAuth invalid argument length" ;;
  let contract := arg info 0 in
  check (IsString contract) "IOSTBlockchain_callWithAuth contract must be string" ;;
  let api := arg info 1 in
  check (IsString api) "IOSTBlockchain_callWithAuth api must be string" ;;
  let arg := arg info 2 in
  check (IsString arg) "IOSTBlockchain_callWithAuth arg must be string" ;;
  contractStr <- NewCStrChecked contract ;
  apiStr <- NewCStrChecked api ;
  argStr <- NewCStrChecked arg ;
  UnwrapExternal (holder_field info) PBlockchain "IOSTBlockchain_callWithAuth val error" ;;
  r <- CallWithAuth contractStr apiStr argStr ;
  ThrowIfError (fst r) ;;
  ReturnCStr (snd r).

Definition IOSTBlockchain_requireAuth (info : FunctionCallbackInfo) : M H unit :=
  check (Length info =? 2) "IOSTBlockchain_requireAuth invalid argument length" ;;
  let accountID := arg info 0 in
  check (IsString accountID) "IOSTBlockchain_requireAuth accountID must be string" ;;
  let permission := arg info 1 in
  check (IsString permission) "IOSTBlockchain_requireAuth permission must be string" ;;
  accountIDStr <- NewCStrChecked accountID ;
  permissionStr <- NewCStrChecked permission ;
  UnwrapExternal (holder_field info) PBlockchain "IOSTBlockchain_requireAuth val error" ;;
  r <- RequireAuth accountIDStr permissionStr ;
  ThrowIfError (fst r) ;;
  SetReturnValue (Boolean (snd r)).

Definition IOSTBlockchain_receipt (info : FunctionCallbackInfo) : M H unit :=
  check (Length info =? 1) "IOSTBlockchain_receipt invalid argument length" ;;
  let content := arg info 0 in
  check (IsString content) "IOSTBlockchain_receipt content must be string" ;;
  contentStr <- NewCStrChecked content ;
  UnwrapExternal (holder_field info) PBlockchain "IOSTBlockchain_receipt val error" ;;
  ret <- Receipt contentStr ;
  ThrowIfError ret ;;
  SetNull.

Definition IOSTBlockchain_event (info : FunctionCallbackInfo) : M H unit :=
  check (Length info =? 1) "IOSTBlockchain_event invalid argument length" ;;
  let content := arg info 0 in
  check (IsString content) "IOSTBlockchain_event content must be string" ;;
  contentStr <- NewCStrChecked content ;
  UnwrapExternal (holder_field info) PBlockchain "IOSTBlockchain_event val error" ;;
  ret <- Event contentStr ;
  ThrowIfError ret ;;
  SetNull.


(** ** The class template [IOSTBlockchain] *)

Definition InitBlockchain : list (string * (FunctionCallbackInfo -> M H unit)) :=
  [ ("blockInfo", IOSTBlockchain_blockInfo);
    ("txInfo", IOSTBlockchain_txInfo);
    ("contextInfo", IOSTBlockchain_contextInfo);
    ("call", IOSTBlockchain_call);
    ("callWithAuth", IOSTBlockchain_callWithAuth);
    ("requireAuth", IOSTBlockchain_requireAuth);
    ("receipt", IOSTBlockchain_receipt);
    ("event", IOSTBlockchain_event) ].

(** ** What each method promises *)

Definition blockchain_api (method : string) : option ApiCall :=
  match method with
  | "blockInfo" => Some (mkApi None (fun _ h => map_out OutStr (CBlkInfo h)))
  | "txInfo" => Some (mkApi None (fun _ h => map_out OutStr (CTxInfo h)))
  | "contextInfo" => Some (mkApi None (fun _ h => map_out OutStr (CCtxInfo h)))
  | "call" => Some (mkApi (Some 3%nat) (fun l h => match l with
      | [a; b; c] => map_out OutStr (CCall a b c h)
      | _ => mkGoRes None OutUnit 0 h end))
  | "callWithAuth" => Some (mkApi (Some 3%nat) (fun l h => match l with
      | [a; b; c] => map_out OutStr (CCallWA a b c h)
      | _ => mkGoRes None OutUnit 0 h end))
  | "requireAuth" => Some (mkApi (Some 2%nat) (fun l h => match l with
      | [a; b] => map_out OutBool (CRequireAuth a b h)
      | _ => mkGoRes None OutUnit 0 h end))
  | "receipt" => Some (mkApi (Some 1%nat) (fun l h => match l with
      | [a] => map_out (fun _ => OutUnit) (CReceipt a h)
      | _ => mkGoRes None OutUnit 0 h end))
  | "event" => Some (mkApi (Some 1%nat) (fun l h => match l with
      | [a] => map_out (fun _ => OutUnit) (CEvent a h)
      | _ => mkGoRes None OutUnit 0 h end))
  | _ => None
  end%string.

Definition on_blockchain (info : FunctionCallbackInfo) : Prop :=
  holder_field info = External PBlockchain.

(** C17: every method of the [IOSTBlockchain] template implements its
    contract: the information methods ignore their arguments; the others make
    exactly their one Go call on the right number of strings of at most 65536
    code units and otherwise throw without calling Go; the gas of the call is
    charged modulo 2^64, every buffer is freed, and the result or the error
    reaches the contract. *)
Theorem blockchain_refines (method : string) handler (info : FunctionCallbackInfo) :
  (method, handler) ∈ InitBlockchain -> on_blockchain info ->
  exists a, blockchain_api method = Some a /\ implements (handler info) a info.
Proof.
  destruct info as [args h g]. unfold on_blockchain; cbn [holder_field]. intros Hin ->.
  unfold InitBlockchain in Hin.
  repeat (apply elem_of_cons in Hin as [[= -> ->]|Hin];
    [eexists; split; [reflexivity|]; intros st Hwf Hgo|]); [..|by apply elem_of_nil in Hin].
  all: first [api_method | api_nullary].
Qed.

End Blockchain.

(** ** A host to run the methods on *)

Definition echo_blockchain : GoBlockchain (list string) :=
  InitGoBlockchain (list string)
    (fun h => mkGoRes None (Some "{}") 100 h) (fun h => mkGoRes None (Some "{}") 100 h)
    (fun h => mkGoRes None (Some "{}") 100 h)
    (fun c a _ h => mkGoRes None (Some (data c)) 500 (data a :: h))
    (fun c a _ h => mkGoRes (Some "no permission") None 500 h)
    (fun i p h => mkGoRes None (String.eqb (data i) (data p)) 200 h)
    (fun c h => mkGoRes None tt 50 (data c :: h)) (fun c h => mkGoRes None tt 50 (data c :: h)).

#[local] Existing Instance latin1.
#[local] Existing Instance echo_blockchain.

Definition call_info : FunctionCallbackInfo :=
  mkInfo [JsString [99]; JsString [97]; JsString [91; 93]] (External PBlockchain) Undefined.

Lemma blockchain_refines_witness :
  exists a, blockchain_api "call" = Some a /\ implements (IOSTBlockchain_call call_info) a call_info.
Proof.
  apply (blockchain_refines "call"); [unfold InitBlockchain; set_solver|reflexivity].
Defined.

End Blockchain.
