(* ===== verification/CryptoApi.v ===== *)
(** * The crypto API of contracts (vm/v8vm/v8/crypto.h, crypto.cc)

    Hashing and signature checks for contracts. The three hash methods share
    one body, [IOSTCrypto_hash], that dispatches on its tag; [InitCrypto]
    publishes two of the four methods only when the hash flag is set. *)

From Stdlib Require Import ZArith Lia SpecFloat.
From stdpp Require Import base gmap strings list.
From S2P Require Import Prelude Allocator V8 Bridge.
Local Open Scope Z_scope.

Module CryptoApi.

(** The static function pointers [CSha3], [CSha3Hex], ... of crypto.cc. A hash
    returns a [CStr] and the gas, [verify] an [int] and the gas. *)
Class GoCrypto (H : Type) := InitGoCrypto {
  CSha3 : CStr -> H -> option string * Z * H;
  CSha3Hex : CStr -> H -> option string * Z * H;
  CRipemd160Hex : CStr -> H -> option string * Z * H;
  CVerify : CStr -> CStr -> CStr -> CStr -> H -> Z * Z * H;
}.

Section Crypto.
Context {H : Type} {codec : V8Codec} {go : GoCrypto H}.
Local Open Scope cpp_scope.

(** A Go function that reports no error. *)
Definition total {A} (f : H -> A * Z * H) (h : H) : GoRes H A :=
  let '(a, g, h') := f h in mkGoRes None a g h'.

(** ** class IOSTCrypto *)

Definition hash_with (f : H -> option string * Z * H) : M H CStrOut :=
  r <- callGo (total f) ; ret <- SetString (go_out r) ; AddGas (go_gas r) ;; mret ret.

Definition sha3 (msg : CStr) : M H CStrOut := hash_with (CSha3 msg).
Definition sha3Hex (msg : CStr) : M H CStrOut := hash_with (CSha3Hex msg).
Definition ripemd160Hex (msg : CStr) : M H CStrOut := hash_with (CRipemd160Hex msg).

Definition verify (algo msg sig pubkey : CStr) : M H Z :=
  r <- callGo (total (CVerify algo msg sig pubkey)) ; AddGas (go_gas r) ;;
  mret (swrap 32 (go_out r)).

(** ** The constructor: it ties the new object to the sandbox's native part *)

Definition NewCrypto (info : FunctionCallbackInfo) : M H Value :=
  UnwrapExternal (global_field info) PSandbox "NewCrypto val error" ;;
  SetReturnValue Holder ;;
  mret (External PCrypto).

(** ** The callbacks *)

Definition IOSTCrypto_hash (info : FunctionCallbackInfo) (tag : string) : M H unit :=
  check (Length info =? 1) (tag +:+ " invalid argument length.") ;;
  let msg := arg info 0 in
  check (IsString msg) (tag +:+ " msg must be string.") ;;
  msgStr <- NewCStrChecked msg ;
  UnwrapExternal (holder_field info) PCrypto (tag +:+ " val error") ;;
  ret <- (if String.eqb tag "IOSTCrypto_sha3" then sha3 msgStr
          else if String.eqb tag "IOSTCrypto_sha3Hex" then sha3Hex msgStr
          else if String.eqb tag "IOSTCrypto_ripemd160Hex" then ripemd160Hex msgStr
          else mret null_cstr) ;
  ReturnCStrOrNull ret.

Definition IOSTCrypto_sha3 (info : FunctionCallbackInfo) : M H unit :=
  IOSTCrypto_hash info "IOSTCrypto_sha3".

Definition IOSTCrypto_sha3Hex (info : FunctionCallbackInfo) : M H unit :=
  IOSTCrypto_hash info "IOSTCrypto_sha3Hex".

Definition IOSTCrypto_ripemd160Hex (info : FunctionCallbackInfo) : M H unit :=
  IOSTCrypto_hash info "IOSTCrypto_ripemd160Hex".

(** Unlike the other callbacks, each argument is converted before the next
    one is checked. *)
Definition IOSTCrypto_verify (info : FunctionCallbackInfo) : M H unit :=
  check (Length info =? 4) "IOSTCrypto_verify invalid argument length." ;;
  let algo := arg info 0 in
  check (IsString algo) "IOSTCrypto_verify algo must be string." ;;
  algoStr <- NewCStrChecked algo ;
  let msg := arg info 1 in
  check (IsString msg) "IOSTCrypto_verify msg must be string." ;;
  msgStr <- NewCStrChecked msg ;
  let sig := arg info 2 in
  check (IsString sig) "IOSTCrypto_verify sig must be string." ;;
  sigStr <- NewCStrChecked sig ;
  let pubkey := arg info 3 in
  check (IsString pubkey) "IOSTCrypto_verify pubkey must be string." ;;
  pubkeyStr <- NewCStrChecked pubkey ;
  UnwrapExternal (holder_field info) PCrypto "IOSTCrypto_verify val error" ;;
  ret <- verify algoStr msgStr sigStr pubkeyStr ;
  SetReturnValue (NumberOfInt ret).

(** ** The class template [_IOSTCrypto] *)

Definition cryptoHashFlag : Z := 1.

Definition InitCrypto (flags : Z) : list (string * (FunctionCallbackInfo -> M H unit)) :=
  if negb (Z.land cryptoHashFlag flags =? 0) then
    [ ("sha3", IOSTCrypto_sha3); ("sha3Hex", IOSTCrypto_sha3Hex);
      ("ripemd160Hex", IOSTCrypto_ripemd160Hex); ("verify", IOSTCrypto_verify) ]
  else [ ("sha3", IOSTCrypto_sha3); ("verify", IOSTCrypto_verify) ].

(** ** What each method promises *)

Definition hash_api (f : CStr -> H -> option string * Z * H) : ApiCall :=
  mkApi (Some 1%nat) (fun l h => match l with
    | [a] => map_out OutStrOrNull (total (f a) h)
    | _ => mkGoRes None OutUnit 0 h end).

Definition crypto_api (method : string) : option ApiCall :=
  match method with
  | "sha3" => Some (hash_api CSha3)
  | "sha3Hex" => Some (hash_api CSha3Hex)
  | "ripemd160Hex" => Some (hash_api CRipemd160Hex)
  | "verify" => Some (mkApi (Some 4%nat) (fun l h => match l with
      | [a; b; c; d] => map_out OutLen (total (CVerify a b c d) h)
      | _ => mkGoRes None OutUnit 0 h end))
  | _ => None
  end%string.

Lemma tail_hash f :
  tail_ok (ret <- hash_with f ; ReturnCStrOrNull ret) (fun h => map_out OutStrOrNull (total f h)).
Proof.
  intros st Hwf Hgo. destruct st as [exc rv so hp nx ths sb ho].
  unfold heap_wf in Hwf. cbn in *. specialize (Hwf nx (le_n _)).
  unfold run, mbind, hash_with, callGo, total, api_result, charge. cbn.
  destruct (f ho) as [[[s|] g] h']; cbn; unfold mbind, read, free, SetString, CString; cbn.
  - rewrite lookup_insert_eq. cbn. rewrite lookup_insert_eq, heap_roundtrip by done. eauto.
  - eauto.
Qed.

Lemma tail_verify algo msg sig pubkey :
  tail_ok (ret <- verify algo msg sig pubkey ; SetReturnValue (NumberOfInt ret))
    (fun h => map_out OutLen (total (CVerify algo msg sig pubkey) h)).
Proof.
  intros st Hwf Hgo. destruct st as [exc rv so hp nx ths sb ho]. exists nx.
  unfold run, mbind, verify, callGo, total. cbn.
  by destruct (CVerify algo msg sig pubkey ho) as [[r g] h'].
Qed.

Definition on_crypto (info : FunctionCallbackInfo) : Prop :=
  holder_field info = External PCrypto.

Lemma hash_implements (f : CStr -> H -> option string * Z * H) tag args g
  (Hd : forall m, (if String.eqb tag "IOSTCrypto_sha3" then sha3 m
          else if String.eqb tag "IOSTCrypto_sha3Hex" then sha3Hex m
          else if String.eqb tag "IOSTCrypto_ripemd160Hex" then ripemd160Hex m
          else mret null_cstr) = hash_with (f m)) :
  let info := mkInfo args (External PCrypto) g in
  implements (IOSTCrypto_hash info tag) (hash_api f) info.
Proof.
  intros info st Hwf Hgo. unfold IOSTCrypto_hash, info in *. clear info.
  api_step. api_args. repeat api_step. rewrite Hd.
  eapply (sat_tail _ _ _ _ [_]); [apply tail_hash|done|auto|].
  by apply (accept_intro _ _ [s]); auto.
Qed.

(** C25: for every flag word, every method of the [_IOSTCrypto] template
    implements its contract (one Go call on strings of at most 65536 code
    units, gas charged modulo 2^64, buffers freed, result returned; anything
    else throws and changes nothing), and [sha3Hex] and [ripemd160Hex] are
    published exactly when the lowest bit of the flags is set. *)
Theorem crypto_refines (flags : Z) :
  (forall method handler info, (method, handler) ∈ InitCrypto flags -> on_crypto info ->
    exists a, crypto_api method = Some a /\ implements (handler info) a info) /\
  (InitCrypto flags).*1 =
    (if Z.testbit flags 0 then ["sha3"; "sha3Hex"; "ripemd160Hex"; "verify"] else ["sha3"; "verify"])%string.
Proof.
  assert (Hf : (Z.land cryptoHashFlag flags =? 0) = negb (Z.testbit flags 0)).
  { unfold cryptoHashFlag. rewrite Z.land_comm. change 1 with (Z.ones 1) at 1.
    rewrite Z.land_ones, Z.bit0_odd, Zmod_odd by lia. by destruct (Z.odd flags). }
  split; [|unfold InitCrypto; rewrite Hf, negb_involutive; by destruct (Z.testbit flags 0)].
  intros method handler [args h g] Hin Hon. unfold on_crypto in Hon. cbn in Hon. subst h.
  assert (Hin' : (method, handler) ∈ InitCrypto 1).
  { unfold InitCrypto in Hin. cbn. destruct (Z.land _ _ =? 0); set_solver. }
  cbn in Hin'.
  repeat (apply elem_of_cons in Hin' as [[= -> ->]|Hin']; [eexists; split; [reflexivity|]|]);
    [..|by apply elem_of_nil in Hin'].
  1-3: by apply hash_implements.
  intros st Hwf Hgo. unfold IOSTCrypto_verify. api_step. api_args. repeat api_step.
  eapply (sat_tail _ _ _ _ (map (fun s => cstr_of (Utf8Value s)) [s; s0; s1; s2]));
    [apply tail_verify|done|auto|]. by apply accept_intro; auto.
Qed.

End Crypto.
End CryptoApi.
