(* ===== verification/Instruction.v ===== *)
(** * Gas metering (vm/v8vm/v8/instruction.h, instruction.cc)

    The compiled contract calls [incr] with the cost of every instruction it is
    about to run, a JavaScript number; the gas counter it feeds is a [size_t]. *)

From Stdlib Require Import ZArith Lia SpecFloat.
From stdpp Require Import base gmap strings list pretty.
From S2P Require Import Prelude Allocator V8 Bridge.
Local Open Scope Z_scope.

Module Instruction.

(** ** Doubles *)

Definition double_le (a b : spec_float) : bool := SFleb a b.
Definition double_lt (a b : spec_float) : bool := SFltb a b.
Definition isnan (d : spec_float) : bool := match d with S754_nan => true | _ => false end.
Definition isinf (d : spec_float) : bool := match d with S754_infinity _ => true | _ => false end.

(** Conversion to an integer drops the fraction. *)
Definition trunc_double (d : spec_float) : Z :=
  match d with
  | S754_finite s m e =>
      let v := if 0 <=? e then Zpos m * 2 ^ e else Zpos m / 2 ^ (- e) in
      if s then - v else v
  | _ => 0
  end.

Definition to_string (z : Z) : string := pretty z.

Section Instruction.
Context {H : Type} {codec : V8Codec}.
Local Open Scope cpp_scope.

(** ** class IOSTContractInstruction *)

Definition Incr (num : Z) : M H Z := fun st =>
  if gasUsed (sbx st) >? SIZE_MAX - num then
    (ThrowError "IOSTContractInstruction_Incr gas overflow size_t" ;; mret 0) st
  else if instr_count (sbx st) =? INT_MAX then UB     (* count++ on an int *)
  else
    let s := set_count (instr_count (sbx st) + 1)
               (set_gasUsed (wrap 64 (gasUsed (sbx st) + num)) (sbx st)) in
    Ret (gasUsed s) (set_sbx s st).

Definition Count : M H Z := gets (fun st => wrap 64 (instr_count (sbx st))).

Definition MemUsageCheck : M H unit := fun st =>
  let usedMem := MemoryUsage st in
  if usedMem >? memLimit (sbx st) then
    ThrowError ("IOSTContractInstruction_Incr Memory Using too much! used: " +:+ to_string usedMem
                +:+ " Limit: " +:+ to_string (memLimit (sbx st))) st
  else Ret tt st.

(** ** The callbacks *)

Definition NewIOSTContractInstruction (info : FunctionCallbackInfo) : M H Value :=
  UnwrapExternal (global_field info) PSandbox "NewIOSTContractInstruction val error" ;;
  SetReturnValue Holder ;;
  mret (External PInstruction).

(** The conversion to a number. What V8 makes of strings and objects, which the
    callbacks keep away from it, is not written out. *)
Definition NumberValue (v : Value) : spec_float :=
  match v with
  | Number d => d
  | Null | Boolean false => double_of_Z 0
  | Boolean true => double_of_Z 1
  | _ => S754_nan
  end.

Definition IOSTContractInstruction_Incr (info : FunctionCallbackInfo) : M H unit :=
  check (Length info =? 1) "IOSTContractInstruction_Incr invalid argument length" ;;
  let val := arg info 0 in
  check (IsNumber val) "IOSTContractInstruction_Incr value must be number" ;;
  let valInt := NumberValue val in
  check (negb (double_le (double_of_Z INT_MAX) valInt))
    "IOSTContractInstruction_Incr gas overflow max int" ;;
  check (negb (double_lt valInt (double_of_Z 0) || isnan valInt || isinf valInt))
    "IOSTContractInstruction_Incr invalid gas" ;;
  UnwrapExternal (holder_field info) PInstruction "IOSTContractInstruction_Incr val error" ;;
  ret <- Incr (trunc_double valInt) ;
  SetReturnValue (Number (double_of_Z ret)) ;;
  n <- Count ;
  if n mod 10 =? 0 then MemUsageCheck else mret tt.

Definition IOSTContractInstruction_Count (info : FunctionCallbackInfo) : M H unit :=
  check (Length info =? 0) "IOSTContractInstruction_Count invalid argument length." ;;
  UnwrapExternal (holder_field info) PInstruction "IOSTContractInstruction_Count val error" ;;
  ret <- Incr 0 ;
  SetReturnValue (Number (double_of_Z ret)).

Definition InitInstruction : list (string * (FunctionCallbackInfo -> M H unit)) :=
  [ ("incr", IOSTContractInstruction_Incr); ("count", IOSTContractInstruction_Count) ].

End Instruction.

(** ** Which numbers [incr] accepts *)

(** A double between 0 (included, either sign) and [INT_MAX] (excluded). *)
Definition gas_amount (d : spec_float) : Prop :=
  match d with
  | S754_zero _ => True
  | S754_finite false m e =>
      Zpos m * 2 ^ Z.max 0 e < INT_MAX * 2 ^ Z.max 0 (- e)
  | _ => False
  end.

Definition incr_guard (d : spec_float) : bool :=
  negb (double_le (double_of_Z INT_MAX) d) &&
  negb (double_lt d (double_of_Z 0) || isnan d || isinf d).

Lemma digits2_pos_bounds m :
  2 ^ (Zpos (digits2_pos m) - 1) <= Zpos m < 2 ^ Zpos (digits2_pos m).
Proof.
  induction m as [m IH|m IH|]; cbn [digits2_pos]; [..|cbn; lia].
  all: rewrite Pos2Z.inj_succ, Z.sub_succ_l, !Z.pow_succ_r by lia; lia.
Qed.

Lemma valid_finite s m e :
  valid_binary 53 1024 (S754_finite s m e) = true ->
  Zpos m < 2 ^ 53 /\ (-1074 < e -> 2 ^ 52 <= Zpos m).
Proof.
  cbn. unfold bounded, canonical_mantissa, fexp, emin.
  intros [Hc%Z.eqb_eq _]%andb_prop. pose proof (digits2_pos_bounds m) as [Hl Hu].
  assert (Zpos (digits2_pos m) <= 53) by lia. split.
  - eapply Z.lt_le_trans; [exact Hu|]. apply Z.pow_le_mono_r; lia.
  - intros He. assert (Zpos (digits2_pos m) = 53) as Hd by lia.
    rewrite Hd in Hl. exact Hl.
Qed.

Lemma pow_split a b : 0 <= a <= b -> 2 ^ b = 2 ^ a * 2 ^ (b - a).
Proof. intros. rewrite <- Z.pow_add_r by lia. f_equal. lia. Qed.

(** The comparison with [INT_MAX], on the two integers behind a canonical
    double. *)
Lemma below_INT_MAX m e :
  Zpos m < 2 ^ 53 -> (-1074 < e -> 2 ^ 52 <= Zpos m) ->
  Zpos m * 2 ^ Z.max 0 e < INT_MAX * 2 ^ Z.max 0 (- e) <->
  e < -22 \/ e = -22 /\ Zpos m < 9007199250546688.
Proof.
  intros Hhi Hlo. unfold INT_MAX.
  destruct (Z.lt_trichotomy (-22) e) as [He|[<-|He]].
  - specialize (Hlo ltac:(lia)). split; [|lia]. intros Hg. exfalso.
    assert (2 ^ Z.max 0 (- e) <= 2 ^ 21) by (apply Z.pow_le_mono_r; lia).
    assert (0 < 2 ^ Z.max 0 e) by (apply Z.pow_pos_nonneg; lia).
    assert (0 < 2 ^ Z.max 0 (- e)) by (apply Z.pow_pos_nonneg; lia). nia.
  - change (Z.max 0 (-22)) with 0. change (Z.max 0 (- -22)) with 22. lia.
  - split; [lia|]. intros _. replace (Z.max 0 e) with 0 by lia.
    assert (2 ^ 23 <= 2 ^ Z.max 0 (- e)) by (apply Z.pow_le_mono_r; lia). lia.
Qed.

Lemma INT_MAX_le_finite c m e :
  double_le (S754_finite false c (-22)) (S754_finite false m e) = false <->
  e < -22 \/ e = -22 /\ Zpos m < Zpos c.
Proof.
  unfold double_le, SFleb, SFcompare. pose proof (Pos.compare_spec c m) as Hc.
  unfold Pos.compare in Hc. destruct (Z.compare_spec (-22) e) as [<-|Hlt|Hgt].
  - destruct Hc as [->| |]; split; intros; try discriminate; try reflexivity; lia.
  - split; [discriminate|lia].
  - split; [lia|reflexivity].
Qed.

Lemma incr_guard_iff (d : spec_float) (Hv : valid_binary 53 1024 d = true) :
  incr_guard d = true <-> gas_amount d.
Proof.
  unfold incr_guard.
  change (double_of_Z INT_MAX) with (S754_finite false 9007199250546688 (-22)).
  change (double_of_Z 0) with (S754_zero false).
  destruct d as [s|s| |s m e]; [by destruct s..|done|].
  destruct s; [done|]. cbn [gas_amount].
  change (double_lt _ _ || _ || _) with false. rewrite andb_true_r, negb_true_iff.
  apply valid_finite in Hv as [Hhi Hlo].
  rewrite below_INT_MAX by assumption. apply INT_MAX_le_finite.
Qed.

Lemma gas_amount_range d : gas_amount d -> 0 <= trunc_double d < INT_MAX.
Proof.
  unfold INT_MAX. destruct d as [| | |[] m e]; cbn [gas_amount trunc_double]; try done.
  unfold INT_MAX. destruct (Z.leb_spec 0 e) as [He|He]; intros Hg.
  - replace (Z.max 0 (- e)) with 0 in Hg by lia. replace (Z.max 0 e) with e in Hg by lia.
    assert (0 < 2 ^ e) by (apply Z.pow_pos_nonneg; lia). lia.
  - replace (Z.max 0 (- e)) with (- e) in Hg by lia. replace (Z.max 0 e) with 0 in Hg by lia.
    assert (0 < 2 ^ (- e)) by (apply Z.pow_pos_nonneg; lia).
    split; [apply Z.div_pos; lia|]. apply Z.div_lt_upper_bound; lia.
Qed.

(** ** What [incr] does *)

Section Metering.
Context {H : Type} {codec : V8Codec}.

Definition on_instruction (info : FunctionCallbackInfo) : Prop :=
  holder_field info = External PInstruction.

(** The counters are in range, and one more call does not overflow [count]. *)
Definition counters_ok (st : State H) : Prop :=
  0 <= gasUsed (sbx st) <= SIZE_MAX /\ 0 <= instr_count (sbx st) < INT_MAX.

(** The memory check that every tenth call makes. *)
Definition after_mem_check (st : State H) : State H :=
  if (instr_count (sbx st) mod 10 =? 0) && (MemoryUsage st >? memLimit (sbx st))
  then set_exception (Some ("IOSTContractInstruction_Incr Memory Using too much! used: "
         +:+ to_string (MemoryUsage st) +:+ " Limit: " +:+ to_string (memLimit (sbx st)))) st
  else st.

(** The state after charging [n]: the counter moves by exactly [n], or stays
    and an exception is pending when it would not fit a [size_t]. *)
Definition metered (n : Z) (st : State H) : State H :=
  if gasUsed (sbx st) + n <=? SIZE_MAX then
    let s := set_count (instr_count (sbx st) + 1) (set_gasUsed (gasUsed (sbx st) + n) (sbx st)) in
    after_mem_check (set_retval (Number (double_of_Z (gasUsed (sbx st) + n))) (set_sbx s st))
  else
    after_mem_check (set_retval (Number (double_of_Z 0))
      (set_exception (Some "IOSTContractInstruction_Incr gas overflow size_t") st)).

Lemma incr_tail (n : Z) (st : State H) :
  counters_ok st -> 0 <= n < INT_MAX ->
  run (mbind (Incr n) (fun ret => mbind (SetReturnValue (Number (double_of_Z ret))) (fun _ =>
    mbind Count (fun c => if c mod 10 =? 0 then MemUsageCheck else mret tt)))) st =
  Some (metered n st).
Proof.
  unfold counters_ok, SIZE_MAX, INT_MAX. intros [Hg Hc] Hn.
  unfold run, mbind, Incr, metered, SIZE_MAX, INT_MAX.
  replace (gasUsed (sbx st) >? 2 ^ 64 - 1 - n) with (negb (gasUsed (sbx st) + n <=? 2 ^ 64 - 1))
    by (rewrite Z.gtb_ltb; destruct (Z.leb_spec (gasUsed (sbx st) + n) (2 ^ 64 - 1)),
         (Z.ltb_spec (2 ^ 64 - 1 - n) (gasUsed (sbx st))); lia || reflexivity).
  destruct (Z.leb_spec (gasUsed (sbx st) + n) (2 ^ 64 - 1)) as [Hle|Hgt]; cbn [negb].
  - rewrite (proj2 (Z.eqb_neq (instr_count (sbx st)) 2147483647)) by lia.
    rewrite (wrap_small 64 (gasUsed (sbx st) + n)) by lia.
    unfold SetReturnValue, modify, Count, gets, after_mem_check, MemUsageCheck. cbn -[Z.modulo].
    rewrite wrap_small by lia.
    destruct (_ mod 10 =? 0); cbn; [|done]. by destruct (_ >? _).
  - unfold SetReturnValue, modify, Count, gets, after_mem_check, MemUsageCheck. cbn -[Z.modulo].
    rewrite wrap_small by lia.
    destruct (_ mod 10 =? 0); cbn; [|done]. by destruct (_ >? _).
Qed.

Lemma incr_checks d info (st : State H) (Hv : valid_binary 53 1024 d = true) :
  info_args info = [Number d] -> on_instruction info ->
  run (IOSTContractInstruction_Incr info) st =
  if incr_guard d then
    run (mbind (Incr (trunc_double d)) (fun ret => mbind (SetReturnValue (Number (double_of_Z ret)))
      (fun _ => mbind Count (fun c => if c mod 10 =? 0 then MemUsageCheck else mret tt)))) st
  else Some (set_exception (Some (
    if double_le (double_of_Z INT_MAX) d then "IOSTContractInstruction_Incr gas overflow max int"
    else "IOSTContractInstruction_Incr invalid gas"))%string st).
Proof.
  destruct info as [args h g]. unfold on_instruction. cbn [info_args holder_field]. intros -> ->.
  unfold IOSTContractInstruction_Incr, incr_guard, run, mbind at 1, check, Length.
  cbn [info_args length]. change (Z.of_nat 1 =? 1) with true.
  cbn [mret IsNumber arg NumberValue]. unfold arg. cbn [info_args lookup list_lookup default from_option id NumberValue IsNumber].
  destruct (double_le (double_of_Z INT_MAX) d); [done|].
  by destruct (double_lt d (double_of_Z 0) || isnan d || isinf d).
Qed.

(** Anything but one number is rejected before it is looked at. *)
Lemma incr_not_number info (st : State H) :
  (forall d, info_args info <> [Number d]) ->
  exists msg, run (IOSTContractInstruction_Incr info) st = Some (set_exception (Some msg) st).
Proof.
  destruct info as [args h g]. cbn [info_args]. intros Hn.
  unfold IOSTContractInstruction_Incr, run, mbind at 1, check, Length, arg. cbn [info_args].
  destruct args as [|v [|w args]].
  - by eexists.
  - change (Z.of_nat (length [v]) =? 1) with true. destruct v; try (by eexists). by destruct (Hn d).
  - rewrite (proj2 (Z.eqb_neq _ 1)) by (cbn; lia). by eexists.
Qed.

(** The doubles among the arguments are the doubles of the machine. *)
Definition machine_numbers (info : FunctionCallbackInfo) : Prop :=
  Forall (fun v => match v with Number d => valid_binary 53 1024 d = true | _ => True end) (info_args info).

(** C8: whatever [incr] is called with, it charges exactly the integer part of
    its argument when that is one number [d] with 0 <= d < INT_MAX (either zero
    included), and rejects every other argument list (no argument or several, a
    value that is not a number, a negative or large number, an infinity, NaN)
    with an exception and no other effect. A charge that does not fit the
    [size_t] counter leaves it unchanged and throws: the counter never wraps.
    Every tenth charge the memory in use is compared with the limit. *)
Theorem incr_meters (info : FunctionCallbackInfo) (st : State H) :
  machine_numbers info -> on_instruction info -> counters_ok st ->
  (forall d, info_args info = [Number d] -> gas_amount d ->
     run (IOSTContractInstruction_Incr info) st = Some (metered (trunc_double d) st)) /\
  ((forall d, info_args info = [Number d] -> ~ gas_amount d) ->
     exists msg, run (IOSTContractInstruction_Incr info) st = Some (set_exception (Some msg) st)).
Proof.
  unfold machine_numbers. intros Hm Hon Hc. split.
  - intros d Ha Hg. rewrite Ha in Hm. pose proof (Forall_inv Hm) as Hv.
    rewrite (incr_checks d info st Hv Ha Hon), (proj2 (incr_guard_iff d Hv) Hg). by apply incr_tail, gas_amount_range.
  - intros Hbad. destruct (info_args info) as [|[| | |d| | |] [|w args]] eqn:Ha;
      try (apply incr_not_number; intros d'; by rewrite Ha).
    pose proof (Forall_inv Hm) as Hv. rewrite (incr_checks d info st Hv Ha Hon).
    destruct (incr_guard d) eqn:E; [|eauto]. apply incr_guard_iff in E; [|done]. by destruct (Hbad d).
Qed.

End Metering.

#[local] Existing Instance latin1.

Definition incr_info (d : spec_float) : FunctionCallbackInfo :=
  mkInfo [Number d] (External PInstruction) Undefined.

Definition full_gas : State unit :=
  initial_state (mkSandbox Allocator.new_allocator None (SIZE_MAX - 5) 1000 100000000 9) tt.

(** 12.5 charges 12: here it does not fit, and the counter stays. *)
Lemma incr_meters_witness :
  run (IOSTContractInstruction_Incr (incr_info (S754_finite false 7036874417766400 (-49)))) full_gas =
  Some (metered 12 full_gas).
Proof.
  refine (proj1 (incr_meters (incr_info (S754_finite false 7036874417766400 (-49))) full_gas _ _ _)
    (S754_finite false 7036874417766400 (-49)) _ _).
  - by repeat constructor.
  - reflexivity.
  - repeat split; vm_compute; congruence.
  - reflexivity.
  - reflexivity.
Defined.

End Instruction.
