(* ===== verification/Execution.v ===== *)
(** * Running a contract (vm/v8vm/v8/sandbox.cc: RealExecute, Execution)

    [Execution] starts [RealExecute] on a second thread and polls the variables
    the two share until there is an error, a result, too much gas used or no
    time left. The model is a transition system that interleaves the thread's
    writes with the watchdog's reads, one C++ statement at a time; what V8 does
    inside a script (gas charges, the value or exception it ends with) is the
    thread's own nondeterminism, recorded as the actions of a run, and the
    theorems say what the returned tuple has to be for these actions.

    The code shares two [std::string]s and two [bool]s between the threads
    without synchronisation. The model reads and writes each of them in one
    step; what a torn read of a string would give is not modelled. *)

From Stdlib Require Import ZArith Lia.
From stdpp Require Import base strings list relations pretty.
From S2P Require Import Prelude.
Local Open Scope Z_scope.

Module Execution.

(** ** reportException *)

(** What the native code reads from a [TryCatch]. *)
Record Message := mkMessage {
  resource_name : option string;     (* [None]: undefined *)
  line_number : option Z;
  start_column : option Z;
  end_column : option Z;
  source_line : option string;
}.

Record TryCatch := mkTryCatch {
  caught_is_null : bool;             (* Exception()->IsNull() *)
  caught_text : string;              (* the exception as a string *)
  caught_message : option Message;
  caught_stack : option string;
}.

Definition endl : string := String (Ascii.ascii_of_nat 10) EmptyString.

Fixpoint repeat_string (n : nat) (s : string) : string :=
  match n with O => EmptyString | S n' => s +:+ repeat_string n' s end.

Definition show_int (z : Z) : string := pretty z.

(** The carets under columns [start .. end-1] of the source line. *)
Definition carets (start stop : Z) : string :=
  endl +:+ "  " +:+ repeat_string (Z.to_nat start) " "
  +:+ repeat_string (Z.to_nat (stop - start)) "^".

(** [return *str;] builds the [std::string] from a [char *]. *)
Definition v8ValueToStdString (utf8 : string) : string :=
  if Z.of_nat (String.length utf8) =? 0 then EmptyString else c_str utf8.

Definition report_location (m : Message) : string :=
  match resource_name m with
  | None => EmptyString
  | Some name =>
      endl +:+ "at " +:+ v8ValueToStdString name
      +:+ (match line_number m with Some l => ":" +:+ show_int l | None => "" end)
      +:+ (match start_column m with Some c => ":" +:+ show_int c | None => "" end)
      +:+ (match source_line m with Some l => endl +:+ "  " +:+ v8ValueToStdString l | None => "" end)
      +:+ (match start_column m, end_column m with
           | Some a, Some b => carets a b
           | _, _ => "" end)
  end.

Definition reportException (tc : TryCatch) : string :=
  match caught_is_null tc, caught_message tc with
  | true, _ | _, None => "Uncaught exception: "
  | false, Some m =>
      "Uncaught exception: " +:+ v8ValueToStdString (caught_text tc) +:+ report_location m
      +:+ (match caught_stack tc with
           | Some st => endl +:+ "Stack tree: " +:+ endl +:+ v8ValueToStdString st
           | None => "" end)
  end.

(** ** The shared variables and the execution thread *)

Definition resultMaxLength : Z := 65536.

Record Shared := mkShared {
  result : string;
  error : string;
  isJson : bool;
  isDone : bool;
  gas : Z;             (* sbx->gasUsed *)
  terminating : bool;  (* isolate->TerminateExecution() was called *)
}.

Definition set_result v s := mkShared v (error s) (isJson s) (isDone s) (gas s) (terminating s).
Definition set_error v s := mkShared (result s) v (isJson s) (isDone s) (gas s) (terminating s).
Definition set_isJson v s := mkShared (result s) (error s) v (isDone s) (gas s) (terminating s).
Definition set_isDone v s := mkShared (result s) (error s) (isJson s) v (gas s) (terminating s).
Definition set_gas v s := mkShared (result s) (error s) (isJson s) (isDone s) v (terminating s).
Definition set_terminating v s := mkShared (result s) (error s) (isJson s) (isDone s) (gas s) v.

(** The value the contract's script ends with, with its length in UTF-16 code
    units where the code looks at it. *)
Inductive ScriptValue :=
  | SString (len : Z) (utf8 : string)
  | SScalar (utf8 : string)            (* a number or a boolean *)
  | SUndefined
  | SObject.                           (* everything else, null included *)

Inductive Phase :=
  | Preload                            (* the block and transaction are loaded *)
  | Reset                              (* resetSandbox(sbx) is next *)
  | Compile
  | Running
  | Got (v : ScriptValue)
  | Json (len : Z) (utf8 : string)     (* isJson = true was just written *)
  | Assigned                           (* result.assign was just executed *)
  | Exited.

(** What V8 does next inside the thread. *)
Inductive Action :=
  | AGas (g : Z)              (* a native call charges gas *)
  | ACaught (tc : TryCatch)   (* the script or JSON.stringify throws *)
  | AProceed                  (* the next statement, where V8 has no choice *)
  | AValue (v : ScriptValue)  (* script->Run() returns a value *)
  | AJson (r : option (Z * string)).  (* JSON::Stringify: empty, or a string *)

(** One statement of [RealExecute] that writes a shared variable, or one event
    inside a script; [None] when the action does not apply here. *)
Definition RealExecute (a : Action) (p : Phase) (s : Shared) : option (Phase * Shared) :=
  match p, a with
  | Preload, AGas g => Some (Preload, set_gas (wrap 64 (gas s + g)) s)
  | Preload, ACaught tc => Some (Exited, set_error (reportException tc) s)
  | Preload, AProceed => Some (Reset, s)
  | Reset, AProceed => Some (Compile, set_gas 0 s)
  | Compile, ACaught tc => Some (Exited, set_error (reportException tc) s)
  | Compile, AProceed => Some (Running, s)
  | Running, AGas g => Some (Running, set_gas (wrap 64 (gas s + g)) s)
  | Running, ACaught tc => Some (Exited, set_error (reportException tc) s)
  | Running, AValue v => Some (Got v, s)
  | Got (SString n u), AProceed =>
      if n >? resultMaxLength then Some (Exited, set_error "result too long" s)
      else Some (Assigned, set_result u s)
  | Got (SScalar u), AProceed => Some (Assigned, set_result u s)
  | Got SUndefined, AProceed => Some (Exited, set_isDone true s)
  | Got SObject, AGas g => Some (Got SObject, set_gas (wrap 64 (gas s + g)) s)  (* in toJSON *)
  | Got SObject, ACaught tc => Some (Exited, set_error (reportException tc) s)
  | Got SObject, AJson None => Some (Exited, set_isDone true s)
  | Got SObject, AJson (Some (n, u)) => Some (Json n u, set_isJson true s)
  | Json n u, AProceed =>
      if n >? resultMaxLength then Some (Exited, set_error "result too long" s)
      else Some (Assigned, set_result u s)
  | Assigned, AProceed => Some (Exited, set_isDone true s)
  | _, _ => None
  end.

(** ** The watchdog: the polling loop of [Execution] *)

Record ValueTuple := mkValueTuple {
  vt_Value : option string;    (* {nullptr, 0} or a copy *)
  vt_Err : option string;
  vt_isJson : bool;
  vt_gasUsed : Z;
}.

Definition killed_message (now expireTime : Z) : string :=
  "execution killed, current time : " +:+ show_int now +:+ " , expireTime: " +:+ show_int expireTime.

Inductive Watch :=
  | WError | WResult | WDone | WGas
  | WGasExit                      (* TerminateExecution was called for gas *)
  | WTime
  | WTimeExit (now : Z)           (* TerminateExecution was called for time *)
  | WBreak (res : ValueTuple).    (* the loop was left *)

Section Watchdog.
Variables (gasLimit expireTime : Z).

(** What [isJson] holds when [res] is initialised: the thread is running by
    then, so it can be either. *)
Variable isJson0 : bool.

(** One statement of the loop body; [now] is the system clock it reads. *)
Definition watch_step (now : Z) (w : Watch) (s : Shared) : Watch * Shared :=
  match w with
  | WError =>
      if negb (String.eqb (error s) "") then
        (WBreak (mkValueTuple None (Some (error s)) isJson0 (gas s)), s)
      else (WResult, s)
  | WResult =>
      if negb (String.eqb (result s) "") then
        (WBreak (mkValueTuple (Some (result s)) None (isJson s) (gas s)), s)
      else (WDone, s)
  | WDone =>
      if isDone s then
        (WBreak (mkValueTuple (Some (result s)) None (isJson s) (gas s)), s)
      else (WGas, s)
  | WGas => if gas s >? gasLimit then (WGasExit, set_terminating true s) else (WTime, s)
  | WGasExit => (WBreak (mkValueTuple None (Some "out of gas") isJson0 (gas s)), s)
  | WTime => if now >? expireTime then (WTimeExit now, set_terminating true s) else (WError, s)
  | WTimeExit t =>
      (WBreak (mkValueTuple None (Some (killed_message t expireTime)) isJson0 (gas s)), s)
  | WBreak r => (WBreak r, s)
  end.

Record System := mkSystem { phase : Phase; watch : Watch; shared : Shared }.

Inductive Event := Thread (a : Action) | Poll (now : Z).

Inductive step : Event -> System -> System -> Prop :=
  | step_thread a p p' w s s' :
      RealExecute a p s = Some (p', s') -> step (Thread a) (mkSystem p w s) (mkSystem p' w s')
  | step_poll now p w w' s s' :
      (forall r, w <> WBreak r) -> watch_step now w s = (w', s') ->
      step (Poll now) (mkSystem p w s) (mkSystem p w' s').

(** Runs, and the states they go through. *)
Inductive steps : list Event -> System -> System -> Prop :=
  | steps_nil x : steps [] x x
  | steps_snoc l e x y z : steps l x y -> step e y z -> steps (l ++ [e]) x z.

(** [Execution] starts with the gas the sandbox still shows. *)
Definition start (g : Z) : System :=
  mkSystem Preload WError (mkShared "" "" false false g false).

(** [Execution] returns once the loop is left and the thread is joined. *)
Definition returns (x : System) (r : ValueTuple) : Prop :=
  watch x = WBreak r /\ phase x = Exited.


(** ** What the thread did

    The actions of a run, and what they say about the script: the value it
    ended with, what JSON.stringify made of it, the exceptions, and the gas
    charged, by the contract's own code from the first [AProceed] on. *)

Definition thread_actions (l : list Event) : list Action :=
  flat_map (fun e => match e with Thread a => [a] | Poll _ => [] end) l.

Definition script_values (acts : list Action) : list ScriptValue :=
  flat_map (fun a => match a with AValue v => [v] | _ => [] end) acts.

Definition json_texts (acts : list Action) : list (option (Z * string)) :=
  flat_map (fun a => match a with AJson r => [r] | _ => [] end) acts.

Definition exceptions (acts : list Action) : list TryCatch :=
  flat_map (fun a => match a with ACaught tc => [tc] | _ => [] end) acts.

Definition gas_of (a : Action) : Z := match a with AGas g => g | _ => 0 end.

Fixpoint gas_sum (acts : list Action) : Z :=
  match acts with [] => 0 | a :: acts' => gas_of a + gas_sum acts' end.

Fixpoint script_gas (acts : list Action) : Z :=
  match acts with [] => 0 | AProceed :: acts' => gas_sum acts' | _ :: acts' => script_gas acts' end.

Definition preloaded (acts : list Action) : bool :=
  existsb (fun a => match a with AProceed => true | _ => false end) acts.

(** The counter at the end, modulo 2^64: a failure of the preload leaves what it
    was before and what the preload charged. *)
Definition meter (g : Z) (acts : list Action) : Z :=
  if preloaded acts then script_gas acts else g + gas_sum acts.

(** The script delivers the text [u]: its value, or the JSON text of it. *)
Inductive delivers (acts : list Action) : string -> bool -> Prop :=
  | delivers_string n u : script_values acts = [SString n u] -> n <= resultMaxLength -> delivers acts u false
  | delivers_scalar u : script_values acts = [SScalar u] -> delivers acts u false
  | delivers_undefined : script_values acts = [SUndefined] -> delivers acts "" false
  | delivers_no_json : script_values acts = [SObject] -> json_texts acts = [None] -> delivers acts "" false
  | delivers_json n u :
      script_values acts = [SObject] -> json_texts acts = [Some (n, u)] -> n <= resultMaxLength ->
      delivers acts u true.

(** The script fails with the message [e]. *)
Inductive fails (acts : list Action) : string -> Prop :=
  | fails_caught tc : exceptions acts = [tc] -> fails acts (reportException tc)
  | fails_long_string n u :
      script_values acts = [SString n u] -> n > resultMaxLength -> fails acts "result too long"
  | fails_long_json n u :
      script_values acts = [SObject] -> json_texts acts = [Some (n, u)] -> n > resultMaxLength ->
      fails acts "result too long".

(** Some state of the run, up to its end, is over the gas limit. *)
Definition went_over (l : list Event) (x : System) : Prop :=
  exists l1 l2 z, l = l1 ++ l2 /\ steps l1 x z /\ gas (shared z) > gasLimit.

(** Some state of the run has used the gas [v]. *)
Definition gas_seen (l : list Event) (x : System) (v : Z) : Prop :=
  exists l1 l2 z, l = l1 ++ l2 /\ steps l1 x z /\ gas (shared z) = v.


(** ** The invariant *)

Lemma report_not_empty tc : reportException tc <> "".
Proof.
  unfold reportException. destruct (caught_is_null tc), (caught_message tc); discriminate.
Qed.

(** The report is a proper C string: every part of it is cut at a NUL. *)
Lemma no_nul_show n : no_nul (show_int n) = true.
Proof.
  assert (Hgo : forall x s, no_nul s = true -> no_nul (pretty_N_go x s) = true).
  { intros x. induction (N.lt_wf_0 x) as [x _ IH]. intros s Hs. destruct (decide (0 < x)%N) as [Hx|Hx].
    - rewrite pretty_N_go_step by done. apply IH; [by apply N.div_lt|]. cbn [no_nul].
      rewrite Hs. unfold pretty_N_char. by repeat case_match.
    - by replace x with 0%N by lia. }
  destruct n as [|n|n]; [done|by apply (Hgo (Npos n))|].
  unfold show_int, pretty, pretty_Z. rewrite no_nul_app. by apply (Hgo (Npos n)).
Qed.

Lemma no_nul_repeat n s : no_nul s = true -> no_nul (repeat_string n s) = true.
Proof. intros Hs. induction n as [|n IH]; [done|]. cbn. by rewrite no_nul_app, Hs. Qed.

Lemma no_nul_value s : no_nul (v8ValueToStdString s) = true.
Proof. unfold v8ValueToStdString. case_match; [done|]. apply c_str_no_nul. Qed.

Lemma no_nul_carets a b : no_nul (carets a b) = true.
Proof. unfold carets. by rewrite !no_nul_app, !no_nul_repeat. Qed.

Lemma report_no_nul tc : no_nul (reportException tc) = true.
Proof.
  unfold reportException, report_location.
  repeat case_match; autorewrite with strings; rewrite ?no_nul_value, ?no_nul_show, ?no_nul_carets; done.
Qed.

Definition thread_inv (p : Phase) (s : Shared) : Prop :=
  match p with
  | Preload | Reset | Compile | Running | Got _ =>
      result s = "" /\ error s = "" /\ isDone s = false /\ isJson s = false
  | Json _ _ => result s = "" /\ error s = "" /\ isDone s = false /\ isJson s = true
  | Assigned => error s = "" /\ isDone s = false
  | Exited => (error s <> "" /\ result s = "" /\ isDone s = false) \/
              (error s = "" /\ isDone s = true)
  end.

(** ** The history of the thread *)

Lemma preloaded_snoc l a : preloaded (l ++ [a]) = preloaded l || preloaded [a].
Proof. apply existsb_app. Qed.

Lemma gas_sum_snoc l a : gas_sum (l ++ [a]) = gas_sum l + gas_of a.
Proof. induction l as [|b l IH]; cbn; lia. Qed.

Lemma script_gas_snoc l a : script_gas (l ++ [a]) = if preloaded l then script_gas l + gas_of a else 0.
Proof.
  induction l as [|b l IH]; [by destruct a|]. destruct b; try exact IH. apply gas_sum_snoc.
Qed.

Lemma script_values_snoc l a : script_values (l ++ [a]) = script_values l ++ script_values [a].
Proof. apply flat_map_app. Qed.
Lemma json_texts_snoc l a : json_texts (l ++ [a]) = json_texts l ++ json_texts [a].
Proof. apply flat_map_app. Qed.
Lemma exceptions_snoc l a : exceptions (l ++ [a]) = exceptions l ++ exceptions [a].
Proof. apply flat_map_app. Qed.

Create Rewrite HintDb history.
#[local] Hint Rewrite preloaded_snoc gas_sum_snoc script_gas_snoc script_values_snoc json_texts_snoc
  exceptions_snoc : history.

(** What the thread's actions so far and the shared variables have in common. *)
Record seen (vs : list ScriptValue) (js : list (option (Z * string))) (acts : list Action) : Prop := mkSeen {
  seen_values : script_values acts = vs;
  seen_texts : json_texts acts = js;
  seen_exceptions : exceptions acts = [];
}.

Definition metered (s : Shared) (acts : list Action) : Prop :=
  preloaded acts = true /\ gas s = wrap 64 (script_gas acts).

Definition history (g : Z) (acts : list Action) (p : Phase) (s : Shared) : Prop :=
  match p with
  | Preload => seen [] [] acts /\ preloaded acts = false /\ gas s = wrap 64 (g + gas_sum acts)
  | Reset => seen [] [] acts /\ preloaded acts = true /\ script_gas acts = 0
  | Compile | Running => seen [] [] acts /\ metered s acts
  | Got v => seen [v] [] acts /\ metered s acts
  | Json n u => seen [SObject] [Some (n, u)] acts /\ metered s acts
  | Assigned => delivers acts (result s) (isJson s) /\ metered s acts
  | Exited => (error s = "" /\ delivers acts (result s) (isJson s) /\ metered s acts) \/
              (error s <> "" /\ fails acts (error s) /\ gas s = wrap 64 (meter g acts))
  end.

Lemma seen_snoc vs js acts a :
  seen vs js acts -> exceptions [a] = [] -> seen (vs ++ script_values [a]) (js ++ json_texts [a]) (acts ++ [a]).
Proof. intros [Hv Hj He] Ha. split; autorewrite with history; by rewrite ?Hv, ?Hj, ?He, ?Ha. Qed.

Ltac seen_next Hs :=
  match goal with |- seen _ _ (_ ++ [?a]) => exact (seen_snoc _ _ _ a Hs eq_refl) end.

Lemma metered_gas s acts g :
  metered s acts -> metered (set_gas (wrap 64 (gas s + g)) s) (acts ++ [AGas g]).
Proof.
  intros [Hp Hg]. split; autorewrite with history; rewrite Hp; [done|]. cbn. by rewrite Hg, wrap_add_l.
Qed.

Lemma metered_same s s' acts a :
  metered s acts -> gas s' = gas s -> gas_of a = 0 -> metered s' (acts ++ [a]).
Proof.
  intros [Hp Hg] Hs Ha. split; autorewrite with history; rewrite Hp; [done|]. by rewrite Hs, Hg, Ha, Z.add_0_r.
Qed.

Lemma delivers_snoc acts a u j :
  delivers acts u j -> script_values [a] = [] -> json_texts [a] = [] -> delivers (acts ++ [a]) u j.
Proof.
  intros Hd Hv Hj.
  assert (Ev : script_values (acts ++ [a]) = script_values acts) by (autorewrite with history; rewrite Hv; apply app_nil_r).
  assert (Ej : json_texts (acts ++ [a]) = json_texts acts) by (autorewrite with history; rewrite Hj; apply app_nil_r).
  destruct Hd; [eapply delivers_string|eapply delivers_scalar|eapply delivers_undefined|
    eapply delivers_no_json|eapply delivers_json]; rewrite ?Ev, ?Ej; eassumption.
Qed.

(** The thread ends with the report of an exception. *)
Lemma caught_history g acts s tc :
  exceptions acts = [] -> gas s = wrap 64 (meter g acts) ->
  history g (acts ++ [ACaught tc]) Exited (set_error (reportException tc) s).
Proof.
  intros He Hg. right. split; [apply report_not_empty|]. split.
  - apply fails_caught. autorewrite with history. by rewrite He.
  - cbn. rewrite Hg. unfold meter. autorewrite with history. cbn. rewrite orb_false_r.
    destruct (preloaded acts); by rewrite Z.add_0_r.
Qed.

Lemma metered_meter g s acts : metered s acts -> gas s = wrap 64 (meter g acts).
Proof. intros [Hp Hg]. unfold meter. by rewrite Hp. Qed.

(** The thread ends because its text is too long. *)
Lemma too_long_history g acts s a :
  fails (acts ++ [a]) "result too long" -> metered s acts -> gas_of a = 0 ->
  history g (acts ++ [a]) Exited (set_error "result too long" s).
Proof.
  intros Hf Hm Ha. right. split; [done|]. split; [done|]. apply metered_meter. by eapply metered_same.
Qed.

Lemma history_step g acts a p s p' s' :
  RealExecute a p s = Some (p', s') -> thread_inv p s -> history g acts p s -> history g (acts ++ [a]) p' s'.
Proof.
  intros Hr Ht Hh.
  destruct p as [| | | |[n u|u| |]|n u| |], a as [c|tc| |v|[[n' u']|]]; cbn in Hr; try discriminate.
  all: cbn in Hh, Ht; try destruct Hh as [Hs Hm].
  all: try (injection Hr as <- <-; apply caught_history; [apply Hs|apply metered_meter, Hm]).
  - injection Hr as <- <-. destruct Hm as [Hp Hg]. split; [seen_next Hs|].
    autorewrite with history. rewrite Hp. split; [done|]. cbn. by rewrite Hg, wrap_add_l, Z.add_assoc.
  - injection Hr as <- <-. destruct Hm as [Hp Hg]. apply caught_history; [apply Hs|]. unfold meter. by rewrite Hp.
  - injection Hr as <- <-. destruct Hm as [Hp Hg]. split; [seen_next Hs|].
    autorewrite with history. rewrite Hp. by split.
  - injection Hr as <- <-. destruct Hm as [Hp Hg]. split; [seen_next Hs|].
    split; autorewrite with history; rewrite Hp; [done|]. by rewrite Hg.
  - injection Hr as <- <-. split; [seen_next Hs|by eapply metered_same].
  - injection Hr as <- <-. split; [seen_next Hs|by apply metered_gas].
  - injection Hr as <- <-. split; [seen_next Hs|by eapply metered_same].
  - assert (Hs' := seen_snoc _ _ _ AProceed Hs eq_refl). destruct (Z.gtb_spec n resultMaxLength); injection Hr as <- <-.
    + apply too_long_history; [|done..]. eapply fails_long_string; [apply Hs'|lia].
    + split; [|by eapply metered_same]. destruct Ht as (_ & _ & _ & Hj). cbn. rewrite Hj. eapply delivers_string; [apply Hs'|lia].
  - assert (Hs' := seen_snoc _ _ _ AProceed Hs eq_refl). injection Hr as <- <-. split; [|by eapply metered_same].
    destruct Ht as (_ & _ & _ & Hj). cbn. rewrite Hj. apply delivers_scalar, Hs'.
  - assert (Hs' := seen_snoc _ _ _ AProceed Hs eq_refl). injection Hr as <- <-. left.
    destruct Ht as (Hr & He & _ & Hj). cbn. rewrite Hr, Hj. split_and!; [done| |by eapply metered_same].
    apply delivers_undefined, Hs'.
  - injection Hr as <- <-. split; [seen_next Hs|by apply metered_gas].
  - injection Hr as <- <-. split; [seen_next Hs|by eapply metered_same].
  - assert (Hs' := seen_snoc _ _ _ (AJson None) Hs eq_refl). injection Hr as <- <-. left.
    destruct Ht as (Hr & He & _ & Hj). cbn. rewrite Hr, Hj. split_and!; [done| |by eapply metered_same].
    apply delivers_no_json; apply Hs'.
  - assert (Hs' := seen_snoc _ _ _ AProceed Hs eq_refl). destruct (Z.gtb_spec n resultMaxLength); injection Hr as <- <-.
    + apply too_long_history; [|done..]. eapply fails_long_json; [apply Hs'|apply Hs'|lia].
    + split; [|by eapply metered_same]. destruct Ht as (_ & _ & _ & Hj). cbn. rewrite Hj.
      eapply delivers_json; [apply Hs'|apply Hs'|lia].
  - injection Hr as <- <-. left. split; [apply Ht|]. split; [by apply delivers_snoc|by eapply metered_same].
Qed.

(** A poll writes nothing the history is about. *)
Lemma history_poll g acts now p w s w' s' :
  watch_step now w s = (w', s') -> history g acts p s -> history g acts p s'.
Proof. destruct w; cbn; repeat case_match; intros [= <- <-]; done. Qed.

(** ** The tuple and the thread *)

(** What a tuple the loop was left with says about the thread. *)
Inductive outcome (x0 : System) (l : list Event) (p : Phase) (s : Shared) : ValueTuple -> Prop :=
  | out_value : error s = "" -> (p = Assigned \/ p = Exited) ->
      outcome x0 l p s (mkValueTuple (Some (result s)) None (isJson s) (gas s))
  | out_error : error s <> "" -> p = Exited ->
      outcome x0 l p s (mkValueTuple None (Some (error s)) isJson0 (gas s))
  | out_of_gas v : went_over l x0 -> gas_seen l x0 v ->
      outcome x0 l p s (mkValueTuple None (Some "out of gas") isJson0 v)
  | out_of_time now v : Poll now ∈ l -> now > expireTime -> gas_seen l x0 v ->
      outcome x0 l p s (mkValueTuple None (Some (killed_message now expireTime)) isJson0 v).

Definition watch_inv (x0 : System) (l : list Event) (x : System) : Prop :=
  match watch x with
  | WGasExit => went_over l x0
  | WTimeExit now => Poll now ∈ l /\ now > expireTime
  | WBreak r => outcome x0 l (phase x) (shared x) r
  | _ => True
  end.

Lemma thread_inv_step a p s p' s' :
  RealExecute a p s = Some (p', s') -> thread_inv p s -> thread_inv p' s'.
Proof.
  destruct p as [| | | |[n u|u| |]|n u| |], a as [g|tc| |v|[[n' u']|]]; cbn; intros Hr Hi;
    repeat case_match; simplify_eq; cbn in *; destruct_and?;
    try (by repeat split); try (left; repeat split; auto using report_not_empty; done);
    right; by split.
Qed.

Lemma outcome_step x0 l a p s p' s' r :
  RealExecute a p s = Some (p', s') -> outcome x0 l p s r -> outcome x0 l p' s' r.
Proof.
  intros Hr Ho. destruct Ho as [Hn [->| ->]|Hn ->|v ? ?|now v ? ? ?].
  - destruct a; cbn in Hr; simplify_eq. by apply (out_value x0 l Exited (set_isDone true s)); auto.
  - by destruct a.
  - by destruct a.
  - by apply out_of_gas.
  - by apply out_of_time.
Qed.

Lemma went_over_snoc l e x : went_over l x -> went_over (l ++ [e]) x.
Proof. intros (l1 & l2 & z & -> & ? & ?). exists l1, (l2 ++ [e]), z. by rewrite (assoc_L (++)). Qed.

Lemma gas_seen_snoc l e x v : gas_seen l x v -> gas_seen (l ++ [e]) x v.
Proof. intros (l1 & l2 & z & -> & ? & ?). exists l1, (l2 ++ [e]), z. by rewrite (assoc_L (++)). Qed.

Lemma watch_inv_snoc x0 l e x : watch_inv x0 l x -> watch_inv x0 (l ++ [e]) x.
Proof.
  unfold watch_inv. destruct (watch x); auto using went_over_snoc.
  - intros [? ?]. split; [set_solver|done].
  - intros [? ?|? ?|v ? ?|now v ? ? ?]; constructor; auto using went_over_snoc, gas_seen_snoc. set_solver.
Qed.

Lemma delivered p s :
  thread_inv p s -> result s <> "" \/ isDone s = true -> error s = "" /\ (p = Assigned \/ p = Exited).
Proof. destruct p; cbn; intuition congruence. Qed.

Lemma failed p s : thread_inv p s -> error s <> "" -> p = Exited.
Proof. destruct p; cbn; intuition congruence. Qed.

Lemma poll_keeps now w s w' s' :
  watch_step now w s = (w', s') ->
  result s' = result s /\ error s' = error s /\ isJson s' = isJson s /\ isDone s' = isDone s.
Proof. destruct w; cbn; repeat case_match; intros [= <- <-]; done. Qed.

Lemma thread_inv_poll now p w s w' s' : watch_step now w s = (w', s') -> thread_inv p s -> thread_inv p s'.
Proof. intros (Hr & He & Hj & Hd)%poll_keeps. unfold thread_inv. by rewrite Hr, He, Hj, Hd. Qed.

Lemma poll_outcome x0 l now p w s w' s' :
  (gas s > gasLimit -> went_over l x0) -> gas_seen l x0 (gas s) -> Poll now ∈ l ->
  thread_inv p s -> watch_inv x0 l (mkSystem p w s) -> watch_step now w s = (w', s') ->
  watch_inv x0 l (mkSystem p w' s').
Proof.
  intros Hover Hseen Hin Ht Hw. destruct w as [| | | | | |t|r]; cbn; unfold watch_inv in *; cbn in *.
  - destruct (String.eqb_spec (error s) "") as [He|He]; intros [= <- <-]; [done|].
    apply out_error; eauto using failed.
  - destruct (String.eqb_spec (result s) "") as [He|He]; intros [= <- <-]; [done|].
    apply out_value; apply (delivered p s); auto.
  - destruct (isDone s) eqn:He; intros [= <- <-]; [|done].
    apply out_value; apply (delivered p s); auto.
  - destruct (Z.gtb_spec (gas s) gasLimit); intros [= <- <-]; [|done]. apply Hover. lia.
  - intros [= <- <-]. by apply out_of_gas.
  - destruct (Z.gtb_spec now expireTime); intros [= <- <-]; [|done]. split; [done|lia].
  - intros [= <- <-]. apply out_of_time; [apply Hw..|done].
  - by intros [= <- <-].
Qed.

(** The three parts together hold in every state of a run. *)
Definition inv (g : Z) (l : list Event) (x : System) : Prop :=
  thread_inv (phase x) (shared x) /\
  (0 <= g < 2 ^ 64 -> history g (thread_actions l) (phase x) (shared x)) /\
  watch_inv (start g) l x.

Lemma inv_step g l e x y : steps l (start g) x -> step e x y -> inv g l x -> inv g (l ++ [e]) y.
Proof.
  intros Hl Hs (Ht & Hh & Hw%(watch_inv_snoc _ _ e)). unfold inv, thread_actions in *. rewrite flat_map_app.
  destruct Hs as [a p p' w s s' Hr|now p w w' s s' Hnb Hp]; cbn [flat_map phase shared app] in *.
  - split; [by eapply thread_inv_step|]. split; [intros Hg; eapply history_step; eauto|].
    unfold watch_inv in *. cbn in *. destruct w; eauto using outcome_step.
  - rewrite app_nil_r. split; [by eapply thread_inv_poll|]. split; [intros Hg; eapply history_poll; eauto|].
    eapply poll_outcome; [..|exact Hp]; try done; [|eexists l, [Poll now], _; by split_and!|set_solver].
    intros Hg. by eexists l, [Poll now], _.
Qed.

Lemma inv_steps g l x : steps l (start g) x -> inv g l x.
Proof.
  remember (start g) as x0 eqn:E. induction 1 as [x|l e x y z Hs IH He]; subst.
  - split; [done|]. split; [|done]. intros Hg. split; [done|]. split; [done|]. cbn.
    by rewrite Z.add_0_r, wrap_small.
  - eapply inv_step; eauto.
Qed.

(** C2: whatever the interleaving, when [Execution] returns, its tuple is one of
    four. The text the script delivers: its string (of at most 65536 units),
    number or boolean, the JSON text of any other value with the JSON flag, or
    the empty text for undefined, and with it exactly the gas charged since the
    sandbox was reset, modulo 2^64. An error of the script: the report of the
    exception that was caught, or that the string or JSON text is too long, with
    the gas the counter ends with. Out of gas, and then some state of the run was
    over the limit. Out of time, and then the clock was read past the deadline,
    and the message names that reading. *)
Theorem execution_sound (g : Z) (l : list Event) (x : System) (r : ValueTuple) :
  0 <= g < 2 ^ 64 -> steps l (start g) x -> returns x r ->
  (exists u j, delivers (thread_actions l) u j /\
     r = mkValueTuple (Some u) None j (wrap 64 (script_gas (thread_actions l)))) \/
  (exists e, fails (thread_actions l) e /\
     r = mkValueTuple None (Some e) isJson0 (wrap 64 (meter g (thread_actions l)))) \/
  (exists v, went_over l (start g) /\ gas_seen l (start g) v /\
     r = mkValueTuple None (Some "out of gas") isJson0 v) \/
  (exists now v, Poll now ∈ l /\ now > expireTime /\ gas_seen l (start g) v /\
     r = mkValueTuple None (Some (killed_message now expireTime)) isJson0 v).
Proof.
  intros Hg Hs [Hw Hp]. apply inv_steps in Hs as (_ & Hh & Ho). specialize (Hh Hg). unfold watch_inv in Ho.
  rewrite Hw, Hp in *. destruct Ho as [He _|He _|v ? ?|now v ? ? ?];
    [| |right; right; left; by exists v|right; right; right; by exists now, v].
  - left. destruct Hh as [(_ & Hd & _ & Hm)|(? & _)]; [|done]. rewrite Hm. eauto.
  - right. left. destruct Hh as [(? & _)|(_ & Hf & Hm)]; [done|]. rewrite Hm. eauto.
Qed.

(** ** The loop ends *)

Definition is_poll (e : Event) : bool := match e with Poll _ => true | _ => false end.
Definition polls (l : list Event) : nat := length (List.filter is_poll l).

(** Polls left until the loop is left, once it can no longer go round. *)
Definition rank (w : Watch) : nat :=
  match w with
  | WError => 6 | WResult => 5 | WDone => 4 | WGas => 3 | WTime => 2
  | WGasExit | WTimeExit _ => 1 | WBreak _ => 0
  end.

Lemma polls_app l1 l2 : polls (l1 ++ l2) = (polls l1 + polls l2)%nat.
Proof. unfold polls. by rewrite List.filter_app, length_app. Qed.

Lemma late_poll now w s w' s' :
  now > expireTime -> (forall r, w <> WBreak r) -> watch_step now w s = (w', s') ->
  (rank w' < rank w)%nat.
Proof.
  intros Hn Hb. destruct w; cbn; [..|by destruct (Hb res)]; repeat case_match; intros [= <- <-]; cbn; lia.
Qed.

(** C32: past the deadline the polling loop is left after at most six polls,
    whatever the thread does meanwhile: in every run whose clock readings are
    all after [expireTime], the loop makes at most [rank] polls. *)
Theorem deadline_ends_loop (l : list Event) (x y : System) :
  steps l x y -> (forall now, Poll now ∈ l -> now > expireTime) ->
  (polls l + rank (watch y) <= rank (watch x))%nat.
Proof.
  induction 1 as [x|l e x y z Hs IH He]; intros Hlate; [done|].
  rewrite polls_app. specialize (IH ltac:(set_solver)).
  destruct He as [a p p' w s s' _|now p w w' s s' Hb Hp]; cbn in *; [lia|].
  apply late_poll in Hp; [lia|apply Hlate; set_solver|done].
Qed.

(** Polls left once the thread has exited. *)
Definition exit_rank (s : Shared) (w : Watch) : nat :=
  match w with
  | WBreak _ => 0
  | WGasExit | WTimeExit _ => 1
  | WError => if String.eqb (error s) "" then 3 else 1
  | WResult => if String.eqb (error s) "" then 2 else 5
  | WDone => if String.eqb (error s) "" then 1 else 4
  | WGas => if String.eqb (error s) "" then 5 else 3
  | WTime => if String.eqb (error s) "" then 4 else 2
  end.

Lemma exited_poll now w s w' s' :
  thread_inv Exited s -> (forall r, w <> WBreak r) -> watch_step now w s = (w', s') ->
  thread_inv Exited s' /\ (exit_rank s' w' < exit_rank s w)%nat.
Proof.
  intros Ht Hb Hp. destruct (poll_keeps _ _ _ _ _ Hp) as (Hr & He & _ & Hd). cbn in *.
  split; [by rewrite Hr, He, Hd|]. clear Hr He Hd.
  destruct (String.eqb_spec (error s) "") as [He|He];
    destruct w; cbn in *; try (by destruct (Hb res)); repeat case_match; simplify_eq; cbn in *;
    rewrite ?(proj2 (String.eqb_eq (error s') "")), ?(proj2 (String.eqb_neq (error s') "")) in * by done;
    try lia; exfalso;
    rewrite ?negb_true_iff, ?negb_false_iff, ?String.eqb_neq, ?String.eqb_eq in *;
    intuition congruence.
Qed.

Lemma exited_steps l x y :
  steps l x y -> phase x = Exited -> thread_inv Exited (shared x) ->
  phase y = Exited /\ thread_inv Exited (shared y) /\
  (polls l + exit_rank (shared y) (watch y) <= exit_rank (shared x) (watch x))%nat.
Proof.
  induction 1 as [x|l e x y z Hs IH He]; intros Hp Ht; [done|].
  destruct (IH Hp Ht) as (Hp' & Ht' & Hle). rewrite polls_app.
  destruct He as [a p p' w s s' Hr|now p w w' s s' Hb Hw]; cbn in *; subst p; [done|].
  destruct (exited_poll _ _ _ _ _ Ht' Hb Hw). repeat split; auto. lia.
Qed.

(** Nothing is lost: once the thread of a run of [Execution] has exited, the
    loop notices: it makes at most six more polls, whatever the clock says. *)
Theorem exit_ends_loop (g : Z) (l l' : list Event) (x y : System) :
  steps l (start g) x -> phase x = Exited -> steps l' x y ->
  (polls l' <= 6)%nat.
Proof.
  intros Hs Hp Hs'. apply inv_steps in Hs as (Ht & _). rewrite Hp in Ht.
  destruct (exited_steps _ _ _ Hs' Hp Ht) as (_ & _ & Hle).
  assert (exit_rank (shared x) (watch x) <= 6)%nat
    by (destruct (watch x); cbn; repeat case_match; lia). lia.
Qed.

(** ** Gas charged while the block is preloaded *)

(** Running a schedule. *)
Definition do_event (e : Event) (x : System) : option System :=
  match e with
  | Thread a =>
      match RealExecute a (phase x) (shared x) with
      | Some (p, s) => Some (mkSystem p (watch x) s)
      | None => None
      end
  | Poll now =>
      match watch x with
      | WBreak _ => None
      | w => let '(w', s') := watch_step now w (shared x) in Some (mkSystem (phase x) w' s')
      end
  end.

Fixpoint do_events (l : list Event) (x : System) : option System :=
  match l with
  | [] => Some x
  | e :: l' => match do_event e x with Some y => do_events l' y | None => None end
  end.

Lemma do_event_step e x y : do_event e x = Some y -> step e x y.
Proof.
  destruct x as [p w s]. destruct e as [a|now]; cbn.
  - destruct (RealExecute a p s) as [[p' s']|] eqn:E; intros [= <-]. by apply step_thread.
  - destruct (watch_step now w s) as [w' s'] eqn:E. intros Hd.
    assert (Hb : forall r, w <> WBreak r) by (intros r ->; discriminate).
    assert (y = mkSystem p w' s') as ->.
    { destruct w; try (by destruct (Hb res)); cbn in E, Hd; rewrite ?E in Hd; congruence. }
    by apply step_poll.
Qed.

Lemma steps_cons e l x y z : step e x y -> steps l y z -> steps (e :: l) x z.
Proof.
  intros He. induction 1 as [y|l e' y w z Hs IH He'].
  - apply (steps_snoc [] e x x y); [constructor|done].
  - change (e :: l ++ [e']) with ((e :: l) ++ [e']). econstructor; eauto.
Qed.

Lemma do_events_steps l x y : do_events l x = Some y -> steps l x y.
Proof.
  revert x. induction l as [|e l IH]; intros x; cbn.
  - intros [= <-]. constructor.
  - destruct (do_event e x) as [x'|] eqn:E; [|done]. intros Hr.
    eapply steps_cons; [by apply do_event_step|auto].
Qed.

(** Gas charged by the preload scripts, which [resetSandbox] discards, can
    still end the execution: for the same script, one schedule returns its
    value and another one reports out of gas before the reset. *)
Theorem preload_gas_race (g c : Z) (u : string) :
  0 <= c <= gasLimit -> gasLimit < g < 2 ^ 64 -> u <> "" ->
  (exists l x, thread_actions l = [AGas g] /\ steps l (start 0) x /\
     watch x = WBreak (mkValueTuple None (Some "out of gas") isJson0 g)) /\
  (exists l x, thread_actions l =
       [AGas g; AProceed; AProceed; AProceed; AGas c; AValue (SScalar u); AProceed; AProceed] /\
     steps l (start 0) x /\ returns x (mkValueTuple (Some u) None false c)).
Proof.
  intros Hc Hg Hu. split.
  - exists (Thread (AGas g) :: repeat (Poll expireTime) 5). eexists. split; [done|]. split.
    + apply do_events_steps. cbn -[Z.gtb wrap]. rewrite Z.add_0_l, wrap_small by lia.
      rewrite (proj2 (Z.gtb_lt g gasLimit)) by lia. done.
    + done.
  - exists (map Thread [AGas g; AProceed; AProceed; AProceed; AGas c; AValue (SScalar u); AProceed; AProceed]
            ++ repeat (Poll expireTime) 2). eexists. split; [done|]. split.
    + apply do_events_steps. cbn -[Z.gtb wrap]. rewrite Z.add_0_l, (wrap_small 64 c) by lia.
      rewrite (proj2 (String.eqb_neq u "") Hu). done.
    + done.
Qed.

End Watchdog.

(** ** Witnesses *)

Definition finished : list Event :=
  map Thread [AProceed; AProceed; AProceed; AValue (SScalar "42"); AProceed; AProceed] ++ [Poll 0; Poll 0].

Lemma execution_sound_witness :
  exists u j, delivers (thread_actions finished) u j /\
    mkValueTuple (Some "42") None false 0 = mkValueTuple (Some u) None j (wrap 64 (script_gas (thread_actions finished))).
Proof.
  destruct (execution_sound 1000 10 false 0 finished _ (mkValueTuple (Some "42") None false 0)
    ltac:(lia) (do_events_steps 1000 10 false finished (start 0) _ eq_refl) (conj eq_refl eq_refl))
    as [Hv|[(e & _ & Hv)|[(v & _ & _ & Hv)|(now & v & _ & _ & _ & Hv)]]]; [exact Hv|discriminate..].
Defined.

Definition late : list Event :=
  [Poll 11; Poll 12; Thread AProceed; Poll 13; Poll 14; Poll 15; Poll 16].

Lemma deadline_ends_loop_witness :
  exists y, do_events 1000 10 false late (start 0) = Some y /\ (polls late + rank (watch y) <= 6)%nat.
Proof.
  eexists. split; [reflexivity|].
  apply (deadline_ends_loop 1000 10 false late (start 0) _ (do_events_steps 1000 10 false late (start 0) _ eq_refl)).
  intros now Hin. unfold late in Hin.
  repeat (apply elem_of_cons in Hin as [Heq|Hin]; [first [discriminate Heq|injection Heq as ->; lia]|]).
  by apply elem_of_nil in Hin.
Defined.

Definition thread_done : list Event :=
  map Thread [AProceed; AProceed; AProceed; AValue (SScalar "42"); AProceed; AProceed].

Lemma exit_ends_loop_witness :
  exists x, do_events 1000 10 false thread_done (start 0) = Some x /\ (polls [Poll 0; Poll 0] <= 6)%nat.
Proof.
  eexists. split; [reflexivity|].
  eapply (exit_ends_loop 1000 10 false 0 thread_done [Poll 0; Poll 0]).
  - apply (do_events_steps 1000 10 false thread_done (start 0)). reflexivity.
  - reflexivity.
  - apply (do_events_steps 1000 10 false [Poll 0; Poll 0]). reflexivity.
Defined.

Lemma preload_gas_race_witness :
  exists l x, thread_actions l = [AGas 200] /\ steps 100 10 false l (start 0) x /\
    watch x = WBreak (mkValueTuple None (Some "out of gas") false 200).
Proof. refine (proj1 (preload_gas_race 100 10 false 200 7 "1" _ _ _)); [lia|lia|discriminate]. Defined.

End Execution.
