(* ===== verification/LibJsCore.v ===== *)
(** * Embedded JavaScript: the libraries of the run-time snapshot

    The arrays of vm/v8vm/v8/libjs/include (console.js.h, utils.js.h, int64.js.h, float64.js.h, json.js.h),
    which the native code uses as C strings. Every byte of an array is a
    character of the text below ([js] turns the tilde, which no library
    contains, into the double quote); an array of more than 150 lines is cut
    into blocks, one definition each. *)

From stdpp Require Import base strings.
From S2P Require Import Prelude.

Module LibJsCore.

Definition __libjs_console_js : string := js "'use strict';

class Console {
    constructor() {
    }
    _format(...args) {
        let formatStr = format(...args);
        return formatStr;
    }
}

(function(){
    let _log = _cLog;
    let P = Console.prototype;
    P.debug = function(...args) {
        _log('Debug', this._format(...args));
    }
    P.info = function(...args) {
        _log('Info', this._format(...args));
    }
    P.warn = function(...args) {
        _log('Warn', this._format(...args));
    }
    P.error = function(...args) {
        _log('Error', this._format(...args));
    }
    P.log = function(...args) {
        this.info(...args)
    }
})();" +:+ NUL.

Definition __libjs_console_js_len : Z := 632.

Definition __libjs_utils_js_0 : string := js "'use strict';

const emptyOptions = {};
function format(...args) {
    return formatWithOptions(emptyOptions, ...args);
}

function formatWithOptions(inspectOptions, f) {
    let i, tempStr;
    if (typeof f !== 'string') {
        let args = Array.from(arguments);
        args.shift();
        if (args.length === 1) {
            return JSON.stringify(args[0])
        }
        return JSON.stringify(args);
    }

    if (arguments.length === 2) return f;

    let str = '';
    let a = 2;
    let lastPos = 0;
    for (i = 0; i < f.length - 1; i++) {
        if (f.charCodeAt(i) === 37) { // '%'
            const nextChar = f.charCodeAt(++i);
            if (a !== arguments.length) {
                switch (nextChar) {
                    case 115: // 's'
                        tempStr = String(arguments[a++]);
                        break;
                    case 100: // 'd'
                        let curr = arguments[a++];
                        if (curr instanceof Int64 || curr instanceof BigNumber) {
                            tempStr = `${curr.toString()}`
                        } else {
                            tempStr = `${Number(arguments[a++])}`;
                        }
                        break;
                    case 118: // 'v'
                        tempStr = JSON.stringify(arguments[a++]);
                        break;
                    case 105: // 'i'
                        tempStr = `${parseInt(arguments[a++])}`;
                        break;
                    case 102: // 'f'
                        tempStr = `${parseFloat(arguments[a++])}`;
                        break;
                    case 37: // '%'
                        str += f.slice(lastPos, i);
                        lastPos = i + 1;
                  ".

Definition __libjs_utils_js_1 : string := js "      continue;
                    default: // any other character is not a correct placeholder
                        continue;
                }
                if (lastPos !== i - 1)
                    str += f.slice(lastPos, i - 1);
                str += tempStr;
                lastPos = i + 1;
            } else if (nextChar === 37) {
                str += f.slice(lastPos, i);
                lastPos = i + 1;
            }
        }
    }
    if (lastPos === 0)
        str = f;
    else if (lastPos < f.length)
        str += f.slice(lastPos);
    while (a < arguments.length) {
        const x = arguments[a++];
        if ((typeof x !== 'object' && typeof x !== 'symbol') || x === null) {
            str += ` ${x}`;
        } else {
            str += ` ${JSON.stringify(x)}`;
        }
    }
    return str;
}" +:+ NUL.

Definition __libjs_utils_js : string :=
  __libjs_utils_js_0 +:+
  __libjs_utils_js_1.

Definition __libjs_utils_js_len : Z := 2617.

Definition __libjs_int64_js_0 : string := js "'use strict';

const MaxInt64 = new BigNumber('9223372036854775807');
const MinInt64 = new BigNumber('-9223372036854775808');

class Int64 {
    constructor(n, base) {
        this.number = new BigNumber(n, base);
        this._validate();
    }

    // Check is int64 (Interger that greater than MinInt64, less than MaxInt64)
    _validate() {
        if (!this.number.isInteger()) {
            throw new Error('Int64: ' + this.number + ' is not an integer');
        }

        if (this.number.gt(MaxInt64)) {
            throw new Error('Int64: ' + this.number + ' overflow int64');
        }

        if (this.number.lt(MinInt64)) {
            throw new Error('Int64: ' + this.number + ' underflow int64');
        }
    }

    // Check is argument int64
    _checkArgument(arg) {
        if (typeof arg === 'undefined' || arg == null) {
            throw new Error('Int64 argument: ' + arg + ' is empty');
        }

        if (!(arg instanceof Int64) || arg.constructor !== this.constructor) {
            arg = new this.constructor(arg);
        }

        arg._validate();

        return arg
    }

    // plus n
    plus(n) {
        let arg = this._checkArgument(n);
        let rs = this.number.plus(arg.number);
        return new this.constructor(rs);
    }

    // minus n
    minus(n) {
        let arg = this._checkArgument(n);
        let rs = this.number.minus(arg.number);
        return new this.constructor(rs);
    }

    // Multi n
    multi(n) {
        let arg = this._checkArgument(n);
        let rs = this.number.times(arg.number);
        return new this.constructor(rs);
    }

    // Div n
    div(n) {
        let arg = this._checkArgument(n);
        let rs = this.number.idiv(arg.number);
        return new this.constructor(rs);
    }

    // Mod n
".

Definition __libjs_int64_js_1 : string := js "    mod(n) {
        let arg = this._checkArgument(n);
        let rs = this.number.mod(arg.number);
        return new this.constructor(rs);
    }

    // shift n
    shift(n) {
        let rs = this.number.shiftedBy(n);
        return new this.constructor(rs);
    }

    // Power n
    pow(n) {
        let arg = this._checkArgument(n);
        let rs = this.number.pow(arg.number);
        return new this.constructor(rs);
    }

    // Check equal n
    eq(n) {
        let arg = this._checkArgument(n);
        return this.number.eq(arg.number);
    }

    // Check greater than n
    gt(n) {
        let arg = this._checkArgument(n);
        return this.number.gt(arg.number);
    }

    // Check greater than or equal to n
    gte(n) {
        let arg = this._checkArgument(n);
        return this.number.gte(arg.number);
    }

    // Check less than n
    lt(n) {
        let arg = this._checkArgument(n);
        return this.number.lt(arg.number);
    }

    // Check less than or equal to n
    lte(n) {
        let arg = this._checkArgument(n);
        return this.number.lte(arg.number);
    }

    // negated
    negated() {
        return new this.constructor(this.number.negated());
    }

    // Check is Zero
    isZero() {
        return this.number.isZero();
    }

    // Check is Positive
    isPositive() {
        return this.number.isPositive();
    }

    // Check is Negative
    isNegative() {
        return this.number.isNegative();
    }

    // convert to String
    toString() {
        return this.number.toString();
    }

    // to fixed
    toFixed(n) {
        return this.number.toFixed(n);
    }

    // to JSON
    toJSON() {
        return this.number.toJSON();
    }
}

module.exports = Int64;" +:+ NUL.

Definition __libjs_int64_js : string :=
  __libjs_int64_js_0 +:+
  __libjs_int64_js_1.

Definition __libjs_int64_js_len : Z := 3525.

Definition __libjs_float64_js_0 : string := js "'use strict';

const MaxFloat64 = new BigNumber('9223372036854775807');
const MinFloat64 = new BigNumber('-9223372036854775808');

class Float64 {
    constructor(n, base) {
        this.number = new BigNumber(n, base);
        this._validate();
    }

    _validate() {
        if (this.number.gt(MaxFloat64)) {
            throw new Error('Float64: ' + this.number + ' overflow float64');
        }

        if (this.number.lt(MinFloat64)) {
            throw new Error('Float64: ' + this.number + ' underflow float64');
        }
    }

    // Check is argument float64
    _checkArgument(arg) {
        if (typeof arg === 'undefined' || arg == null) {
            throw new Error('float64 argument: ' + arg + ' is empty');
        }

        if (!(arg instanceof Float64) || arg.constructor !== this.constructor) {
            arg = new this.constructor(arg);
        }

        arg._validate();

        return arg
    }

    // plus n
    plus(n) {
        let arg = this._checkArgument(n);
        let rs = this.number.plus(arg.number);
        return new this.constructor(rs);
    }

    // minus n
    minus(n) {
        let arg = this._checkArgument(n);
        let rs = this.number.minus(arg.number);
        return new this.constructor(rs);
    }

    // Multi n
    multi(n) {
        let arg = this._checkArgument(n);
        let rs = this.number.times(arg.number);
        return new this.constructor(rs);
    }

    // Div n
    div(n) {
        let arg = this._checkArgument(n);
        let rs = this.number.div(arg.number);
        return new this.constructor(rs);
    }

    // Mod n
    mod(n) {
        let arg = this._checkArgument(n);
        let rs = this.number.mod(arg.number);
        return new this.constructor(rs);
    }

    // Power n
    pow(n) {
        ".

Definition __libjs_float64_js_1 : string := js "let arg = this._checkArgument(n);
        let rs = this.number.pow(arg.number);
        return new this.constructor(rs);
    }

    // Check equal n
    eq(n) {
        let arg = this._checkArgument(n);
        return this.number.eq(arg.number);
    }

    // Check greater than n
    gt(n) {
        let arg = this._checkArgument(n);
        return this.number.gt(arg.number);
    }

    // Check greater than or equal to n
    gte(n) {
        let arg = this._checkArgument(n);
        return this.number.gte(arg.number);
    }

    // Check less than n
    lt(n) {
        let arg = this._checkArgument(n);
        return this.number.lt(arg.number);
    }

    // Check less than or equal to n
    lte(n) {
        let arg = this._checkArgument(n);
        return this.number.lte(arg.number);
    }

    // negated
    negated() {
        return new this.constructor(this.number.negated());
    }

    // Check is Zero
    isZero() {
        return this.number.isZero();
    }

    // Check is Positive
    isPositive() {
        return this.number.isPositive();
    }

    // Check is Negative
    isNegative() {
        return this.number.isNegative();
    }

    // convert to String
    toString() {
        return this.number.toString();
    }

    // to fixed
    toFixed(n) {
        return this.number.toFixed(n);
    }

    // to JSON
    toJSON() {
        return this.number.toJSON();
    }
}

module.exports = Float64;
" +:+ NUL.

Definition __libjs_float64_js : string :=
  __libjs_float64_js_0 +:+
  __libjs_float64_js_1.

Definition __libjs_float64_js_len : Z := 3222.

Definition __libjs_json_js_0 : string := js "//  modified from json2.js (https://github.com/douglascrockford/JSON-js)
(function () {
    ~use strict~;

    const rx_escapable = /[\\~\u0000-\u001f\u007f-\u009f\u00ad\u0600-\u0604\u070f\u17b4\u17b5\u200c-\u200f\u2028-\u202f\u2060-\u206f\ufeff\ufff0-\uffff]/g;

    function f(n) {
        _IOSTInstruction_counter.incr(12);
        return (n < 10)
            ? ~0~ + n
            : n;
    }

    if (typeof Boolean.prototype.toJSON !== ~function~) {
        Boolean.prototype.toJSON = Boolean.prototype.valueOf;
    }
    if (typeof Number.prototype.toJSON !== ~function~) {
        Number.prototype.toJSON = Number.prototype.valueOf;
    }
    if (typeof String.prototype.toJSON !== ~function~) {
        String.prototype.toJSON = String.prototype.valueOf;
    }
    if (typeof Date.prototype.toJSON !== ~function~) {
        Date.prototype.toJSON = function () {
            return isFinite(this.valueOf())
                ? (
                    this.getUTCFullYear()
                    + ~-~
                    + f(this.getUTCMonth() + 1)
                    + ~-~
                    + f(this.getUTCDate())
                    + ~T~
                    + f(this.getUTCHours())
                    + ~:~
                    + f(this.getUTCMinutes())
                    + ~:~
                    + f(this.getUTCSeconds())
                    + ~Z~
                )
                : null;
        };
    }

    let gap;
    let indent;
    let meta;
    let rep;
    const dup = Symbol();

    function quote(string) {
        _IOSTInstruction_counter.incr(12 + 2 * string.length);
        rx_escapable.lastIndex = 0;
        return rx_escapable.test(string)
            ? ~\~~ + string.replace(rx_escapable, function (a) {
                let c = meta[a];
                ret".

Definition __libjs_json_js_1 : string := js "urn typeof c === ~string~
                    ? c
                    : ~\\u~ + (~0000~ + a.charCodeAt(0).toString(16)).slice(-4);
            }) + ~\~~
            : ~\~~ + string + ~\~~;
    }

    function str(key, holder) {
        _IOSTInstruction_counter.incr(56);
        let i;          // The loop counter.
        let k;          // The member key.
        let v;          // The member value.
        let length;
        let mind = gap;
        let partial;
        let value = holder[key];

        if (
            value
            && typeof value === ~object~
            && typeof value.toJSON === ~function~
        ) {
            _IOSTInstruction_counter.incr(8);
            value = value.toJSON(key);
        }

        if (typeof rep === ~function~) {
            _IOSTInstruction_counter.incr(8);
            value = rep.call(holder, key, value);
        }

        switch (typeof value) {
        case ~string~:
            v = quote(value);
            _IOSTInstruction_counter.incr(v.length);
            return v;
        case ~number~:
            v = (isFinite(value))
                ? String(value)
                : ~null~;
            _IOSTInstruction_counter.incr(v.length);
            return v;
        case ~boolean~:
        case ~null~:
            v = String(value);
            _IOSTInstruction_counter.incr(v.length);
            return v;
        case ~object~:
            if (!value) {
                _IOSTInstruction_counter.incr(4);
                return ~null~;
            }
            if (value.hasOwnProperty(dup)) {
                throw new Error(~Converting circular structure to JSON~);
            }
            Object.defineProperty(value, dup, {configurable: true});
            gap += indent;
            partial = [];
            if (Arr".

Definition __libjs_json_js_2 : string := js "ay.isArray(value)) {
                length = value.length;
                _IOSTInstruction_counter.incr(16 + 24 * length);
                for (i = 0; i < length; i += 1) {
                    partial[i] = str(i, value) || ~null~;
                }
                v = partial.length === 0
                    ? ~[]~
                    : gap
                        ? (
                            ~[\n~
                            + gap
                            + partial.join(~,\n~ + gap)
                            + ~\n~
                            + mind
                            + ~]~
                        )
                        : ~[~ + partial.join(~,~) + ~]~;
                gap = mind;
                _IOSTInstruction_counter.incr(v.length);
                delete(value[dup]);
                return v;
            }

            if (rep && typeof rep === ~object~) {
                length = rep.length;
                _IOSTInstruction_counter.incr(16 + 16 * length);
                for (i = 0; i < length; i += 1) {
                    if (typeof rep[i] === ~string~) {
                        k = rep[i];
                        v = str(k, value);
                        if (v) {
                            partial.push(quote(k) + (
                                (gap)
                                    ? ~: ~
                                    : ~:~
                            ) + v);
                        }
                    }
                }
            } else {
                const keys = Object.keys(value);
                _IOSTInstruction_counter.incr(16 + 16 * keys.length);
                for (k of keys) {
                    v = str(k, value);
                    if (v) {
                        partial.push(quote(k) + (
               ".

Definition __libjs_json_js_3 : string := js "             (gap)
                                ? ~: ~
                                : ~:~
                        ) + v);
                    }
                }
            }

            _IOSTInstruction_counter.incr(8 * partial.length);
            v = partial.length === 0
                ? ~{}~
                : gap
                    ? ~{\n~ + gap + partial.join(~,\n~ + gap) + ~\n~ + mind + ~}~
                    : ~{~ + partial.join(~,~) + ~}~;
            gap = mind;
            _IOSTInstruction_counter.incr(v.length);
            delete(value[dup]);
            return v;
        }
    }

    meta = {    // table of character substitutions
        ~\b~: ~\\b~,
        ~\t~: ~\\t~,
        ~\n~: ~\\n~,
        ~\f~: ~\\f~,
        ~\r~: ~\\r~,
        ~\~~: ~\\\~~,
        ~\\~: ~\\\\~
    };
    JSON.stringify = function (value, replacer, space) {
        _IOSTInstruction_counter.incr(24);
        let i;
        gap = ~~;
        indent = ~~;

        if (typeof space === ~number~) {
            _IOSTInstruction_counter.incr(2 * Math.abs(space));
            for (i = 0; i < space; i += 1) {
                indent += ~ ~;
            }
        } else if (typeof space === ~string~) {
            indent = space;
        }

        rep = replacer;
        if (replacer && typeof replacer !== ~function~ && (
            typeof replacer !== ~object~
            || typeof replacer.length !== ~number~
        )) {
            throw new Error(~JSON.stringify~);
        }

        const rs = str(~~, {~~: value});
        if (typeof rs == ~string~) {
            _IOSTInstruction_counter.incr(2 * rs.length);
        }
        return rs;
    };
}());" +:+ NUL.

Definition __libjs_json_js : string :=
  __libjs_json_js_0 +:+
  __libjs_json_js_1 +:+
  __libjs_json_js_2 +:+
  __libjs_json_js_3.

Definition __libjs_json_js_len : Z := 7067.

End LibJsCore.
