(* ===== verification/LibJsApi.v ===== *)
(** * Embedded JavaScript: the contract API and the module system

    The arrays of vm/v8vm/v8/libjs/include (storage.js.h, blockchain.js.h, vm.js.h),
    which the native code uses as C strings. Every byte of an array is a
    character of the text below ([js] turns the tilde, which no library
    contains, into the double quote); an array of more than 150 lines is cut
    into blocks, one definition each. *)

From stdpp Require Import base strings.
From S2P Require Import Prelude.

Module LibJsApi.

Definition __libjs_storage_js_0 : string := js "let IOSTContractStorage = (function () {

    let storage = new IOSTStorage;

    let simpleStorage = function () {
        this.put = function (k, v, p) {
            if (typeof v !== 'string') {
                throw new Error(~storage put must be string~);
            }
            if (p === undefined) {
                p = ~~;
            }
            return storage.put(k, v, p);
        };
        // payer not used
        this.get = function (k) {
            let p = ~~;
            return storage.get(k, p);
        };
        this.has = function (k) {
            let p = ~~;
            return storage.has(k, p);
        };
        this.del = function (k) {
            let p = ~~;
            return storage.del(k, p);
        }
    };
    let simpleStorageObj = new simpleStorage;

    let mapStorage = function () {
        this.mapPut = function (k, f, v, p) {
            if (typeof v !== 'string') {
                throw new Error(~storage mapPut must be string~);
            }
            if (p === undefined) {
                p = ~~;
            }
            return storage.mapPut(k, f, v, p);
        };
        // payer not used
        this.mapHas = function (k, f) {
            let p = ~~;
            return storage.mapHas(k, f, p);
        };
        this.mapGet = function (k, f) {
            let p = ~~;
            return storage.mapGet(k, f, p);
        };
        this.mapKeys = function (k) {
            let p = ~~;
            return JSON.parse(storage.mapKeys(k, p));
        };
        this.mapLen = function (k) {
            let p = ~~;
            return storage.mapLen(k, p);
        };
        this.mapDel = function (k, f) {
            let p = ~~;
            return storage.mapDel(k, f, p);
        }
    };
    let mapStorageObj = new".

Definition __libjs_storage_js_1 : string := js " mapStorage;

    let globalStorage = function () {
        // payer not used
        this.globalGet = function (c, k) {
            let p = ~~;
            return storage.globalGet(c, k, p);
        }
        this.globalHas = function (c, k) {
            let p = ~~;
            return storage.globalHas(c, k, p);
        }
        this.globalMapHas = function (c, k, f) {
            let p = ~~;
            return storage.globalMapHas(c, k, f, p);
        };
        this.globalMapGet = function (c, k, f) {
            let p = ~~;
            return storage.globalMapGet(c, k, f, p);
        };
        this.globalMapKeys = function (c, k) {
            let p = ~~;
            return JSON.parse(storage.globalMapKeys(c, k, p));
        };
        this.globalMapLen = function (c, k) {
            let p = ~~;
            return storage.globalMapLen(c, k, p);
        };
    };
    let globalStorageObj = new globalStorage;

    return {
        // simply put a k-v pair, value must be string!
        // put(key, value)
        put: simpleStorageObj.put,
        // simply get a value using key.
        // get(key)
        get: simpleStorageObj.get,
        has: simpleStorageObj.has,
        // simply del a k-v pair using key.
        // del(key)
        del: simpleStorageObj.del,
        // map put a (k, f, value) pair. use k + f to find value.
        // mapPut(key, field, value)
        mapPut: mapStorageObj.mapPut,
        // map check a (k, f) pair existence. use k + f to check.
        // mapHas(key, field)
        mapHas: mapStorageObj.mapHas,
        // map Get a (k, f) pair. use k + f to find value.
        // mapGet(key, field)
        mapGet: mapStorageObj.mapGet,
        // map Get fields inside a key.
        // mapKeys(key)
        mapKeys: mapStorageObj.mapKeys,
   ".

Definition __libjs_storage_js_2 : string := js "     mapLen: mapStorageObj.mapLen,
        // map Delete a (k, f) pair. use k + f to delete value.
        // mapDel(key, field)
        mapDel: mapStorageObj.mapDel,

        globalGet: globalStorageObj.globalGet,
        globalHas: globalStorageObj.globalHas,
        globalMapHas: globalStorageObj.globalMapHas,
        globalMapGet: globalStorageObj.globalMapGet,
        globalMapKeys: globalStorageObj.globalMapKeys,
        globalMapLen: globalStorageObj.globalMapLen,
    }
})();

module.exports = IOSTContractStorage;
" +:+ NUL.

Definition __libjs_storage_js : string :=
  __libjs_storage_js_0 +:+
  __libjs_storage_js_1 +:+
  __libjs_storage_js_2.

Definition __libjs_storage_js_len : Z := 4115.

Definition __libjs_blockchain_js_0 : string := js "let BlockChain = (function () {
    let bc = new IOSTBlockchain;
    let storage = new IOSTStorage;
    // get contractName
    let contractName = function () {
        let ctxInfo = JSON.parse(bc.contextInfo());
        return ctxInfo[~contract_name~];
    };
    // get publisher
    let publisher = function () {
        let ctxInfo = JSON.parse(bc.contextInfo());
        return ctxInfo[~publisher~];
    };
    // transfer IOSToken
    let transfer = function (from, to, amount, memo) {
        if (!(amount instanceof Float64)) {
            amount = new Float64(amount);
        }
        const args = [~iost~, from, to, amount.toString(), memo.toString()];
        return JSON.parse(bc.callWithAuth(~token.iost~, ~transfer~, JSON.stringify(args)));
    };
    return {
        // transfer IOSToken
        transfer: transfer,
        // withdraw IOSToken
        withdraw: function (to, amount, memo) {
            return transfer(contractName(), to, amount, memo);
        },
        // deposit IOSToken
        deposit: function (from, amount, memo) {
            return transfer(from, contractName(), amount, memo);
        },
        // get blockInfo
        blockInfo: function () {
            return bc.blockInfo();
        },
        // get transactionInfo
        txInfo: function () {
            return bc.txInfo();
        },
        // get transactionInfo
        contextInfo: function () {
            return bc.contextInfo();
        },
        // get contractName
        contractName: contractName,
        // get publisher
        publisher: publisher,
        // get contractOwner
        contractOwner: function() {
            return storage.globalMapGet(~system.iost~, ~contract_owner~, contractName(), ~~)
        },
        // call contract's api using arg".

Definition __libjs_blockchain_js_1 : string := js "s
        call: function (contract, api, args) {
            if (typeof args == ~object~) {
                args = JSON.stringify(args);
            }
            return JSON.parse(bc.call(contract, api, args));
        },
        // call contract's api using args with auth
        callWithAuth: function (contract, api, args) {
            if (typeof args == ~object~) {
                args = JSON.stringify(args);
            }
            return JSON.parse(bc.callWithAuth(contract, api, args));
        },
        // check account's permission
        requireAuth: function (accountID, permission) {
            return bc.requireAuth(accountID, permission);
        },
        // generate receipt
        receipt: function (content) {
            return bc.receipt(content);
        },
        // post event
        event: function (content) {
            return bc.event(content);
        },
    }
})();

module.exports = BlockChain;
" +:+ NUL.

Definition __libjs_blockchain_js : string :=
  __libjs_blockchain_js_0 +:+
  __libjs_blockchain_js_1.

Definition __libjs_blockchain_js_len : Z := 2729.

Definition __libjs_vm_js_0 : string := js "'use strict';

const require = (function(){
    const inner_native_require = _native_require;
    const inner_native_run = _native_run;
    let NativeModule = function(id) {
        this.filename = id + '.js';
        this.id = id;
        this.exports = {};
        this.loaded = false;
    }

    NativeModule._cache = {};

    NativeModule.require = function (id) {
        const cached = NativeModule.getCached(id);
        if (cached) {
            return cached.exports;
        }

        const nativeModule = new NativeModule(id);
        nativeModule.compile();
        nativeModule.cache();

        return nativeModule.exports;
    };

    NativeModule.getCached = function(id) {
        return NativeModule._cache[id];
    };

    NativeModule.getSource = function(id) {
        return inner_native_require(id);
    };

    NativeModule.wrap = function(script) {
        return NativeModule.wrapper[0] + script + NativeModule.wrapper[1];
    };

    NativeModule.wrapper = [
        '(function (exports, require, module, __filename, __dirname) {\n',
        '\n});'
    ];

    NativeModule.prototype.compile = function () {
        let source = NativeModule.getSource(this.id);
        source = NativeModule.wrap(source);

        const fn = inner_native_run(source, this.filename);
        fn(this.exports, NativeModule.require, this, this.filename);

        this.loaded = true;
    };

    NativeModule.prototype.cache = function() {
        NativeModule._cache[this.id] = this;
    };

    return NativeModule.require;
})();

// storage
const storage = require('storage');

// blockchain
const blockchain = require('blockchain');

// other helper functions
// var BigNumber = require('bignumber');
// var Int64 = require('int64');

// var injectGas = require('inject_gas'".

Definition __libjs_vm_js_1 : string := js ");

// crypto
const IOSTCrypto = new _IOSTCrypto;

const _IOSTInstruction_counter = new IOSTInstruction;

// + - * / % **, | & ^ >> >>> <<, || &&, == != === !== > >= < <=, instanceOf in
const _IOSTBinaryOp = function(left, right, op) {
    if ((typeof left === ~string~ || typeof right === ~string~) &&
        (op === ~==~ || op === ~!=~ || op === ~===~ || op === ~!==~ || op === ~<~ || op === ~<=~ || op === ~>~ || op === ~>=~)) {
        _IOSTInstruction_counter.incr(left === null || left === undefined || left.toString().length <= 0 ? 0 : left.toString().length);
        _IOSTInstruction_counter.incr(right === null || right === undefined || right.toString().length <= 0 ? 0 : right.toString().length);
    }
    _IOSTInstruction_counter.incr(3);
    switch (op) {
        case '+':
            const ret = left + right;
            if (typeof ret === ~string~) {
                _IOSTInstruction_counter.incr(ret.length);
            }
            return ret;
        case '-':
            return left - right;
        case '*':
            return left * right;
        case '/':
            return left / right;
        case '%':
            return left % right;
        case '**':
            return left ** right;
        case '|':
            return left | right;
        case '&':
            return left & right;
        case '^':
            return left ^ right;
        case '>>':
            return left >> right;
        case '>>>':
            return left >>> right;
        case '<<':
            return left << right;
        case '==':
            return left === right;
        case '!=':
            return left !== right;
        case '===':
            return left === right;
        case '!==':
            return left !== right;
        case '>':
            return left > ".

Definition __libjs_vm_js_2 : string := js "right;
        case '>=':
            return left >= right;
        case '<':
            return left < right;
        case '<=':
            return left <= right;
    }
};

const _IOSTTemplateTag = function(strings, ...keys) {
    _IOSTInstruction_counter.incr(4);
    let res = new String(~~);
    for (let i = 0; i < strings.length - 1; i++) {
        _IOSTInstruction_counter.incr(8);
        res = res.concat(strings[i], keys[i]);
    }
    res = res.concat(strings[strings.length - 1]);
    return res.toString();
};

const _IOSTSpreadElement = function (args) {
    if (args !== undefined && args !== null && args.length > 0) {
        _IOSTInstruction_counter.incr(args.length);
    }
    return args;
}
const console = new Console;
" +:+ NUL.

Definition __libjs_vm_js : string :=
  __libjs_vm_js_0 +:+
  __libjs_vm_js_1 +:+
  __libjs_vm_js_2.

Definition __libjs_vm_js_len : Z := 4329.

End LibJsApi.
