(* ===== verification/Modules.v ===== *)
(** * Embedded libraries, [require], the console and the VM bootstrap
    (vm/v8vm/v8/require.cc, console.cc, sandbox.cc: loadVM) *)

From Stdlib Require Import ZArith Lia SpecFloat.
From stdpp Require Import base gmap strings list.
From S2P Require Import Prelude Allocator V8 Bridge LibJsCore LibJsApi LibJsCompile.
Local Open Scope Z_scope.

Module Modules.
Import LibJsCore LibJsApi LibJsCompile.

(** ** The embedded arrays *)

Definition embedded : list (string * string * Z) :=
  [ ("console", __libjs_console_js, __libjs_console_js_len);
    ("utils", __libjs_utils_js, __libjs_utils_js_len);
    ("int64", __libjs_int64_js, __libjs_int64_js_len);
    ("float64", __libjs_float64_js, __libjs_float64_js_len);
    ("json", __libjs_json_js, __libjs_json_js_len);
    ("storage", __libjs_storage_js, __libjs_storage_js_len);
    ("blockchain", __libjs_blockchain_js, __libjs_blockchain_js_len);
    ("vm", __libjs_vm_js, __libjs_vm_js_len);
    ("validate", __libjs_validate_js, __libjs_validate_js_len);
    ("inject_gas", __libjs_inject_gas_js, __libjs_inject_gas_js_len) ]%string.

(** The array is a C string of [len] bytes: a terminating NUL follows them and
    there is none before. *)
Definition c_string_array (arr : string) (len : Z) : bool :=
  String.eqb (c_str arr +:+ NUL) arr && (Z.of_nat (String.length (c_str arr)) =? len).

Definition ascii7 (s : string) : bool :=
  forallb (fun a => Nat.ltb (Ascii.nat_of_ascii a) 128) (String.list_ascii_of_string s).

Lemma c_string_array_spec arr len :
  c_string_array arr len = true ->
  arr = c_str arr +:+ NUL /\ Z.of_nat (String.length (c_str arr)) = len.
Proof.
  unfold c_string_array. intros [He%String.eqb_eq Hl%Z.eqb_eq]%andb_prop. by rewrite He.
Qed.

(** Every embedded JavaScript array that the native code hands to V8 as a
    C string is one: it ends in a NUL, has no NUL before it, so that nothing is
    read past its end and nothing is cut off; the bytes in front are exactly
    the [_len] the header declares, and they are 7-bit, so that V8 decodes one
    character per byte. *)
Theorem embedded_c_strings (name arr : string) (len : Z) :
  (name, arr, len) ∈ embedded ->
  arr = c_str arr +:+ NUL /\ Z.of_nat (String.length (c_str arr)) = len /\
  no_nul (c_str arr) = true /\ ascii7 (c_str arr) = true.
Proof.
  intros Hin.
  assert (Hall : Forall (fun '(_, a, l) => c_string_array a l && ascii7 (c_str a) = true) embedded)
    by (repeat (constructor; [vm_compute; reflexivity|]); constructor).
  rewrite Forall_forall in Hall. specialize (Hall _ Hin). cbn in Hall.
  apply andb_prop in Hall as [[Ha Hl]%c_string_array_spec H7].
  repeat split; auto using c_str_no_nul.
Qed.

Lemma embedded_c_strings_witness : no_nul (c_str __libjs_int64_js) = true.
Proof.
  refine (proj1 (proj2 (proj2 (embedded_c_strings "int64" __libjs_int64_js __libjs_int64_js_len _)))).
  right; right; left.
Defined.

(** ** require.cc *)

(** [std::unordered_map<std::string, const char *> libJS]. *)
Definition libJS : list (string * string) :=
  [ ("storage", __libjs_storage_js); ("blockchain", __libjs_blockchain_js) ]%string.

Fixpoint find_lib (l : list (string * string)) (path : string) : option string :=
  match l with
  | [] => None
  | (name, src) :: l' => if String.eqb name path then Some src else find_lib l' path
  end.

(** The Go function behind [_cLog]: its [char *] result is an error message. *)
Class GoConsole (H : Type) := InitGoConsole {
  CConsole : CStr -> CStr -> H -> option string * H;
}.

Section Callbacks.
Context {H : Type} {codec : V8Codec} {go : GoConsole H}.
Local Open Scope cpp_scope.

(** The sandbox behind the global object, with the exception that reports that
    there is none. *)
Definition GlobalSandbox (info : FunctionCallbackInfo) (msg : string) : M H unit :=
  match global_field info with
  | External p => if decide (p = PSandbox) then mret tt else fun _ => UB
  | _ => ThrowError msg ;; creturn
  end.

(** The key of the lookup is [*pathStr], a [char *]: it ends at the first NUL. *)
Definition NewNativeRequire (info : FunctionCallbackInfo) : M H unit :=
  GlobalSandbox info "nativeRequire val error" ;;
  match arg info 0 with
  | JsString path =>
      match find_lib libJS (c_str (Utf8Value path)) with
      | None => creturn
      | Some src => SetReturnValue (JsString (NewFromUtf8 (c_str src)))
      end
  | _ => ThrowError "require empty module" ;; creturn
  end.

(** ** console.cc *)

(** [CConsole(sbxPtr, levelStr, logStr);]: the returned message is dropped. *)
Definition callConsole (level log : CStr) : M H unit := fun st =>
  let '(e, h') := CConsole level log (host st) in
  (go_error e ;; mret tt) (set_host h' st).

Definition NewConsoleLog (info : FunctionCallbackInfo) : M H unit :=
  GlobalSandbox info "consoleLog val error" ;;
  check (Length info =? 2) "consoleLog invalid argument length" ;;
  let levelVal := arg info 0 in
  check (IsString levelVal) "consoleLog log level must be string" ;;
  let logVal := arg info 1 in
  check (IsString logVal) "consoleLog log message must be string" ;;
  levelStr <- NewCStrChecked levelVal ;
  logStr <- NewCStrChecked logVal ;
  callConsole levelStr logStr.

(** [_native_require] never throws for a string: it returns the text of the
    embedded library of that name and leaves the return value alone for any
    other name, where a name ends at its first NUL; the texts it returns are
    the libraries byte for byte. *)
Lemma require_spec (info : FunctionCallbackInfo) (path : jsstring) (st : State H) :
  global_field info = External PSandbox -> arg info 0 = JsString path ->
  run (NewNativeRequire info) st = Some (
    if String.eqb (c_str (Utf8Value path)) "storage" then
      set_retval (JsString (NewFromUtf8 (c_str __libjs_storage_js))) st
    else if String.eqb (c_str (Utf8Value path)) "blockchain" then
      set_retval (JsString (NewFromUtf8 (c_str __libjs_blockchain_js))) st
    else st).
Proof.
  intros Hg Ha. unfold NewNativeRequire, GlobalSandbox, run, mbind. rewrite Hg, Ha.
  cbn [find_lib libJS decide]. rewrite decide_True by done. unfold mret, creturn.
  rewrite !(String.eqb_sym _ (c_str (Utf8Value path))).
  destruct (String.eqb (c_str (Utf8Value path)) "storage"); [done|].
  by destruct (String.eqb (c_str (Utf8Value path)) "blockchain").
Qed.

(** A log call with two acceptable strings reaches the Go logger exactly
    once and never throws, whatever the logger answers; when it answers with an
    error, the message is neither reported nor freed: exactly that buffer stays
    allocated. *)
Theorem console_drops_error (info : FunctionCallbackInfo) (level log : jsstring) (st : State H) :
  global_field info = External PSandbox -> info_args info = [JsString level; JsString log] ->
  short level -> short log ->
  let r := CConsole (cstr_of (Utf8Value level)) (cstr_of (Utf8Value log)) (host st) in
  run (NewConsoleLog info) st = Some (
    match r.1 with
    | None => set_host r.2 st
    | Some msg => set_next (S (next st)) (set_heap (<[next st := msg]> (heap st)) (set_host r.2 st))
    end).
Proof.
  destruct info as [args h g]. cbn [global_field info_args]. intros -> -> Hs1 Hs2.
  unfold NewConsoleLog, run, GlobalSandbox, check. unfold mbind at 1. cbn [global_field].
  rewrite decide_True by done. unfold Length, arg. cbn [info_args length].
  change (Z.of_nat 2 =? 2) with true. cbn [lookup list_lookup default from_option id IsString].
  unfold mret at 1. cbn -[NewCStrChecked callConsole].
  unfold mbind, mret, NewCStrChecked, short in *.
  destruct (Z.gtb_spec (Z.of_nat (length level)) INPUT_MAX_LENGTH); [lia|].
  destruct (Z.gtb_spec (Z.of_nat (length log)) INPUT_MAX_LENGTH); [lia|].
  unfold callConsole, mret. destruct (CConsole _ _ (host st)) as [[e|] h']; done.
Qed.

End Callbacks.

(** ** loadVM: the scripts a fresh sandbox runs, with their file names *)

Definition loadVM (envJsLib : string) (vmType : Z) : list (string * string) :=
  if vmType =? 0 then []
  else [ (c_str __libjs_vm_js, "vm.js"); (c_str envJsLib, "env.js") ]%string.

(** ** Witnesses *)

#[local] Existing Instance latin1.

Definition no_logger : GoConsole unit := InitGoConsole unit (fun _ _ h => (Some "no logger error"%string, h)).
#[local] Existing Instance no_logger.

Definition blank : State unit := initial_state (mkSandbox Allocator.new_allocator None 0 0 0 0) tt.

Definition require_info : FunctionCallbackInfo :=
  mkInfo [JsString [102; 115]] Undefined (External PSandbox).

Lemma require_spec_witness : run (NewNativeRequire require_info) blank = Some blank.
Proof. exact (require_spec require_info [102; 115] blank eq_refl eq_refl). Defined.

Definition log_info : FunctionCallbackInfo :=
  mkInfo [JsString [73]; JsString [104; 105]] Undefined (External PSandbox).

Lemma console_drops_error_witness :
  run (NewConsoleLog log_info) blank =
  Some (set_next 1 (set_heap {[ 0%nat := "no logger error"%string ]} blank)).
Proof.
  refine (console_drops_error log_info [73] [104; 105] blank eq_refl eq_refl _ _); vm_compute; congruence.
Defined.

End Modules.
