(* ===== verification/Compile.v ===== *)
(** * Compiling and validating contracts, and the start-up snapshots
    (vm/v8vm/v8/compile.cc, with the escaping of vm/v8vm/module.go)

    The source of a contract reaches the compiler as a JavaScript string
    literal: Go escapes it, the native code pastes it between two quotes of a
    script template with [asprintf], and V8 runs the script. *)

From Stdlib Require Import ZArith Lia Ascii.
From stdpp Require Import base strings list.
From S2P Require Import Prelude LibJsCore LibJsCompile Execution.
Local Open Scope Z_scope.

Module Compile.
Import LibJsCore LibJsCompile Execution.

(** ** Characters *)

Abbreviation chr n := (Ascii.ascii_of_nat n).
Definition LF : Ascii.ascii := chr 10.
Definition CR : Ascii.ascii := chr 13.
Definition DQ : Ascii.ascii := chr 34.
Definition BS : Ascii.ascii := chr 92.
Definition PERCENT : Ascii.ascii := chr 37.

(** Text of the native code: the tilde stands for the double quote and the
    caret for the end of a line. *)
Fixpoint text (s : string) : string :=
  match s with
  | EmptyString => EmptyString
  | String a s' =>
      String (if Ascii.eqb a (chr 126) then DQ else if Ascii.eqb a (chr 94) then LF else a) (text s')
  end.

(** ** asprintf, for templates that only use [%s] *)

(** Each [%s] takes the next argument as a C string; [None] when there is none
    left, or for another conversion. *)
Fixpoint asprintf (fmt : string) (args : list string) : option string :=
  match fmt with
  | EmptyString => Some EmptyString
  | String a rest =>
      if Ascii.eqb a PERCENT then
        match rest, args with
        | String b rest', x :: args' =>
            if Ascii.eqb b (chr 115)
            then option_map (fun t => c_str x +:+ t) (asprintf rest' args')
            else None
        | _, _ => None
        end
      else option_map (String a) (asprintf rest args)
  end.

Definition injectGasFormat : string :=
  text "(function(){^const source = ~%s~;^return injectGas(source);^})();".

Definition validateFormat : string :=
  text "(function(){^const source = ~%s~;^return validate(source, %s);^})();".

Definition codeFormat : string :=
  text "let module = {};^module.exports = {};^%s^%s^let BigNumber = module.exports;^%s^%s^%s^%s^".

Definition compileCodeFormat : string :=
  text "let exports = {};^let module = {};^module.exports = {};^%s^const esprima = module.exports;^%s^const escodegen = module.exports;^%s^%s^".

(** ** compileInternal *)

(** What V8 makes of a script: it does not compile, it ends without a value
    (with or without a pending exception), or with a value, as UTF-8. *)
Inductive ScriptResult :=
  | ScriptEmpty
  | ResultEmpty (tc : option TryCatch)
  | ResultValue (utf8 : string).

Record CStrBuf := mkBuf { buf : string; buf_size : Z }.

(** [strdup] copies up to the first NUL; the sizes are the full lengths. *)
Definition strdup (s : string) : string := c_str s.

Record CompileResult := mkCompile {
  status : Z;
  ret_buf : option CStrBuf;
  err_buf : option CStrBuf;
}.

(** From [if (!script.IsEmpty())] on. *)
Definition finishScript (res : ScriptResult) : CompileResult :=
  match res with
  | ResultValue retStr =>
      if Z.of_nat (String.length retStr) =? 0 then mkCompile 1 None None
      else mkCompile 0 (Some (mkBuf (strdup retStr) (Z.of_nat (String.length retStr)))) None
  | ResultEmpty (Some tc) =>
      let exception := reportException tc in
      mkCompile 1 None (Some (mkBuf (strdup exception) (Z.of_nat (String.length exception))))
  | ResultEmpty None | ScriptEmpty =>
      mkCompile 1 None (Some (mkBuf (strdup "script is empty")
        (Z.of_nat (String.length (strdup "script is empty")))))
  end.

Section Engine.
Context (v8_run : string -> string -> ScriptResult).   (* source, file name *)

Definition compileInternal (code : string) (extra : option string) (format file : string)
  : option CompileResult :=
  match asprintf format (code :: match extra with None => [] | Some e => [e] end) with
  | None => None
  | Some formatedCode => Some (finishScript (v8_run formatedCode file))
  end.

Definition compile (code : string) : option CompileResult :=
  compileInternal code None injectGasFormat "__inject_gas.js".

Definition validate (code abi : string) : option CompileResult :=
  compileInternal code (Some abi) validateFormat "__validate.js".

End Engine.

(** ** The snapshots *)

(** The scripts [createStartupData] and [createCompileStartupData] run; the
    bundled third-party libraries are parameters. *)
Definition createStartupData (bignumberjs : string) : option string :=
  asprintf codeFormat [__libjs_json_js; bignumberjs; __libjs_int64_js; __libjs_float64_js;
    __libjs_utils_js; __libjs_console_js].

Definition createCompileStartupData (esprimajs escodegenjs : string) : option string :=
  asprintf compileCodeFormat [esprimajs; escodegenjs; __libjs_validate_js; __libjs_inject_gas_js].

(** ** Escaping (module.go: moduleReplacer) *)

Definition is_E280 (a b : Ascii.ascii) : bool :=
  Ascii.eqb a (chr 226) && Ascii.eqb b (chr 128).

(** U+2028 and U+2029 are the bytes E2 80 A8 and E2 80 A9. *)
Definition separator (a : Ascii.ascii) (s : string) : option (bool * string) :=
  match s with
  | String b (String c s') =>
      if is_E280 a b && Ascii.eqb c (chr 168) then Some (true, s')
      else if is_E280 a b && Ascii.eqb c (chr 169) then Some (false, s')
      else None
  | _ => None
  end.

Fixpoint moduleReplacer (s : string) : string :=
  match s with
  | EmptyString => EmptyString
  | String a s1 =>
      if Ascii.eqb a BS then String BS (String BS (moduleReplacer s1))
      else if Ascii.eqb a LF then String BS (String "n" (moduleReplacer s1))
      else if Ascii.eqb a CR then String BS (String "r" (moduleReplacer s1))
      else if Ascii.eqb a DQ then String BS (String DQ (moduleReplacer s1))
      else if Ascii.eqb a Ascii.zero then
        String BS (String BS (String "x" (String "0" (String "0" (moduleReplacer s1)))))
      else match s1 with
      | String b (String c s3) =>
          if is_E280 a b && Ascii.eqb c (chr 168) then
            String BS (String "u" (String "2" (String "0" (String "2" (String "8" (moduleReplacer s3))))))
          else if is_E280 a b && Ascii.eqb c (chr 169) then
            String BS (String "u" (String "2" (String "0" (String "2" (String "9" (moduleReplacer s3))))))
          else String a (moduleReplacer s1)
      | _ => String a (moduleReplacer s1)
      end
  end%char.

(** ** JavaScript string literals *)

(** The double-quoted string literal whose opening quote was just read: its
    value and the text after its closing quote. Line terminators are not
    allowed inside; escapes outside this grammar give [None]. *)
Fixpoint lex_literal (s : string) : option (string * string) :=
  match s with
  | EmptyString => None
  | String a s1 =>
      if Ascii.eqb a DQ then Some (EmptyString, s1)
      else if Ascii.eqb a LF || Ascii.eqb a CR then None
      else if Ascii.eqb a BS then
        match s1 with
        | String b s2 =>
            let put c := option_map (fun r => (String c (fst r), snd r)) in
            if Ascii.eqb b BS then put BS (lex_literal s2)
            else if Ascii.eqb b DQ then put DQ (lex_literal s2)
            else if Ascii.eqb b "n" then put LF (lex_literal s2)
            else if Ascii.eqb b "r" then put CR (lex_literal s2)
            else if Ascii.eqb b "u" then
              match s2 with
              | String "2" (String "0" (String "2" (String d s6))) =>
                  if Ascii.eqb d "8" then
                    option_map (fun r => (String (chr 226) (String (chr 128) (String (chr 168) (fst r))), snd r))
                      (lex_literal s6)
                  else if Ascii.eqb d "9" then
                    option_map (fun r => (String (chr 226) (String (chr 128) (String (chr 169) (fst r))), snd r))
                      (lex_literal s6)
                  else None
              | _ => None
              end
            else None
        | EmptyString => None
        end
      else match separator a s1 with
      | Some _ => None
      | None => option_map (fun r => (String a (fst r), snd r)) (lex_literal s1)
      end
  end%char.

(** A NUL of the source is replaced by its escape, spelled out. *)
Fixpoint spell_nul (s : string) : string :=
  match s with
  | EmptyString => EmptyString
  | String a s' =>
      if Ascii.eqb a Ascii.zero then text "\x00" +:+ spell_nul s' else String a (spell_nul s')
  end.

(** ** The literal cannot be left early *)

Lemma eqb_false a b : a <> b -> Ascii.eqb a b = false.
Proof. apply Ascii.eqb_neq. Qed.

(** The characters the replacer leaves alone on their own. *)
Definition plain (a : Ascii.ascii) : bool :=
  negb (Ascii.eqb a BS || Ascii.eqb a LF || Ascii.eqb a CR || Ascii.eqb a DQ || Ascii.eqb a Ascii.zero).

(** What the replacer does with a string, by its head. *)
Inductive head_view : string -> Prop :=
  | hv_nil : head_view EmptyString
  | hv_special a s : plain a = false -> head_view (String a s)
  | hv_separator a s low s' : plain a = true -> separator a s = Some (low, s') -> head_view (String a s)
  | hv_plain a s : plain a = true -> separator a s = None -> head_view (String a s).

Lemma head_cases s : head_view s.
Proof.
  destruct s as [|a s]; [constructor|]. destruct (plain a) eqn:Hp; [|by constructor].
  destruct (separator a s) as [[low s']|] eqn:Hs; [by econstructor|by apply hv_plain].
Qed.

Lemma plain_spec a :
  plain a = true -> Ascii.eqb a BS = false /\ Ascii.eqb a LF = false /\ Ascii.eqb a CR = false /\
    Ascii.eqb a DQ = false /\ Ascii.eqb a Ascii.zero = false.
Proof. unfold plain. rewrite negb_true_iff, !orb_false_iff. tauto. Qed.

Lemma replacer_plain a s :
  plain a = true -> separator a s = None ->
  moduleReplacer (String a s) = String a (moduleReplacer s).
Proof.
  intros (E1 & E2 & E3 & E4 & E5)%plain_spec Hs. cbn [moduleReplacer]. rewrite E1, E2, E3, E4, E5.
  destruct s as [|b [|c s']]; [done..|]. cbn [separator] in Hs.
  by destruct (is_E280 a b && Ascii.eqb c (chr 168)), (is_E280 a b && Ascii.eqb c (chr 169)).
Qed.

Lemma separator_inv a s low s' :
  separator a s = Some (low, s') ->
  a = chr 226 /\ s = String (chr 128) (String (if low then chr 168 else chr 169) s').
Proof.
  destruct s as [|b [|c s3]]; [done..|]. cbn [separator]. unfold is_E280.
  destruct (Ascii.eqb_spec a (chr 226)) as [->|]; [|done].
  destruct (Ascii.eqb_spec b (chr 128)) as [->|]; [|done]. cbn [andb].
  destruct (Ascii.eqb_spec c (chr 168)) as [->|]; [by intros [= <- <-]|].
  destruct (Ascii.eqb_spec c (chr 169)) as [->|]; [by intros [= <- <-]|done].
Qed.

Lemma replacer_separator a s low s' :
  separator a s = Some (low, s') ->
  moduleReplacer (String a s) =
  text (if low then "\u2028" else "\u2029") +:+ moduleReplacer s'.
Proof. intros [-> ->]%separator_inv. by destruct low. Qed.

(** The escape of a character that is not plain. *)
Definition escape (a : Ascii.ascii) : string :=
  if Ascii.eqb a LF then text "\n" else if Ascii.eqb a CR then text "\r"
  else if Ascii.eqb a Ascii.zero then text "\\x00" else String BS (String a EmptyString).

Lemma special_cases a :
  plain a = false -> a = BS \/ a = LF \/ a = CR \/ a = DQ \/ a = Ascii.zero.
Proof. unfold plain. rewrite negb_false_iff, !orb_true_iff, !Ascii.eqb_eq. tauto. Qed.

Ltac each_special H :=
  destruct (special_cases _ H) as [->|[->|[->|[->| ->]]]].

Lemma replacer_special a s :
  plain a = false -> moduleReplacer (String a s) = escape a +:+ moduleReplacer s.
Proof. intros H. by each_special H. Qed.

(** A character of the output that is not a backslash was copied from the
    input. *)
Lemma replacer_copied s t c r :
  moduleReplacer s +:+ String DQ t = String c r -> c <> BS -> c <> DQ ->
  exists s', s = String c s' /\ r = moduleReplacer s' +:+ String DQ t.
Proof.
  destruct (head_cases s) as [|a s Ha|a s low s' Ha Hs|a s Ha Hs].
  - by intros [= <- _].
  - rewrite replacer_special by done. by each_special Ha; intros [= <- _].
  - rewrite (replacer_separator _ _ _ _ Hs). by destruct low; intros [= <- _].
  - rewrite replacer_plain by done. intros [= <- <-]. by eauto.
Qed.

Lemma separator_escaped a s t :
  separator a s = None -> separator a (moduleReplacer s +:+ String DQ t) = None.
Proof.
  intros Hs. destruct (separator _ (_ +:+ _)) as [[low r]|] eqn:E; [|done].
  apply separator_inv in E as [-> E].
  apply replacer_copied in E as (s1 & -> & E%symmetry); [|done..].
  apply replacer_copied in E as (s2 & -> & _); [|by destruct low..]. by destruct low.
Qed.

Lemma lex_plain a s :
  plain a = true -> separator a s = None ->
  lex_literal (String a s) = option_map (fun r => (String a (fst r), snd r)) (lex_literal s).
Proof.
  intros (E1 & E2 & E3 & E4 & E5)%plain_spec Hs. cbn [lex_literal].
  by rewrite E1, E2, E3, E4, Hs.
Qed.

Lemma separator_first a s : Ascii.eqb a (chr 226) = false -> separator a s = None.
Proof. intros E. destruct s as [|b [|c s]]; [done..|]. unfold separator, is_E280. by rewrite E. Qed.

Lemma lex_special a s :
  plain a = false ->
  lex_literal (escape a +:+ s) =
  option_map (fun r => (spell_nul (String a EmptyString) +:+ fst r, snd r)) (lex_literal s).
Proof.
  intros H. each_special H; try reflexivity.
  transitivity (option_map (fun r => (String BS (fst r), snd r)) (lex_literal ("x00" +:+ s))); [done|].
  rewrite !app_cons, !lex_plain by (done || by apply separator_first).
  change (EmptyString +:+ s) with s. by destruct (lex_literal s).
Qed.

Lemma lex_separator (low : bool) s :
  lex_literal (text (if low then "\u2028" else "\u2029") +:+ s) =
  option_map (fun r => (String (chr 226) (String (chr 128)
    (String (if low then chr 168 else chr 169) (fst r))), snd r)) (lex_literal s).
Proof. by destruct low. Qed.

Lemma spell_cons a s : spell_nul (String a s) = spell_nul (String a EmptyString) +:+ spell_nul s.
Proof. cbn [spell_nul]. by destruct (Ascii.eqb a Ascii.zero). Qed.

Lemma literal_value s tail :
  lex_literal (moduleReplacer s +:+ String DQ tail) = Some (spell_nul s, tail).
Proof.
  induction s as [s IH] using (induction_ltof1 _ String.length); unfold ltof in IH.
  destruct (head_cases s) as [|a s Ha|a s low s' Ha Hs|a s Ha Hs]; [done|..].
  - rewrite replacer_special, app_assoc3, lex_special, IH, (spell_cons a s) by (done || cbn; lia). done.
  - rewrite (replacer_separator _ _ _ _ Hs), app_assoc3, lex_separator.
    apply separator_inv in Hs as [-> ->]. rewrite IH by (cbn; lia). by destruct low.
  - rewrite replacer_plain, app_cons, lex_plain, IH by (auto using separator_escaped || cbn; lia).
    apply plain_spec in Ha as (_ & _ & _ & _ & E). cbn [spell_nul]. by rewrite E.
Qed.

Lemma replacer_no_nul s : no_nul (moduleReplacer s) = true.
Proof.
  induction s as [s IH] using (induction_ltof1 _ String.length); unfold ltof in IH.
  destruct (head_cases s) as [|a s Ha|a s low s' Ha Hs|a s Ha Hs]; [done|..].
  - rewrite replacer_special, no_nul_app, IH by (done || cbn; lia). by each_special Ha.
  - rewrite (replacer_separator _ _ _ _ Hs), no_nul_app. apply separator_inv in Hs as [-> ->].
    rewrite IH by (cbn; lia). by destruct low.
  - rewrite replacer_plain by done. cbn [no_nul]. rewrite IH by (cbn; lia).
    by apply plain_spec in Ha as (_ & _ & _ & _ & ->).
Qed.

Lemma spell_nul_id s : no_nul s = true -> spell_nul s = s.
Proof.
  induction s as [|a s IH]; [done|]. cbn [no_nul spell_nul].
  destruct (Ascii.eqb a Ascii.zero); [done|]. intros H. by rewrite IH.
Qed.

(** ** The templates *)

Fixpoint no_percent (s : string) : bool :=
  match s with
  | EmptyString => true
  | String a s' => negb (Ascii.eqb a PERCENT) && no_percent s'
  end.

Lemma asprintf_text lit rest args :
  no_percent lit = true ->
  asprintf (lit +:+ rest) args = option_map (fun t => lit +:+ t) (asprintf rest args).
Proof.
  induction lit as [|a lit IH].
  { change (EmptyString +:+ rest) with rest. by destruct (asprintf rest args). }
  cbn [no_percent].
  intros [Ha%negb_true_iff Hl]%andb_prop. rewrite app_cons. cbn [asprintf]. rewrite Ha, IH by done.
  by destruct (asprintf rest args).
Qed.

Lemma asprintf_arg rest x args :
  asprintf (text "%s" +:+ rest) (x :: args) = option_map (fun t => c_str x +:+ t) (asprintf rest args).
Proof. reflexivity. Qed.

Lemma asprintf_end lit : no_percent lit = true -> asprintf lit [] = Some lit.
Proof.
  intros Hl. assert (Ha : forall s, s +:+ EmptyString = s).
  { intros s. induction s as [|a s IH]; [done|]. by rewrite app_cons, IH. }
  rewrite <- (Ha lit), asprintf_text by done. cbn. by rewrite Ha.
Qed.

(** Expands a template piece by piece. *)
Ltac asprintf_all :=
  repeat first [ rewrite asprintf_arg | rewrite asprintf_end by reflexivity
               | rewrite asprintf_text by reflexivity ]; cbn [option_map].

Definition injectGasHead : string := text "(function(){^const source = ~".
Definition injectGasTail : string := text ";^return injectGas(source);^})();".
Definition validateTail (abi : string) : string :=
  text ";^return validate(source, " +:+ c_str abi +:+ text ");^})();".

(** The two scripts, for a text already escaped. *)
Definition injectGasScript (code : string) : string :=
  injectGasHead +:+ c_str code +:+ String DQ injectGasTail.
Definition validateScript (code abi : string) : string :=
  injectGasHead +:+ c_str code +:+ String DQ (validateTail abi).

Lemma injectGas_script code : asprintf injectGasFormat [code] = Some (injectGasScript code).
Proof.
  change injectGasFormat with (injectGasHead +:+ text "%s" +:+ String DQ injectGasTail).
  by asprintf_all.
Qed.

Lemma validate_script code abi : asprintf validateFormat [code; abi] = Some (validateScript code abi).
Proof.
  change validateFormat with (injectGasHead +:+ text "%s" +:+
    text "~;^return validate(source, " +:+ text "%s" +:+ text ");^})();").
  by asprintf_all.
Qed.

(** C5: whatever bytes the source of a contract has, [compile] and [validate]
    run the fixed script with that source as the value of one string literal:
    the literal ends exactly where the template goes on, so no source can close
    it early and inject code into the compiler's context, and its value is the
    source itself when the source has no NUL byte; each NUL of the source is
    read back as the four characters of its escape, backslash x 0 0. *)
Theorem compile_no_injection (v8_run : string -> string -> ScriptResult) (code abi : string) :
  (exists body,
     lex_literal body = Some (spell_nul code, injectGasTail) /\
     compile v8_run (moduleReplacer code) =
       Some (finishScript (v8_run (injectGasHead +:+ body) "__inject_gas.js"%string))) /\
  (exists body,
     lex_literal body = Some (spell_nul code, validateTail abi) /\
     validate v8_run (moduleReplacer code) abi =
       Some (finishScript (v8_run (injectGasHead +:+ body) "__validate.js"%string))) /\
  (no_nul code = true -> spell_nul code = code).
Proof.
  split_and!; [eexists; split; [apply literal_value|].. |apply spell_nul_id];
    unfold compile, validate, compileInternal.
  - rewrite injectGas_script. unfold injectGasScript. by rewrite c_str_id by apply replacer_no_nul.
  - rewrite validate_script. unfold validateScript. by rewrite c_str_id by apply replacer_no_nul.
Qed.

(** ** The buffers handed back *)

Definition proper (b : CStrBuf) : Prop := Z.of_nat (String.length (buf b)) = buf_size b.

Lemma strdup_proper s :
  proper (mkBuf (strdup s) (Z.of_nat (String.length s))) <-> no_nul s = true.
Proof.
  unfold proper, strdup. cbn [buf buf_size]. rewrite Nat2Z.inj_iff. split.
  - assert (Hle : forall t, (String.length (c_str t) <= String.length t)%nat).
    { intros t. induction t as [|a t IH]; cbn; [lia|]. case_match; cbn; lia. }
    induction s as [|a s IH]; [done|]. cbn. case_match; cbn; [done|]. intros [= E]. by apply IH.
  - intros H. by rewrite c_str_id.
Qed.

(** What a script's end has to be reported as. *)
Inductive outcome : ScriptResult -> CompileResult -> Prop :=
  | outcome_value utf8 b :
      utf8 <> EmptyString -> buf b = c_str utf8 -> buf_size b = Z.of_nat (String.length utf8) ->
      (proper b <-> no_nul utf8 = true) ->
      outcome (ResultValue utf8) (mkCompile 0 (Some b) None)
  | outcome_blank : outcome (ResultValue EmptyString) (mkCompile 1 None None)
  | outcome_thrown tc b :
      buf b = reportException tc -> buf b <> EmptyString -> proper b ->
      outcome (ResultEmpty (Some tc)) (mkCompile 1 None (Some b))
  | outcome_missing res b :
      res = ScriptEmpty \/ res = ResultEmpty None ->
      buf b = "script is empty"%string -> proper b ->
      outcome res (mkCompile 1 None (Some b)).

Lemma finish_outcome res : outcome res (finishScript res).
Proof.
  destruct res as [|[tc|]|utf8]; cbn [finishScript].
  - by apply outcome_missing; [left|..].
  - apply outcome_thrown; cbn [buf]; unfold strdup.
    + apply c_str_id, report_no_nul.
    + rewrite c_str_id by apply report_no_nul. apply report_not_empty.
    + apply strdup_proper, report_no_nul.
  - by apply outcome_missing; [right|..].
  - destruct (Z.eqb_spec (Z.of_nat (String.length utf8)) 0) as [E|E].
    + destruct utf8; [constructor|cbn in E; lia].
    + apply outcome_value; [by intros ->|done..|apply strdup_proper].
Qed.

(** C34: compiling and validating always return, whatever the text they are
    given, having run the template's script once under its file name, and report
    its end on every branch: a value that is not empty gives status 0, no error
    and a result buffer that holds the value up to its first NUL, with the full
    length as its size, so that the two agree exactly when the value has no
    NUL; an exception gives status 1, no result and the whole report of the
    exception, never empty, with its length; a script that does not compile, or
    ends without value and exception, gives status 1 and the message that says
    so; an empty value gives status 1 and no buffer at all. *)
Theorem compile_outcome (v8_run : string -> string -> ScriptResult) (code abi : string) :
  (exists r, compile v8_run code = Some r /\
     outcome (v8_run (injectGasScript code) "__inject_gas.js"%string) r) /\
  (exists r, validate v8_run code abi = Some r /\
     outcome (v8_run (validateScript code abi) "__validate.js"%string) r).
Proof.
  unfold compile, validate, compileInternal. rewrite injectGas_script, validate_script.
  split; (eexists; split; [reflexivity|apply finish_outcome]).
Qed.

(** ** The start-up scripts *)

(** The scripts the two snapshots are made from: each embedded library, in
    full and in the order the code names them, in the slots of its template. *)
Theorem startup_sources (bignumberjs esprimajs escodegenjs : string) :
  createStartupData bignumberjs = Some (
    text "let module = {};^module.exports = {};^" +:+
    c_str __libjs_json_js +:+ text "^" +:+ c_str bignumberjs +:+
    text "^let BigNumber = module.exports;^" +:+
    c_str __libjs_int64_js +:+ text "^" +:+ c_str __libjs_float64_js +:+ text "^" +:+
    c_str __libjs_utils_js +:+ text "^" +:+ c_str __libjs_console_js +:+ text "^") /\
  createCompileStartupData esprimajs escodegenjs = Some (
    text "let exports = {};^let module = {};^module.exports = {};^" +:+
    c_str esprimajs +:+ text "^const esprima = module.exports;^" +:+
    c_str escodegenjs +:+ text "^const escodegen = module.exports;^" +:+
    c_str __libjs_validate_js +:+ text "^" +:+ c_str __libjs_inject_gas_js +:+ text "^").
Proof.
  unfold createStartupData, createCompileStartupData. split.
  - change codeFormat with (text "let module = {};^module.exports = {};^" +:+ text "%s" +:+ text "^" +:+
      text "%s" +:+ text "^let BigNumber = module.exports;^" +:+ text "%s" +:+ text "^" +:+
      text "%s" +:+ text "^" +:+ text "%s" +:+ text "^" +:+ text "%s" +:+ text "^").
    by asprintf_all.
  - change compileCodeFormat with (text "let exports = {};^let module = {};^module.exports = {};^" +:+
      text "%s" +:+ text "^const esprima = module.exports;^" +:+ text "%s" +:+
      text "^const escodegen = module.exports;^" +:+ text "%s" +:+ text "^" +:+ text "%s" +:+ text "^").
    by asprintf_all.
Qed.

(** ** Witnesses *)

Lemma compile_no_injection_witness : spell_nul "let a;" = "let a;"%string.
Proof.
  apply (proj2 (proj2 (compile_no_injection (fun _ _ => ScriptEmpty) "let a;" "[]"))). reflexivity.
Defined.

End Compile.
