(* ===== verification/Lifecycle.v ===== *)
(** * Life cycle of isolates and sandboxes
    (vm/v8vm/v8/vm.cc: newIsolate, releaseIsolate; sandbox.cc: newSandbox,
    resetSandbox, releaseSandbox, setJSPath, setSandboxGasLimit,
    setSandboxMemLimit, createGlobalTpl)

    The native heap is a finite map from addresses to cells that remember how
    they were allocated; releasing a cell by the wrong operation, or twice, is
    undefined. The sandbox is a graph of seven cells; the API files see it as
    the flat record [V8.Sandbox], and this file relates the two. *)

From Stdlib Require Import ZArith Lia.
From stdpp Require Import base gmap strings list.
From S2P Require Import Prelude Allocator V8 Storage Blockchain CryptoApi Instruction.
Local Open Scope Z_scope.

Module Lifecycle.

(** ** The native heap *)

Abbreviation ptr := nat.

(** How a cell was allocated: [strdup], [new], [new[]], or by V8 (an isolate,
    a persistent handle). *)
Inductive AllocKind := Malloc | New | NewArray | Engine.
#[global] Instance AllocKind_eq_dec : EqDecision AllocKind.
Proof. solve_decision. Defined.

Inductive Api := ABlockchain | ACrypto | AStorage.

(** [typedef struct {...} Sandbox]; [threadPool] is never set. *)
Record SandboxCell := mkCell {
  c_context : option ptr;          (* Persistent<Context> *)
  c_isolate : ptr;
  c_allocator : ptr;
  c_jsPath : option ptr;           (* nullptr is [None] *)
  c_gasUsed : Z;
  c_gasLimit : Z;
  c_memLimit : Z;
  c_blockchain : ptr;
  c_crypto : ptr;
  c_instruction : ptr;
  c_storage : ptr;
}.

Inductive Obj :=
  | OIsolate (blob : ptr)
  | OWrapper (isolate allocator : ptr)               (* IsolateWrapper *)
  | OStartupData (data : string)
  | OAllocator (a : Allocator.ArrayBufferAllocator)
  | OSandbox (s : SandboxCell)
  | OContext (globals : list (string * list string)) (field0 : ptr) (codegen : bool)
  | OString (s : string)
  | OApi (k : Api) (sbx : ptr)
  | OInstruction (sbx : ptr) (count : Z).

Record World := mkWorld { cells : gmap nat (AllocKind * Obj); fresh : nat }.

(** Computations on the heap; [None] is undefined behaviour. *)
Definition HM (A : Type) : Type := World -> option (A * World).
Definition ret {A} (x : A) : HM A := fun w => Some (x, w).
Definition bind {A B} (m : HM A) (k : A -> HM B) : HM B := fun w =>
  match m w with None => None | Some (x, w') => k x w' end.
Notation "'let*' x := m 'in' k" := (bind m (fun x => k))
  (at level 10, x pattern, m at level 100, k at level 200).
Notation "m ;* k" := (bind m (fun _ => k)) (at level 60, right associativity).

Definition alloc (k : AllocKind) (o : Obj) : HM ptr := fun w =>
  Some (fresh w, mkWorld (<[fresh w := (k, o)]> (cells w)) (S (fresh w))).

Definition load (p : ptr) : HM Obj := fun w =>
  match cells w !! p with Some (_, o) => Some (o, w) | None => None end.

Definition store (p : ptr) (o : Obj) : HM unit := fun w =>
  match cells w !! p with
  | Some (k, _) => Some (tt, mkWorld (<[p := (k, o)]> (cells w)) (fresh w))
  | None => None
  end.

Definition dealloc (k : AllocKind) (p : ptr) : HM unit := fun w =>
  match cells w !! p with
  | Some (k', _) =>
      if decide (k = k') then Some (tt, mkWorld (delete p (cells w)) (fresh w)) else None
  | None => None
  end.

Definition undefined {A} : HM A := fun _ => None.

(** ** vm.cc *)

Definition newIsolate (customStartupData : string) : HM ptr :=
  let* wrapper := alloc New (OWrapper 0 0) in
  let* blob := alloc New (OStartupData customStartupData) in
  let* allocator := alloc New (OAllocator Allocator.new_allocator) in
  let* isolate := alloc Engine (OIsolate blob) in
  store wrapper (OWrapper isolate allocator) ;*
  ret wrapper.

Definition releaseIsolate (p : option ptr) : HM unit :=
  match p with
  | None => ret tt
  | Some p =>
      let* o := load p in
      match o with
      | OWrapper isolate _ => dealloc Engine isolate
      | _ => undefined
      end
  end.

(** ** sandbox.cc *)

Definition sandboxMemLimit : Z := 100000000.

Section Template.
Context {HS HB HI HC : Type} {codec : V8Codec}.
Context {goS : Storage.GoStorage HS} {goB : Blockchain.GoBlockchain HB} {goC : CryptoApi.GoCrypto HC}.

(** The properties of the global object, in the order they are installed, with
    the methods of those that are classes. *)
Definition createGlobalTpl (flags : Z) : list (string * list string) :=
  [ ("IOSTStorage", (Storage.InitStorage (H := HS)).*1);
    ("IOSTBlockchain", (Blockchain.InitBlockchain (H := HB)).*1);
    ("IOSTInstruction", (Instruction.InitInstruction (H := HI)).*1);
    ("_IOSTCrypto", (CryptoApi.InitCrypto (H := HC) flags).*1);
    ("_native_log", []);
    ("_native_run", []) ]%string.

(** The installation of the context's template, and the sandbox. *)
Definition newSandbox (p : ptr) (flags : Z) : HM ptr :=
  let* o := load p in
  match o with
  | OWrapper isolate allocator =>
      let* sbx := alloc New (OSandbox (mkCell None 0 0 None 0 0 0 0 0 0 0)) in
      let* context := alloc Engine (OContext (createGlobalTpl flags) sbx false) in
      let* jsPath := alloc Malloc (OString "v8/libjs") in
      let* blockchain := alloc New (OApi ABlockchain sbx) in
      let* crypto := alloc New (OApi ACrypto sbx) in
      let* instruction := alloc New (OInstruction sbx 0) in
      let* storage := alloc New (OApi AStorage sbx) in
      store sbx (OSandbox (mkCell (Some context) isolate allocator (Some jsPath) 0 0
        sandboxMemLimit blockchain crypto instruction storage)) ;*
      ret sbx
  | _ => undefined
  end.

End Template.

Definition load_sandbox (p : ptr) : HM SandboxCell :=
  let* o := load p in
  match o with OSandbox s => ret s | _ => undefined end.

Definition set_c_gasUsed g s := mkCell (c_context s) (c_isolate s) (c_allocator s) (c_jsPath s) g
  (c_gasLimit s) (c_memLimit s) (c_blockchain s) (c_crypto s) (c_instruction s) (c_storage s).
Definition set_c_gasLimit g s := mkCell (c_context s) (c_isolate s) (c_allocator s) (c_jsPath s)
  (c_gasUsed s) g (c_memLimit s) (c_blockchain s) (c_crypto s) (c_instruction s) (c_storage s).
Definition set_c_memLimit m s := mkCell (c_context s) (c_isolate s) (c_allocator s) (c_jsPath s)
  (c_gasUsed s) (c_gasLimit s) m (c_blockchain s) (c_crypto s) (c_instruction s) (c_storage s).
Definition set_c_jsPath j s := mkCell (c_context s) (c_isolate s) (c_allocator s) j
  (c_gasUsed s) (c_gasLimit s) (c_memLimit s) (c_blockchain s) (c_crypto s) (c_instruction s) (c_storage s).
Definition set_c_context c s := mkCell c (c_isolate s) (c_allocator s) (c_jsPath s)
  (c_gasUsed s) (c_gasLimit s) (c_memLimit s) (c_blockchain s) (c_crypto s) (c_instruction s) (c_storage s).

(** [instruction->Reset()] and [sbx->gasUsed = 0]. *)
Definition resetSandbox (p : ptr) : HM unit :=
  let* s := load_sandbox p in
  let* o := load (c_instruction s) in
  match o with
  | OInstruction sbx _ =>
      store (c_instruction s) (OInstruction sbx 0) ;*
      store p (OSandbox (set_c_gasUsed 0 s))
  | _ => undefined
  end.

Definition setJSPath (p : ptr) (jsPath : string) : HM unit :=
  let* s := load_sandbox p in
  match c_jsPath s with None => ret tt | Some j => dealloc Malloc j end ;*
  let* j := alloc Malloc (OString (c_str jsPath)) in
  store p (OSandbox (set_c_jsPath (Some j) s)).

Definition setSandboxGasLimit (p : ptr) (gasLimit : Z) : HM unit :=
  let* s := load_sandbox p in store p (OSandbox (set_c_gasLimit gasLimit s)).

Definition setSandboxMemLimit (p : ptr) (memLimit : Z) : HM unit :=
  let* s := load_sandbox p in store p (OSandbox (set_c_memLimit memLimit s)).

Definition releaseSandbox (p : option ptr) : HM unit :=
  match p with
  | None => ret tt
  | Some p =>
      let* s := load_sandbox p in
      match c_context s with
      | None => ret tt
      | Some c => dealloc Engine c ;* store p (OSandbox (set_c_context None s))
      end ;*
      match c_jsPath s with None => ret tt | Some j => dealloc Malloc j end ;*
      dealloc New (c_blockchain s) ;*
      dealloc New (c_crypto s) ;*
      dealloc New (c_instruction s) ;*
      dealloc New (c_storage s) ;*
      dealloc New p
  end.

(** ** Reasoning about the heap *)

Lemma run_load p k o w : cells w !! p = Some (k, o) -> load p w = Some (o, w).
Proof. unfold load. by intros ->. Qed.

Lemma run_store p k o o' w :
  cells w !! p = Some (k, o) -> store p o' w = Some (tt, mkWorld (<[p := (k, o')]> (cells w)) (fresh w)).
Proof. unfold store. by intros ->. Qed.

Lemma run_dealloc p k o w :
  cells w !! p = Some (k, o) -> dealloc k p w = Some (tt, mkWorld (delete p (cells w)) (fresh w)).
Proof. unfold dealloc. intros ->. by rewrite decide_True. Qed.

Lemma run_load_sandbox p k s w :
  cells w !! p = Some (k, OSandbox s) -> load_sandbox p w = Some (s, w).
Proof. intros Hp. unfold load_sandbox, bind. by rewrite (run_load _ _ _ _ Hp). Qed.

(** Nothing is allocated at or above [fresh]. *)
Definition heap_ok (w : World) : Prop := forall q, (fresh w <= q)%nat -> cells w !! q = None.

(** The cells of a sandbox. *)
Definition footprint (p c j : ptr) (s : SandboxCell) : list ptr :=
  [p; c; j; c_blockchain s; c_crypto s; c_instruction s; c_storage s].

(** [w] is [base] with one sandbox more, whose observable state is
    [path], [count] and the fields of [s]. *)
Record owns (base : gmap nat (AllocKind * Obj)) (p c j : ptr) (path : string) (count : Z)
    (s : SandboxCell) (w : World) : Prop := mkOwns {
  own_sandbox : cells w !! p = Some (New, OSandbox s);
  own_context : c_context s = Some c /\ exists g b, cells w !! c = Some (Engine, OContext g p b);
  own_jsPath : c_jsPath s = Some j /\ cells w !! j = Some (Malloc, OString path);
  own_blockchain : cells w !! c_blockchain s = Some (New, OApi ABlockchain p);
  own_crypto : cells w !! c_crypto s = Some (New, OApi ACrypto p);
  own_instruction : cells w !! c_instruction s = Some (New, OInstruction p count);
  own_storage : cells w !! c_storage s = Some (New, OApi AStorage p);
  own_distinct : NoDup (footprint p c j s);
  own_fresh : forall q, q ∈ footprint p c j s -> base !! q = None;
  own_frame : forall q, q ∉ footprint p c j s -> cells w !! q = base !! q;
  own_bound : heap_ok w;
}.

(** Lookups in updated heaps: addresses counted from the same one, and
    addresses known to be distinct. *)
Ltac heap_lookup_with ne :=
  repeat first
    [ rewrite lookup_insert_eq | rewrite lookup_insert_ne by ne
    | rewrite lookup_delete_eq | rewrite lookup_delete_ne by ne ].
Tactic Notation "heap_offsets" := heap_lookup_with ltac:(lia).
Tactic Notation "heap_lookup" := heap_lookup_with ltac:(congruence).

(** The inequalities between the addresses of a footprint. *)
Ltac distinct H :=
  unfold footprint in H; rewrite !NoDup_cons, !not_elem_of_cons in H; destruct_and?.

Section Sandboxes.
Context {HS HB HI HC : Type} {codec : V8Codec}.
Context {goS : Storage.GoStorage HS} {goB : Blockchain.GoBlockchain HB} {goC : CryptoApi.GoCrypto HC}.

Lemma newSandbox_owns w iso isolate al k flags :
  heap_ok w -> cells w !! iso = Some (k, OWrapper isolate al) ->
  let p := fresh w in
  let s := mkCell (Some (1 + p)%nat) isolate al (Some (2 + p)%nat) 0 0 sandboxMemLimit
             (3 + p)%nat (4 + p)%nat (5 + p)%nat (6 + p)%nat in
  exists w', newSandbox (HI := HI) iso flags w = Some (p, w') /\
    owns (cells w) p (1 + p)%nat (2 + p)%nat "v8/libjs" 0 s w'.
Proof.
  intros Hw Hiso p s. unfold newSandbox, bind at 1. rewrite (run_load _ _ _ _ Hiso).
  unfold bind, alloc, ret; cbn [fresh cells].
  erewrite run_store by (cbn [cells]; heap_offsets; reflexivity). cbn [fresh cells].
  eexists; split; [reflexivity|]. subst p s. constructor; unfold footprint; cbn -[lookup insert];
    try (heap_offsets; reflexivity).
  - split; [done|]. heap_offsets. by eauto.
  - split; [done|]. by heap_offsets.
  - rewrite !NoDup_cons, !not_elem_of_cons. repeat split; try lia; try apply not_elem_of_nil. constructor.
  - intros q Hq. apply Hw. set_unfold. lia.
  - intros q Hq. set_unfold. by heap_offsets.
  - intros q. cbn. intros Hq. heap_offsets. apply Hw. lia.
Qed.
End Sandboxes.

Lemma owns_release base p c j path n s w :
  owns base p c j path n s w ->
  exists w', releaseSandbox (Some p) w = Some (tt, w') /\ cells w' = base.
Proof.
  intros [Hp [Ec (g & b & Hc)] [Ej Hj] Hb Hk Hi Hs Hd Hfr Hf _].
  assert (Hd' := Hd). distinct Hd'.
  unfold releaseSandbox, bind. rewrite (run_load_sandbox _ _ _ _ Hp), Ec, Ej. unfold bind.
  rewrite (run_dealloc _ _ _ _ Hc).
  do 7 (first [erewrite run_store by (cbn [cells]; heap_lookup; eassumption)
              |erewrite run_dealloc by (cbn [cells]; heap_lookup; first [eassumption|reflexivity])]).
  eexists; split; [reflexivity|]. cbn [cells fresh]. apply map_eq; intros q.
  destruct (decide (q ∈ footprint p c j s)) as [Hin|Hout].
  - rewrite (Hfr q Hin). unfold footprint in Hin. set_unfold.
    destruct_or!; subst; heap_lookup; reflexivity.
  - rewrite <- (Hf q Hout). unfold footprint in Hout.
    rewrite !not_elem_of_cons in Hout. destruct_and!. by heap_lookup.
Qed.

(** ** Operations on a live sandbox *)

(** What Go and the running contract do to a sandbox between its creation and
    its release. *)
Inductive Op :=
  | SetJSPath (path : string)
  | SetGasLimit (g : Z)
  | SetMemLimit (m : Z)
  | ResetSandbox.

Definition run_op (p : ptr) (o : Op) : HM unit :=
  match o with
  | SetJSPath path => setJSPath p path
  | SetGasLimit g => setSandboxGasLimit p g
  | SetMemLimit m => setSandboxMemLimit p m
  | ResetSandbox => resetSandbox p
  end.

Fixpoint run_ops (p : ptr) (l : list Op) : HM unit :=
  match l with [] => ret tt | o :: l' => run_op p o ;* run_ops p l' end.

(** The same operations on the flat record of the API files. *)
Definition abs_op (s : V8.Sandbox) (o : Op) : V8.Sandbox :=
  match o with
  | SetJSPath path => set_jsPath (Some (c_str path)) s
  | SetGasLimit g => set_gasLimit g s
  | SetMemLimit m => set_memLimit m s
  | ResetSandbox => set_count 0 (set_gasUsed 0 s)
  end.

(** The flat record a sandbox in the heap stands for. *)
Definition abstraction (p : ptr) : HM V8.Sandbox :=
  let* s := load_sandbox p in
  let* a := load (c_allocator s) in
  let* j := match c_jsPath s with None => ret None | Some j => let* o := load j in ret (Some o) end in
  let* i := load (c_instruction s) in
  match a, j, i with
  | OAllocator a, Some (OString path), OInstruction _ n =>
      ret (mkSandbox a (Some path) (c_gasUsed s) (c_gasLimit s) (c_memLimit s) n)
  | _, _, _ => undefined
  end.

(** The state of the sandbox at [p], with everything else as in [base]. *)
Definition holds base (al : ptr) (p : ptr) (a : V8.Sandbox) (w : World) : Prop :=
  exists c j s path, owns base p c j path (instr_count a) s w /\ c_allocator s = al /\
    (exists k, base !! al = Some (k, OAllocator (allocator a))) /\
    a = mkSandbox (allocator a) (Some path) (c_gasUsed s) (c_gasLimit s) (c_memLimit s) (instr_count a).

Lemma owns_update base p c j path n s s' w :
  owns base p c j path n s w ->
  c_context s' = c_context s -> c_jsPath s' = c_jsPath s -> footprint p c j s' = footprint p c j s ->
  owns base p c j path n s' (mkWorld (<[p := (New, OSandbox s')]> (cells w)) (fresh w)).
Proof.
  intros [Hp [Ec Hc] [Ej Hj] Hb Hk Hi Hs Hd Hfr Hf Hw] E1 E2 E3.
  assert (Hd' := Hd). distinct Hd'. assert (E := E3). injection E as E4 E5 E6 E7.
  constructor; cbn [cells fresh]; rewrite ?E1, ?E2, ?E3, ?E4, ?E5, ?E6, ?E7; try done; try by heap_lookup.
  - intros q Hq. rewrite lookup_insert_ne; [by apply Hf|]. unfold footprint in Hq. set_solver.
  - intros q Hq. cbn in *. destruct (decide (p = q)) as [<-|]; heap_lookup; [|by apply Hw].
    specialize (Hw p Hq). congruence.
Qed.

Lemma owns_jsPath base p c j path n s w path' :
  owns base p c j path n s w ->
  let w' := mkWorld (<[p := (New, OSandbox (set_c_jsPath (Some (fresh w)) s))]>
      (<[fresh w := (Malloc, OString path')]> (delete j (cells w)))) (S (fresh w)) in
  base !! fresh w = None ->
  owns base p c (fresh w) path' n (set_c_jsPath (Some (fresh w)) s) w'.
Proof.
  intros [Hp [Ec (g & b & Hc)] [Ej Hj] Hb Hk Hi Hs Hd Hfr Hf Hw] w' Hbase. subst w'.
  assert (Hnew : forall q x, cells w !! q = Some x -> fresh w <> q)
    by (intros q x Hq E; rewrite (Hw q) in Hq by lia; congruence).
  assert (Hn := conj (Hnew _ _ Hp) (conj (Hnew _ _ Hc) (conj (Hnew _ _ Hj) (conj (Hnew _ _ Hb)
    (conj (Hnew _ _ Hk) (conj (Hnew _ _ Hi) (Hnew _ _ Hs))))))).
  assert (Hd' := Hd). distinct Hd'.
  constructor; cbn [cells fresh set_c_jsPath c_context c_jsPath c_blockchain c_crypto c_instruction c_storage];
    try by heap_lookup.
  - split; [done|]. exists g, b. by heap_lookup.
  - unfold footprint. cbn. rewrite !NoDup_cons, !not_elem_of_cons. repeat split; try congruence;
      try apply not_elem_of_nil.
  - intros q Hq. unfold footprint in Hq, Hfr. cbn in Hq. set_unfold.
    destruct (decide (q = fresh w)) as [->|]; [done|]. apply Hfr. tauto.
  - intros q Hq. unfold footprint in Hq, Hf. cbn in Hq. rewrite !not_elem_of_cons in Hq. destruct_and!.
    destruct (decide (q = j)) as [->|]; heap_lookup; [|apply Hf; rewrite !not_elem_of_cons; auto 8 using not_elem_of_nil].
    symmetry. apply Hfr. unfold footprint. set_solver.
  - intros q Hq. cbn in *. assert (Hq' : fresh w <> q /\ (fresh w <= q)%nat) by (clear -Hq; lia).
    destruct Hq' as [Hq1 Hq2%Hw]. heap_lookup.
    destruct (decide (q = j)) as [->|]; heap_lookup; done.
Qed.

Lemma owns_base_none base p c j path n s w :
  owns base p c j path n s w -> base !! fresh w = None.
Proof.
  intros H. destruct (decide (fresh w ∈ footprint p c j s)) as [Hin|Hout].
  - by apply (own_fresh _ _ _ _ _ _ _ _ H).
  - rewrite <- (own_frame _ _ _ _ _ _ _ _ H _ Hout). apply (own_bound _ _ _ _ _ _ _ _ H). lia.
Qed.

Lemma owns_count base p c j path n s w n' :
  owns base p c j path n s w ->
  owns base p c j path n' s (mkWorld (<[c_instruction s := (New, OInstruction p n')]> (cells w)) (fresh w)).
Proof.
  intros [Hp [Ec (g & b & Hc)] [Ej Hj] Hb Hk Hi Hs Hd Hfr Hf Hw].
  assert (Hd' := Hd). distinct Hd'. constructor; cbn [cells fresh]; try done; try by heap_lookup.
  - split; [done|]. exists g, b. by heap_lookup.
  - intros q Hq. rewrite lookup_insert_ne; [by apply Hf|]. unfold footprint in Hq. set_solver.
  - intros q Hq. cbn in *. rewrite lookup_insert_ne; [by apply Hw|].
    intros <-. specialize (Hw _ Hq). congruence.
Qed.

(** Each operation does to the heap what [abs_op] does to the flat record. *)
Lemma holds_op base al p a w o :
  holds base al p a w -> exists w', run_op p o w = Some (tt, w') /\ holds base al p (abs_op a o) w'.
Proof.
  intros (c & j & s & path & Ho & Eal & Hal & Ea). assert (Hp := own_sandbox _ _ _ _ _ _ _ _ Ho).
  destruct o as [path'|g|m|]; cbn [run_op];
    unfold setJSPath, setSandboxGasLimit, setSandboxMemLimit, resetSandbox, bind;
    rewrite (run_load_sandbox _ _ _ _ Hp).
  - destruct (own_jsPath _ _ _ _ _ _ _ _ Ho) as [Ej Hj]. rewrite Ej, (run_dealloc _ _ _ _ Hj).
    assert (Hb := owns_base_none _ _ _ _ _ _ _ _ Ho).
    assert (Ho' := owns_jsPath _ _ _ _ _ _ _ _ (c_str path') Ho Hb).
    unfold alloc. cbn [cells fresh]. erewrite run_store.
    2: { cbn [cells]. rewrite lookup_insert_ne, lookup_delete_ne; [exact Hp|..].
         - intros ->. by destruct (own_distinct _ _ _ _ _ _ _ _ Ho); set_solver.
         - intros E. assert (Hf := own_bound _ _ _ _ _ _ _ _ Ho p). rewrite Hp in Hf.
           discriminate Hf. lia. }
    eexists; split; [reflexivity|]. eexists _, _, _, _. split; [exact Ho'|]. by rewrite Ea.
  - rewrite (run_store _ _ _ _ _ Hp). eexists; split; [reflexivity|].
    eexists _, _, _, _. split; [by apply (owns_update _ _ _ _ _ _ s)|]. by rewrite Ea.
  - rewrite (run_store _ _ _ _ _ Hp). eexists; split; [reflexivity|].
    eexists _, _, _, _. split; [by apply (owns_update _ _ _ _ _ _ s)|]. by rewrite Ea.
  - assert (Hi := own_instruction _ _ _ _ _ _ _ _ Ho). rewrite (run_load _ _ _ _ Hi).
    rewrite (run_store _ _ _ _ _ Hi). assert (Ho' := owns_count _ _ _ _ _ _ _ _ 0 Ho).
    rewrite (run_store _ _ _ _ _ (own_sandbox _ _ _ _ _ _ _ _ Ho')). eexists; split; [reflexivity|].
    eexists _, _, _, _. split; [by apply (owns_update _ _ _ _ _ _ s)|]. by rewrite Ea.
Qed.

Lemma holds_ops base al p l a w :
  holds base al p a w -> exists w', run_ops p l w = Some (tt, w') /\ holds base al p (fold_left abs_op l a) w'.
Proof.
  revert a w. induction l as [|o l IH]; intros a w Hh; [by eauto|].
  destruct (holds_op _ _ _ _ _ o Hh) as (w1 & E1 & H1). destruct (IH _ _ H1) as (w2 & E2 & H2).
  exists w2. split; [|done]. cbn [run_ops]. unfold bind. by rewrite E1.
Qed.

Lemma holds_abstraction base al p a w :
  holds base al p a w -> abstraction p w = Some (a, w).
Proof.
  intros (c & j & s & path & Ho & Eal & (k & Hal) & Ea).
  assert (Hout : al ∉ footprint p c j s).
  { intros Hin. by rewrite (own_fresh _ _ _ _ _ _ _ _ Ho _ Hin) in Hal. }
  rewrite <- (own_frame _ _ _ _ _ _ _ _ Ho _ Hout) in Hal. subst al.
  unfold abstraction, bind. rewrite (run_load_sandbox _ _ _ _ (own_sandbox _ _ _ _ _ _ _ _ Ho)).
  rewrite (run_load _ _ _ _ Hal). destruct (own_jsPath _ _ _ _ _ _ _ _ Ho) as [-> Hj].
  rewrite (run_load _ _ _ _ Hj). unfold ret.
  rewrite (run_load _ _ _ _ (own_instruction _ _ _ _ _ _ _ _ Ho)). by rewrite Ea.
Qed.

(** ** What the life cycle guarantees *)

(** The flat record of a sandbox that was just made. *)
Definition new_sandbox (a : Allocator.ArrayBufferAllocator) : V8.Sandbox :=
  mkSandbox a (Some "v8/libjs"%string) 0 0 sandboxMemLimit 0.

Section Guarantees.
Context {HS HB HI HC : Type} {codec : V8Codec}.
Context {goS : Storage.GoStorage HS} {goB : Blockchain.GoBlockchain HB} {goC : CryptoApi.GoCrypto HC}.

(** C12: from any heap with an isolate in it, a sandbox can be made, configured
    and reset any number of times and released without undefined behaviour: no
    cell is freed twice or by the wrong operation, the sandbox behaves as the
    flat record of the API model at every point, and after its release the heap
    is exactly what it was before: nothing is leaked. *)
Theorem sandbox_lifecycle (w : World) (iso isolate al : ptr) (k1 k2 : AllocKind)
    (a : Allocator.ArrayBufferAllocator) (flags : Z) (l : list Op) :
  heap_ok w -> cells w !! iso = Some (k1, OWrapper isolate al) ->
  cells w !! al = Some (k2, OAllocator a) ->
  exists p w1 w2 w3,
    newSandbox (HI := HI) iso flags w = Some (p, w1) /\
    abstraction p w1 = Some (new_sandbox a, w1) /\
    run_ops p l w1 = Some (tt, w2) /\
    abstraction p w2 = Some (fold_left abs_op l (new_sandbox a), w2) /\
    releaseSandbox (Some p) w2 = Some (tt, w3) /\ cells w3 = cells w.
Proof.
  intros Hw Hiso Hal. destruct (newSandbox_owns (HI := HI) w iso isolate al k1 flags Hw Hiso) as (w1 & E1 & H1).
  assert (H1' : holds (cells w) al (fresh w) (new_sandbox a) w1) by (eexists _, _, _, _; eauto).
  destruct (holds_ops _ _ _ l _ _ H1') as (w2 & E2 & H2). assert (H2' := H2).
  destruct H2' as (c & j & s & path & Ho & _). destruct (owns_release _ _ _ _ _ _ _ _ Ho) as (w3 & E3 & H3).
  exists (fresh w), w1, w2, w3. eauto 10 using holds_abstraction.
Qed.

End Guarantees.

(** Making and releasing [n] isolates, one after the other. *)
Fixpoint isolate_cycles (blob : string) (n : nat) : HM unit :=
  match n with
  | O => ret tt
  | S n' => let* p := newIsolate blob in releaseIsolate (Some p) ;* isolate_cycles blob n'
  end.

Lemma isolate_cycle blob w :
  heap_ok w -> exists w', heap_ok w' /\ base.size (cells w') = (3 + base.size (cells w))%nat /\
    (let* p := newIsolate blob in releaseIsolate (Some p)) w = Some (tt, w').
Proof.
  intros Hw. unfold newIsolate, bind, alloc, ret. cbn [cells fresh].
  erewrite run_store by (cbn [cells]; heap_offsets; reflexivity). cbn [cells fresh].
  unfold releaseIsolate, bind. erewrite run_load by (cbn [cells]; heap_offsets; reflexivity). cbv beta iota.
  erewrite run_dealloc by (cbn [cells]; heap_offsets; reflexivity). cbn [cells fresh].
  eexists. split; [|split; [|reflexivity]]; cbn [cells].
  - intros q Hq. cbn in *. rewrite lookup_delete_ne by lia. heap_offsets. apply Hw. lia.
  - rewrite delete_insert_ne, delete_insert_id by (heap_offsets; try apply Hw; lia).
    rewrite map_size_insert_Some by (heap_offsets; eauto).
    rewrite !map_size_insert_None by (heap_offsets; try apply Hw; lia). done.
Qed.

(** [releaseIsolate] disposes of the V8 isolate and of nothing else: each
    isolate that is made and released leaves three cells behind (its wrapper,
    its start-up data and its buffer allocator), so recycling isolates makes
    the process grow without bound. *)
Theorem isolate_release_leaks (blob : string) (n : nat) (w : World) :
  heap_ok w -> exists w', isolate_cycles blob n w = Some (tt, w') /\
    base.size (cells w') = (3 * n + base.size (cells w))%nat.
Proof.
  revert w. induction n as [|n IH]; intros w Hw; [by eauto|].
  destruct (isolate_cycle blob w Hw) as (w1 & Hw1 & Hs & E1). destruct (IH w1 Hw1) as (w2 & E2 & Hs2).
  exists w2. split; [|lia]. cbn [isolate_cycles]. revert E1. unfold bind.
  destruct (newIsolate blob w) as [[p w0]|]; [|done]. by intros ->.
Qed.

(** ** Witnesses *)

Definition empty_world : World := mkWorld ∅ 0.

Lemma isolate_release_leaks_witness :
  exists w', isolate_cycles "blob" 5 empty_world = Some (tt, w') /\ base.size (cells w') = 15%nat.
Proof. apply (isolate_release_leaks "blob" 5 empty_world). intros q _. apply lookup_empty. Defined.

Definition one_isolate : World :=
  mkWorld {[ 0%nat := (New, OWrapper 2 1); 1%nat := (New, OAllocator Allocator.new_allocator);
             2%nat := (Engine, OIsolate 3) ]} 3.

Definition silent_crypto : CryptoApi.GoCrypto unit :=
  CryptoApi.InitGoCrypto unit (fun _ h => (None, 0, h)) (fun _ h => (None, 0, h))
    (fun _ h => (None, 0, h)) (fun _ _ _ _ h => (0, 0, h)).

#[local] Existing Instance latin1.
#[local] Existing Instance Storage.flat_storage.
#[local] Existing Instance Blockchain.echo_blockchain.
#[local] Existing Instance silent_crypto.

Lemma sandbox_lifecycle_witness :
  exists p w1 w2 w3,
    newSandbox (HI := unit) 0 1 one_isolate = Some (p, w1) /\
    abstraction p w1 = Some (new_sandbox Allocator.new_allocator, w1) /\
    run_ops p [SetJSPath "lib"; SetGasLimit 100000; ResetSandbox] w1 = Some (tt, w2) /\
    abstraction p w2 = Some (mkSandbox Allocator.new_allocator (Some "lib"%string) 0 100000 sandboxMemLimit 0, w2) /\
    releaseSandbox (Some p) w2 = Some (tt, w3) /\ cells w3 = cells one_isolate.
Proof.
  apply (sandbox_lifecycle one_isolate 0 2 1 New New Allocator.new_allocator 1
    [SetJSPath "lib"; SetGasLimit 100000; ResetSandbox]); [|reflexivity..].
  intros q Hq. cbn in *. by rewrite !lookup_insert_ne, lookup_singleton_ne by lia.
Defined.

End Lifecycle.
