(* ===== verification/JsValue.v ===== *)
(** * JavaScript values

    The values the embedded JavaScript libraries work on: syntax trees, the ABI
    of a contract, the arguments of the wrappers. *)

From Stdlib Require Import ZArith Lia SpecFloat.
From stdpp Require Import base strings list.
From S2P Require Import Prelude V8.
Local Open Scope Z_scope.

Module JsValue.

(** ** JavaScript values

    A string is the list of its UTF-16 code units. A number that is a source
    position is an [Int]: positions are non-negative and far below 2^53, where
    doubles are exact; every other number is a double. *)

Abbreviation jsstring := (list Z).

Fixpoint str (s : string) : jsstring :=
  match s with
  | EmptyString => []
  | String a s' => Z.of_nat (Ascii.nat_of_ascii a) :: str s'
  end.

Inductive jsval :=
  | Undef
  | Null
  | Bool (b : bool)
  | Int (z : Z)
  | Num (d : spec_float)
  | Str (s : jsstring)
  | Arr (l : list jsval)
  | Obj (props : list (string * jsval)).

Fixpoint find_prop {A} (k : string) (ps : list (string * A)) : option A :=
  match ps with
  | [] => None
  | (k', v) :: ps' => if String.eqb k k' then Some v else find_prop k ps'
  end.

(** [o.k]; [None] is the TypeError of reading a property of undefined or null. *)
Definition get (o : jsval) (k : string) : option jsval :=
  match o with
  | Undef | Null => None
  | Obj ps => Some (default Undef (find_prop k ps))
  | Arr l => Some (if String.eqb k "length" then Int (Z.of_nat (length l)) else Undef)
  | Str s => Some (if String.eqb k "length" then Int (Z.of_nat (length s)) else Undef)
  | _ => Some Undef
  end.

(** [!v] *)
Definition falsy (v : jsval) : bool :=
  match v with
  | Undef | Null | Bool false | Int 0 | Num S754_nan | Num (S754_zero _) | Str [] => true
  | _ => false
  end.

(** [typeof v === 'object' && v !== null] *)
Definition is_object (v : jsval) : bool :=
  match v with Arr _ | Obj _ => true | _ => false end.

(** [v === s] for a string [s]. *)
Definition is_str (v : jsval) (s : string) : bool :=
  match v with Str t => bool_decide (t = str s) | _ => false end.

Fixpoint key_of (t : jsstring) (ks : list string) : option string :=
  match ks with
  | [] => None
  | k :: ks' => if bool_decide (t = str k) then Some k else key_of t ks'
  end.

(** [table[v]], for a table whose keys are plain identifiers: [None] is
    undefined. *)
Definition index {A} (table : list (string * A)) (v : jsval) : option A :=
  match v with
  | Str t => k ← key_of t (map fst table); find_prop k table
  | _ => None
  end.

(** ** Facts *)

Lemma find_prop_In {A} k (ps : list (string * A)) v : find_prop k ps = Some v -> In (k, v) ps.
Proof.
  induction ps as [|[k' v'] ps IH]; [done|]. cbn. destruct (String.eqb_spec k k') as [->|].
  - intros [= ->]. by left.
  - auto.
Qed.

Lemma is_str_spec v s : is_str v s = true <-> v = Str (str s).
Proof.
  destruct v; cbn; try (split; [done|congruence]). rewrite bool_decide_eq_true.
  split; [by intros ->|by intros [= ->]].
Qed.

Lemma is_str_true v s : is_str v s = true -> v = Str (str s).
Proof. apply is_str_spec. Qed.

End JsValue.
