(* ===== verification/Loader.v ===== *)
(** * The native log and run functions and the module loader of the virtual
    machine (vm/v8vm/v8/sandbox.cc: nativeLog, nativeRun; libjs/vm.js: require)

    [vm.js] keeps a cache of modules and loads a missing one with two native
    functions: [_native_require] ([Modules]) gives the text of an embedded
    library and [_native_run] compiles and runs the wrapped text. V8's compiler
    is the class [V8Scripts]: nothing is assumed of it, a script may do anything
    to the state. *)

From Stdlib Require Import ZArith Lia.
From stdpp Require Import base gmap strings list.
From S2P Require Import Prelude Allocator V8 Execution LibJsApi Modules JsValue.
Local Open Scope Z_scope.

Module Loader.
Import Modules LibJsApi.
Import JsValue (str).

(** What the loader uses of V8, besides strings. *)
Class V8Scripts (H : Type) := {
  Script : Type;
  (* the string of a value that is not one; [None] when that throws *)
  ToString : Value -> State H -> option jsstring * State H;
  (* Script::Compile of a source under a file name; [None] is an empty handle *)
  Script_Compile : jsstring -> jsstring -> State H -> option Script * State H;
  Script_Run : Script -> State H -> option Value * State H;
  (* fn(exports, require, module, filename): the value of module.exports after it *)
  CallModule : Value -> Value -> jsstring -> State H -> Value * State H;
  (* a fresh empty object *)
  NewObject : State H -> Value * State H;
  (* the property exports of what a plain object inherits under a name *)
  inherited_exports : jsstring -> option Value;
}.

Section Loader.
Context {H : Type} {codec : V8Codec} {scripts : V8Scripts H}.
Local Open Scope cpp_scope.

Definition engine {A} (f : State H -> A * State H) : M H A := fun st =>
  let '(a, st') := f st in Ret a st'.

(** [String::Utf8Value str(val)] on any value; [None] is a null pointer. *)
Definition utf8 (v : Value) : M H (option string) :=
  match v with
  | JsString s => mret (Some (Utf8Value s))
  | _ => s <- engine (ToString v) ; mret (Utf8Value <$> s)
  end.

(** [v8ValueToStdString]: a failed conversion has length 0. *)
Definition std_string (v : Value) : M H string :=
  s <- utf8 v ; mret (Execution.v8ValueToStdString (default "" s)).

(** A throw without a return behind it. *)
Definition throw_unless (cond : bool) (msg : string) : M H unit :=
  if cond then mret tt else ThrowError msg.

Definition nativeLog (info : FunctionCallbackInfo) : M H unit :=
  let msg := arg info 0 in
  throw_unless (IsString msg) "_native_log empty log" ;;
  msgStr <- utf8 msg ;
  match msgStr with
  | Some s => cout ("native_log: " +:+ c_str s)
  | None => fun _ => UB      (* a null pointer is written to the stream *)
  end.

Definition nativeRun (info : FunctionCallbackInfo) : M H unit :=
  let source := arg info 0 in
  let fileName := arg info 1 in
  throw_unless (IsString fileName) "_native_run empty script." ;;
  s <- std_string source ;
  f <- std_string fileName ;
  script <- engine (Script_Compile (NewFromUtf8 s) (NewFromUtf8 f)) ;
  match script with
  | None => creturn
  | Some script =>
      result <- engine (Script_Run script) ;
      match result with
      | None => creturn
      | Some result => SetReturnValue result
      end
  end.

(** ** vm.js *)

Record NativeModule := mkModule {
  filename : jsstring;
  id : jsstring;
  exports : Value;
  loaded : bool;
}.

(** The virtual machine with [NativeModule._cache], last entry first. *)
Record VM := mkVM { vm_state : State H; _cache : list (jsstring * NativeModule) }.

Fixpoint find_module (key : jsstring) (l : list (jsstring * NativeModule)) : option NativeModule :=
  match l with
  | [] => None
  | (k, m) :: l' => if bool_decide (k = key) then Some m else find_module key l'
  end.

(** A call of a native function from JavaScript. *)
Definition native_call (f : FunctionCallbackInfo -> M H unit) (args : list Value) (st : State H)
    : option (State H) :=
  run (f (mkInfo args Undefined (External PSandbox))) (set_retval Undefined st).

(** [NativeModule._cache[id]], then [.exports]: the cache is a plain object,
    which inherits properties too. *)
Definition getCached (key : jsstring) (vm : VM) : option Value :=
  match find_module key (_cache vm) with
  | Some m => Some (exports m)
  | None => inherited_exports key
  end.

Definition wrapper0 : jsstring :=
  str "(function (exports, require, module, __filename, __dirname) {" ++ [10].
Definition wrapper1 : jsstring := [10] ++ str "});".

(** The source may be undefined, which becomes text. *)
Definition wrap_module (script : Value) : jsstring :=
  wrapper0 ++ match script with JsString s => s | _ => str "undefined" end ++ wrapper1.

(** The value a require call returns, or the exception it throws, is in the
    state. [None] is undefined behaviour. *)
Definition throws (st : State H) : bool :=
  match exception st with Some _ => true | None => false end.

(** [new NativeModule(id)], [compile] and [cache]. The module gets [require] as an
    argument; the texts of storage.js and blockchain.js do not call it, so
    running them leaves the cache as it is. *)
Definition load_module (key : jsstring) (vm : VM) : option VM :=
  let '(e, st) := NewObject (vm_state vm) in
  let file := key ++ str ".js" in
  st1 ← native_call NewNativeRequire [JsString key] st;
  if throws st1 then Some (mkVM st1 (_cache vm)) else
  st2 ← native_call nativeRun [JsString (wrap_module (retval st1)); JsString file] st1;
  if throws st2 then Some (mkVM st2 (_cache vm)) else
  let '(e', st3) := CallModule (retval st2) e file st2 in
  if throws st3 then Some (mkVM st3 (_cache vm)) else
  Some (mkVM (set_retval e' st3) ((key, mkModule file key e' true) :: _cache vm)).

Definition require (key : jsstring) (vm : VM) : option VM :=
  match getCached key vm with
  | Some e => Some (mkVM (set_retval e (vm_state vm)) (_cache vm))
  | None => load_module key vm
  end.

(** ** What the loader promises *)

(** The text of a library; a name that is none gives the text of undefined. *)
Definition module_text (name : string) : string :=
  if String.eqb name "storage" then c_str __libjs_storage_js
  else if String.eqb name "blockchain" then c_str __libjs_blockchain_js
  else "undefined".

(** Compile a text under a file name and run it: V8's part of [_native_run]. *)
Definition evaluate (script file : jsstring) (st : State H) : State H :=
  let '(c, st1) := Script_Compile script file st in
  match c with
  | None => st1
  | Some c =>
      let '(r, st2) := Script_Run c st1 in
      match r with None => st2 | Some v => set_retval v st2 end
  end.

(** A load that failed is not cached; one that succeeded is, and from then on
    the same exports are returned and nothing is run, whatever the state. *)
Inductive load_outcome (key : jsstring) (vm : VM) (script : State H) (e : Value) : VM -> Prop :=
  | script_throws :
      throws script = true -> load_outcome key vm script e (mkVM script (_cache vm))
  | module_throws e' st :
      throws script = false -> CallModule (retval script) e (key ++ str ".js") script = (e', st) ->
      throws st = true -> load_outcome key vm script e (mkVM st (_cache vm))
  | module_loads e' st vm' :
      throws script = false -> CallModule (retval script) e (key ++ str ".js") script = (e', st) ->
      throws st = false -> vm_state vm' = set_retval e' st ->
      (forall st', require key (mkVM st' (_cache vm')) = Some (mkVM (set_retval e' st') (_cache vm'))) ->
      (forall key', key' <> key -> getCached key' vm' = getCached key' vm) ->
      load_outcome key vm script e vm'.

(** On 7-bit text V8's two conversions are the identity on character codes. *)
Context (utf8_ascii : forall s, ascii7 s = true -> Utf8Value (str s) = s).
Context (from_ascii : forall s, ascii7 s = true -> NewFromUtf8 s = str s).

Lemma str_app s t : str (s +:+ t) = str s ++ str t.
Proof.
  induction s as [|a s IH]; [done|]. change (str (String a (s +:+ t)) = str (String a s) ++ str t).
  cbn [str app]. by rewrite IH.
Qed.

Lemma ascii7_app s t : ascii7 (s +:+ t) = ascii7 s && ascii7 t.
Proof.
  unfold ascii7. induction s as [|a s IH]; [done|].
  change (String.list_ascii_of_string (String a s +:+ t))
    with (a :: String.list_ascii_of_string (s +:+ t)).
  cbn [forallb String.list_ascii_of_string]. by rewrite IH, andb_assoc.
Qed.

(** Text that survives the trip through [char *] pointers. *)
Definition plain (s : string) : Prop := ascii7 s = true /\ no_nul s = true.

Lemma plain_app s t : plain s -> plain t -> plain (s +:+ t).
Proof.
  intros [Ha Hn] [Ha' Hn']. split; [rewrite ascii7_app|rewrite no_nul_app]; by apply andb_true_intro.
Qed.

Lemma std_string_plain s st : plain s -> std_string (JsString (str s)) st = Ret s st.
Proof.
  intros [Ha Hn]. unfold std_string, mbind, utf8, mret. cbn. rewrite (utf8_ascii s Ha).
  unfold Execution.v8ValueToStdString. rewrite (c_str_id s Hn). by destruct s.
Qed.

(** [_native_run] hands both texts to V8 unchanged. *)
Lemma nativeRun_plain s f st :
  plain s -> plain f ->
  native_call nativeRun [JsString (str s); JsString (str f)] st =
  Some (evaluate (str s) (str f) (set_retval Undefined st)).
Proof.
  intros Hs Hf. unfold native_call, run, nativeRun, evaluate.
  change (arg (mkInfo [JsString (str s); JsString (str f)] Undefined (External PSandbox)) 0) with (JsString (str s)).
  change (arg (mkInfo [JsString (str s); JsString (str f)] Undefined (External PSandbox)) 1) with (JsString (str f)).
  unfold mbind, throw_unless. cbn [IsString]. unfold mret.
  rewrite !std_string_plain by done. rewrite (from_ascii s (proj1 Hs)), (from_ascii f (proj1 Hf)).
  unfold engine. destruct (Script_Compile _ _ _) as [[c|] st1]; [|done].
  by destruct (Script_Run c st1) as [[v|] st2].
Qed.

Lemma module_text_plain name : plain (module_text name).
Proof. unfold module_text. by repeat case_match; (split; vm_compute). Qed.

Lemma nativeRequire_plain name st :
  plain name -> exists v, native_call NewNativeRequire [JsString (str name)] st = Some (set_retval v st) /\
  wrap_module v = wrapper0 ++ str (module_text name) ++ wrapper1.
Proof.
  intros [Ha Hn]. unfold native_call, module_text.
  rewrite (require_spec (mkInfo [JsString (str name)] Undefined (External PSandbox)) (str name)) by done.
  rewrite (utf8_ascii name Ha), (c_str_id name Hn).
  assert (Hs : forall t, ascii7 (c_str t) = true -> NewFromUtf8 (c_str t) = str (c_str t)) by auto.
  case_match; [|case_match]; eexists; (split; [reflexivity|]); unfold wrap_module; [..|done];
    rewrite Hs; [done|vm_compute; reflexivity|done|vm_compute; reflexivity].
Qed.

(** The wrapped module, as one text. *)
Definition module_script (name : string) : string :=
  "(function (exports, require, module, __filename, __dirname) {" +:+
  (String (Ascii.ascii_of_nat 10) (module_text name +:+ String (Ascii.ascii_of_nat 10) "});")).

Lemma module_script_str name :
  str (module_script name) = wrapper0 ++ str (module_text name) ++ wrapper1.
Proof.
  unfold module_script, wrapper0, wrapper1. rewrite str_app. cbn [str].
  rewrite str_app. by rewrite <-(assoc_L (++)).
Qed.

Lemma module_script_plain name : plain (module_script name).
Proof.
  unfold module_script. apply plain_app; [by split|].
  apply (plain_app (String _ "")); [by split|]. apply plain_app; [apply module_text_plain|by split].
Qed.

Lemma find_module_other key key' m l : key' <> key -> find_module key' ((key, m) :: l) = find_module key' l.
Proof. intros Hk. cbn. rewrite bool_decide_eq_false_2; congruence. Qed.

Lemma load_module_outcome name vm e st :
  plain name -> NewObject (vm_state vm) = (e, st) -> throws st = false ->
  exists vm', load_module (str name) vm = Some vm' /\
    load_outcome (str name) vm
      (evaluate (str (module_script name)) (str name ++ str ".js") (set_retval Undefined st)) e vm'.
Proof.
  intros Hp Ho Ht. unfold load_module. rewrite Ho.
  destruct (nativeRequire_plain name st Hp) as (v & -> & Hw). cbn [base.mbind option_bind].
  replace (throws (set_retval v st)) with false by (symmetry; exact Ht).
  replace (retval (set_retval v st)) with v by done.
  rewrite Hw, <-module_script_str, <-str_app, nativeRun_plain
    by (first [apply module_script_plain|apply plain_app; [done|by split]]).
  cbn [base.mbind option_bind]. replace (set_retval Undefined (set_retval v st)) with (set_retval Undefined st) by done.
  set (sc := evaluate _ _ _). rewrite str_app.
  destruct (throws sc) eqn:Hsc; [eexists; split; [done|by apply script_throws]|].
  destruct (CallModule (retval sc) e _ sc) as [e' st3] eqn:Hc.
  destruct (throws st3) eqn:H3; (eexists; split; [done|]); [by eapply module_throws|].
  eapply module_loads; [done..| |].
  - intros st'. unfold require, getCached. cbn [find_module _cache]. by rewrite bool_decide_eq_true_2.
  - intros key' Hk. unfold getCached. cbn [_cache]. by rewrite find_module_other.
Qed.

(** C35: the module loader loads a library once and as it is. For a name of
    7-bit characters that is not cached, [require] makes V8 compile exactly the
    wrapper's head, the embedded text of that name and the wrapper's tail,
    under the name with ".js"; a script or module that throws is not cached and
    leaves the cache as it was; a module that loads is returned by every later
    [require] of its name, which runs nothing, and no other name is affected. A
    name that is no library is not an error: the module's text is then
    "undefined". *)
Theorem require_loads_once (name : string) (vm : VM) (e : Value) (st : State H) :
  ascii7 name = true -> no_nul name = true ->
  getCached (str name) vm = None ->
  NewObject (vm_state vm) = (e, st) -> exception st = None ->
  exists vm', require (str name) vm = Some vm' /\
    load_outcome (str name) vm
      (evaluate (wrapper0 ++ str (module_text name) ++ wrapper1) (str name ++ str ".js")
        (set_retval Undefined st)) e vm'.
Proof.
  intros Ha Hn Hg Ho He. unfold require. rewrite Hg, <-module_script_str.
  apply load_module_outcome; [by split|done|]. unfold throws. by rewrite He.
Qed.

(** [_native_run] throws for a file name that is not a string and goes on: it
    still compiles and runs the source. *)
Lemma nativeRun_goes_on (s : string) (fileName : Value) (f : jsstring) (st st1 : State H) :
  plain s -> IsString fileName = false ->
  ToString fileName (set_exception (Some "_native_run empty script.") (set_retval Undefined st)) = (Some f, st1) ->
  native_call nativeRun [JsString (str s); fileName] st =
  Some (evaluate (str s) (NewFromUtf8 (Execution.v8ValueToStdString (Utf8Value f))) st1).
Proof.
  intros Hs Hf Ht. unfold native_call, run, nativeRun, evaluate.
  change (arg (mkInfo [JsString (str s); fileName] Undefined (External PSandbox)) 0) with (JsString (str s)).
  change (arg (mkInfo [JsString (str s); fileName] Undefined (External PSandbox)) 1) with fileName.
  unfold mbind, throw_unless. rewrite Hf. unfold ThrowError, modify.
  rewrite std_string_plain by done. rewrite (from_ascii s (proj1 Hs)).
  unfold std_string, utf8, mbind, mret, engine.
  destruct fileName; try done; rewrite Ht; cbn [fmap option_fmap option_map default];
    destruct (Script_Compile _ _ _) as [[c|] st2]; try done;
    by destruct (Script_Run c st2) as [[v|] st3].
Qed.

End Loader.

(** ** Witnesses *)

(** An engine whose scripts all evaluate to the object 7, and whose modules
    export what they are called with. *)
Definition toy_scripts : V8Scripts nat := {|
  Script := jsstring;
  ToString _ st := (Some [], st);
  Script_Compile s _ st := (Some s, set_host (S (host st)) st);
  Script_Run _ st := (Some (ObjectRef 7), st);
  CallModule _ e _ st := (e, st);
  NewObject st := (ObjectRef 9, st);
  inherited_exports _ := None;
|}.

Lemma latin1_utf8 s : Utf8Value (V8Codec := latin1) (str s) = s.
Proof.
  cbn. induction s as [|a s IH]; [done|]. cbn. rewrite Nat2Z.id, Ascii.ascii_nat_embedding.
  by f_equal.
Qed.

Lemma latin1_from s : NewFromUtf8 (V8Codec := latin1) s = str s.
Proof. induction s as [|a s IH]; [done|]. cbn in *. by rewrite IH. Qed.

#[local] Existing Instance latin1.
#[local] Existing Instance toy_scripts.

Definition fresh_vm : VM (H := nat) :=
  mkVM (initial_state (mkSandbox Allocator.new_allocator None 0 0 0 0) 0%nat) [].

Lemma toy_evaluate script file (st : State nat) :
  evaluate script file st = set_retval (ObjectRef 7) (set_host (S (host st)) st).
Proof. done. Qed.

(** Loading the storage library compiles one script; loading it twice compiles
    no other. *)
Lemma require_loads_once_witness :
  exists vm', require (str "storage") fresh_vm = Some vm' /\ host (vm_state vm') = 1%nat /\
    require (str "storage") vm' = Some vm'.
Proof.
  destruct (require_loads_once (codec := latin1) (scripts := toy_scripts) (fun s _ => latin1_utf8 s) (fun s _ => latin1_from s)
    "storage" fresh_vm (ObjectRef 9) (vm_state fresh_vm) eq_refl eq_refl eq_refl eq_refl eq_refl)
    as (vm' & Hr & Ho).
  exists vm'. split; [exact Hr|]. rewrite toy_evaluate in Ho.
  destruct Ho as [?|e' st _ Hc ?|e' st vm' _ Hc _ Hs Hagain _]; [done|injection Hc as <- <-; done|].
  injection Hc as <- <-. destruct vm' as [st' c]. cbn in Hs. subst st'.
  split; [reflexivity|]. rewrite Hagain. reflexivity.
Defined.

End Loader.
