(* ===== verification/InjectGas.v ===== *)
(** * The gas injector (vm/v8vm/v8/libjs/inject_gas.js)

    Before a contract is stored its source is parsed, its operators are replaced
    by calls and [traverse] walks the new syntax tree: it collects, in a map from
    source positions to arrays of entries, the text to insert at each position,
    and [genNewScript] pastes the source and the insertions together. The
    inserted text is what makes the contract pay for its instructions. *)

From Stdlib Require Import ZArith Lia SpecFloat Permutation.
From stdpp Require Import base gmap strings list sorting.
From S2P Require Import Prelude V8 JsValue.
Local Open Scope Z_scope.

Module InjectGas.

Export JsValue.

(** [node.range[i]], a position. *)
Definition range_at (node : jsval) (i : nat) : option Z :=
  r ← get node "range";
  match r with
  | Arr l => match l !! i with Some (Int z) => Some z | _ => None end
  | _ => None
  end.

(** The object the parser makes for a node: its type and its own fields first,
    its range last. *)
Definition node_at (type : string) (a b : Z) (fields : list (string * jsval)) : jsval :=
  Obj (("type", Str (str type)) :: fields ++ [("range", Arr [Int a; Int b])])%string.

(** ** Numbers *)

Definition num (z : Z) : spec_float := double_of_Z z.
Definition fadd : spec_float -> spec_float -> spec_float := SFadd 53 1024.
Definition fmul : spec_float -> spec_float -> spec_float := SFmul 53 1024.
(** The literal 0.1: the double nearest to one tenth. *)
Definition tenth : spec_float := SFdiv 53 1024 (num 1) (num 10).

(** ** The tables *)

Definition chargedExpression : list (string * spec_float) :=
  [ ("ThrowStatement", num 50);
    ("CallExpression", num 4); ("TaggedTemplateExpression", num 4); ("NewExpression", num 8);
    ("YieldExpression", num 8); ("MemberExpression", num 4); ("MetaProperty", num 4);
    ("AssignmentExpression", num 3); ("UpdateExpression", num 3); ("BinaryExpression", num 3);
    ("UnaryExpression", num 3); ("LogicalExpression", num 3); ("ConditionalExpression", num 3);
    ("ObjectExpression", tenth); ("ArrayExpression", tenth); ("FunctionExpression", num 1);
    ("ArrowFunctionExpression", num 3);
    ("ClassDeclaration", num 150); ("FunctionDeclaration", num 3); ("VariableDeclarator", num 3);
    ("VariableDeclaratorWithoutInit", num 3); ("MethodDefinition", num 2);
    ("StringLiteral", tenth);
    ("ForStatement", num 1); ("ForInStatement", num 4); ("ForOfStatement", num 2);
    ("WhileStatement", num 1); ("DoWhileStatement", num 1) ]%string.

Definition InjectableStatement : list (string * Z) :=
  [ ("ExpressionStatement", 1); ("ReturnStatement", 1); ("ThrowStatement", 1);
    ("SwitchStatement", 1); ("DoWhileStatement", 1); ("ForStatement", 1);
    ("ForInStatement", 1); ("ForOfStatement", 1); ("IfStatement", 1);
    ("WhileStatement", 1) ]%string.

Inductive InjectType :=
  | gasIncr | gasIncrWithComma | gasIncrWithSemicolon
  | leftBracket | rightBracket | leftBrace | rightBrace | str_.

#[global] Instance InjectType_eq_dec : EqDecision InjectType.
Proof. solve_decision. Defined.

Definition code (t : InjectType) : Z :=
  match t with
  | gasIncr => 1 | gasIncrWithComma => 2 | gasIncrWithSemicolon => 3
  | leftBracket => 4 | rightBracket => 5 | leftBrace => 6 | rightBrace => 7 | str_ => 8
  end.

(** ** The injection map *)

(** The value of an entry, or of an argument: a number or a string. *)
Inductive amount := VNum (d : spec_float) | VStr (s : jsstring).

Record Entry := mkEntry { type : InjectType; value : amount }.

Abbreviation injectionMap := (gmap Z (list Entry)).

(** What [addInjection] and [addInjectionPoint] return, and null. *)
Inductive injection :=
  | NoInjection                          (* null *)
  | EmptyInjection                       (* {} *)
  | At (pos : Z) (index : nat).

Section Injector.

(** V8's conversion of a number to a string. *)
Context (number_toString : spec_float -> jsstring).

(** [a + b] *)
Definition plus (a b : amount) : amount :=
  match a, b with
  | VNum x, VNum y => VNum (fadd x y)
  | VNum x, VStr t => VStr (number_toString x ++ t)
  | VStr s, VNum y => VStr (s ++ number_toString y)
  | VStr s, VStr t => VStr (s ++ t)
  end.

Definition value_str (v : amount) : jsstring :=
  match v with VNum d => number_toString d | VStr s => s end.

Definition genInjectionStr (injectionPoint : Entry) : jsstring :=
  match type injectionPoint with
  | gasIncr => str "_IOSTInstruction_counter.incr(" ++ value_str (value injectionPoint) ++ str ")"
  | gasIncrWithComma =>
      str "_IOSTInstruction_counter.incr(" ++ value_str (value injectionPoint) ++ str "),"
  | gasIncrWithSemicolon =>
      str "_IOSTInstruction_counter.incr(" ++ value_str (value injectionPoint) ++ str ");"
  | leftBracket => str "("
  | rightBracket => str ")"
  | leftBrace => str "{"
  | rightBrace => str "}"
  | str_ => value_str (value injectionPoint)
  end.

(** ** State and exceptions: [None] is a TypeError. *)

Definition M (A : Type) : Type := injectionMap -> option (A * injectionMap).
Definition ret {A} (a : A) : M A := fun m => Some (a, m).
Definition bind {A B} (x : M A) (f : A -> M B) : M B := fun m =>
  match x m with Some (a, m') => f a m' | None => None end.
Definition lift {A} (x : option A) : M A := fun m => option_map (fun a => (a, m)) x.

Local Notation "'let*' x := a 'in' b" := (bind a (fun x => b))
  (at level 10, x name, a at level 100, b at level 200).
Local Notation "a ';;' b" := (bind a (fun _ => b)) (at level 100, right associativity).

(** [arr[i].value += v] *)
Definition add_at (arr : list Entry) (i : nat) (v : amount) : option (list Entry) :=
  e ← arr !! i; Some (<[i := mkEntry (type e) (plus (value e) v)]> arr).

(** The test for an entry the charge can be added to; the third comparison of
    the code, with [InjectType.gasIncrWithComm], compares with undefined. *)
Definition mergeable (e : Entry) : bool :=
  match type e with gasIncr | gasIncrWithSemicolon => true | _ => false end.

Definition addInjection (pos : Z) (t : InjectType) (v : amount) (before : bool) : M injection := fun m =>
  let arr := default [] (m !! pos) in
  if 3 <? code t then
    if before then Some (At pos 0, <[pos := mkEntry t v :: arr]> m)
    else Some (At pos (length arr), <[pos := arr ++ [mkEntry t v]]> m)
  else
    let index := if before then 0%nat else (length arr - 1)%nat in
    match arr !! index with
    | Some e =>
        if mergeable e then
          arr' ← add_at arr index v; Some (At pos index, <[pos := arr']> m)
        else if before then
          arr' ← add_at (mkEntry t (VNum (num 0)) :: arr) 0 v; Some (At pos 0, <[pos := arr']> m)
        else
          arr' ← add_at (arr ++ [mkEntry t (VNum (num 0))]) (length arr) v;
          Some (At pos (length arr), <[pos := arr']> m)
    | None =>
        arr' ← add_at [mkEntry t (VNum (num 0))] 0 v; Some (At pos 0, <[pos := arr']> m)
    end.

Definition addInjectionPoint (node : jsval) (t : InjectType) (v : amount) : M injection :=
  if falsy node then ret EmptyInjection
  else
    let* ty := lift (get node "type") in
    let* p := lift (range_at node 0) in
    if negb (is_str ty "EmptyExpression") then addInjection p t v false
    else addInjection p gasIncr v false.

Definition ensure_block (node : jsval) : M unit :=
  if falsy node then ret tt
  else
    let* ty := lift (get node "type") in
    if negb (is_str ty "BlockStatement") then
      let* a := lift (range_at node 0) in
      addInjection a leftBrace (VNum (num 0)) false ;;
      let* b := lift (range_at node 1) in
      addInjection b rightBrace (VNum (num 0)) true ;;
      ret tt
    else ret tt.

Definition ensure_bracket (node : jsval) : M unit :=
  if falsy node then ret tt
  else
    let* a := lift (range_at node 0) in
    addInjection a leftBracket (VNum (num 0)) false ;;
    let* b := lift (range_at node 1) in
    addInjection b rightBracket (VNum (num 0)) true ;;
    ret tt.

(** [injectionMap.get(injection.pos)[injection.index].value += v] *)
Definition charge (i : injection) (v : amount) : M unit := fun m =>
  match i with
  | At pos index =>
      arr ← m !! pos; arr' ← add_at arr index v; Some (tt, <[pos := arr']> m)
  | _ => None
  end.

(** The step the three charging branches share: where there is no injection to
    charge to, one is made in front of the node. *)
Definition charge_last (node : jsval) (last : injection) (v : spec_float) : M injection :=
  let* last := match last with
    | NoInjection =>
        let* a := lift (range_at node 0) in addInjection a gasIncrWithSemicolon (VNum (num 0)) false
    | _ => ret last
    end in
  charge last (VNum v) ;;
  ret last.

(** The first position inside a loop body. *)
Definition body_pos (body : jsval) : option Z :=
  a ← range_at body 0; ty ← get body "type";
  Some (if is_str ty "BlockStatement" then a + 1 else a).

Definition null_or_undef (v : jsval) : bool := match v with Undef | Null => true | _ => false end.

(** [v !== undefined && v.length > 0], and the length. *)
Definition positive_length (v : jsval) : option (option Z) :=
  match v with
  | Undef => Some None
  | _ => l ← get v "length";
         Some (match l with Int n => if 0 <? n then Some n else None | _ => None end)
  end.

(** [value] before it is scaled: from the table, or by the length of a string
    literal. *)
Definition base_value (ty v : jsval) : option spec_float :=
  match index chargedExpression ty with
  | Some c => Some c
  | None =>
      match v with
      | Str s => if is_str ty "Literal"
                 then Some (fadd (num 2) (fmul tenth (num (Z.of_nat (length s))))) else None
      | _ => None
      end
  end.

(** The charge of a node that is not one of the control structures; [None] for
    the outer option is a TypeError, for the inner one no charge. *)
Definition node_value (node : jsval) : option (option spec_float) :=
  ty ← get node "type";
  v ← get node "value";
  match base_value ty v with
  | None => Some None
  | Some c =>
      init ← get node "init";
      let c := if is_str ty "VariableDeclarator" && null_or_undef init then num 3 else c in
      properties ← (if is_str ty "ObjectExpression" then get node "properties" else Some Undef);
      np ← positive_length properties;
      let c := match np with Some n => fadd (num 2) (fmul c (num n)) | None => c end in
      elements ← (if is_str ty "ArrayExpression" then get node "elements" else Some Undef);
      ne ← positive_length elements;
      let c := match ne with Some n => fadd (num 2) (fmul c (num n)) | None => c end in
      Some (Some c)
  end.

(** [chargedExpression[node.type]] on a node whose type is in the table. *)
Definition charged (ty : jsval) : spec_float := default S754_nan (index chargedExpression ty).

Definition is_for (ty : jsval) : bool :=
  is_str ty "ForStatement" || is_str ty "ForInStatement" || is_str ty "ForOfStatement".

(** The injections for the children, by key. *)
Abbreviation childInjection := (list (string * injection)).

(** The first two conditions of [processNode]: statements, and declarations that
    are not the head of a loop, get an entry of their own in front of them. *)
Definition statement_injection (node parentNode : jsval) (lastInjection : injection) : M injection :=
  let* ty := lift (get node "type") in
  let* last :=
    if index InjectableStatement ty is Some _ then
      let* a := lift (range_at node 0) in addInjection a gasIncrWithSemicolon (VNum (num 0)) false
    else ret lastInjection in
  if is_str ty "VariableDeclaration" then
    let* outside := match parentNode with
      | Null => ret true
      | _ => let* pty := lift (get parentNode "type") in ret (negb (is_for pty))
      end in
    if outside then
      let* a := lift (range_at node 0) in addInjection a gasIncrWithSemicolon (VNum (num 0)) false
    else ret last
  else ret last.

Definition processNode (node parentNode : jsval) (lastInjection : injection)
    : M (injection * childInjection) :=
  let* ty := lift (get node "type") in
  let* last := statement_injection node parentNode lastInjection in
  if is_str ty "IfStatement" then
    let* consequent := lift (get node "consequent") in
    ensure_block consequent ;;
    let* alternate := lift (get node "alternate") in
    ensure_block alternate ;;
    let* test := lift (get node "test") in
    let* ip := addInjectionPoint test gasIncrWithComma (VNum (num 0)) in
    ret (last, [("test"%string, ip)])
  else if is_str ty "ForStatement" then
    let* body := lift (get node "body") in
    ensure_block body ;;
    let* pos := lift (body_pos body) in
    let* ip0 := addInjection pos gasIncrWithSemicolon (VNum (charged ty)) false in
    let* test := lift (get node "test") in
    let* ip2 := addInjectionPoint test gasIncrWithComma (VNum (num 0)) in
    let* update := lift (get node "update") in
    let* ip3 := addInjectionPoint update gasIncrWithComma (VNum (num 0)) in
    ret (last, [("test", ip2); ("update", ip3); ("body", ip0)]%string)
  else if is_str ty "ForInStatement" || is_str ty "ForOfStatement" then
    let* body := lift (get node "body") in
    ensure_block body ;;
    let* pos := lift (body_pos body) in
    let* ip0 := addInjection pos gasIncrWithSemicolon (VNum (charged ty)) false in
    ret (last, [("body"%string, ip0)])
  else if is_str ty "WhileStatement" || is_str ty "DoWhileStatement" then
    let* body := lift (get node "body") in
    ensure_block body ;;
    let* pos := lift (body_pos body) in
    let* ip0 := addInjection pos gasIncrWithSemicolon (VNum (num 1)) false in
    let* test := lift (get node "test") in
    let* ip := addInjectionPoint test gasIncrWithComma (VNum (charged ty)) in
    ret (last, [("test", ip); ("body", ip0)]%string)
  else if is_str ty "WithStatement" then
    let* body := lift (get node "body") in
    ensure_block body ;;
    ret (last, [])
  else if is_str ty "SwitchStatement" then ret (last, [])
  else if is_str ty "SwitchCase" then
    let* test := lift (get node "test") in
    let* ip := addInjectionPoint test gasIncrWithComma (VNum (num 0)) in
    ret (last, [("test"%string, ip)])
  else if is_str ty "ArrowFunctionExpression" then
    let* last := charge_last node last (charged ty) in
    let* body := lift (get node "body") in
    let* bty := lift (get body "type") in
    if negb (is_str bty "BlockStatement") then
      let* a := lift (range_at body 0) in
      addInjection a str_ (VStr (str "function(){")) false ;;
      let* ip := addInjectionPoint body gasIncrWithSemicolon (VNum (num 0)) in
      addInjection a str_ (VStr (str "return ")) false ;;
      let* b := lift (range_at body 1) in
      addInjection b str_ (VStr (str "}()")) true ;;
      ret (last, [("body"%string, ip)])
    else ret (last, [])
  else if is_str ty "ConditionalExpression" then
    let* test := lift (get node "test") in
    let* consequent := lift (get node "consequent") in
    let* alternate := lift (get node "alternate") in
    ensure_bracket test ;;
    ensure_bracket consequent ;;
    ensure_bracket alternate ;;
    let* ip1 := addInjectionPoint test gasIncrWithComma (VNum (num 0)) in
    let* ip2 := addInjectionPoint consequent gasIncrWithComma (VNum (num 0)) in
    let* ip3 := addInjectionPoint alternate gasIncrWithComma (VNum (num 0)) in
    let* last := charge_last node last (charged ty) in
    ret (last, [("test", ip1); ("consequent", ip2); ("alternate", ip3)]%string)
  else
    let* v := lift (node_value node) in
    match v with
    | None => ret (last, [])
    | Some v => let* last := charge_last node last v in ret (last, [])
    end.

(** The keys of an array are its indices, for which there is never an entry in
    [childInjection]. *)
Fixpoint traverse (node parentNode : jsval) (lastInjection : injection) : M unit :=
  let* p := processNode node parentNode lastInjection in
  let last := fst p in
  let childInjection := snd p in
  match node with
  | Obj ps =>
      (fix each (ps : list (string * jsval)) : M unit :=
         match ps with
         | [] => ret tt
         | (key, child) :: ps' =>
             (if is_object child
              then traverse child node (default last (find_prop key childInjection))
              else ret tt) ;;
             each ps'
         end) ps
  | Arr l =>
      (fix each (l : list jsval) : M unit :=
         match l with
         | [] => ret tt
         | child :: l' => (if is_object child then traverse child node last else ret tt) ;; each l'
         end) l
  | _ => ret tt
  end.

(** ** The new script *)

(** [s.slice(from, to)] for non-negative bounds. *)
Definition slice (s : jsstring) (from to : Z) : jsstring :=
  take (Z.to_nat to - Z.to_nat from) (drop (Z.to_nat from) s).
Definition slice_from (s : jsstring) (from : Z) : jsstring := drop (Z.to_nat from) s.

(** [v > 0], for an entry of a charging type. *)
Definition amount_positive (v : amount) : bool :=
  match v with VNum d => SFltb (num 0) d | VStr _ => false end.

Definition emitted (e : Entry) : bool := (3 <? code (type e)) || amount_positive (value e).

Definition inserted (injectionArr : list Entry) : jsstring :=
  concat (map (fun e => if emitted e then genInjectionStr e else []) injectionArr).

Definition sorted_keys (m : injectionMap) : list Z := merge_sort Z.le (map fst (map_to_list m)).

Fixpoint paste (m : injectionMap) (source : jsstring) (offset : Z) (arr : list Z) : jsstring :=
  match arr with
  | [] => slice_from source offset
  | pos :: arr' =>
      slice source offset pos ++ inserted (default [] (m !! pos)) ++ paste m source pos arr'
  end.

Definition genNewScript (m : injectionMap) (source : jsstring) : jsstring :=
  paste m source 0 (sorted_keys m).

End Injector.

End InjectGas.
