(* ===== verification/GasLedger.v ===== *)
(** * What the gas injector charges, and where

    The reference the injector is checked against: [ledger] lists the charges of
    a syntax tree with the position each is paid at, without the map, its
    arrays of entries and the indices into them. [place] is the layout of the
    ranges a parser gives: the parts of a node lie inside it, in order, and the
    parts of a control structure have a token between them. *)

From Stdlib Require Import ZArith Lia SpecFloat Permutation.
From stdpp Require Import base gmap strings list sorting.
From S2P Require Import Prelude V8 InjectGas.
Local Open Scope Z_scope.

Module GasLedger.
Import InjectGas.

(** ** The reference *)

Definition type_of (node : jsval) : jsval := default Undef (get node "type").
Definition start_of (node : jsval) : Z := default 0 (range_at node 0).
Definition part (node : jsval) (k : string) : jsval := default Undef (get node k).
Definition body_start (node : jsval) : Z := default 0 (body_pos (part node "body")).

Definition is_while (ty : jsval) : bool := is_str ty "WhileStatement" || is_str ty "DoWhileStatement".
Definition is_for_in (ty : jsval) : bool := is_str ty "ForInStatement" || is_str ty "ForOfStatement".

(** A statement pays in front of itself. *)
Definition pays_itself (node parentNode : jsval) : bool :=
  match index InjectableStatement (type_of node) with
  | Some _ => true
  | None => is_str (type_of node) "VariableDeclaration" && negb (is_for (type_of parentNode))
  end.

(** What a node costs on its own, apart from the passes of a loop. *)
Definition node_cost (node : jsval) : option spec_float :=
  let ty := type_of node in
  if is_for ty || is_while ty then None
  else if is_str ty "IfStatement" || is_str ty "WithStatement" || is_str ty "SwitchStatement"
          || is_str ty "SwitchCase" then None
  else if is_str ty "ArrowFunctionExpression" || is_str ty "ConditionalExpression"
  then Some (charged ty)
  else default None (node_value node).

(** What a pass of a loop costs, and where it is paid: in front of the body and,
    for the loops with a condition only, in front of the condition. *)
Definition loop_costs (node : jsval) : list (Z * spec_float) :=
  let ty := type_of node in
  if is_for ty then [(body_start node, charged ty)]
  else if is_while ty then
    (body_start node, num 1) ::
    (if falsy (part node "test") then [] else [(start_of (part node "test"), charged ty)])
  else [].

(** Where the charges of a part are paid, when not where those of the node
    are. *)
Definition part_pays_at (node : jsval) (key : string) : option Z :=
  let ty := type_of node in
  let at_start := Some (start_of (part node key)) in
  if String.eqb key "test" then
    if is_str ty "IfStatement" || is_str ty "ForStatement" || is_while ty || is_str ty "SwitchCase"
       || is_str ty "ConditionalExpression" then at_start else None
  else if String.eqb key "update" then if is_str ty "ForStatement" then at_start else None
  else if String.eqb key "consequent" || String.eqb key "alternate" then
    if is_str ty "ConditionalExpression" then at_start else None
  else if String.eqb key "body" then
    if is_for ty || is_while ty then Some (body_start node)
    else if is_str ty "ArrowFunctionExpression" && negb (is_str (type_of (part node "body")) "BlockStatement")
    then at_start else None
  else None.

(** Where a node pays: in front of itself, or where the code around it does, or,
    when nothing around it does, in front of itself after all. *)
Definition pays_at (node parentNode : jsval) (last : option Z) : option Z :=
  if pays_itself node parentNode then Some (start_of node)
  else match last, node_cost node with
       | None, Some _ => Some (start_of node)
       | _, _ => last
       end.

Definition own_costs (node parentNode : jsval) (last : option Z) : list (Z * spec_float) :=
  loop_costs node ++
  match pays_at node parentNode last, node_cost node with
  | Some p, Some c => [(p, c)]
  | _, _ => []
  end.

Definition or_else (a b : option Z) : option Z := match a with Some _ => a | None => b end.

Fixpoint ledger (node parentNode : jsval) (last : option Z) : list (Z * spec_float) :=
  own_costs node parentNode last ++
  match node with
  | Obj ps =>
      (fix each (ps : list (string * jsval)) : list (Z * spec_float) :=
         match ps with
         | [] => []
         | (key, child) :: ps' =>
             (if is_object child
              then ledger child node (or_else (part_pays_at node key) (pays_at node parentNode last))
              else []) ++ each ps'
         end) ps
  | Arr l =>
      (fix each (l : list jsval) : list (Z * spec_float) :=
         match l with
         | [] => []
         | child :: l' =>
             (if is_object child then ledger child node (pays_at node parentNode last) else []) ++ each l'
         end) l
  | _ => []
  end.

(** ** Layout *)

(** The types the injector does something for. *)
Definition active (node : jsval) : bool :=
  let ty := type_of node in
  match index InjectableStatement ty, index chargedExpression ty with
  | None, None =>
      is_str ty "VariableDeclaration" || is_str ty "SwitchCase" || is_str ty "WithStatement"
      || is_str ty "Literal"
  | _, _ => true
  end.

(** Nothing inside is of such a type. *)
Fixpoint inert (node : jsval) : bool :=
  negb (active node) &&
  match node with
  | Obj ps => forallb (fun kc => inert (snd kc)) ps
  | Arr l => forallb inert l
  | _ => true
  end.

(** The parts a control structure wraps or pays for separately. *)
Definition control_parts (node : jsval) : list string :=
  let ty := type_of node in
  if is_str ty "IfStatement" || is_str ty "ConditionalExpression" then ["test"; "consequent"; "alternate"]
  else if is_str ty "ForStatement" then ["test"; "update"; "body"]
  else if is_for_in ty then ["body"]
  else if is_while ty then ["test"; "body"]
  else if is_str ty "WithStatement" then ["body"]
  else if is_str ty "SwitchCase" then ["test"]
  else if is_str ty "ArrowFunctionExpression" then ["body"]
  else [].

Definition controlled (node : jsval) (key : string) : bool :=
  existsb (String.eqb key) (control_parts node).

Definition needs_body (node : jsval) : bool :=
  let ty := type_of node in is_for ty || is_while ty || is_str ty "ArrowFunctionExpression".

Definition is_block (node : jsval) : bool := is_str (type_of node) "BlockStatement".

(** The place behind the last part, when the node lies between [cur] and [hi];
    the brace of a block comes in front of its statements. *)
Definition span (node : jsval) (cur hi : Z) : option (Z * Z) :=
  a ← range_at node 0; b ← range_at node 1;
  if (cur <=? a) && (a + (if is_block node then 1 else 0) <? b) && (b <=? hi) then Some (a, b) else None.

Fixpoint nodup_keys (ks : list string) : bool :=
  match ks with [] => true | k :: ks' => negb (existsb (String.eqb k) ks') && nodup_keys ks' end.

Definition well_made (node : jsval) (ps : list (string * jsval)) : bool :=
  nodup_keys (map fst ps) &&
  (if node_value node is Some _ then true else false) &&
  (negb (needs_body node) || is_object (part node "body")).

Fixpoint place (node : jsval) (cur hi : Z) : option Z :=
  if inert node then Some cur
  else match node with
  | Obj ps =>
      '(a, b) ← span node cur hi;
      if well_made node ps then
        let gap := if control_parts node is [] then 0 else 1 in
        _ ← (fix each (ps : list (string * jsval)) (cur : Z) : option Z :=
               match ps with
               | [] => Some cur
               | (key, child) :: ps' =>
                   if is_object child then
                     next ← place child cur b;
                     next ← (if controlled node key then snd <$> span child cur b else Some next);
                     each ps' (next + gap)
                   else if controlled node key && negb (falsy child) then None
                   else each ps' cur
               end) ps (a + if is_block node then 1 else 0);
        Some b
      else None
  | Arr l =>
      (fix each (l : list jsval) (cur : Z) : option Z :=
         match l with
         | [] => Some cur
         | child :: l' => if is_object child then next ← place child cur hi; each l' next else each l' cur
         end) l cur
  | _ => Some cur
  end.

End GasLedger.
