(* ===== verification/GasFacts.v ===== *)
(** * The gas injector charges exactly what its ledger says

    [accounts m L]: the entries of the map [m] hold the charges [L], each at its
    position and none twice. Every step of the injector has an [effect]: the
    charges it adds, the positions whose arrays it shifts (an entry put in front
    moves the others, and an index handed out before no longer fits), and the
    keys it may add. *)

From Stdlib Require Import ZArith Lia SpecFloat Permutation.
From stdpp Require Import base gmap strings list sorting.
From S2P Require Import Prelude V8 InjectGas GasLedger.
Local Open Scope Z_scope.

Module GasFacts.
Import InjectGas GasLedger.

(** ** Sums of doubles that are not negative *)

Definition nonneg (d : spec_float) : Prop :=
  match d with
  | S754_zero s | S754_infinity s | S754_finite s _ _ => s = false
  | S754_nan => True
  end.

Lemma round_nonneg m e l : nonneg (binary_round_aux 53 1024 false m e l).
Proof.
  unfold binary_round_aux. destruct (shr_fexp _ _ _ _ _) as [mrs e'].
  destruct (shr_fexp _ _ _ _ _) as [mrs' e'']. destruct (shr_m mrs'); [done| |done].
  by destruct (e'' <=? _).
Qed.

Lemma normalize_nonneg m e : 0 <= m -> nonneg (binary_normalize 53 1024 m e false).
Proof.
  intros Hm. destruct m as [|m|m]; [done| |lia]. cbn. unfold binary_round.
  destruct (shl_align _ _ _). apply round_nonneg.
Qed.

Lemma num_nonneg z : 0 <= z -> nonneg (num z).
Proof. apply normalize_nonneg. Qed.

Lemma fadd_nonneg x y : nonneg x -> nonneg y -> nonneg (fadd x y).
Proof.
  destruct x as [[]|[]| |[] m e], y as [[]|[]| |[] m' e']; try done.
  intros _ _. unfold fadd, SFadd. apply normalize_nonneg. cbn. lia.
Qed.

Lemma fmul_nonneg x y : nonneg x -> nonneg y -> nonneg (fmul x y).
Proof. destruct x as [[]|[]| |[] m e], y as [[]|[]| |[] m' e']; try done. intros _ _. apply round_nonneg. Qed.

Lemma fadd_zero x : nonneg x -> fadd x (num 0) = x.
Proof. by destruct x as [[]|[]| |[] m e]. Qed.

Definition total (cs : list spec_float) : spec_float := foldl fadd (num 0) cs.

Lemma total_snoc cs c : total (cs ++ [c]) = fadd (total cs) c.
Proof. apply foldl_snoc. Qed.

Lemma total_nonneg cs : Forall nonneg cs -> nonneg (total cs).
Proof.
  induction cs as [|c cs IH] using rev_ind; [done|].
  intros [Hcs Hc%Forall_inv]%Forall_app. rewrite total_snoc. apply fadd_nonneg; [exact (IH Hcs)|exact Hc].
Qed.

(** ** Entries and their charges *)

Definition charging (t : InjectType) : bool := code t <=? 3.

Definition entry_holds (e : Entry) (cs : list spec_float) : Prop :=
  Forall nonneg cs /\
  if charging (type e) then value e = VNum (total cs) else cs = [].

Definition at_pos (p : Z) (L : list (Z * spec_float)) : list spec_float :=
  map snd (filter (fun x => x.1 = p) L).

Definition entries (m : injectionMap) (p : Z) : list Entry := default [] (m !! p).

Definition accounts (m : injectionMap) (L : list (Z * spec_float)) : Prop :=
  forall p, exists css, Forall2 entry_holds (entries m p) css /\ concat css ≡ₚ at_pos p L.

Definition live (m : injectionMap) (p : Z) (k : nat) : Prop :=
  exists e, entries m p !! k = Some e /\ charging (type e) = true.

Record effect (lo hi : Z) (shifted : Z -> Prop) (own : list (Z * spec_float))
    (m m' : injectionMap) : Prop := mkEffect {
  effect_accounts L : accounts m L -> accounts m' (L ++ own);
  effect_live p k : ~ shifted p -> live m p k -> live m' p k;
  effect_keys p : is_Some (m' !! p) -> is_Some (m !! p) \/ lo <= p <= hi;
}.

Lemma at_pos_app p L L' : at_pos p (L ++ L') = at_pos p L ++ at_pos p L'.
Proof. unfold at_pos. by rewrite filter_app, map_app. Qed.

Lemma at_pos_one p v : at_pos p [(p, v)] = [v].
Proof. unfold at_pos. by rewrite filter_cons_True. Qed.

Lemma at_pos_other p q v : p <> q -> at_pos p [(q, v)] = [].
Proof. intros H. unfold at_pos. by rewrite filter_cons_False by (cbn; congruence). Qed.

Lemma at_pos_permutation p L L' : L ≡ₚ L' -> at_pos p L ≡ₚ at_pos p L'.
Proof. intros H. unfold at_pos. by rewrite H. Qed.

#[export] Instance accounts_permutation m : Proper ((≡ₚ) ==> iff) (accounts m).
Proof.
  assert (H : forall L L', L ≡ₚ L' -> accounts m L -> accounts m L').
  { intros L L' HL HA p. destruct (HA p) as (css & H1 & H2). exists css. split; [done|].
    by rewrite H2, (at_pos_permutation p L L') by done. }
  intros L L' HL. split; apply H; done.
Qed.

Lemma entries_insert m p arr : entries (<[p := arr]> m) p = arr.
Proof. unfold entries. by rewrite lookup_insert_eq. Qed.

Lemma entries_insert_ne m p q arr : p <> q -> entries (<[p := arr]> m) q = entries m q.
Proof. intros H. unfold entries. by rewrite lookup_insert_ne. Qed.

Section Effects.
Context (lo hi : Z).

Lemma effect_refl shifted m : effect lo hi shifted [] m m.
Proof. split; [intros L; by rewrite app_nil_r|done|by left]. Qed.

Lemma effect_trans shifted own own' m m' m'' :
  effect lo hi shifted own m m' -> effect lo hi shifted own' m' m'' ->
  effect lo hi shifted (own ++ own') m m''.
Proof.
  intros [A1 L1 K1] [A2 L2 K2]. split; [|by eauto|].
  - intros L HL. rewrite app_assoc. auto.
  - intros p Hp. destruct (K2 p Hp) as [?%K1|]; auto.
Qed.

Lemma effect_mono lo' hi' (shifted shifted' : Z -> Prop) own m m' :
  effect lo' hi' shifted own m m' -> lo <= lo' -> hi' <= hi ->
  (forall p, shifted p -> shifted' p) -> effect lo hi shifted' own m m'.
Proof.
  intros [A1 L1 K1] Hlo Hhi Hs. split; [done|by eauto|].
  intros p Hp. destruct (K1 p Hp); [by left|right; lia].
Qed.

Lemma effect_perm shifted own own' m m' :
  effect lo hi shifted own m m' -> own ≡ₚ own' -> effect lo hi shifted own' m m'.
Proof.
  intros [A1 L1 K1] Hp. split; [|done..].
  intros L HL. rewrite <- Hp. auto.
Qed.

(** A change of one array. *)
Lemma effect_array m p arr own shifted :
  is_Some (m !! p) \/ lo <= p <= hi ->
  (forall css C, Forall2 entry_holds (entries m p) css -> concat css ≡ₚ C ->
     exists css', Forall2 entry_holds arr css' /\ concat css' ≡ₚ C ++ at_pos p own) ->
  (forall q, q <> p -> at_pos q own = []) ->
  (~ shifted p -> forall k e, entries m p !! k = Some e -> charging (type e) = true ->
     exists e', arr !! k = Some e' /\ charging (type e') = true) ->
  effect lo hi shifted own m (<[p := arr]> m).
Proof.
  intros Hp Hacc Hown Hlive. split.
  - intros L HL q. rewrite at_pos_app. destruct (decide (q = p)) as [->|Hq].
    + destruct (HL p) as (css & H1 & H2). destruct (Hacc css _ H1 H2) as (css' & H3 & H4).
      exists css'. by rewrite entries_insert.
    + destruct (HL q) as (css & H1 & H2). exists css. rewrite entries_insert_ne by done.
      by rewrite Hown, app_nil_r.
  - intros q k Hs (e & He & Ht). destruct (decide (q = p)) as [->|Hq].
    + destruct (Hlive Hs k e He Ht) as (e' & He' & Ht'). exists e'. by rewrite entries_insert.
    + exists e. by rewrite entries_insert_ne.
  - intros q. destruct (decide (q = p)) as [->|Hq]; [by intros _|]. rewrite lookup_insert_ne by done. auto.
Qed.

(** *** Steps of the injector *)

Context (number_toString : spec_float -> jsstring).
Abbreviation addInjection := (addInjection number_toString).
Abbreviation addInjectionPoint := (addInjectionPoint number_toString).
Abbreviation charge := (charge number_toString).

Definition none (p : Z) : Prop := False.

(** [own] lists the charge of [v] at [p]; a charge of 0 need not be listed. *)
Definition pays (p : Z) (v : spec_float) (own : list (Z * spec_float)) : Prop :=
  nonneg v /\ (own = [(p, v)] \/ own = [] /\ v = num 0).

Lemma pays_some p v : nonneg v -> pays p v [(p, v)].
Proof. split; auto. Qed.

Lemma pays_zero p : pays p (num 0) [].
Proof. split; [by apply num_nonneg|auto]. Qed.

Lemma pays_other p q v own : pays p v own -> q <> p -> at_pos q own = [].
Proof. intros [_ [->|[-> _]]] H; [by apply at_pos_other|done]. Qed.

Lemma entry_add e cs p v own :
  entry_holds e cs -> charging (type e) = true -> pays p v own ->
  exists cs', entry_holds (mkEntry (type e) (plus number_toString (value e) (VNum v))) cs' /\
    cs' = cs ++ at_pos p own.
Proof.
  intros [Hn Hv] Ht [Hnv Hown]. rewrite Ht in Hv. eexists; split; [|done].
  unfold entry_holds. cbn [type value]. rewrite Ht, Hv. cbn [plus]. destruct Hown as [->|[-> ->]].
  - rewrite at_pos_one, total_snoc. split; [|done]. apply Forall_app; auto.
  - cbn [at_pos filter map]. rewrite app_nil_r. split; [done|]. f_equal. by apply fadd_zero, total_nonneg.
Qed.

Lemma add_at_spec arr i e v :
  arr !! i = Some e ->
  add_at number_toString arr i v =
  Some (<[i := mkEntry (type e) (plus number_toString (value e) v)]> arr).
Proof. intros H. unfold add_at. by rewrite H. Qed.

(** Adding to an entry. *)
Lemma effect_add m p k e v own :
  entries m p !! k = Some e -> charging (type e) = true -> pays p v own ->
  effect lo hi none own m
    (<[p := <[k := mkEntry (type e) (plus number_toString (value e) (VNum v))]> (entries m p)]> m).
Proof.
  intros He Ht Hv. apply effect_array; [| |by intros; eapply pays_other|].
  { left. unfold entries in He. by destruct (m !! p). }
  - intros css C HF HC. destruct (Forall2_lookup_l _ _ _ _ _ HF He) as (cs & Hcs & Hh).
    destruct (entry_add e cs p v own Hh Ht Hv) as (cs' & Hh' & E).
    exists (<[k := cs']> css). split; [by apply Forall2_insert|].
    rewrite <- HC. rewrite <- (take_drop_middle _ _ _ Hcs) at 2. rewrite insert_take_drop by
      (apply lookup_lt_is_Some; by exists cs).
    rewrite !concat_app, !concat_cons, E. solve_Permutation.
  - intros _ j ej Hj Htj. destruct (decide (j = k)) as [->|].
    + rewrite list_lookup_insert_eq by (apply lookup_lt_is_Some; by exists e). simplify_eq. by eexists.
    + rewrite list_lookup_insert_ne by done. by exists ej.
Qed.

(** A new entry at the end. *)
Lemma effect_push m p e cs own :
  lo <= p <= hi -> entry_holds e cs -> cs = at_pos p own -> (forall q, q <> p -> at_pos q own = []) ->
  effect lo hi none own m (<[p := entries m p ++ [e]]> m).
Proof.
  intros Hp He Hcs Ho. apply effect_array; [by right| |done|].
  - intros css C HF HC. exists (css ++ [cs]). split; [by apply Forall2_app; auto|].
    rewrite concat_app, HC, Hcs. cbn. by rewrite app_nil_r.
  - intros _ k e' He' Ht'. exists e'. split; [|done]. by apply lookup_app_l_Some.
Qed.

(** A new entry in front, which moves the others. *)
Lemma effect_unshift m p e :
  lo <= p <= hi -> entry_holds e [] -> effect lo hi (eq p) [] m (<[p := e :: entries m p]> m).
Proof.
  intros Hp He. apply effect_array; [by right| |done|by intros []].
  intros css C HF HC. exists ([] :: css). split; [by constructor|]. cbn. by rewrite app_nil_r.
Qed.

(** *** The operations *)

Lemma addInjection_text m p t v :
  lo <= p <= hi -> charging t = false ->
  exists i m', addInjection p t v false m = Some (i, m') /\ effect lo hi none [] m m'.
Proof.
  intros Hp Ht. unfold InjectGas.addInjection. unfold charging in Ht.
  replace (3 <? code t) with true by lia. eexists _, _. split; [done|].
  apply (effect_push _ _ (mkEntry t v) [] []); [done| |done..].
  split; [done|]. unfold charging. cbn [type]. by rewrite Ht.
Qed.

Lemma addInjection_front m p t v :
  lo <= p <= hi -> charging t = false ->
  exists i m', addInjection p t v true m = Some (i, m') /\ effect lo hi (eq p) [] m m'.
Proof.
  intros Hp Ht. unfold InjectGas.addInjection. unfold charging in Ht.
  replace (3 <? code t) with true by lia. eexists _, _. split; [done|].
  apply effect_unshift; [done|]. split; [done|]. unfold charging. cbn [type]. by rewrite Ht.
Qed.

Lemma mergeable_charging e : mergeable e = true -> charging (type e) = true.
Proof. unfold mergeable. by destruct (type e). Qed.

(** A charge in an entry of its own. *)
Lemma push_gas m p t v own :
  lo <= p <= hi -> charging t = true -> pays p v own ->
  exists m', (arr' ← add_at number_toString (entries m p ++ [mkEntry t (VNum (num 0))]) (length (entries m p)) (VNum v);
              Some (At p (length (entries m p)), <[p := arr']> m)) = Some (At p (length (entries m p)), m') /\
    effect lo hi none own m m' /\ live m' p (length (entries m p)).
Proof.
  intros Hp Ht Hv. rewrite (add_at_spec _ _ (mkEntry t (VNum (num 0)))) by apply list_lookup_middle, eq_refl.
  eexists. split; [done|]. rewrite insert_app_r_alt, Nat.sub_diag by lia. cbn [list_insert insert].
  destruct (entry_add (mkEntry t (VNum (num 0))) [] p v own) as (cs & Hh & Hcs); [|done..|].
  { split; [done|]. cbn [type]. by rewrite Ht. }
  split; [eapply effect_push; [done..|]; by intros; eapply pays_other|].
  eexists. rewrite entries_insert. split; [by apply list_lookup_middle|done].
Qed.

Lemma addInjection_gas m p t v own :
  lo <= p <= hi -> charging t = true -> pays p v own ->
  exists k m', addInjection p t (VNum v) false m = Some (At p k, m') /\
    effect lo hi none own m m' /\ live m' p k.
Proof.
  intros Hp Ht Hv. unfold InjectGas.addInjection. pose proof Ht as Ht'. unfold charging in Ht'.
  replace (3 <? code t) with false by lia. fold (entries m p).
  destruct (push_gas m p t v own Hp Ht Hv) as (m' & E & Heff & Hl).
  destruct (entries m p !! _) as [e|] eqn:He.
  - destruct (mergeable e) eqn:Hm; [|by eauto].
    apply mergeable_charging in Hm. rewrite (add_at_spec _ _ e) by done.
    eexists _, _. split; [done|]. split; [by apply effect_add|].
    eexists. rewrite entries_insert, list_lookup_insert_eq by (apply lookup_lt_is_Some; by exists e).
    by split.
  - destruct (entries m p) as [|e arr]; [by eauto|].
    apply lookup_ge_None in He. cbn [length] in He. lia.
Qed.

Lemma charge_live m p k v own :
  live m p k -> pays p v own ->
  exists m', charge (At p k) (VNum v) m = Some (tt, m') /\ effect lo hi none own m m'.
Proof.
  intros (e & He & Ht) Hv. unfold InjectGas.charge.
  destruct (m !! p) as [arr|] eqn:E; [|by unfold entries in He; rewrite E in He].
  assert (Ha : arr = entries m p) by (unfold entries; by rewrite E). subst arr.
  pose proof (add_at_spec _ _ _ (VNum v) He) as Ea.
  eexists. split; [by cbn; rewrite Ea|]. by apply effect_add.
Qed.

End Effects.

(** ** Running a step *)

Section Steps.
Context (number_toString : spec_float -> jsstring).

Lemma bind_some {A B} (x : M A) (f : A -> M B) m r m1 :
  x m = Some (r, m1) -> bind x f m = f r m1.
Proof. intros H. unfold bind. by rewrite H. Qed.

Lemma bind_lift {A B} (o : option A) (f : A -> M B) m a :
  o = Some a -> bind (lift o) f m = f a m.
Proof. intros ->. done. Qed.

Lemma object_truthy c : is_object c = true -> falsy c = false.
Proof. by destruct c. Qed.

Lemma object_type c : is_object c = true -> get c "type" = Some (type_of c).
Proof. by destruct c. Qed.

Lemma point_spec lo hi m c t v a own :
  is_object c = true -> range_at c 0 = Some a -> lo <= a <= hi -> charging t = true -> pays a v own ->
  exists k m', addInjectionPoint number_toString c t (VNum v) m = Some (At a k, m') /\
    effect lo hi none own m m' /\ live m' a k.
Proof.
  intros Hc Hr Ha Ht Hv. unfold addInjectionPoint. rewrite (object_truthy c Hc).
  rewrite (bind_lift _ _ _ _ (object_type c Hc)), (bind_lift _ _ _ _ Hr).
  destruct (negb _); by apply addInjection_gas.
Qed.

Lemma wrap_spec lo hi m (l r : InjectType) vl vr c a b :
  range_at c 0 = Some a -> range_at c 1 = Some b -> lo <= a <= hi -> lo <= b <= hi ->
  charging l = false -> charging r = false ->
  exists m', bind (lift (range_at c 0)) (fun a => bind (addInjection number_toString a l vl false) (fun _ =>
      bind (lift (range_at c 1)) (fun b => bind (addInjection number_toString b r vr true) (fun _ => ret tt)))) m
    = Some (tt, m') /\ effect lo hi (eq b) [] m m'.
Proof.
  intros Ha Hb Hra Hrb Hl Hr. rewrite (bind_lift _ _ _ _ Ha).
  destruct (addInjection_text lo hi number_toString m a l vl) as (i1 & m1 & E1 & F1); [done..|].
  rewrite (bind_some _ _ _ _ _ E1), (bind_lift _ _ _ _ Hb).
  destruct (addInjection_front lo hi number_toString m1 b r vr) as (i2 & m2 & E2 & F2); [done..|].
  rewrite (bind_some _ _ _ _ _ E2). eexists. split; [done|].
  change (@nil (Z * spec_float)) with (@nil (Z * spec_float) ++ []). eapply effect_trans; [|exact F2].
  eapply effect_mono; [exact F1|lia..|by intros p []].
Qed.

Lemma block_spec lo hi m c a b :
  is_object c = true -> range_at c 0 = Some a -> range_at c 1 = Some b -> lo <= a <= hi -> lo <= b <= hi ->
  exists m', ensure_block number_toString c m = Some (tt, m') /\ effect lo hi (eq b) [] m m'.
Proof.
  intros Hc Ha Hb Hra Hrb. unfold ensure_block. rewrite (object_truthy c Hc).
  rewrite (bind_lift _ _ _ _ (object_type c Hc)).
  destruct (negb _); [by eapply wrap_spec|]. eexists. split; [done|]. apply effect_refl.
Qed.

Lemma bracket_spec lo hi m c a b :
  is_object c = true -> range_at c 0 = Some a -> range_at c 1 = Some b -> lo <= a <= hi -> lo <= b <= hi ->
  exists m', ensure_bracket number_toString c m = Some (tt, m') /\ effect lo hi (eq b) [] m m'.
Proof.
  intros Hc Ha Hb Hra Hrb. unfold ensure_bracket. rewrite (object_truthy c Hc). by eapply wrap_spec.
Qed.

End Steps.

End GasFacts.
