(* ===== verification/GasNode.v ===== *)
(** * One node of the tree: [processNode] does what the ledger says *)

From Stdlib Require Import ZArith Lia SpecFloat Permutation.
From stdpp Require Import base gmap strings list sorting.
From S2P Require Import Prelude V8 InjectGas GasLedger GasFacts.
Local Open Scope Z_scope.

Module GasNode.
Import InjectGas GasLedger GasFacts.

Local Opaque num tenth fadd fmul.

(** ** Saved injections *)

Definition holds (m : injectionMap) (i : injection) (p : Z) : Prop :=
  exists k, i = At p k /\ live m p k.

Definition last_holds (m : injectionMap) (i : injection) (o : option Z) : Prop :=
  match o with None => i = NoInjection | Some p => holds m i p end.

Definition inside (a b p : Z) : Prop := a < p <= b.

Lemma holds_effect lo hi (S : Z -> Prop) own m m' i p :
  effect lo hi S own m m' -> ~ S p -> holds m i p -> holds m' i p.
Proof. intros F Hp (k & -> & Hl). exists k. split; [done|]. by eapply effect_live. Qed.

Lemma last_effect lo hi (S : Z -> Prop) own m m' i o :
  effect lo hi S own m m' -> (forall p, o = Some p -> ~ S p) -> last_holds m i o -> last_holds m' i o.
Proof. intros F Ho. destruct o as [p|]; [|done]. apply (holds_effect _ _ _ _ _ _ _ _ F). auto. Qed.

(** ** The charges are not negative *)

Lemma table_nonneg ty c : index chargedExpression ty = Some c -> nonneg c.
Proof.
  destruct ty; try done. cbn [index]. destruct (key_of _ _) as [k|]; [|done].
  intros Hin%find_prop_In.
  assert (HF : Forall (fun x : string * spec_float => nonneg (snd x)) chargedExpression).
  { repeat (apply Forall_cons; split; [vm_compute; reflexivity|]). constructor. }
  rewrite Forall_forall in HF. apply (HF (k, c)). by apply list_elem_of_In.
Qed.

Lemma charged_nonneg ty : nonneg (charged ty).
Proof.
  unfold charged. destruct (index _ ty) as [c|] eqn:E; [|done]. by eapply table_nonneg.
Qed.

Lemma scaled_nonneg c n : nonneg c -> 0 <= n -> nonneg (fadd (num 2) (fmul c (num n))).
Proof.
  intros. apply fadd_nonneg; [by apply num_nonneg|]. apply fmul_nonneg; [done|]. by apply num_nonneg.
Qed.

Lemma positive_length_pos v n : positive_length v = Some (Some n) -> 0 <= n.
Proof.
  destruct v; try done; unfold positive_length;
    (destruct (get _ "length") as [w|]; [|done]); cbn; destruct w as [| | |x| | | |]; try done;
    (destruct (Z.ltb_spec 0 x); [|done]); intros [= <-]; lia.
Qed.

Lemma by_length_nonneg c v o :
  positive_length v = Some o -> nonneg c ->
  nonneg match o with Some n => fadd (num 2) (fmul c (num n)) | None => c end.
Proof. intros H Hc. destruct o; [|done]. apply scaled_nonneg; [done|]. by eapply positive_length_pos. Qed.

Lemma base_value_nonneg ty v c : base_value ty v = Some c -> nonneg c.
Proof.
  unfold base_value. destruct (index _ ty) as [c'|] eqn:E.
  - intros [= <-]. by eapply table_nonneg.
  - destruct v; try done. destruct (is_str ty "Literal"); [|done]. intros [= <-].
    apply scaled_nonneg; [vm_compute; reflexivity|lia].
Qed.

Lemma some_bind {A B} (x : A) (f : A -> option B) : (Some x ≫= f) = f x.
Proof. done. Qed.

Lemma node_value_nonneg node v : node_value node = Some (Some v) -> nonneg v.
Proof.
  unfold node_value. destruct (get node "type") as [ty|]; [|done]. rewrite some_bind.
  destruct (get node "value") as [w|]; [|done]. rewrite some_bind.
  destruct (base_value ty w) as [c|] eqn:Eb; [|done]. apply base_value_nonneg in Eb.
  destruct (get node "init") as [init|]; [|done]. rewrite some_bind. cbv zeta.
  set (c1 := if _ && _ then num 3 else c).
  assert (H1 : nonneg c1) by (subst c1; destruct (_ && _); [by apply num_nonneg|exact Eb]). clearbody c1.
  destruct (if is_str ty "ObjectExpression" then _ else _) as [pr|]; [|done]. rewrite some_bind.
  destruct (positive_length pr) as [np|] eqn:Ep; [|done]. rewrite some_bind.
  apply (by_length_nonneg _ _ _ Ep) in H1.
  destruct (if is_str ty "ArrayExpression" then _ else _) as [el|]; [|done]. rewrite some_bind.
  destruct (positive_length el) as [ne|] eqn:Ee; [|done]. rewrite some_bind.
  apply (by_length_nonneg _ _ _ Ee) in H1. intros [= <-]. exact H1.
Qed.

(** ** Parts of a node *)

(** A part of the node that is there lies between [a] and [b]. *)
Definition fits (a b : Z) (c : jsval) : Prop :=
  is_object c = false /\ falsy c = true \/
  is_object c = true /\ falsy c = false /\
  range_at c 0 = Some (start_of c) /\ exists e, range_at c 1 = Some e /\ a <= start_of c /\ start_of c < e <= b.

Section Steps.
Context (number_toString : spec_float -> jsstring).
Context (a b : Z).

Lemma point_fits m c t v own :
  fits a b c -> charging t = true -> pays (start_of c) v own ->
  exists i m', addInjectionPoint number_toString c t (VNum v) m = Some (i, m') /\
    effect a b none (if falsy c then [] else own) m m' /\
    (falsy c = false -> holds m' i (start_of c)).
Proof.
  intros [[_ Hc]|(Hc & Hf & Hr & e & _ & Ha & He)] Ht Hv.
  - exists EmptyInjection, m. rewrite Hc. unfold addInjectionPoint. rewrite Hc.
    split; [done|]. split; [apply effect_refl|done].
  - rewrite Hf. destruct (point_spec number_toString a b m c t v (start_of c) own) as (k & m' & E & F & L);
      [done|done|lia|done..|]. exists (At (start_of c) k), m'. split; [done|]. split; [done|]. by exists k.
Qed.

Lemma block_fits m c :
  fits a b c ->
  exists m', ensure_block number_toString c m = Some (tt, m') /\ effect a b (inside a b) [] m m'.
Proof.
  intros [[_ Hc]|(Hc & Hf & Hr & e & Hr' & Ha & He)].
  - exists m. unfold ensure_block. rewrite Hc. split; [done|]. apply effect_refl.
  - destruct (block_spec number_toString a b m c (start_of c) e) as (m' & E & F); [done|done|done|lia|lia|].
    exists m'. split; [done|]. eapply effect_mono; [exact F|lia..|]. intros p <-. unfold inside. lia.
Qed.

Lemma bracket_fits m c :
  fits a b c ->
  exists m', ensure_bracket number_toString c m = Some (tt, m') /\ effect a b (inside a b) [] m m'.
Proof.
  intros [[_ Hc]|(Hc & Hf & Hr & e & Hr' & Ha & He)].
  - exists m. unfold ensure_bracket. rewrite Hc. split; [done|]. apply effect_refl.
  - destruct (bracket_spec number_toString a b m c (start_of c) e) as (m' & E & F); [done|done|done|lia|lia|].
    exists m'. split; [done|]. eapply effect_mono; [exact F|lia..|]. intros p <-. unfold inside. lia.
Qed.

Lemma body_fits c :
  fits a b c -> is_object c = true ->
  exists p, body_pos c = Some p /\ start_of c <= p <= start_of c + 1 /\ a <= p <= b.
Proof.
  intros [[Hc _]|(Hc & Hf & Hr & e & Hr' & Ha & He)] H; [congruence|].
  unfold body_pos. rewrite Hr, (object_type c Hc). cbn.
  destruct (is_str _ _); eexists; split; [done|lia|done|lia].
Qed.

(** The entry of a statement. *)
Lemma statement_spec node parent last lastp m :
  is_object node = true -> parent = Null \/ is_object parent = true ->
  range_at node 0 = Some a -> a < b -> last_holds m last lastp ->
  exists i m', statement_injection number_toString node parent last m = Some (i, m') /\
    effect a b none [] m m' /\
    last_holds m' i (if pays_itself node parent then Some (start_of node) else lastp).
Proof.
  intros Hn Hp Ha Hab Hl. unfold statement_injection, pays_itself.
  assert (Hs : start_of node = a) by (unfold start_of; by rewrite Ha).
  rewrite (bind_lift _ _ _ _ (object_type node Hn)), Hs.
  assert (Hgas : forall m, exists i m', bind (lift (range_at node 0)) (fun a =>
     addInjection number_toString a gasIncrWithSemicolon (VNum (num 0)) false) m = Some (i, m') /\
     effect a b none [] m m' /\ holds m' i a).
  { intros m0. rewrite (bind_lift _ _ _ _ Ha).
    destruct (addInjection_gas a b number_toString m0 a gasIncrWithSemicolon (num 0) []) as (k & m' & E & F & L);
      [lia|done|apply pays_zero|]. exists (At a k), m'. split_and!; [done|exact F|by exists k]. }
  destruct (index InjectableStatement (type_of node)) eqn:Ei.
  - destruct (Hgas m) as (i & m1 & E & F & L). rewrite (bind_some _ _ _ _ _ E).
    destruct (is_str _ "VariableDeclaration") eqn:Ev.
    { apply is_str_true in Ev. rewrite Ev in Ei. by vm_compute in Ei. }
    by exists i, m1.
  - rewrite (bind_some (ret last) _ m last m eq_refl).
    destruct (is_str _ "VariableDeclaration") eqn:Ev; [|exists last, m; split_and!; [done|apply effect_refl|done]].
    assert (Ho : exists o, (match parent with Null => ret true
      | _ => bind (lift (get parent "type")) (fun pty => ret (negb (is_for pty))) end) m = Some (o, m) /\
      o = negb (is_for (type_of parent))).
    { destruct Hp as [->|Hp]; [by eexists|].
      exists (negb (is_for (type_of parent))). split; [|done].
      by destruct parent; rewrite ?(bind_lift _ _ _ _ (object_type _ Hp)). }
    destruct Ho as (o & Eo & ->). rewrite (bind_some _ _ _ _ _ Eo). cbn [andb].
    destruct (negb _); [|exists last, m; split_and!; [done|apply effect_refl|done]].
    destruct (Hgas m) as (i & m1 & E & F & L). by exists i, m1.
Qed.

(** The charge of a node. *)
Lemma charge_last_spec node last o m v :
  is_object node = true -> range_at node 0 = Some a -> a < b -> last_holds m last o -> nonneg v ->
  exists i m' p, charge_last number_toString node last v m = Some (i, m') /\
    p = default (start_of node) o /\ effect a b none [(p, v)] m m' /\ holds m' i p.
Proof.
  intros Hn Ha Hab Hl Hv. unfold charge_last.
  assert (Hs : start_of node = a) by (unfold start_of; by rewrite Ha).
  assert (H0 : exists i m1 p, (match last with
      | NoInjection => bind (lift (range_at node 0)) (fun a0 =>
          addInjection number_toString a0 gasIncrWithSemicolon (VNum (num 0)) false)
      | _ => ret last end) m = Some (i, m1) /\ p = default a o /\ effect a b none [] m m1 /\ holds m1 i p).
  { destruct o as [p|].
    - destruct Hl as (k & -> & L). exists (At p k), m, p. split_and!; [done..|apply effect_refl|by exists k].
    - cbn in Hl. subst last. rewrite (bind_lift _ _ _ _ Ha).
      destruct (addInjection_gas a b number_toString m a gasIncrWithSemicolon (num 0) []) as (k & m' & E & F & L);
        [lia|done|apply pays_zero|]. exists (At a k), m', a. split_and!; [done..|by exists k]. }
  destruct H0 as (i & m1 & p & E & -> & F & (k & -> & L)). rewrite (bind_some _ _ _ _ _ E).
  destruct (charge_live a b number_toString m1 (default a o) k v [(default a o, v)]) as (m2 & E2 & F2); [done|by apply pays_some|].
  rewrite (bind_some _ _ _ _ _ E2). exists (At (default a o) k), m2, (default a o).
  rewrite Hs. split; [done|]. split; [done|]. split.
  - exact (effect_trans _ _ _ _ _ _ _ _ F F2).
  - exists k. split; [done|]. by apply (effect_live _ _ _ _ _ _ F2); [intros []|].
Qed.

End Steps.

(** ** [processNode] *)

Lemma get_part node k : is_object node = true -> get node k = Some (part node k).
Proof. by destruct node. Qed.

Lemma pays_at_free node parent lastp :
  node_cost node = None ->
  pays_at node parent lastp = if pays_itself node parent then Some (start_of node) else lastp.
Proof. intros H. unfold pays_at. rewrite H. by destruct (pays_itself _ _), lastp. Qed.

Lemma pays_at_cost node parent lastp c :
  node_cost node = Some c ->
  pays_at node parent lastp =
  Some (default (start_of node) (if pays_itself node parent then Some (start_of node) else lastp)).
Proof. intros H. unfold pays_at. rewrite H. by destruct (pays_itself _ _), lastp. Qed.

(** Reads the conditions off a known type. *)
Ltac eval_types Hty :=
  rewrite ?Hty;
  repeat match goal with
  | |- context [is_str (Str (str ?x)) ?y] =>
      let r := eval vm_compute in (is_str (Str (str x)) y) in change (is_str (Str (str x)) y) with r
  | |- context [index InjectableStatement (Str (str ?x))] =>
      let r := eval vm_compute in (index InjectableStatement (Str (str x))) in
      change (index InjectableStatement (Str (str x))) with r
  end; cbn [orb andb negb].

Section Node.
Context (number_toString : spec_float -> jsstring).
Context (node parent : jsval) (a b : Z) (last : injection) (lastp : option Z) (m : injectionMap).
Hypothesis Hnode : is_object node = true.
Hypothesis Hparent : parent = Null \/ is_object parent = true.
Hypothesis Hstart : range_at node 0 = Some a.
Hypothesis Hspan : a < b.
Hypothesis Hlast : last_holds m last lastp.
Hypothesis Hbefore : forall p, lastp = Some p -> p <= a.
Hypothesis Hparts : forall k, controlled node k = true -> fits a b (part node k).
Hypothesis Hbody : needs_body node = true -> is_object (part node "body") = true.

Definition statement_pos : option Z := if pays_itself node parent then Some (start_of node) else lastp.

(** What [processNode] leaves behind: the costs of the node on the map, the
    place the node pays at, and the places its parts pay at. *)
Definition node_done (r : option ((injection * list (string * injection)) * injectionMap)) : Prop :=
  exists i ci m', r = Some ((i, ci), m') /\
    effect a b (inside a b) (own_costs node parent lastp) m m' /\
    last_holds m' i (pays_at node parent lastp) /\
    forall k, match part_pays_at node k with
      | None => find_prop k ci = None
      | Some p => exists inj, find_prop k ci = Some inj /\ (falsy (part node k) = false -> holds m' inj p)
      end.

Lemma node_start : start_of node = a.
Proof. unfold start_of. by rewrite Hstart. Qed.

Lemma statement_before p : statement_pos = Some p -> ~ inside a b p.
Proof.
  unfold statement_pos, inside. destruct (pays_itself _ _).
  - intros [= <-]. rewrite node_start. lia.
  - intros H%Hbefore. lia.
Qed.

(** The state of a run: the charges so far and the entry to charge to. *)
Definition reached (own : list (Z * spec_float)) (i : injection) (mi : injectionMap) : Prop :=
  effect a b (inside a b) own m mi /\ last_holds mi i statement_pos.

Lemma reached_step own own' (S : Z -> Prop) i mi mj :
  reached own i mi -> effect a b S own' mi mj -> (forall p, S p -> inside a b p) ->
  reached (own ++ own') i mj.
Proof.
  intros [F L] F' HS. assert (F2 : effect a b (inside a b) own' mi mj).
  { eapply effect_mono; [exact F'|lia..|done]. }
  split; [by eapply effect_trans|]. eapply last_effect; [exact F2|exact statement_before|done].
Qed.

(** Runs the first step of [processNode]. *)
Ltac begin i mi R :=
  let E := fresh in let F := fresh in let L := fresh in
  unfold processNode; rewrite (bind_lift _ _ _ _ (object_type node Hnode));
  destruct (statement_spec number_toString a b node parent last lastp m Hnode Hparent Hstart Hspan Hlast)
    as (i & mi & E & F & L);
  assert (R : reached [] i mi) by
    (split; [eapply effect_mono; [exact F|lia..|by intros ? []]|exact L]);
  rewrite (bind_some _ _ _ _ _ E); clear E F L.

Ltac field k := rewrite (bind_lift _ _ _ _ (get_part node k Hnode)).

(** Carries the state and the saved injections over a step. *)
Ltac advance R F :=
  match type of F with effect _ _ ?S _ ?mi ?mj =>
    let HS := fresh in
    assert (HS : forall p, S p -> inside a b p) by (intros ? ?; first [done | unfold inside in *; lia]);
    eapply (reached_step _ _ _ _ _ _) in R; [|exact F|exact HS]; clear HS;
    repeat match goal with
    | H : falsy ?c = false -> holds mi ?i ?p |- _ =>
        let H' := fresh in
        assert (H' : falsy c = false -> holds mj i p) by
          (let Hc := fresh in intros Hc; apply (holds_effect _ _ _ _ _ _ _ _ F); [|exact (H Hc)];
           first [intros []; fail | intros Hs; unfold inside in Hs; lia]);
        clear H; rename H' into H
    end
  end.

Ltac part_fits Hty :=
  apply Hparts; unfold controlled, control_parts, is_for_in, is_while; eval_types Hty; reflexivity.

Ltac wraps spec Hty k R :=
  let E := fresh in let F := fresh in
  match goal with |- node_done (bind _ _ ?mi) =>
    destruct (spec number_toString a b mi (part node k)) as (? & E & F); [by part_fits Hty|];
    rewrite (bind_some _ _ _ _ _ E); advance R F; rewrite ?app_nil_r in R; clear E F
  end.

(** An entry in front of a part, without or with a charge. *)
Ltac point Hty k v own R H :=
  let E := fresh in let F := fresh in let ip := fresh "ip" in
  match goal with |- node_done (bind (addInjectionPoint _ _ ?t _) _ ?mi) =>
    destruct (point_fits number_toString a b mi (part node k) t v own) as (ip & ? & E & F & H);
      [by part_fits Hty|done|first [apply pays_zero|apply pays_some, charged_nonneg]|];
    rewrite (bind_some _ _ _ _ _ E); advance R F; clear E F
  end.

Ltac free_point Hty k R H := point Hty k (num 0) (@nil (Z * spec_float)) R H.

(** The entry at the start of a loop body. *)
Lemma body_gas mi v :
  fits a b (part node "body") -> is_object (part node "body") = true -> nonneg v ->
  exists p i m', body_pos (part node "body") = Some p /\
    addInjection number_toString p gasIncrWithSemicolon (VNum v) false mi = Some (i, m') /\
    effect a b none [(body_start node, v)] mi m' /\
    (falsy (part node "body") = false -> holds m' i (body_start node)).
Proof.
  intros Hf Ho Hv. destruct (body_fits a b _ Hf Ho) as (p & Ep & _ & Hp).
  assert (Hb : body_start node = p) by (unfold body_start; by rewrite Ep). rewrite Hb.
  destruct (addInjection_gas a b number_toString mi p gasIncrWithSemicolon v [(p, v)]) as (k & m' & E & F & L);
    [done|done|by apply pays_some|].
  exists p, (At p k), m'. split_and!; [done..|]. intros _. by exists k.
Qed.

Ltac loop_body Hty v R H :=
  let E := fresh in let F := fresh in let Ep := fresh in
  match goal with |- node_done (bind _ _ ?mi) =>
    destruct (body_gas mi v) as (? & ? & ? & Ep & E & F & H);
      [by part_fits Hty|apply Hbody; unfold needs_body, is_for, is_while; by eval_types Hty
      |first [apply charged_nonneg|by apply num_nonneg]|];
    rewrite (bind_lift _ _ _ _ Ep), (bind_some _ _ _ _ _ E); advance R F; clear Ep E F
  end.

Lemma costs_free : node_cost node = None -> own_costs node parent lastp = loop_costs node.
Proof. intros H. unfold own_costs. rewrite H. destruct (pays_at _ _ _); by rewrite app_nil_r. Qed.

Ltac free_node Hty := unfold node_cost, is_for, is_while; by eval_types Hty.

Ltac parts_pay Hty :=
  intros k; unfold part_pays_at, is_for, is_while; eval_types Hty; cbn [find_prop];
  repeat match goal with |- context [String.eqb k ?x] => destruct (String.eqb_spec k x) as [->|] end;
  cbn [orb]; try done; try (by eexists; split; [done|]).

Ltac conclude Hty R :=
  eexists _, _, _; split; [reflexivity|];
  let F := fresh in let L := fresh in destruct R as [F L];
  split; [|split];
  [ rewrite costs_free by free_node Hty; unfold loop_costs, is_for, is_while; eval_types Hty;
    repeat match type of F with context [if falsy ?c then _ else _] => destruct (falsy c) end; exact F
  | rewrite pays_at_free by free_node Hty; exact L
  | parts_pay Hty ].

Abbreviation processes t :=
  (type_of node = Str (str t) -> node_done (processNode number_toString node parent last m)).

Lemma process_if : processes "IfStatement".
Proof.
  intros Hty. begin i m1 R. eval_types Hty.
  field "consequent"%string. wraps block_fits Hty "consequent"%string R.
  field "alternate"%string. wraps block_fits Hty "alternate"%string R.
  field "test"%string. free_point Hty "test"%string R H. conclude Hty R.
Qed.

Lemma process_for : processes "ForStatement".
Proof.
  intros Hty. begin i m1 R. eval_types Hty.
  field "body"%string. wraps block_fits Hty "body"%string R.
  loop_body Hty (charged (Str (str "ForStatement"))) R H.
  field "test"%string. free_point Hty "test"%string R H'.
  field "update"%string. free_point Hty "update"%string R H''. conclude Hty R.
Qed.

Lemma process_for_in t : t = "ForInStatement"%string \/ t = "ForOfStatement"%string -> processes t.
Proof.
  intros [-> | ->] Hty; begin i m1 R; eval_types Hty;
    field "body"%string; wraps block_fits Hty "body"%string R.
  - loop_body Hty (charged (Str (str "ForInStatement"))) R H. conclude Hty R.
  - loop_body Hty (charged (Str (str "ForOfStatement"))) R H. conclude Hty R.
Qed.

Lemma process_while t : t = "WhileStatement"%string \/ t = "DoWhileStatement"%string -> processes t.
Proof.
  intros [-> | ->] Hty; begin i m1 R; eval_types Hty;
    field "body"%string; wraps block_fits Hty "body"%string R; loop_body Hty (num 1) R H;
    field "test"%string.
  - point Hty "test"%string (charged (Str (str "WhileStatement")))
      [(start_of (part node "test"), charged (Str (str "WhileStatement")))] R H'. conclude Hty R.
  - point Hty "test"%string (charged (Str (str "DoWhileStatement")))
      [(start_of (part node "test"), charged (Str (str "DoWhileStatement")))] R H'. conclude Hty R.
Qed.

Lemma process_with : processes "WithStatement".
Proof.
  intros Hty. begin i m1 R. eval_types Hty.
  field "body"%string. wraps block_fits Hty "body"%string R. conclude Hty R.
Qed.

Lemma process_switch : processes "SwitchStatement".
Proof. intros Hty. begin i m1 R. eval_types Hty. conclude Hty R. Qed.

Lemma process_case : processes "SwitchCase".
Proof.
  intros Hty. begin i m1 R. eval_types Hty.
  field "test"%string. free_point Hty "test"%string R H. conclude Hty R.
Qed.

(** *** Nodes with a cost of their own *)

Definition pay_pos : Z := default (start_of node) statement_pos.

Lemma pay_pos_before : pay_pos <= a.
Proof.
  unfold pay_pos, statement_pos. pose proof node_start. destruct (pays_itself _ _); cbn; [lia|].
  destruct lastp as [p|]; cbn; [by apply Hbefore|lia].
Qed.

Lemma costs_cost c : node_cost node = Some c -> own_costs node parent lastp = loop_costs node ++ [(pay_pos, c)].
Proof. intros H. unfold own_costs. by rewrite (pays_at_cost _ _ _ _ H), H. Qed.

Lemma charge_reached own i mi c :
  reached own i mi -> nonneg c ->
  exists i' mj, charge_last number_toString node i c mi = Some (i', mj) /\
    effect a b none [(pay_pos, c)] mi mj /\ (falsy node = false -> holds mj i' pay_pos).
Proof.
  intros [F L] Hc.
  destruct (charge_last_spec number_toString a b node i statement_pos mi c) as (i' & mj & p & E & -> & F' & H);
    [done..|]. by exists i', mj.
Qed.

Ltac pay_node c R H :=
  let E := fresh in let F := fresh in
  destruct (charge_reached _ _ _ c R) as (? & ? & E & F & H);
    [first [apply charged_nonneg|done]|];
  rewrite (bind_some _ _ _ _ _ E); advance R F; clear E F.

Ltac conclude_paid Hcost R H :=
  eexists _, _, _; split; [reflexivity|];
  split; [|split];
  [ rewrite (costs_cost _ Hcost); unfold loop_costs, is_for, is_while
  | rewrite (pays_at_cost _ _ _ _ Hcost); exact (H (object_truthy node Hnode)) | ].

Lemma process_conditional : processes "ConditionalExpression".
Proof.
  intros Hty. begin i m1 R. eval_types Hty. pose proof pay_pos_before.
  assert (Hcost : node_cost node = Some (charged (Str (str "ConditionalExpression")))).
  { unfold node_cost, is_for, is_while. by eval_types Hty. }
  field "test"%string. field "consequent"%string. field "alternate"%string.
  wraps bracket_fits Hty "test"%string R. wraps bracket_fits Hty "consequent"%string R.
  wraps bracket_fits Hty "alternate"%string R.
  free_point Hty "test"%string R H1. free_point Hty "consequent"%string R H2.
  free_point Hty "alternate"%string R H3.
  pay_node (charged (Str (str "ConditionalExpression"))) R H0.
  conclude_paid Hcost R H0; [|parts_pay Hty]. destruct R as [F _]. eval_types Hty.
  by destruct (falsy (part node "test")), (falsy (part node "consequent")), (falsy (part node "alternate")).
Qed.

(** The text around the body of an arrow function that is an expression. *)
Lemma process_arrow : processes "ArrowFunctionExpression".
Proof.
  intros Hty. begin i m1 R. eval_types Hty. pose proof pay_pos_before as Hpp.
  assert (Hcost : node_cost node = Some (charged (Str (str "ArrowFunctionExpression")))).
  { unfold node_cost, is_for, is_while. by eval_types Hty. }
  assert (Hfit : fits a b (part node "body")) by part_fits Hty.
  assert (Hob : is_object (part node "body") = true).
  { apply Hbody. unfold needs_body, is_for, is_while. by eval_types Hty. }
  pay_node (charged (Str (str "ArrowFunctionExpression"))) R H0.
  field "body"%string. rewrite (bind_lift _ _ _ _ (object_type _ Hob)).
  destruct (negb _) eqn:Eb.
  - destruct Hfit as [[? _]|(_ & Hf & Hr & e & Hr' & Ha & He)]; [congruence|].
    rewrite (bind_lift _ _ _ _ Hr).
    match goal with |- node_done (bind (addInjection _ _ ?t ?v _) _ ?mi) =>
      destruct (addInjection_text a b number_toString mi (start_of (part node "body")) t v)
        as (i1 & mi1 & E1 & F1); [lia|done|] end.
    rewrite (bind_some _ _ _ _ _ E1). advance R F1.
    free_point Hty "body"%string R H1.
    match goal with |- node_done (bind (addInjection _ _ ?t ?v _) _ ?mi) =>
      destruct (addInjection_text a b number_toString mi (start_of (part node "body")) t v)
        as (i2 & mi2 & E2 & F2); [lia|done|] end.
    rewrite (bind_some _ _ _ _ _ E2). advance R F2. rewrite (bind_lift _ _ _ _ Hr').
    match goal with |- node_done (bind (addInjection _ _ ?t ?v _) _ ?mi) =>
      destruct (addInjection_front a b number_toString mi e t v) as (i3 & mi3 & E3 & F3); [lia|done|] end.
    rewrite (bind_some _ _ _ _ _ E3). advance R F3.
    conclude_paid Hcost R H0.
    + destruct R as [F _]. eval_types Hty. by rewrite Hf in F.
    + unfold part_pays_at. rewrite Eb. parts_pay Hty.
  - conclude_paid Hcost R H0; [destruct R as [F _]; by eval_types Hty|].
    unfold part_pays_at. rewrite Eb. parts_pay Hty.
Qed.

(** *** Every other type *)

Definition control_types : list string :=
  [ "IfStatement"; "ForStatement"; "ForInStatement"; "ForOfStatement"; "WhileStatement";
    "DoWhileStatement"; "WithStatement"; "SwitchStatement"; "SwitchCase";
    "ArrowFunctionExpression"; "ConditionalExpression" ].

Lemma process_other v :
  Forall (fun t => is_str (type_of node) t = false) control_types -> node_value node = Some v ->
  node_done (processNode number_toString node parent last m).
Proof.
  intros HF Hv. repeat (apply Forall_cons in HF as [?E HF]).
  assert (Hcost : node_cost node = v).
  { unfold node_cost, is_for, is_while. rewrite Hv, E, E0, E1, E2, E3, E4, E5, E6, E7, E8, E9. done. }
  assert (Hloop : loop_costs node = []).
  { unfold loop_costs, is_for, is_while. by rewrite E0, E1, E2, E3, E4. }
  assert (Hpart : forall k, part_pays_at node k = None).
  { intros k. unfold part_pays_at, is_for, is_while.
    rewrite E, E0, E1, E2, E3, E4, E7, E8, E9. cbn. by repeat case_match. }
  begin i m1 R. rewrite E, E0, E1, E2, E3, E4, E5, E6, E7, E8, E9. cbn [orb].
  rewrite (bind_lift _ _ _ _ Hv). destruct v as [c|].
  - pose proof (node_value_nonneg _ _ Hv) as Hc. pose proof pay_pos_before.
    pay_node c R H0. conclude_paid Hcost R H0.
    + destruct R as [F _]. by rewrite E0, E1, E2, E3, E4.
    + intros k. by rewrite Hpart.
  - destruct R as [F L]. eexists _, _, _. split; [reflexivity|].
    rewrite (costs_free Hcost), Hloop, (pays_at_free _ _ _ Hcost).
    split_and!; [done..|]. intros k. by rewrite Hpart.
Qed.

Lemma processNode_spec :
  (exists v, node_value node = Some v) -> node_done (processNode number_toString node parent last m).
Proof.
  intros [v Hv].
  destruct (decide (Forall (fun t => is_str (type_of node) t = false) control_types)) as [HF|HF];
    [by eapply process_other|].
  apply not_Forall_Exists, Exists_exists in HF as (t & Ht & Hty%not_false_is_true%is_str_true); [|apply _].
  repeat (apply elem_of_cons in Ht as [->|Ht]);
    first [ by apply process_if | by apply process_for | by apply process_with | by apply process_switch
          | by apply process_case | by apply process_conditional | by apply process_arrow
          | by eapply (process_for_in _ (or_introl eq_refl)) | by eapply (process_for_in _ (or_intror eq_refl))
          | by eapply (process_while _ (or_introl eq_refl)) | by eapply (process_while _ (or_intror eq_refl))
          | by apply elem_of_nil in Ht ].
Qed.

End Node.

End GasNode.
