(* ===== verification/GasTraverse.v ===== *)
(** * The whole tree: [traverse] keeps the ledger *)

From Stdlib Require Import ZArith Lia SpecFloat Permutation.
From stdpp Require Import base gmap strings list sorting.
From S2P Require Import Prelude V8 InjectGas GasLedger GasFacts GasNode.
Local Open Scope Z_scope.

Module GasTraverse.
Import InjectGas GasLedger GasFacts GasNode.

Local Opaque num tenth fadd fmul.

(** ** Induction on JavaScript values *)

Section Induction.
Context (P : jsval -> Prop).
Hypothesis Harr : forall l, Forall P l -> P (Arr l).
Hypothesis Hobj : forall ps, Forall (fun kc => P (snd kc)) ps -> P (Obj ps).
Hypothesis Hother : forall v, is_object v = false -> P v.

Fixpoint jsval_rect (v : jsval) : P v :=
  match v with
  | Arr l => Harr l ((fix go (l : list jsval) : Forall P l :=
      match l with
      | [] => List.Forall_nil _
      | c :: l' => List.Forall_cons _ c l' (jsval_rect c) (go l')
      end) l)
  | Obj ps => Hobj ps ((fix go (ps : list (string * jsval)) : Forall (fun kc => P (snd kc)) ps :=
      match ps with
      | [] => List.Forall_nil _
      | kc :: ps' => List.Forall_cons _ kc ps' (jsval_rect (snd kc)) (go ps')
      end) ps)
  | v => Hother v eq_refl
  end.
End Induction.

(** ** Walks over the children *)

Section Walks.
Context (number_toString : spec_float -> jsstring).

Fixpoint traverse_props (node : jsval) (last : injection) (ci : list (string * injection))
    (ps : list (string * jsval)) : M unit :=
  match ps with
  | [] => ret tt
  | (key, child) :: ps' =>
      bind (if is_object child
            then traverse number_toString child node (default last (find_prop key ci)) else ret tt)
           (fun _ => traverse_props node last ci ps')
  end.

Fixpoint traverse_list (node : jsval) (last : injection) (l : list jsval) : M unit :=
  match l with
  | [] => ret tt
  | child :: l' =>
      bind (if is_object child then traverse number_toString child node last else ret tt)
           (fun _ => traverse_list node last l')
  end.

Lemma bind_ext {A B} (x : M A) (f g : A -> M B) m :
  (forall r m', f r m' = g r m') -> bind x f m = bind x g m.
Proof. intros H. unfold bind. destruct (x m) as [[r m']|]; [apply H|done]. Qed.

Lemma traverse_obj ps parent last m :
  traverse number_toString (Obj ps) parent last m =
  bind (processNode number_toString (Obj ps) parent last)
       (fun p => traverse_props (Obj ps) (fst p) (snd p) ps) m.
Proof.
  cbn [traverse]. apply bind_ext. intros [i ci]. cbn [fst snd].
  generalize (Obj ps) as node. intros node.
  induction ps as [|[k c] ps IH]; intros m'; [done|]. cbn [traverse_props]. apply bind_ext. intros _ m''.
  apply IH.
Qed.

Lemma traverse_arr l parent last m :
  traverse number_toString (Arr l) parent last m =
  bind (processNode number_toString (Arr l) parent last) (fun p => traverse_list (Arr l) (fst p) l) m.
Proof.
  cbn [traverse]. apply bind_ext. intros [i ci]. cbn [fst snd].
  generalize (Arr l) as node. intros node.
  induction l as [|c l IH]; intros m'; [done|]. cbn [traverse_list]. apply bind_ext. intros _ m''. apply IH.
Qed.

End Walks.

Fixpoint ledger_props (node : jsval) (p : option Z) (ps : list (string * jsval)) : list (Z * spec_float) :=
  match ps with
  | [] => []
  | (key, child) :: ps' =>
      (if is_object child then ledger child node (or_else (part_pays_at node key) p) else [])
      ++ ledger_props node p ps'
  end.

Fixpoint ledger_list (node : jsval) (p : option Z) (l : list jsval) : list (Z * spec_float) :=
  match l with
  | [] => []
  | child :: l' => (if is_object child then ledger child node p else []) ++ ledger_list node p l'
  end.

Lemma ledger_obj ps parent last :
  ledger (Obj ps) parent last =
  own_costs (Obj ps) parent last ++ ledger_props (Obj ps) (pays_at (Obj ps) parent last) ps.
Proof.
  cbn [ledger]. f_equal. generalize (pays_at (Obj ps) parent last) as p. intros p.
  generalize (Obj ps) as node. intros node.
  induction ps as [|[k c] ps IH]; [done|]. cbn [ledger_props]. by rewrite <- IH.
Qed.

Lemma ledger_arr l parent last :
  ledger (Arr l) parent last =
  own_costs (Arr l) parent last ++ ledger_list (Arr l) (pays_at (Arr l) parent last) l.
Proof.
  cbn [ledger]. f_equal. generalize (pays_at (Arr l) parent last) as p. intros p.
  generalize (Arr l) as node. intros node.
  induction l as [|c l IH]; [done|]. cbn [ledger_list]. by rewrite <- IH.
Qed.

Definition gap (node : jsval) : Z := if control_parts node is [] then 0 else 1.

Fixpoint place_props (node : jsval) (b : Z) (ps : list (string * jsval)) (cur : Z) : option Z :=
  match ps with
  | [] => Some cur
  | (key, child) :: ps' =>
      if is_object child then
        next ← place child cur b;
        next ← (if controlled node key then snd <$> span child cur b else Some next);
        place_props node b ps' (next + gap node)
      else if controlled node key && negb (falsy child) then None
      else place_props node b ps' cur
  end.

Fixpoint place_list (hi : Z) (l : list jsval) (cur : Z) : option Z :=
  match l with
  | [] => Some cur
  | child :: l' =>
      if is_object child then next ← place child cur hi; place_list hi l' next else place_list hi l' cur
  end.

Definition blk (node : jsval) : Z := if is_block node then 1 else 0.

Lemma place_arr l cur hi : inert (Arr l) = false -> place (Arr l) cur hi = place_list hi l cur.
Proof.
  intros Hi. unfold place; fold place. rewrite Hi. clear Hi. revert cur.
  induction l as [|c l IH]; intros cur; [done|]. cbn [place_list].
  destruct (is_object c); [|apply IH]. destruct (place c cur hi); [|done]. apply IH.
Qed.

Lemma place_obj ps cur hi next :
  inert (Obj ps) = false -> place (Obj ps) cur hi = Some next ->
  exists a, span (Obj ps) cur hi = Some (a, next) /\ well_made (Obj ps) ps = true /\
    is_Some (place_props (Obj ps) next ps (a + blk (Obj ps))).
Proof.
  intros Hi. unfold place; fold place. rewrite Hi. clear Hi.
  destruct (span _ _ _) as [[a b]|]; [|done]. rewrite some_bind.
  destruct (well_made _ _); [|done]. fold (blk (Obj ps)). fold (gap (Obj ps)).
  intros H. exists a.
  assert (E : forall qs cur, (fix each (ps0 : list (string * jsval)) (cur : Z) : option Z :=
      match ps0 with
      | [] => Some cur
      | (key, child) :: ps' =>
          if is_object child then
            next ← place child cur b;
            next ← (if controlled (Obj ps) key then snd <$> span child cur b else Some next);
            each ps' (next + gap (Obj ps))
          else if controlled (Obj ps) key && negb (falsy child) then None else each ps' cur
      end) qs cur = place_props (Obj ps) b qs cur).
  { intros qs. induction qs as [|[k c] qs IH]; intros c0; [done|]. cbn [place_props].
    destruct (is_object c).
    - destruct (place c c0 b) as [n|]; [|done]. rewrite !some_bind.
      destruct (if controlled _ k then _ else _); [|done]. rewrite !some_bind. apply IH.
    - destruct (_ && _); [done|apply IH]. }
  rewrite E in H. destruct (place_props _ _ _ _) as [n|] eqn:Ep; [|done]. cbn in H. injection H as ->. eauto.
Qed.

(** ** Nodes the injector does nothing for *)

Lemma inactive_str node t :
  active node = false -> active (Obj [("type"%string, Str (str t))]) = true -> is_str (type_of node) t = false.
Proof.
  intros Ha Ht. destruct (is_str _ t) eqn:E; [|done]. apply is_str_true in E.
  unfold active in Ha, Ht. rewrite E in Ha.
  change (type_of (Obj [("type"%string, Str (str t))])) with (Str (str t)) in Ht. congruence.
Qed.

Lemma inactive_tables node :
  active node = false ->
  index InjectableStatement (type_of node) = None /\ index chargedExpression (type_of node) = None.
Proof. unfold active. by destruct (index InjectableStatement _), (index chargedExpression _). Qed.

Ltac inactive Ha :=
  rewrite ?(inactive_str _ "IfStatement" Ha eq_refl), ?(inactive_str _ "ForStatement" Ha eq_refl),
    ?(inactive_str _ "ForInStatement" Ha eq_refl), ?(inactive_str _ "ForOfStatement" Ha eq_refl),
    ?(inactive_str _ "WhileStatement" Ha eq_refl), ?(inactive_str _ "DoWhileStatement" Ha eq_refl),
    ?(inactive_str _ "WithStatement" Ha eq_refl), ?(inactive_str _ "SwitchStatement" Ha eq_refl),
    ?(inactive_str _ "SwitchCase" Ha eq_refl), ?(inactive_str _ "ArrowFunctionExpression" Ha eq_refl),
    ?(inactive_str _ "ConditionalExpression" Ha eq_refl), ?(inactive_str _ "VariableDeclaration" Ha eq_refl),
    ?(inactive_str _ "Literal" Ha eq_refl); cbn [orb andb].

Lemma inactive_value node : is_object node = true -> active node = false -> node_value node = Some None.
Proof.
  intros Ho Ha. unfold node_value. rewrite (object_type _ Ho), (get_part _ "value" Ho), !some_bind.
  unfold base_value. destruct (inactive_tables _ Ha) as [_ ->]. inactive Ha. by destruct (part node "value").
Qed.

Lemma inactive_process f node parent last m :
  is_object node = true -> active node = false -> processNode f node parent last m = Some ((last, []), m).
Proof.
  intros Ho Ha. unfold processNode, statement_injection.
  rewrite !(bind_lift _ _ _ _ (object_type _ Ho)). unfold bind at 1.
  rewrite (bind_lift _ _ _ _ (object_type _ Ho)). destruct (inactive_tables _ Ha) as [-> _].
  inactive Ha. rewrite (bind_some (ret last) _ m last m) by done.
  cbv beta iota delta [ret]. by rewrite (bind_lift _ _ _ _ (inactive_value _ Ho Ha)).
Qed.

Lemma inactive_cost node : is_object node = true -> active node = false -> node_cost node = None.
Proof.
  intros Ho Ha. unfold node_cost, is_for, is_while. inactive Ha. by rewrite inactive_value.
Qed.

Lemma inactive_ledger node parent lastp :
  is_object node = true -> active node = false ->
  own_costs node parent lastp = [] /\ pays_at node parent lastp = lastp /\
  forall k, part_pays_at node k = None.
Proof.
  intros Ho Ha. pose proof (inactive_cost _ Ho Ha) as Hc. split_and!.
  - rewrite costs_free by done. unfold loop_costs, is_for, is_while. by inactive Ha.
  - rewrite pays_at_free by done. unfold pays_itself. destruct (inactive_tables _ Ha) as [-> _]. by inactive Ha.
  - intros k. unfold part_pays_at, is_for, is_while. inactive Ha. by repeat case_match.
Qed.

Lemma inert_active node : inert node = true -> active node = false.
Proof. destruct node; cbn [inert]; intros [H%negb_true_iff _]%andb_prop; done. Qed.

Lemma inert_ledger node parent lastp : is_object node = true -> inert node = true -> ledger node parent lastp = [].
Proof.
  revert parent lastp. induction node as [l IH|ps IH|v Hv] using jsval_rect; intros parent lastp Ho Hi; [..|congruence].
  all: destruct (inactive_ledger _ parent lastp Ho (inert_active _ Hi)) as (E1 & E2 & E3).
  - rewrite ledger_arr, E1. cbn [app]. cbn [inert] in Hi. apply andb_prop in Hi as [_ Hi].
    generalize (Arr l) as node. generalize (pays_at (Arr l) parent lastp) as p. intros p node.
    clear -IH Hi. induction IH as [|c l Hc _ IH]; [done|]. cbn in Hi. apply andb_prop in Hi as [Hi1 Hi2].
    cbn [ledger_list]. rewrite IH, app_nil_r by done. destruct (is_object c) eqn:Ho; auto.
  - rewrite ledger_obj, E1. cbn [app]. cbn [inert] in Hi. apply andb_prop in Hi as [_ Hi].
    generalize (Obj ps) as node. generalize (pays_at (Obj ps) parent lastp) as p. intros p node.
    clear -IH Hi. induction IH as [|[k c] l Hc _ IH]; [done|]. cbn in Hi. apply andb_prop in Hi as [Hi1 Hi2].
    cbn [ledger_props]. rewrite IH, app_nil_r by done. cbn [snd] in Hc. destruct (is_object c) eqn:Ho; auto.
Qed.

Lemma inert_traverse f node parent last m :
  is_object node = true -> inert node = true -> traverse f node parent last m = Some (tt, m).
Proof.
  revert parent last. induction node as [l IH|ps IH|v Hv] using jsval_rect; intros parent last Ho Hi; [..|congruence].
  all: pose proof (inactive_process f _ parent last m Ho (inert_active _ Hi)) as E.
  - rewrite traverse_arr, (bind_some _ _ _ _ _ E). cbn [fst snd]. cbn [inert] in Hi.
    apply andb_prop in Hi as [_ Hi]. generalize (Arr l) as node. intros node. clear -IH Hi.
    induction IH as [|c l Hc _ IH]; [done|]. cbn in Hi. apply andb_prop in Hi as [Hi1 Hi2].
    cbn [traverse_list]. destruct (is_object c) eqn:Ho.
    + rewrite (bind_some _ _ _ _ _ (Hc node last eq_refl Hi1)). auto.
    + rewrite (bind_some _ _ m tt m) by done. auto.
  - rewrite traverse_obj, (bind_some _ _ _ _ _ E). cbn [fst snd]. cbn [inert] in Hi.
    apply andb_prop in Hi as [_ Hi]. generalize (Obj ps) as node. intros node. clear -IH Hi.
    induction IH as [|[k c] l Hc _ IH]; [done|]. cbn in Hi. apply andb_prop in Hi as [Hi1 Hi2].
    cbn [traverse_props]. cbn [snd] in Hc. destruct (is_object c) eqn:Ho.
    + rewrite (bind_some _ _ _ _ _ (Hc node _ eq_refl Hi1)). auto.
    + rewrite (bind_some _ _ m tt m) by done. auto.
Qed.

(** ** Layout *)

Definition left (node : jsval) (cur : Z) : Z :=
  match node with Obj _ => start_of node + blk node | _ => cur end.

Lemma span_spec c cur hi a b :
  span c cur hi = Some (a, b) ->
  range_at c 0 = Some a /\ range_at c 1 = Some b /\ start_of c = a /\
  cur <= a /\ a + blk c < b /\ b <= hi.
Proof.
  unfold span. destruct (range_at c 0) as [a'|] eqn:Ea; [|done].
  destruct (range_at c 1) as [b'|]; [|done]. rewrite !some_bind. fold (blk c).
  destruct (_ && _) eqn:E; [|done]. intros [= <- <-]. unfold start_of. rewrite Ea. cbn.
  split_and!; done || lia.
Qed.

Lemma blk_range c : 0 <= blk c <= 1.
Proof. unfold blk. destruct (is_block c); lia. Qed.

Lemma gap_range c : 0 <= gap c <= 1.
Proof. unfold gap. destruct (control_parts c); lia. Qed.

Lemma place_inert c cur hi : inert c = true -> place c cur hi = Some cur.
Proof. intros H. destruct c; cbn [place]; by rewrite ?H. Qed.

Lemma place_mono c : forall cur hi next, place c cur hi = Some next -> cur <= next.
Proof.
  induction c as [l IH|ps IH|v Hv] using jsval_rect; intros cur hi next.
  - destruct (inert (Arr l)) eqn:Hi; [rewrite place_inert by done; intros [= <-]; lia|].
    rewrite place_arr by done. clear Hi. revert cur. induction IH as [|c l Hc _ IH]; intros cur.
    + intros [= <-]. lia.
    + cbn [place_list]. destruct (is_object c); [|apply IH].
      destruct (place c cur hi) as [n|] eqn:E; [|done]. rewrite some_bind.
      intros H%IH. apply Hc in E. lia.
  - destruct (inert (Obj ps)) eqn:Hi; [rewrite place_inert by done; intros [= <-]; lia|].
    intros (a & Hs & _)%place_obj; [|done]. apply span_spec in Hs. pose proof (blk_range (Obj ps)). lia.
  - destruct v; try done; cbn [place]; destruct (inert _); intros [= <-]; lia.
Qed.

Lemma inert_value c : is_object c = false -> inert c = true.
Proof. by destruct c. Qed.

Lemma place_below c : forall cur hi next, place c cur hi = Some next -> inert c = false -> next <= hi.
Proof.
  induction c as [l IH|ps IH|v Hv] using jsval_rect; intros cur hi next H Hi.
  - rewrite place_arr in H by done. cbn [inert] in Hi.
    assert (Hl : cur <= hi \/ forallb inert l = false).
    { right. by destruct (forallb inert l). }
    clear Hi. revert cur H Hl. induction IH as [|c l Hc _ IH]; intros cur H Hl.
    + injection H as <-. by destruct Hl.
    + cbn [place_list forallb] in H, Hl. destruct (is_object c) eqn:Ho.
      * destruct (place c cur hi) as [n|] eqn:E; [|done]. rewrite some_bind in H.
        apply (IH n H). destruct (inert c) eqn:Hi; [|left; by eapply Hc].
        rewrite place_inert in E by done. by simplify_eq.
      * rewrite inert_value in Hl by done. by apply (IH cur).
  - apply place_obj in H as (a & Hs & _); [|done]. by apply span_spec in Hs as (_ & _ & _ & _ & _ & ?).
  - by rewrite inert_value in Hi.
Qed.

(** One child: where it lies and where the next may start. *)
Lemma place_props_cons node b k c ps cur last :
  place_props node b ((k, c) :: ps) cur = Some last -> is_object c = true ->
  exists next n, place c cur b = Some next /\ next <= n /\
    (controlled node k = true -> exists a, span c cur b = Some (a, n)) /\
    place_props node b ps (n + gap node) = Some last.
Proof.
  cbn [place_props]. intros H Hc. rewrite Hc in H. destruct (place c cur b) as [next|] eqn:Ep; [|done].
  rewrite some_bind in H. destruct (controlled node k).
  - destruct (span c cur b) as [[a n]|] eqn:Es; [|done]. change (snd <$> Some (a, n)) with (Some n) in H.
    rewrite some_bind in H. exists next, n. split_and!; [done| |by eauto|done].
    destruct (inert c) eqn:Hi.
    + rewrite place_inert in Ep by done. apply span_spec in Es. pose proof (blk_range c). simplify_eq. lia.
    + destruct c as [| | | | | |l|qs]; try done.
      apply place_obj in Ep as (a' & Hs & _); [|done]. rewrite Es in Hs. simplify_eq. lia.
  - rewrite some_bind in H. exists next, next. split_and!; [done|lia|done|done].
Qed.

Lemma place_props_skip node b k c ps cur last :
  place_props node b ((k, c) :: ps) cur = Some last -> is_object c = false ->
  (controlled node k = true -> falsy c = true) /\ place_props node b ps cur = Some last.
Proof.
  cbn [place_props]. intros H Hc. rewrite Hc in H.
  destruct (controlled node k), (falsy c); cbn in H; try done; by split.
Qed.

Lemma place_props_controlled node b ps cur last k c :
  place_props node b ps cur = Some last -> In (k, c) ps -> controlled node k = true ->
  is_object c = false /\ falsy c = true \/
  is_object c = true /\ exists a e cur', span c cur' b = Some (a, e) /\ cur <= cur'.
Proof.
  revert cur. induction ps as [|[k' c'] ps IH]; intros cur H Hin Hk; [done|].
  destruct Hin as [E|Hin].
  - simplify_eq. destruct (is_object c) eqn:Ho; [right|left].
    + apply place_props_cons in H as (next & n & _ & _ & Hs & _); [|done].
      destruct (Hs Hk) as [a Ha]. split; [done|]. exists a, n, cur. split; [done|lia].
    + apply place_props_skip in H as [H _]; auto.
  - destruct (is_object c') eqn:Ho.
    + apply place_props_cons in H as (next & n & Ep & Hn & _ & H); [|done].
      apply place_mono in Ep. pose proof (gap_range node).
      destruct (IH _ H Hin Hk) as [?|(? & a & e & cur' & Hs & Hc)]; [by left|right].
      split; [done|]. exists a, e, cur'. split; [done|lia].
    + apply place_props_skip in H as [_ H]; [|done]. by eapply IH.
Qed.

Lemma parts_fit node ps a b cur last :
  node = Obj ps ->
  place_props node b ps cur = Some last -> a <= cur ->
  forall k, controlled node k = true -> fits a b (part node k).
Proof.
  intros -> H Ha k Hk. unfold part. cbn [get default]. destruct (find_prop k ps) as [c|] eqn:E.
  - change (fits a b c). apply find_prop_In in E.
    destruct (place_props_controlled _ _ _ _ _ _ _ H E Hk) as [?|(Ho & r0 & r1 & cur' & Hs & Hc)]; [by left|right].
    apply span_spec in Hs as (? & ? & <- & ? & ? & ?). pose proof (blk_range c).
    split_and!; [done|by apply object_truthy|done|]. exists r1. split_and!; [done|lia..].
  - by left.
Qed.

(** ** Where the parts pay *)

Lemma part_pays_controlled node k p :
  part_pays_at node k = Some p ->
  controlled node k = true /\ gap node = 1 /\
  (p = start_of (part node k) \/ k = "body"%string /\ p = body_start node).
Proof.
  unfold part_pays_at, is_for, is_while.
  repeat match goal with |- context [String.eqb k ?x] => destruct (String.eqb_spec k x) as [->|] end;
    cbn [orb]; try done.
  all: repeat match goal with
    |- (if ?c then _ else _) = _ -> _ => let Ec := fresh "Ec" in destruct c eqn:Ec end; try done; intros [= <-].
  all: repeat match goal with
    | H : _ || _ = true |- _ => apply orb_true_iff in H as [H|H]
    | H : _ && _ = true |- _ => apply andb_prop in H as [H _]
    | H : is_str _ _ = true |- _ => apply is_str_true in H
    | H : _ || _ = false |- _ => clear H
    end.
  all: unfold controlled, gap, control_parts, is_for_in, is_while;
    match goal with H : type_of _ = Str _ |- _ => eval_types H end; by auto.
Qed.

Lemma body_start_left node cur :
  is_object (part node "body") = true -> is_Some (range_at (part node "body") 0) ->
  body_start node = left (part node "body") cur.
Proof.
  intros Ho [a Ha]. unfold body_start, body_pos. rewrite Ha, (object_type _ Ho), !some_bind.
  assert (Hs : start_of (part node "body") = a) by (unfold start_of; by rewrite Ha).
  destruct (part node "body") as [| | | | | |l|ps]; try done. unfold left, blk, is_block. rewrite Hs.
  cbn [default]. destruct (is_str _ _); cbn; lia.
Qed.

Lemma pays_at_cases node parent lastp :
  pays_at node parent lastp = Some (start_of node) \/ pays_at node parent lastp = lastp.
Proof. unfold pays_at. destruct (pays_itself _ _), lastp, (node_cost node); auto. Qed.

Lemma active_not_block node : active node = true -> blk node = 0.
Proof.
  unfold blk, is_block. destruct (is_str _ _) eqn:E; [|done]. apply is_str_true in E.
  unfold active. by rewrite E.
Qed.

Lemma nodup_find ps k (c : jsval) : nodup_keys (map fst ps) = true -> In (k, c) ps -> find_prop k ps = Some c.
Proof.
  induction ps as [|[k' c'] ps IH]; [done|]. cbn. intros [Hn Hd]%andb_prop [E|Hin].
  - simplify_eq. by rewrite String.eqb_refl.
  - destruct (String.eqb_spec k k') as [->|]; [|auto].
    apply negb_true_iff in Hn. assert (existsb (String.eqb k') (map fst ps) = true); [|congruence].
    apply existsb_exists. exists k'. split; [|apply String.eqb_refl]. by apply (in_map fst) in Hin.
Qed.

(** ** The children *)

Section Traverse.
Context (number_toString : spec_float -> jsstring).
Abbreviation traverse := (traverse number_toString).

Definition charges (c : jsval) : Prop :=
  forall parent last lastp m cur hi next,
    is_object c = true -> parent = Null \/ is_object parent = true ->
    place c cur hi = Some next -> last_holds m last lastp ->
    (inert c = false -> forall p, lastp = Some p -> p <= left c cur) ->
    exists m', traverse c parent last m = Some (tt, m') /\
      effect cur hi (inside cur next) (ledger c parent lastp) m m'.

Lemma list_charges node l last lastp m cur hi next :
  is_object node = true -> Forall charges l -> place_list hi l cur = Some next ->
  last_holds m last lastp -> (forall p, lastp = Some p -> p <= cur) ->
  exists m', traverse_list number_toString node last l m = Some (tt, m') /\
    effect cur hi (inside cur next) (ledger_list node lastp l) m m'.
Proof.
  intros Hn IH. revert m cur. induction IH as [|c l Hc HF IH]; intros m cur.
  { intros [= <-] _ _. exists m. split; [done|]. apply effect_refl. }
  cbn [place_list traverse_list ledger_list]. destruct (is_object c) eqn:Ho.
  - destruct (place c cur hi) as [n|] eqn:Ep; [|done]. rewrite some_bind. intros Hl HL Hp.
    destruct (Hc node last lastp m cur hi n) as (m1 & E1 & F1); [done|by right|done|done| |].
    { intros Hi p HpS. specialize (Hp p HpS). destruct c; try done.
      apply place_obj in Ep as (a & Hs & _); [|done]. apply span_spec in Hs. cbn [left].
      match goal with |- _ <= _ + blk ?x => pose proof (blk_range x) end. lia. }
    pose proof (place_mono _ _ _ _ Ep).
    destruct (IH m1 n) as (m2 & E2 & F2); [done| |intros p HpS; specialize (Hp p HpS); lia|].
    { eapply last_effect; [exact F1| |done]. intros p HpS. specialize (Hp p HpS). unfold inside. lia. }
    assert (n <= next) by (clear -Hl; revert n Hl; induction l as [|c l IH]; cbn; intros n;
      [intros [= <-]; lia|]; destruct (is_object c); [|apply IH]; destruct (place c n hi) as [k|] eqn:E;
      [|done]; rewrite some_bind; intros H%IH; apply place_mono in E; lia).
    rewrite (bind_some _ _ _ _ _ E1), E2. exists m2. split; [done|].
    eapply effect_trans; (eapply effect_mono; [first [exact F1|exact F2]|lia..|intros q; unfold inside; lia]).
  - intros Hl HL Hp. rewrite (bind_some (ret tt) _ m tt m) by done. cbn [app]. by apply IH.
Qed.

(** The injections saved for the children that are still to come. *)
Definition pending (node : jsval) (ci : list (string * injection)) (ps : list (string * jsval))
    (m : injectionMap) : Prop :=
  forall k c, In (k, c) ps -> is_object c = true ->
    match part_pays_at node k with
    | None => find_prop k ci = None
    | Some p => exists inj, find_prop k ci = Some inj /\ holds m inj p /\ start_of c <= p /\
        forall cur, p <= left c cur
    end.

(** A child moves entries up to its end only, and the saved injections lie
    behind that. *)
Lemma pending_step node ci k c ps m m1 cur b next n lo hi own last :
  pending node ci ((k, c) :: ps) m -> effect lo hi (inside cur next) own m m1 -> next <= n ->
  place_props node b ps (n + gap node) = Some last -> pending node ci ps m1.
Proof.
  intros HP F Hn Hpl k' c' Hin Ho. specialize (HP k' c' (or_intror Hin) Ho).
  destruct (part_pays_at node k') as [p|] eqn:Epp; [|done].
  destruct HP as (inj & Ef & Hh & Hs & Hl). exists inj. split_and!; [done| |done..].
  apply (holds_effect _ _ _ _ _ _ _ _ F); [|done].
  apply part_pays_controlled in Epp as (Hk & Hg & _).
  destruct (place_props_controlled _ _ _ _ _ _ _ Hpl Hin Hk) as [[? _]|(_ & a & e & cur' & Hsp & ?)]; [congruence|].
  apply span_spec in Hsp as (_ & _ & <- & ? & _). unfold inside. lia.
Qed.

Lemma place_props_le node b ps cur last : place_props node b ps cur = Some last -> cur <= last.
Proof.
  revert cur. induction ps as [|[k c] ps IH]; intros cur; [intros [= <-]; lia|]. intros H.
  destruct (is_object c) eqn:Ho.
  - apply place_props_cons in H as (next & n & Ep & ? & _ & H%IH); [|done].
    apply place_mono in Ep. pose proof (gap_range node). lia.
  - apply place_props_skip in H as [_ H%IH]; done.
Qed.

Lemma props_charges node ps last lastp ci m a b cur final :
  is_object node = true -> Forall (fun kc => charges (snd kc)) ps ->
  place_props node b ps cur = Some final -> pending node ci ps m ->
  last_holds m last lastp -> (forall p, lastp = Some p -> p <= a) -> a <= cur ->
  exists m', traverse_props number_toString node last ci ps m = Some (tt, m') /\
    effect a b (inside a b) (ledger_props node lastp ps) m m'.
Proof.
  intros Hn IH. revert m cur. induction IH as [|[k c] ps Hc HF IH]; intros m cur Hpl HP HL Hp Ha.
  { exists m. split; [done|]. apply effect_refl. }
  cbn [traverse_props ledger_props snd] in *. destruct (is_object c) eqn:Ho.
  - apply place_props_cons in Hpl as (next & n & Ep & Hle & _ & Hpl); [|done].
    destruct (Hc node (default last (find_prop k ci)) (or_else (part_pays_at node k) lastp) m cur b next)
      as (m1 & E1 & F1); [done|by right|done|..].
    + specialize (HP k c (or_introl eq_refl) Ho). destruct (part_pays_at node k) as [p|].
      * by destruct HP as (inj & -> & Hh & _).
      * by rewrite HP.
    + intros Hi p. specialize (HP k c (or_introl eq_refl) Ho). destruct (part_pays_at node k) as [q|].
      * intros [= <-]. by destruct HP as (inj & _ & _ & _ & Hl).
      * intros HpS%Hp. destruct c; try done; cbn [left]; [lia|].
        apply place_obj in Ep as (a' & Hs & _); [|done]. apply span_spec in Hs.
        match goal with |- _ <= _ + blk ?x => pose proof (blk_range x) end. lia.
    + rewrite (bind_some _ _ _ _ _ E1). pose proof (place_mono _ _ _ _ Ep). pose proof (gap_range node).
      destruct (IH m1 (n + gap node)) as (m2 & E2 & F2); [done|by eapply pending_step| |done|lia|].
      { eapply last_effect; [exact F1| |done]. intros p HpS%Hp. unfold inside. lia. }
      exists m2. split; [done|]. eapply effect_trans; [|exact F2].
      destruct (inert c) eqn:Hi.
      { rewrite inert_ledger by done. rewrite inert_traverse in E1 by done. simplify_eq. apply effect_refl. }
      eapply effect_mono; [exact F1|lia|lia|]. intros q. unfold inside.
      pose proof (place_below _ _ _ _ Ep Hi). lia.
  - apply place_props_skip in Hpl as [_ Hpl]; [|done].
    rewrite (bind_some (ret tt) _ m tt m) by done. cbn [app]. eapply IH; [exact Hpl| |done..].
    intros k' c' Hin. apply HP. by right.
Qed.

(** A part that pays at a place of its own pays at its start, or behind the
    brace it starts with. *)
Lemma part_pays_left ps b cur final k c p :
  place_props (Obj ps) b ps cur = Some final -> nodup_keys (map fst ps) = true ->
  In (k, c) ps -> is_object c = true -> part_pays_at (Obj ps) k = Some p ->
  part (Obj ps) k = c /\ start_of c <= p /\ forall cur, p <= left c cur.
Proof.
  intros Hpl Hnd Hin Ho Hp. assert (Hc : part (Obj ps) k = c).
  { unfold part. cbn [get default]. by rewrite (nodup_find _ _ _ Hnd Hin). }
  split; [done|]. apply part_pays_controlled in Hp as (Hk & _ & Hp).
  destruct (place_props_controlled _ _ _ _ _ _ _ Hpl Hin Hk) as [[? _]|(_ & a & e & cur' & Hs & _)]; [congruence|].
  apply span_spec in Hs as (Ha & _ & Hst & _). pose proof (blk_range c).
  assert (Hl : forall cur, left c cur = start_of c + blk c) by by destruct c.
  destruct Hp as [->|[-> ->]].
  - rewrite Hc. split; [lia|]. intros cur0. rewrite Hl. lia.
  - split; [|intros cur0]; rewrite (body_start_left _ 0), Hc, !Hl by (rewrite Hc; eauto); lia.
Qed.

Lemma node_step ps parent last lastp m a b final :
  parent = Null \/ is_object parent = true -> well_made (Obj ps) ps = true ->
  place_props (Obj ps) b ps (a + blk (Obj ps)) = Some final ->
  range_at (Obj ps) 0 = Some a -> a + blk (Obj ps) < b ->
  last_holds m last lastp -> (forall p, lastp = Some p -> p <= a + blk (Obj ps)) ->
  exists i ci m1, processNode number_toString (Obj ps) parent last m = Some ((i, ci), m1) /\
    effect a b (inside a b) (own_costs (Obj ps) parent lastp) m m1 /\
    last_holds m1 i (pays_at (Obj ps) parent lastp) /\
    (forall p, pays_at (Obj ps) parent lastp = Some p -> p <= a + blk (Obj ps)) /\
    pending (Obj ps) ci ps m1.
Proof.
  intros Hpar Hw Hpl Ha Hab HL Hp. unfold well_made in Hw.
  apply andb_prop in Hw as [[Hnd Hval]%andb_prop Hbody]. pose proof (blk_range (Obj ps)) as Hblk.
  destruct (active (Obj ps)) eqn:Hact.
  - rewrite (active_not_block _ Hact) in Hp.
    destruct (processNode_spec number_toString (Obj ps) parent a b last lastp m) as (i & ci & m1 & E & F & HL1 & HC);
      [done..|lia|done|intros p HpS%Hp; lia|eapply parts_fit; [done|exact Hpl|lia]| | |].
    { intros Hnb. by rewrite Hnb in Hbody. }
    { destruct (node_value (Obj ps)); [by eauto|done]. }
    exists i, ci, m1. split_and!; [done..| |].
    + intros p. destruct (pays_at_cases (Obj ps) parent lastp) as [->| ->].
      * intros [= <-]. unfold start_of. rewrite Ha. cbn. lia.
      * intros HpS%Hp. lia.
    + intros k c Hin Ho. specialize (HC k). destruct (part_pays_at (Obj ps) k) as [p|] eqn:Epp; [|done].
      destruct HC as (inj & Ef & Hh). exists inj. split; [done|].
      destruct (part_pays_left _ _ _ _ _ _ _ Hpl Hnd Hin Ho Epp) as (Hc & Hs & Hl).
      split_and!; [|done..]. apply Hh. rewrite Hc. by apply object_truthy.
  - destruct (inactive_ledger (Obj ps) parent lastp eq_refl Hact) as (-> & -> & Hk).
    exists last, [], m. rewrite inactive_process by done. split_and!; [done|apply effect_refl|done..|].
    intros k c _ _. by rewrite Hk.
Qed.

Lemma traverse_charges c : charges c.
Proof.
  induction c as [l IH|ps IH|v Hv] using jsval_rect;
    intros parent last lastp m cur hi next Ho Hpar Hpl HL Hp; [..|congruence].
  all: match goal with |- context [ledger ?node _ _] => destruct (inert node) eqn:Hi end;
    [exists m; rewrite inert_traverse, inert_ledger by done; split; [done|apply effect_refl]|];
    specialize (Hp eq_refl).
  - rewrite place_arr in Hpl by done. rewrite traverse_arr, ledger_arr.
    destruct (inactive_ledger (Arr l) parent lastp Ho eq_refl) as (-> & -> & _).
    rewrite (bind_some _ _ _ _ _ (inactive_process _ (Arr l) parent last m Ho eq_refl)). cbn [app fst].
    by apply list_charges.
  - apply place_obj in Hpl as (a & Hs & Hw & final & Hpl); [|done].
    rewrite traverse_obj, ledger_obj. set (node := Obj ps) in *.
    apply span_spec in Hs as (Ha & Hb & Hst & Hca & Hab & Hbh). pose proof (blk_range node) as Hblk.
    destruct (node_step ps parent last lastp m a next final) as (i & ci & m1 & E1 & F1 & HL1 & Hp1 & HP);
      [done..|by rewrite <- Hst|].
    destruct (props_charges node ps i (pays_at node parent lastp) ci m1 (a + blk node) next (a + blk node) final)
      as (m2 & E2 & F2); [done..|lia|].
    rewrite (bind_some _ _ _ _ _ E1). cbn [fst snd]. exists m2. split; [done|].
    eapply effect_trans; (eapply effect_mono; [first [exact F1|exact F2]|lia|lia|]); intros q; unfold inside; lia.
Qed.

End Traverse.

End GasTraverse.
