(* ===== verification/GasPaid.v ===== *)
(** * Theorems about the injected script

    The ledger is kept ([gas_ledger]), the script is the source with the entries
    spliced in ([script_spliced]), and the entry of every charge really ends up
    in the script ([every_cost_is_paid]): a sum of charges is never rounded to
    zero, so the test [value > 0] of [genNewScript] drops none. *)

From Stdlib Require Import ZArith Lia SpecFloat Permutation.
From stdpp Require Import base gmap strings list sorting.
From S2P Require Import Prelude V8 Instruction InjectGas GasLedger GasFacts GasNode GasTraverse.
Local Open Scope Z_scope.

Module GasPaid.
Import InjectGas GasLedger GasFacts GasNode GasTraverse.

(** ** Positive doubles stay positive *)

(** Zero, infinite, or finite with an exponent of at least [k]. *)
Definition at_least (k : Z) (d : spec_float) : Prop :=
  match d with
  | S754_zero s | S754_infinity s => s = false
  | S754_finite s _ e => s = false /\ k <= e
  | S754_nan => False
  end.

Definition positive (d : spec_float) : Prop :=
  match d with S754_infinity false | S754_finite false _ _ => True | _ => False end.

Lemma shr_1_half r : 0 <= shr_m r -> shr_m (shr_1 r) = shr_m r / 2.
Proof.
  destruct r as [m br s]. cbn [shr_m]. intros Hm. destruct m as [|[p|p|]|p]; try done; by rewrite <- Z.div2_div.
Qed.

Lemma shr_iter p r : 0 <= shr_m r -> shr_m (SpecFloat.iter_pos shr_1 p r) = shr_m r / 2 ^ Zpos p.
Proof.
  revert r. induction p as [p IH|p IH|]; intros r Hr; cbn [SpecFloat.iter_pos].
  - assert (H1 : 0 <= shr_m (shr_1 r)) by (rewrite shr_1_half by done; apply Z.div_pos; lia).
    assert (H2 : 0 <= shr_m (SpecFloat.iter_pos shr_1 p (shr_1 r))) by (rewrite IH by done; apply Z.div_pos; lia).
    rewrite (IH _ H2), (IH _ H1), shr_1_half by done.
    rewrite !Z.div_div by lia. f_equal.
    replace (Zpos p~1) with (1 + Zpos p + Zpos p) by lia. rewrite !Z.pow_add_r by lia. lia.
  - assert (H2 : 0 <= shr_m (SpecFloat.iter_pos shr_1 p r)) by (rewrite IH by done; apply Z.div_pos; lia).
    rewrite (IH _ H2), (IH _ Hr). rewrite Z.div_div by lia. f_equal.
    replace (Zpos p~0) with (Zpos p + Zpos p) by lia. rewrite Z.pow_add_r by lia. lia.
  - by rewrite shr_1_half.
Qed.

Lemma shr_fexp_positive m e l r e' :
  0 < m -> -1074 <= e -> shr_fexp 53 1024 m e l = (r, e') -> 0 < shr_m r /\ e <= e'.
Proof.
  intros Hm He. unfold shr_fexp, shr. destruct m as [|p|p]; [lia| |lia]. cbn [Zdigits2].
  assert (Hr : shr_m (shr_record_of_loc (Zpos p) l) = Zpos p) by by destruct l as [|[]].
  destruct (fexp 53 1024 _ - e) as [|n|n] eqn:En; intros [= <- <-]; [rewrite Hr; lia| |rewrite Hr; lia].
  split; [|lia]. rewrite shr_iter, Hr by lia.
  pose proof (Instruction.digits2_pos_bounds p) as [Hd _]. unfold fexp, emin in En.
  apply Z.div_str_pos. split; [lia|]. etransitivity; [|exact Hd]. apply Z.pow_le_mono_r; lia.
Qed.

Lemma round_aux_positive m e l k :
  0 < m -> -1074 <= e -> k <= e -> let d := binary_round_aux 53 1024 false m e l in at_least k d /\ positive d.
Proof.
  intros Hm He Hk. cbv zeta. unfold binary_round_aux.
  destruct (shr_fexp 53 1024 m e l) as [r e'] eqn:E1.
  apply shr_fexp_positive in E1 as [Hr He']; [|done..].
  assert (Hn : 0 < round_nearest_even (shr_m r) (loc_of_shr_record r)).
  { unfold round_nearest_even. destruct (loc_of_shr_record r) as [|[]]; [lia| |lia..].
    destruct (Z.even _); lia. }
  destruct (shr_fexp 53 1024 _ e' loc_Exact) as [r' e''] eqn:E2.
  apply shr_fexp_positive in E2 as [Hr' He'']; [|done|lia].
  destruct (shr_m r') as [|q|q]; [lia| |lia]. destruct (e'' <=? _); [|done]. cbn. split; [split; [done|lia]|done].
Qed.

Lemma normalize_positive m e k :
  0 < m -> -1074 <= e -> k <= e -> k <= -52 + e \/ k <= -1074 ->
  let d := binary_normalize 53 1024 m e false in at_least k d /\ positive d.
Proof.
  intros Hm He Hk Hk'. destruct m as [|p|p]; [lia| |lia]. cbn [binary_normalize]. unfold binary_round, shl_align.
  destruct (fexp 53 1024 (Zpos (digits2_pos p) + e) - e) as [|n|n] eqn:En; [by apply round_aux_positive..|].
  unfold fexp, emin in *. apply round_aux_positive; lia.
Qed.

Lemma num_positive z : 0 < z -> at_least (-52) (num z) /\ positive (num z).
Proof. intros Hz. apply normalize_positive; lia. Qed.

Lemma at_least_mono k k' d : k' <= k -> at_least k d -> at_least k' d.
Proof. destruct d as [| | |s m e]; cbn; intuition lia. Qed.

Lemma fadd_positive x y :
  at_least (-1074) x -> at_least (-1074) y ->
  at_least (-1074) (fadd x y) /\ (positive x \/ positive y -> positive (fadd x y)).
Proof.
  intros Hx Hy. destruct x as [s|s| |s m e], y as [s'|s'| |s' m' e']; cbn [at_least] in Hx, Hy; try done;
    repeat match goal with H : _ /\ _ |- _ => destruct H | H : _ = false |- _ => subst end;
    try (cbn; tauto).
  unfold fadd, SFadd.
  destruct (normalize_positive (cond_Zopp false (Zpos (fst (shl_align m e (Z.min e e')))) +
    cond_Zopp false (Zpos (fst (shl_align m' e' (Z.min e e'))))) (Z.min e e') (-1074)) as [P1 P2];
    [cbn; lia|lia..|]. split; auto.
Qed.

(** The numbers of the table. *)
Definition small_positive (d : spec_float) : Prop :=
  match d with S754_finite false _ e => -60 <= e | _ => False end.

Lemma fmul_at_least x y : small_positive x -> at_least (-52) y -> at_least (-1074) (fmul x y).
Proof.
  intros Hx Hy. destruct x as [| | |[] m e], y as [s'|s'| |s' m' e']; cbn [at_least small_positive] in Hx, Hy; try done;
    repeat match goal with H : _ /\ _ |- _ => destruct H | H : _ = false |- _ => subst end; try done.
  unfold fmul, SFmul. cbn [xorb]. eapply round_aux_positive; lia.
Qed.

(** A charge: a positive number that does not get lost. *)
Definition sound (d : spec_float) : Prop := at_least (-1074) d /\ positive d.

Lemma small_sound c : small_positive c -> sound c.
Proof. destruct c as [| | |[] m e]; try done. cbn. split; cbn; [|done]. split; [done|lia]. Qed.

Lemma table_small ty c : index chargedExpression ty = Some c -> small_positive c.
Proof.
  destruct ty; try done. cbn [index]. destruct (key_of _ _) as [k|]; [|done].
  intros Hin%find_prop_In.
  assert (HF : Forall (fun x : string * spec_float => small_positive (snd x)) chargedExpression).
  { repeat (apply Forall_cons; split; [vm_compute; discriminate|]). constructor. }
  rewrite Forall_forall in HF. apply (HF (k, c)). by apply list_elem_of_In.
Qed.

Lemma num_at_least n : 0 <= n -> at_least (-52) (num n).
Proof.
  intros Hn. destruct (Z.eq_dec n 0) as [->|]; [done|]. by apply num_positive; lia.
Qed.

Lemma scaled_sound c n : small_positive c -> 0 <= n -> sound (fadd (num 2) (fmul c (num n))).
Proof.
  intros Hc Hn. destruct (fadd_positive (num 2) (fmul c (num n))) as [H1 H2].
  - eapply at_least_mono, num_positive; lia.
  - apply fmul_at_least; [done|]. by apply num_at_least.
  - split; [done|]. apply H2. left. apply num_positive. lia.
Qed.

Lemma by_length_sound c v o :
  positive_length v = Some o -> small_positive c ->
  sound match o with Some n => fadd (num 2) (fmul c (num n)) | None => c end.
Proof.
  intros H Hc. destruct o; [|by apply small_sound]. apply scaled_sound; [done|]. by eapply positive_length_pos.
Qed.

Local Opaque num tenth fadd fmul.

Lemma node_value_sound node v : node_value node = Some (Some v) -> sound v.
Proof.
  unfold node_value. destruct (get node "type") as [ty|]; [|done]. rewrite some_bind.
  destruct (get node "value") as [w|]; [|done]. rewrite some_bind. unfold base_value.
  destruct (index chargedExpression ty) as [c|] eqn:Ei.
  - apply table_small in Ei as Hc. destruct (get node "init") as [init|]; [|done]. rewrite some_bind. cbv zeta.
    set (c1 := if _ && _ then num 3 else c).
    assert (H1 : small_positive c1) by (subst c1; destruct (_ && _); [vm_compute; discriminate|done]).
    clearbody c1. destruct (is_str ty "ObjectExpression") eqn:Eo.
    + apply is_str_true in Eo as ->. destruct (get node "properties") as [pr|]; [|done]. rewrite some_bind.
      destruct (positive_length pr) as [np|] eqn:Ep; [|done]. rewrite some_bind.
      intros [= <-]. by eapply by_length_sound.
    + rewrite !some_bind. cbn [positive_length]. rewrite some_bind.
      destruct (if is_str ty "ArrayExpression" then _ else _) as [el|]; [|done]. rewrite some_bind.
      destruct (positive_length el) as [ne|] eqn:Ee; [|done]. rewrite some_bind.
      intros [= <-]. by eapply by_length_sound.
  - destruct w as [| | | | |s| |]; try done. destruct (is_str ty "Literal") eqn:El; [|done].
    apply is_str_true in El as ->. destruct (get node "init") as [init|]; [|done]. rewrite some_bind.
    intros [= <-]. apply scaled_sound; [vm_compute; discriminate|lia].
Qed.

(** ** Every charge of the ledger is in the script *)

Lemma total_sound cs : Forall sound cs -> at_least (-1074) (total cs) /\ (cs <> [] -> positive (total cs)).
Proof.
  induction cs as [|c cs IH] using rev_ind; [split; [vm_compute; reflexivity|done]|].
  intros [Hcs Hc%Forall_inv]%Forall_app. destruct (IH Hcs) as [H1 H2]. rewrite total_snoc.
  destruct (fadd_positive (total cs) c H1 (proj1 Hc)) as [H3 H4].
  split; [done|]. intros _. apply H4. right. apply Hc.
Qed.

Lemma loop_costs_sound node : Forall (fun x => sound (snd x)) (loop_costs node).
Proof.
  unfold loop_costs.
  assert (Hs : forall t, small_positive (charged (Str (str t))) -> sound (charged (Str (str t))))
    by (intros; by apply small_sound).
  destruct (is_for _) eqn:Ef; [|destruct (is_while _) eqn:Ew; [|done]].
  - unfold is_for in Ef. repeat apply orb_true_iff in Ef as [Ef|Ef]; apply is_str_true in Ef; rewrite Ef;
      (apply Forall_cons; split; [|done]); apply Hs; vm_compute; discriminate.
  - apply Forall_cons. split; [apply small_sound; vm_compute; discriminate|].
    destruct (falsy _); [done|].
    unfold is_while in Ew. apply orb_true_iff in Ew as [Ew|Ew]; apply is_str_true in Ew; rewrite Ew;
      (apply Forall_cons; split; [|done]); apply Hs; vm_compute; discriminate.
Qed.

Lemma node_cost_sound node c : node_cost node = Some c -> sound c.
Proof.
  unfold node_cost. destruct (is_for _ || _); [done|]. destruct (_ || _); [done|].
  destruct (is_str _ "ArrowFunctionExpression" || _) eqn:E.
  - intros [= <-]. apply small_sound.
    apply orb_true_iff in E as [E|E]; apply is_str_true in E; rewrite E; vm_compute; discriminate.
  - destruct (node_value node) as [[v|]|] eqn:Ev; [|done..]. intros [= <-]. by eapply node_value_sound.
Qed.

Lemma own_costs_sound node parent lastp : Forall (fun x => sound (snd x)) (own_costs node parent lastp).
Proof.
  unfold own_costs. apply Forall_app. split; [apply loop_costs_sound|].
  destruct (pays_at _ _ _), (node_cost node) as [c|] eqn:E; try done.
  apply Forall_cons. split; [by eapply node_cost_sound|done].
Qed.

Lemma ledger_sound node : forall parent lastp, Forall (fun x => sound (snd x)) (ledger node parent lastp).
Proof.
  induction node as [l IH|ps IH|v Hv] using jsval_rect; intros parent lastp.
  - rewrite ledger_arr. apply Forall_app. split; [apply own_costs_sound|].
    generalize (pays_at (Arr l) parent lastp) as p, (Arr l) as node. intros p node.
    induction IH as [|c l Hc _ IH]; [done|]. cbn [ledger_list]. apply Forall_app. split; [|done].
    by destruct (is_object c).
  - rewrite ledger_obj. apply Forall_app. split; [apply own_costs_sound|].
    generalize (pays_at (Obj ps) parent lastp) as p, (Obj ps) as node. intros p node.
    induction IH as [|[k c] l Hc _ IH]; [done|]. cbn [ledger_props]. apply Forall_app. split; [|done].
    by destruct (is_object c).
  - destruct v; try done; cbn [ledger]; rewrite app_nil_r; apply own_costs_sound.
Qed.

Lemma positive_emitted e d : value e = VNum d -> positive d -> emitted e = true.
Proof.
  intros Hv Hd. unfold emitted. rewrite Hv. apply orb_true_iff. right.
  by destruct d as [|[]| |[] m x].
Qed.

Lemma at_pos_In p c L : In (p, c) L -> In c (at_pos p L).
Proof.
  intros H. unfold at_pos. apply in_map_iff. exists (p, c). split; [done|].
  apply list_elem_of_In, list_elem_of_filter. split; [done|]. by apply list_elem_of_In.
Qed.

Lemma at_pos_sound p L : Forall (fun x => sound (snd x)) L -> Forall sound (at_pos p L).
Proof.
  rewrite !List.Forall_forall. intros H c (x & <- & Hx)%in_map_iff. apply H.
  by apply list_elem_of_In, list_elem_of_filter in Hx as [_ Hx%list_elem_of_In].
Qed.

Lemma ledger_emitted m L p c :
  accounts m L -> Forall (fun x => sound (snd x)) L -> In (p, c) L ->
  exists e, In e (entries m p) /\ charging (type e) = true /\ emitted e = true.
Proof.
  intros HA HS Hin. destruct (HA p) as (css & HF & Hp).
  assert (Hcs : Forall sound (concat css)) by (rewrite Hp; by apply at_pos_sound).
  assert (Hc : In c (concat css)).
  { apply list_elem_of_In. rewrite Hp. by apply list_elem_of_In, at_pos_In. }
  clear Hp Hin. induction HF as [|e cs es css [_ He] HF IH]; [done|]. cbn in Hc, Hcs.
  apply Forall_app in Hcs as [Hcs Hcss]. apply in_app_or in Hc as [Hc|Hc].
  - destruct (charging (type e)) eqn:Ht; [|by subst cs]. exists e. split_and!; [by left|done|].
    eapply positive_emitted; [done|]. apply total_sound; [done|]. by intros ->.
  - destruct (IH Hcss Hc) as (e' & ? & ? & ?). exists e'. split_and!; [by right|done..].
Qed.

(** ** The nodes of a tree *)

Inductive within (root : jsval) : jsval -> Prop :=
  | within_root : within root root
  | within_prop ps k c : within root (Obj ps) -> In (k, c) ps -> is_object c = true -> within root c
  | within_item l c : within root (Arr l) -> In c l -> is_object c = true -> within root c.

Lemma place_props_In node b ps cur final k c :
  place_props node b ps cur = Some final -> In (k, c) ps -> is_object c = true ->
  exists cur' next, cur <= cur' /\ place c cur' b = Some next.
Proof.
  revert cur. induction ps as [|[k' c'] ps IH]; intros cur H Hin Ho; [done|]. destruct Hin as [E|Hin].
  - simplify_eq. apply place_props_cons in H as (next & n & Ep & _); [|done]. exists cur, next. split; [lia|done].
  - destruct (is_object c') eqn:Ho'.
    + apply place_props_cons in H as (next & n & Ep & Hn & _ & H); [|done]. apply place_mono in Ep.
      pose proof (gap_range node). destruct (IH _ H Hin Ho) as (cur' & nx & ? & ?).
      exists cur', nx. split; [lia|done].
    + apply place_props_skip in H as [_ H]; [|done]. by apply (IH _ H).
Qed.

Lemma place_list_In hi l cur final c :
  place_list hi l cur = Some final -> In c l -> is_object c = true ->
  exists cur' next, cur <= cur' /\ place c cur' hi = Some next.
Proof.
  revert cur. induction l as [|c' l IH]; intros cur H Hin Ho; [done|]. cbn [place_list] in H.
  destruct Hin as [->|Hin].
  - rewrite Ho in H. destruct (place c cur hi) as [n|] eqn:E; [|done]. exists cur, n. split; [lia|done].
  - destruct (is_object c') eqn:Ho'; [|by apply (IH cur)].
    destruct (place c' cur hi) as [n|] eqn:E; [|done]. rewrite some_bind in H. apply place_mono in E.
    destruct (IH _ H Hin Ho) as (cur' & nx & ? & ?). exists cur', nx. split; [lia|done].
Qed.

Lemma ledger_props_In node p ps k c :
  In (k, c) ps -> is_object c = true ->
  incl (ledger c node (or_else (part_pays_at node k) p)) (ledger_props node p ps).
Proof.
  intros Hin Ho. induction ps as [|[k' c'] ps IH]; [done|]. cbn [ledger_props].
  destruct Hin as [E|Hin]; [simplify_eq; rewrite Ho; apply incl_appl, incl_refl|by apply incl_appr, IH].
Qed.

Lemma ledger_list_In node p l c :
  In c l -> is_object c = true -> incl (ledger c node p) (ledger_list node p l).
Proof.
  intros Hin Ho. induction l as [|c' l IH]; [done|]. cbn [ledger_list].
  destruct Hin as [->|Hin]; [rewrite Ho; apply incl_appl, incl_refl|by apply incl_appr, IH].
Qed.

Lemma inert_child node c :
  (exists ps k, node = Obj ps /\ In (k, c) ps) \/ (exists l, node = Arr l /\ In c l) ->
  inert node = true -> inert c = true.
Proof.
  intros [(ps & k & -> & Hin)|(l & -> & Hin)]; cbn [inert]; intros [_ H]%andb_prop;
    rewrite forallb_forall in H; [by apply (H (k, c))|by apply H].
Qed.

Lemma left_cur c cur hi next : place c cur hi = Some next -> inert c = false -> cur <= left c cur.
Proof.
  intros H Hi. destruct c as [| | | | | |l|ps]; cbn [left]; try lia.
  apply place_obj in H as (a & Hs & _); [|done]. apply span_spec in Hs. pose proof (blk_range (Obj ps)). lia.
Qed.

(** Every node that costs something is placed, pays behind nothing it needs, and
    has its part of the ledger. *)
Lemma within_ledger root n e c :
  place root 0 n = Some e -> is_object root = true -> within root c ->
  is_object c = true /\ (inert c = true \/
  exists parent lastp cur hi next, place c cur hi = Some next /\
    (forall p, lastp = Some p -> p <= left c cur) /\
    incl (ledger c parent lastp) (ledger root Null None)).
Proof.
  intros Hpl Hor. induction 1 as [|ps k c _ IH Hin Ho|l c _ IH Hin Ho].
  - split; [done|right]. exists Null, None, 0, n, e. split_and!; [done..|apply incl_refl].
  - split; [done|]. destruct IH as [_ [Hi|(parent & lastp & cur & hi & next & Hp & Hl & HI)]].
    { left. eapply inert_child; [|exact Hi]. left. by eauto. }
    destruct (inert (Obj ps)) eqn:Hi; [left; eapply inert_child; [|exact Hi]; left; by eauto|].
    destruct (inert c) eqn:Hic; [by left|right].
    apply place_obj in Hp as (a & Hs & Hw & final & Hp); [|done].
    apply span_spec in Hs as (_ & _ & Hst & _). pose proof (blk_range (Obj ps)).
    destruct (place_props_In _ _ _ _ _ _ _ Hp Hin Ho) as (cur' & nx & Hc & Hpc).
    exists (Obj ps), (or_else (part_pays_at (Obj ps) k) (pays_at (Obj ps) parent lastp)), cur', next, nx.
    split_and!; [done| |].
    + unfold well_made in Hw. apply andb_prop in Hw as [[Hnd _]%andb_prop _]. intros p.
      destruct (part_pays_at (Obj ps) k) as [q|] eqn:Eq; cbn [or_else].
      * intros [= <-]. by eapply part_pays_left.
      * pose proof (left_cur _ _ _ _ Hpc Hic). cbn [left] in Hl.
        destruct (pays_at_cases (Obj ps) parent lastp) as [-> | ->]; [intros [= <-]|intros Hx%Hl]; lia.
    + eapply incl_tran; [|exact HI]. rewrite ledger_obj. apply incl_appr. by apply ledger_props_In.
  - split; [done|]. destruct IH as [_ [Hi|(parent & lastp & cur & hi & next & Hp & Hl & HI)]].
    { left. eapply inert_child; [|exact Hi]. right. by eauto. }
    destruct (inert (Arr l)) eqn:Hi; [left; eapply inert_child; [|exact Hi]; right; by eauto|].
    destruct (inert c) eqn:Hic; [by left|right]. rewrite place_arr in Hp by done.
    destruct (place_list_In _ _ _ _ _ Hp Hin Ho) as (cur' & nx & Hc & Hpc).
    destruct (inactive_ledger (Arr l) parent lastp eq_refl eq_refl) as (_ & E & _).
    exists (Arr l), lastp, cur', hi, nx. split_and!; [done| |].
    + intros p Hx%Hl. cbn [left] in Hx. pose proof (left_cur _ _ _ _ Hpc Hic). lia.
    + eapply incl_tran; [|exact HI]. rewrite ledger_arr, E. apply incl_appr. by apply ledger_list_In.
Qed.

(** ** The script *)

(** The source with [ins p] in front of the character at [p]. *)
Fixpoint spliced (ins : Z -> jsstring) (p : Z) (source : jsstring) : jsstring :=
  ins p ++ match source with [] => [] | c :: source' => c :: spliced ins (p + 1) source' end.

(** The same without the insertion at the first position. *)
Definition after (ins : Z -> jsstring) (p : Z) (source : jsstring) : jsstring :=
  match source with [] => [] | c :: source' => c :: spliced ins (p + 1) source' end.

Section Script.
Context (ins : Z -> jsstring) (source : jsstring).

Lemma after_skip k offset :
  (forall q, offset < q < offset + Z.of_nat k -> ins q = []) ->
  0 <= offset -> (0 < k)%nat -> offset + Z.of_nat k <= Z.of_nat (length source) ->
  after ins offset (drop (Z.to_nat offset) source) =
  slice source offset (offset + Z.of_nat k) ++ ins (offset + Z.of_nat k) ++
  after ins (offset + Z.of_nat k) (drop (Z.to_nat (offset + Z.of_nat k)) source).
Proof.
  revert offset. induction k as [|k IH]; intros offset Hins Ho Hk Hn; [lia|].
  destruct (drop (Z.to_nat offset) source) as [|c s] eqn:Ed.
  { apply (f_equal length) in Ed. rewrite length_drop in Ed. cbn in Ed. lia. }
  assert (Es : drop (Z.to_nat (offset + 1)) source = s).
  { replace (Z.to_nat (offset + 1)) with (Z.to_nat offset + 1)%nat by lia. by rewrite <- drop_drop, Ed. }
  assert (E1 : spliced ins (offset + 1) s = ins (offset + 1) ++ after ins (offset + 1) s) by by destruct s.
  cbn [after]. rewrite E1. destruct k as [|k].
  - unfold slice. replace (Z.to_nat (offset + Z.of_nat 1) - Z.to_nat offset)%nat with 1%nat by lia.
    rewrite Ed. change (offset + Z.of_nat 1) with (offset + 1). by rewrite Es.
  - rewrite (Hins (offset + 1)) by lia. cbn [app]. rewrite <- Es, IH by (lia || intros; apply Hins; lia).
    replace (offset + 1 + Z.of_nat (S k)) with (offset + Z.of_nat (S (S k))) by lia.
    unfold slice. rewrite Ed.
    replace (Z.to_nat (offset + Z.of_nat (S (S k))) - Z.to_nat offset)%nat with (S (S k)) by lia.
    replace (Z.to_nat (offset + Z.of_nat (S (S k))) - Z.to_nat (offset + 1))%nat with (S k) by lia.
    by rewrite Es.
Qed.

Lemma spliced_none p s : (forall q, p <= q -> ins q = []) -> spliced ins p s = s.
Proof.
  revert p. induction s as [|c s IH]; intros p H; cbn [spliced]; rewrite H by lia; [done|].
  cbn [app]. f_equal. apply IH. intros q Hq. apply H. lia.
Qed.

Lemma after_none offset s : (forall q, offset < q -> ins q = []) -> after ins offset s = s.
Proof. intros H. destruct s; [done|]. cbn. f_equal. apply spliced_none. intros. apply H. lia. Qed.
End Script.

Lemma strictly_sorted (l : list Z) : StronglySorted Z.le l -> NoDup l -> StronglySorted Z.lt l.
Proof.
  induction 1 as [|a l _ IH HF]; intros Hn; constructor.
  - apply IH. by apply NoDup_cons_1_2 in Hn.
  - apply NoDup_cons in Hn as [Hn _]. rewrite List.Forall_forall in *. intros x Hx.
    specialize (HF x Hx). assert (a <> x); [|lia]. intros ->. by apply Hn, list_elem_of_In.
Qed.

Lemma sorted_keys_spec m :
  StronglySorted Z.lt (sorted_keys m) /\ forall p, In p (sorted_keys m) <-> is_Some (m !! p).
Proof.
  unfold sorted_keys. split.
  - apply strictly_sorted; [apply StronglySorted_merge_sort; apply _|].
    rewrite merge_sort_Permutation. apply NoDup_fst_map_to_list.
  - intros p. rewrite <- list_elem_of_In, merge_sort_Permutation, list_elem_of_fmap. split.
    + intros ([q x] & -> & H%elem_of_map_to_list). by exists x.
    + intros [x H]. exists (p, x). split; [done|]. by apply elem_of_map_to_list.
Qed.

Lemma paste_after f m source keys offset :
  StronglySorted Z.lt (offset :: keys) -> 0 <= offset ->
  (forall q, offset < q -> is_Some (m !! q) -> In q keys) ->
  (forall q, In q keys -> q <= Z.of_nat (length source)) ->
  paste f m source offset keys =
  after (fun p => inserted f (entries m p)) offset (drop (Z.to_nat offset) source).
Proof.
  set (ins := fun p => inserted f (entries m p)).
  assert (Hnone : forall q, m !! q = None -> ins q = []).
  { intros q Hq. subst ins. cbn. unfold entries. by rewrite Hq. }
  revert offset. induction keys as [|p keys IH]; intros offset HS Ho Hin Hlen; cbn [paste].
  - unfold slice_from. rewrite after_none; [done|]. intros q Hq. apply Hnone.
    destruct (m !! q) eqn:E; [|done]. by apply Hin in Hq.
  - apply StronglySorted_inv in HS as [HS HF]. pose proof (Forall_inv HF) as Hp. cbn in Hp.
    apply StronglySorted_inv in HS as HS'. destruct HS' as [_ HFk].
    rewrite IH; [|done|lia| |]; [| |intros q Hq; apply Hlen; by right].
    + specialize (Hlen p (or_introl eq_refl)).
      rewrite (after_skip ins source (Z.to_nat (p - offset)) offset); [| |lia..];
        rewrite ?Z2Nat.id by lia; replace (offset + (p - offset)) with p by lia; [done|].
      intros q Hq. apply Hnone. destruct (m !! q) eqn:E; [|done]. exfalso.
      destruct (Hin q) as [->|Hk]; [lia|by eexists|lia|].
      rewrite List.Forall_forall in HFk. specialize (HFk q Hk). lia.
    + intros q Hq Hs. destruct (Hin q ltac:(lia) Hs) as [->|]; [lia|done].
Qed.

Lemma genNewScript_spliced f m source :
  (forall p, is_Some (m !! p) -> 0 <= p <= Z.of_nat (length source)) ->
  genNewScript f m source = spliced (fun p => inserted f (entries m p)) 0 source.
Proof.
  intros Hk. unfold genNewScript. destruct (sorted_keys_spec m) as [HS HI].
  set (ins := fun p => inserted f (entries m p)).
  assert (E0 : spliced ins 0 source = ins 0 ++ after ins 0 source) by by destruct source.
  assert (Hall : forall q, In q (sorted_keys m) -> 0 <= q <= Z.of_nat (length source)).
  { intros q Hq. by apply Hk, HI. }
  rewrite E0. destruct (m !! 0) as [es|] eqn:Em.
  - destruct (sorted_keys m) as [|p keys] eqn:Ek; [by destruct (proj2 (HI 0) ltac:(eauto))|].
    assert (p = 0) as ->.
    { destruct (proj2 (HI 0) ltac:(eauto)) as [|Hin]; [done|]. apply StronglySorted_inv in HS as [_ HF].
      rewrite List.Forall_forall in HF. specialize (HF 0 Hin). specialize (Hall p (or_introl eq_refl)). lia. }
    cbn [paste]. rewrite paste_after; [|done|lia| |].
    + unfold ins, entries. rewrite Em. by rewrite drop_0.
    + intros q Hq Hs. destruct (proj2 (HI q) Hs); [lia|done].
    + intros q Hq. apply Hall. by right.
  - assert (Hi : ins 0 = []) by (unfold ins, entries; by rewrite Em).
    rewrite Hi. cbn [app]. rewrite paste_after; [by rewrite drop_0| |lia| |].
    + constructor; [done|]. apply List.Forall_forall. intros q Hq. specialize (Hall q Hq).
      assert (q <> 0); [|lia]. intros ->. apply HI in Hq as [? ?]. congruence.
    + intros q _ Hs. by apply HI.
    + intros q Hq. by apply Hall.
Qed.

(** ** The theorems *)

Lemma traverse_root f ast n e :
  is_object ast = true -> place ast 0 n = Some e ->
  exists m, traverse f ast Null NoInjection ∅ = Some (tt, m) /\
    (forall p, is_Some (m !! p) -> 0 <= p <= n) /\ accounts m (ledger ast Null None).
Proof.
  intros Ho Hp.
  destruct (traverse_charges f ast Null NoInjection None ∅ 0 n e) as (m & E & F);
    [done|by left|done..|]. exists m. split_and!; [done| |].
  - intros p H. destruct (effect_keys _ _ _ _ _ _ F p H) as [[x Hx]|]; [by rewrite lookup_empty in Hx|done].
  - apply (effect_accounts _ _ _ _ _ _ F []). intros p. exists []. split; [|done].
    unfold entries. rewrite lookup_empty. constructor.
Qed.

(** C6: the injector never fails on the tree of a parser, inserts only inside
    the source, and keeps the ledger: at every position, the charging entries
    hold the charges the ledger has there, each charge in exactly one entry,
    and the number in an entry is the sum, in double precision and in the order
    they were made, of the charges it holds. *)
Theorem gas_ledger (number_toString : spec_float -> jsstring) (ast : jsval) (n e : Z) :
  is_object ast = true -> place ast 0 n = Some e ->
  exists m, traverse number_toString ast Null NoInjection ∅ = Some (tt, m) /\
    (forall p, is_Some (m !! p) -> 0 <= p <= n) /\
    (forall p, exists css, Forall2 entry_holds (entries m p) css /\
       concat css ≡ₚ at_pos p (ledger ast Null None)).
Proof.
  intros Ho Hp. destruct (traverse_root number_toString ast n e Ho Hp) as (m & E & Hk & HA). by exists m.
Qed.

(** C10: the new script is the source, every character of it and in order, with
    the text of the entries at a position, from first to last, put in front of
    the character there; a charging entry is left out exactly when its sum is
    not positive. *)
Theorem script_spliced (number_toString : spec_float -> jsstring) (ast : jsval) (source : jsstring)
    (e : Z) (m : injectionMap) :
  is_object ast = true -> place ast 0 (Z.of_nat (length source)) = Some e ->
  traverse number_toString ast Null NoInjection ∅ = Some (tt, m) ->
  genNewScript number_toString m source =
  spliced (fun p => inserted number_toString (entries m p)) 0 source.
Proof.
  intros Ho Hp Ht. destruct (traverse_root number_toString ast _ e Ho Hp) as (m' & E & Hk & _).
  simplify_eq. by apply genNewScript_spliced.
Qed.

(** The text of some charge is inserted at [p]. *)
Definition paid_at (m : injectionMap) (p : Z) : Prop :=
  exists e, In e (entries m p) /\ charging (type e) = true /\ emitted e = true.

(** C9: nothing runs for free. Wherever a node with a cost stands in the tree,
    the script charges it at a position at or in front of the node; and every
    pass of every loop is charged, at the start of the loop's body (for while
    and do-while loops in front of the condition too). *)
Theorem every_cost_is_paid (number_toString : spec_float -> jsstring) (ast : jsval) (n e : Z)
    (m : injectionMap) (node : jsval) :
  is_object ast = true -> place ast 0 n = Some e ->
  traverse number_toString ast Null NoInjection ∅ = Some (tt, m) -> within ast node ->
  (forall cost, node_cost node = Some cost ->
     exists p, p <= start_of node /\ In (p, cost) (ledger ast Null None) /\ paid_at m p) /\
  (forall p cost, In (p, cost) (loop_costs node) ->
     In (p, cost) (ledger ast Null None) /\ paid_at m p).
Proof.
  intros Ho Hp Ht Hw. destruct (traverse_root number_toString ast _ e Ho Hp) as (m' & E & Hk & HA).
  rewrite Ht in E. injection E as <-. assert (Hpaid : forall p c, In (p, c) (ledger ast Null None) -> paid_at m p).
  { intros p c Hin. eapply ledger_emitted; [exact HA|apply ledger_sound|exact Hin]. }
  destruct (within_ledger ast n e node Hp Ho Hw) as [Hon [Hi|(parent & lastp & cur & hi & next & Hpl & Hl & HI)]].
  { apply inert_active in Hi. split; [by rewrite inactive_cost by done|].
    destruct (inactive_ledger node Null None Hon Hi) as (Hc & _). unfold own_costs in Hc.
    apply app_eq_nil in Hc as [-> _]. done. }
  assert (Hown : incl (own_costs node parent lastp) (ledger ast Null None)).
  { eapply incl_tran; [|exact HI].
    destruct node; try done; [rewrite ledger_arr|rewrite ledger_obj]; apply incl_appl, incl_refl. }
  split.
  - intros cost Hc. destruct (active node) eqn:Hact; [|by rewrite inactive_cost in Hc].
    exists (default (start_of node) (if pays_itself node parent then Some (start_of node) else lastp)).
    assert (Hin : In (default (start_of node) (if pays_itself node parent then Some (start_of node) else lastp), cost)
      (ledger ast Null None)).
    { apply Hown. rewrite (costs_cost _ _ _ _ Hc). apply in_or_app. right. by left. }
    split_and!; [|done|by eapply Hpaid]. destruct (pays_itself _ _); cbn; [lia|].
    destruct lastp as [p|]; cbn; [|lia]. specialize (Hl p eq_refl).
    destruct node; try done. cbn [left] in Hl. rewrite (active_not_block _ Hact) in Hl. lia.
  - intros p cost Hin. assert (In (p, cost) (ledger ast Null None)).
    { apply Hown. unfold own_costs. apply in_or_app. by left. }
    split; [done|by eapply Hpaid].
Qed.

(** ** Witnesses *)

Definition ident (a b : Z) : jsval := node_at "Identifier" a b [("name"%string, Str (str "a"))].

(** while(a)a(); *)
Definition sample_loop : jsval :=
  node_at "WhileStatement" 0 12
    [ ("test", ident 6 7);
      ("body", node_at "ExpressionStatement" 8 12
         [("expression", node_at "CallExpression" 8 11 [("callee", ident 8 9); ("arguments", Arr [])])]) ]%string.
Definition sample : jsval := node_at "Program" 0 12 [("body"%string, Arr [sample_loop])].
Definition sample_text : jsstring := str "while(a)a();".

(** Any conversion will do. *)
Definition sample_number (d : spec_float) : jsstring := str "1".

Lemma gas_ledger_witness :
  exists m, traverse sample_number sample Null NoInjection ∅ = Some (tt, m) /\
    (forall p, is_Some (m !! p) -> 0 <= p <= 12) /\
    (forall p, exists css, Forall2 entry_holds (entries m p) css /\
       concat css ≡ₚ at_pos p (ledger sample Null None)).
Proof. apply (gas_ledger sample_number sample 12 12); vm_compute; reflexivity. Defined.

Definition sample_map : injectionMap :=
  match traverse sample_number sample Null NoInjection ∅ with Some (_, m) => m | None => ∅ end.

Lemma script_spliced_witness :
  genNewScript sample_number sample_map sample_text =
  spliced (fun p => inserted sample_number (entries sample_map p)) 0 sample_text.
Proof. apply (script_spliced sample_number sample sample_text 12 sample_map); vm_compute; reflexivity. Defined.

Lemma every_cost_is_paid_witness : paid_at sample_map 8.
Proof.
  refine (proj2 (proj2 (every_cost_is_paid sample_number sample 12 12 sample_map sample_loop _ _ _ _) 8 (num 1) _)).
  - vm_compute; reflexivity.
  - vm_compute; reflexivity.
  - vm_compute; reflexivity.
  - eapply (within_item _ [sample_loop]); [|by left|reflexivity].
    eapply (within_prop _ _ "body"%string); [apply within_root| |reflexivity].
    right. left. reflexivity.
  - left. vm_compute. reflexivity.
Defined.

(** ** Shapes of the output *)

Definition injected (source : string) (ast : jsval) : option jsstring :=
  '(_, m) ← traverse sample_number ast Null NoInjection ∅;
  Some (genNewScript sample_number m (str source)).

(** The charge of a labelled loop goes between the label and the loop, so that
    the label no longer names the loop. *)
Example label_detached :
  injected "l:for(i=0;;)continue l;"
    (node_at "Program" 0 23 [("body", Arr [node_at "LabeledStatement" 0 23
       [("label", ident 0 1);
        ("body", node_at "ForStatement" 2 23
           [("init", node_at "AssignmentExpression" 6 9 [("left", ident 6 7); ("right", node_at "Literal" 8 9 [])]);
            ("test", Null); ("update", Null);
            ("body", node_at "ContinueStatement" 12 23 [("label", ident 21 22)])])]])])%string =
  Some (str "l:_IOSTInstruction_counter.incr(1);for(i=0;;){_IOSTInstruction_counter.incr(1);continue l;}").
Proof. vm_compute. reflexivity. Qed.

(** The body of an arrow function becomes the body of an ordinary function, in
    which [this] is another object. *)
Example arrow_loses_this :
  injected "f=()=>this.x;"
    (node_at "Program" 0 13 [("body", Arr [node_at "ExpressionStatement" 0 13
       [("expression", node_at "AssignmentExpression" 0 12
          [("left", ident 0 1);
           ("right", node_at "ArrowFunctionExpression" 2 12
              [("params", Arr []);
               ("body", node_at "MemberExpression" 6 12
                  [("object", node_at "ThisExpression" 6 10 []); ("property", ident 11 12)])])])]])])%string =
  Some (str "_IOSTInstruction_counter.incr(1);f=()=>function(){_IOSTInstruction_counter.incr(1);return this.x}();").
Proof. vm_compute. reflexivity. Qed.

(** The default value of a parameter is paid for where the function is defined,
    not where it is called. *)
Example default_paid_once :
  injected "function f(a=g()){}"
    (node_at "Program" 0 19 [("body", Arr [node_at "FunctionDeclaration" 0 19
       [("id", ident 9 10);
        ("params", Arr [node_at "AssignmentPattern" 11 16
           [("left", ident 11 12);
            ("right", node_at "CallExpression" 13 16 [("callee", ident 13 14); ("arguments", Arr [])])]]);
        ("body", node_at "BlockStatement" 17 19 [("body", Arr [])])]])])%string =
  Some (str "_IOSTInstruction_counter.incr(1);function f(a=g()){}").
Proof. vm_compute. reflexivity. Qed.

End GasPaid.
