(* ===== verification/Operators.v ===== *)
(** * The operator pass and the whole injector (vm/v8vm/v8/libjs/inject_gas.js)

    Before gas is injected, the binary operators, template strings and spread
    arguments of a contract are turned into calls of functions that charge for
    them. The pass rewrites the syntax tree in place, and the copy it makes of
    the target of a compound assignment is shallow, so the tree becomes a graph:
    the objects live in a store here. *)

From Stdlib Require Import ZArith Lia SpecFloat.
From stdpp Require Import base gmap strings list pretty.
From S2P Require Import Prelude V8 JsValue InjectGas.
Local Open Scope Z_scope.

Module Operators.
Import InjectGas.

(** ** The store *)

(** A property holds a primitive or a reference to an object. *)
Inductive hval := Prim (v : jsval) | Ref (l : nat).

Definition hobj : Type := list (string * hval).

Record store := mkStore { objects : gmap nat hobj; next_ref : nat }.

(** [v.k]; [None] is a TypeError. *)
Definition hget (s : store) (v : hval) (k : string) : option hval :=
  match v with
  | Ref l => ps ← objects s !! l; Some (default (Prim Undef) (find_prop k ps))
  | Prim (Undef | Null) => None
  | Prim _ => Some (Prim Undef)
  end.

(** [v.k === text] *)
Definition htype_is (s : store) (v : hval) (k text : string) : option bool :=
  x ← hget s v k; Some match x with Prim p => is_str p text | Ref _ => false end.

Fixpoint set_prop (k : string) (v : hval) (ps : hobj) : hobj :=
  match ps with
  | [] => [(k, v)]
  | (k', v') :: ps' => if String.eqb k k' then (k, v) :: ps' else (k', v') :: set_prop k v ps'
  end.

(** ** State and exceptions *)

Definition HM (A : Type) : Type := store -> option (A * store).
Definition hret {A} (a : A) : HM A := fun s => Some (a, s).
Definition hbind {A B} (x : HM A) (f : A -> HM B) : HM B := fun s =>
  match x s with Some (a, s') => f a s' | None => None end.
Definition hread {A} (f : store -> option A) : HM A := fun s => option_map (fun a => (a, s)) (f s).
Definition hthrow {A} : HM A := fun _ => None.

Definition new_object (ps : hobj) : HM nat := fun s =>
  Some (next_ref s, mkStore (<[next_ref s := ps]> (objects s)) (S (next_ref s))).

Definition hset (l : nat) (k : string) (v : hval) : HM unit := fun s =>
  ps ← objects s !! l; Some (tt, mkStore (<[l := set_prop k v ps]> (objects s)) (next_ref s)).

Local Notation "'let*' x := a 'in' b" := (hbind a (fun x => b))
  (at level 10, x name, a at level 100, b at level 200).
Local Notation "a ';;' b" := (hbind a (fun _ => b)) (at level 100, right associativity).

Definition text (s : string) : hval := Prim (Str (str s)).

(** [Object.assign({}, v)]: a new object with the same properties. *)
Definition object_assign (v : hval) : HM nat :=
  match v with
  | Ref l => let* ps := hread (fun s => objects s !! l) in new_object ps
  | Prim _ => new_object []
  end.

(** ** processOperator *)

Definition ops : list string :=
  [ "+"; "-"; "*"; "/"; "%"; "**"; "|"; "&"; "^"; ">>"; ">>>"; "<<"; "=="; "!="; "==="; "!==";
    ">"; ">="; "<"; "<=" ]%string.

Definition in_ops (op : hval) : bool :=
  match op with Prim p => existsb (is_str p) ops | Ref _ => false end.

Definition str_of (v : hval) : option jsstring := match v with Prim (Str s) => Some s | _ => None end.

Definition call_of (callee : string) (args : list hval) : HM nat :=
  let* calleeNode := new_object [("type", text "Identifier"); ("name", text callee)]%string in
  let* arguments := new_object (imap (fun i v => (pretty.pretty (Z.of_nat i), v)) args) in
  new_object [("type", text "CallExpression"); ("callee", Ref calleeNode); ("arguments", Ref arguments)]%string.

Definition processOperator (node : nat) (pnode : hval) : HM nat :=
  let field k := hread (fun s => hget s (Ref node) k) in
  let typed t := hread (fun s => htype_is s (Ref node) "type" t) in
  let* ap := typed "ArrayPattern"%string in
  let* op := typed "ObjectPattern"%string in
  if ap || op then hthrow
  else
    let* assignment := typed "AssignmentExpression"%string in
    let* operator := field "operator"%string in
    let* binary := typed "BinaryExpression"%string in
    let* template := typed "TemplateLiteral"%string in
    let* spread := typed "SpreadElement"%string in
    if assignment && negb (match operator with Prim p => is_str p "=" | Ref _ => false end) then
      let* o := hread (fun _ => str_of operator) in
      let* left := field "left"%string in
      let* right := field "right"%string in
      let* copy := object_assign left in
      let* subnode := new_object
        [ ("operator", Prim (Str (take (length o - 1) o))); ("type", text "BinaryExpression");
          ("left", Ref copy); ("right", right) ]%string in
      hset node "operator" (text "=") ;;
      hset node "right" (Ref subnode) ;;
      hret node
    else if binary && in_ops operator then
      let* o := hread (fun _ => str_of operator) in
      let* left := field "left"%string in
      let* right := field "right"%string in
      let* opNode := new_object
        [ ("type", text "Literal"); ("value", operator); ("raw", Prim (Str (39 :: o ++ [39]))) ]%string in
      call_of "_IOSTBinaryOp" [left; right; Ref opNode]
    else
      let* tagged := (match pnode with
        | Prim Undef => hret false
        | _ => hread (fun s => htype_is s pnode "type" "TaggedTemplateExpression")
        end) in
      if template && negb tagged then
        let* tagNode := new_object [("type", text "Identifier"); ("name", text "_IOSTTemplateTag")]%string in
        new_object [("type", text "TaggedTemplateExpression"); ("tag", Ref tagNode); ("quasi", Ref node)]%string
      else if spread then
        let* argument := field "argument"%string in
        let* c := call_of "_IOSTSpreadElement" [argument] in
        hset node "argument" (Ref c) ;;
        hret node
      else hret node.

(** The keys of the loop are those the object has when the loop starts; [fuel]
    bounds the depth of the recursion, which is the depth of the tree. *)
Fixpoint traverseOperator (fuel : nat) (node : nat) (pnode : hval) : HM nat :=
  match fuel with
  | O => hthrow
  | S fuel =>
      let* node := processOperator node pnode in
      let* ps := hread (fun s => objects s !! node) in
      (fix each (keys : list string) : HM unit :=
         match keys with
         | [] => hret tt
         | key :: keys' =>
             let* child := hread (fun s => hget s (Ref node) key) in
             match child with
             | Ref c =>
                 let* c' := traverseOperator fuel c (Ref node) in
                 hset node key (Ref c')
             | Prim _ => hret tt
             end ;;
             each keys'
         end) (map fst ps) ;;
      hret node
  end.

(** ** Tokens *)

Record Token := mkToken { token_type : jsstring; token_value : jsstring }.

Definition reserved : list string :=
  [ "_IOSTInstruction_counter"; "_IOSTBinaryOp"; "IOSTInstruction"; "_IOSTTemplateTag";
    "_IOSTSpreadElement" ]%string.

Definition one_of (s : jsstring) (l : list string) : bool := existsb (fun t => bool_decide (s = str t)) l.

Definition token_ok (t : Token) : bool :=
  negb (one_of (token_type t) ["Identifier"; "Literal"]%string && one_of (token_value t) reserved) &&
  negb (one_of (token_type t) ["RegularExpression"]%string) &&
  negb (one_of (token_type t) ["Keyword"]%string && one_of (token_value t) ["try"; "catch"]%string) &&
  negb (one_of (token_type t) ["Identifier"]%string && one_of (token_value t) ["async"; "await"]%string).

(** True when no token makes it throw. *)
Definition checkInvalidKeyword (tokens : list Token) : bool := forallb token_ok tokens.

(** ** injectGas *)

Section InjectGas.

(** esprima and escodegen; [None] is a SyntaxError. *)
Context (parseTokens : jsstring -> option (list Token * store * nat)).
Context (parseScript : jsstring -> option jsval).
Context (generate : store -> nat -> jsstring).
Context (number_toString : spec_float -> jsstring).

Definition handleOperator (fuel : nat) (s : store) (ast : nat) : option jsstring :=
  '(ast, s) ← traverseOperator fuel ast (Prim Undef) s; Some (generate s ast).

(** The injection map is a variable of the module, empty when it is loaded; the
    result is the new script, or [None] for an exception. *)
Definition injectGas (fuel : nat) (source : jsstring) (m0 : injectionMap) : option (jsstring * injectionMap) :=
  '(tokens, s, ast) ← parseTokens source;
  if checkInvalidKeyword tokens then
    source ← handleOperator fuel s ast;
    ast ← parseScript source;
    '(_, m) ← traverse number_toString ast Null NoInjection m0;
    Some (genNewScript number_toString m source, m)
  else None.

End InjectGas.

(** ** Compound assignments *)

Definition store_wf (s : store) : Prop := forall l, (next_ref s <= l)%nat -> objects s !! l = None.

Lemma hbind_some {A B} (x : HM A) (f : A -> HM B) s a s' : x s = Some (a, s') -> hbind x f s = f a s'.
Proof. intros E. unfold hbind. by rewrite E. Qed.

Lemma hget_obj s l ps k :
  objects s !! l = Some ps -> hget s (Ref l) k = Some (default (Prim Undef) (find_prop k ps)).
Proof. intros E. cbn. by rewrite E. Qed.

Lemma hread_some {A} (f : store -> option A) s a : f s = Some a -> hread f s = Some (a, s).
Proof. intros E. unfold hread. by rewrite E. Qed.

Lemma hset_some s l k v ps :
  objects s !! l = Some ps ->
  hset l k v s = Some (tt, mkStore (<[l := set_prop k v ps]> (objects s)) (next_ref s)).
Proof. intros E. unfold hset. by rewrite E. Qed.

Lemma typed_node s node ps ty t :
  objects s !! node = Some ps -> find_prop "type" ps = Some (Prim (Str ty)) ->
  htype_is s (Ref node) "type" t = Some (bool_decide (ty = str t)).
Proof. intros E Ht. unfold htype_is. rewrite (hget_obj _ _ _ _ E), Ht. done. Qed.

Lemma find_set_eq k v ps : find_prop k (set_prop k v ps) = Some v.
Proof.
  induction ps as [|[k' v'] ps IH]; cbn; [by rewrite String.eqb_refl|].
  destruct (String.eqb_spec k k') as [->|Hne]; cbn; [by rewrite String.eqb_refl|].
  by apply String.eqb_neq in Hne as ->.
Qed.

Lemma find_set_ne k k' v ps : k <> k' -> find_prop k (set_prop k' v ps) = find_prop k ps.
Proof.
  intros Hne. induction ps as [|[k1 v1] ps IH]; cbn; [by apply String.eqb_neq in Hne as ->|].
  destruct (String.eqb_spec k' k1) as [->|]; cbn.
  - by apply String.eqb_neq in Hne as ->.
  - destruct (String.eqb k k1); [done|apply IH].
Qed.

Lemma wf_allocated s l ps : store_wf s -> objects s !! l = Some ps -> (l < next_ref s)%nat.
Proof. intros Hwf Hl. destruct (decide (next_ref s <= l)%nat) as [H|H]; [by rewrite Hwf in Hl|lia]. Qed.

(** The store after a compound assignment was rewritten. *)
Definition sub_expression (op : jsstring) (copy : nat) (value : hval) : hobj :=
  [ ("operator", Prim (Str (take (length op - 1) op))); ("type", text "BinaryExpression");
    ("left", Ref copy); ("right", value) ]%string.

Definition compound_props (ps : hobj) (sub : nat) : hobj :=
  set_prop "right" (Ref sub) (set_prop "operator" (text "=") ps).

Definition compound_store (s : store) (node : nat) (ps tps : hobj) (op : jsstring) (value : hval) : store :=
  let n := next_ref s in
  mkStore (<[node := compound_props ps (S n)]> (<[node := set_prop "operator" (text "=") ps]>
    (<[S n := sub_expression op n value]> (<[n := tps]> (objects s))))) (S (S n)).

Section Compound.
Context (s : store) (node target : nat) (pnode : hval) (ps tps : hobj) (op : jsstring) (value : hval).
Hypothesis Hwf : store_wf s.
Hypothesis Hnode : objects s !! node = Some ps.
Hypothesis Htarget : objects s !! target = Some tps.
Hypothesis Htype : find_prop "type" ps = Some (text "AssignmentExpression").
Hypothesis Hoperator : find_prop "operator" ps = Some (Prim (Str op)).
Hypothesis Hcompound : op <> str "=".
Hypothesis Hleft : find_prop "left" ps = Some (Ref target).
Hypothesis Hright : find_prop "right" ps = Some value.

Lemma assignment_typed t :
  hread (fun s => htype_is s (Ref node) "type" t) s = Some (bool_decide (str "AssignmentExpression" = str t), s).
Proof. apply hread_some. by eapply typed_node. Qed.

Lemma assignment_field k v :
  find_prop k ps = Some v -> hread (fun s => hget s (Ref node) k) s = Some (v, s).
Proof. intros E. apply hread_some. by rewrite (hget_obj _ _ _ _ Hnode), E. Qed.

Lemma compound_step :
  processOperator node pnode s = Some (node, compound_store s node ps tps op value).
Proof.
  pose proof (wf_allocated s node ps Hwf Hnode) as Hfn. unfold processOperator.
  rewrite (hbind_some _ _ _ _ _ (assignment_typed "ArrayPattern")).
  rewrite (hbind_some _ _ _ _ _ (assignment_typed "ObjectPattern")).
  change (bool_decide (str "AssignmentExpression" = str "ArrayPattern")
    || bool_decide (str "AssignmentExpression" = str "ObjectPattern")) with false. cbn iota.
  rewrite (hbind_some _ _ _ _ _ (assignment_typed "AssignmentExpression")),
    (hbind_some _ _ _ _ _ (assignment_field _ _ Hoperator)),
    (hbind_some _ _ _ _ _ (assignment_typed "BinaryExpression")),
    (hbind_some _ _ _ _ _ (assignment_typed "TemplateLiteral")),
    (hbind_some _ _ _ _ _ (assignment_typed "SpreadElement")).
  replace (is_str (Str op) "=") with false by (symmetry; cbn; by apply bool_decide_eq_false).
  change (bool_decide (str "AssignmentExpression" = str "AssignmentExpression") && negb false) with true. cbn iota.
  rewrite (hbind_some _ _ s op s), (hbind_some _ _ _ _ _ (assignment_field _ _ Hleft)),
    (hbind_some _ _ _ _ _ (assignment_field _ _ Hright)) by done.
  rewrite (hbind_some _ _ s (next_ref s) (mkStore (<[next_ref s := tps]> (objects s)) (S (next_ref s)))).
  2:{ cbn [object_assign]. by rewrite (hbind_some _ _ s tps s) by (by apply hread_some). }
  rewrite (hbind_some _ _ _ (S (next_ref s)) (mkStore (<[S (next_ref s) := sub_expression op (next_ref s) value]>
    (<[next_ref s := tps]> (objects s))) (S (S (next_ref s))))) by done.
  erewrite hbind_some by (apply hset_some; cbn [objects]; rewrite !lookup_insert_ne by lia; exact Hnode).
  erewrite hbind_some by (apply hset_some; cbn [objects]; by rewrite lookup_insert_eq). done.
Qed.
End Compound.

(** A compound assignment [target op= value] is rewritten to
    [target = target' op value], where [target'] is a new object with the
    properties of [target]: the object and the property expression of the
    target are the same objects in both places, and so stand twice in the
    generated code. A target with a side effect, as in [a[i++] += 1], has it
    twice. *)
Theorem compound_assignment_duplicates (s : store) (node target : nat) (pnode : hval)
    (ps tps : hobj) (op : jsstring) (value : hval) :
  store_wf s -> objects s !! node = Some ps -> objects s !! target = Some tps -> target <> node ->
  find_prop "type" ps = Some (text "AssignmentExpression") ->
  find_prop "operator" ps = Some (Prim (Str op)) -> op <> str "=" ->
  find_prop "left" ps = Some (Ref target) -> find_prop "right" ps = Some value ->
  exists s' sub target',
    processOperator node pnode s = Some (node, s') /\
    hget s' (Ref node) "operator" = Some (text "=") /\
    hget s' (Ref node) "left" = Some (Ref target) /\
    hget s' (Ref node) "right" = Some (Ref sub) /\
    hget s' (Ref sub) "type" = Some (text "BinaryExpression") /\
    hget s' (Ref sub) "operator" = Some (Prim (Str (take (length op - 1) op))) /\
    hget s' (Ref sub) "right" = Some value /\
    hget s' (Ref sub) "left" = Some (Ref target') /\
    target' <> target /\ objects s' !! target = Some tps /\ objects s' !! target' = Some tps.
Proof.
  intros Hwf Hn Ht Hne Hty Hop Hoe Hl Hr.
  pose proof (wf_allocated _ _ _ Hwf Hn) as Hfn. pose proof (wf_allocated _ _ _ Hwf Ht) as Hft.
  set (s' := compound_store s node ps tps op value).
  exists s', (S (next_ref s)), (next_ref s). split; [by eapply compound_step|].
  assert (Hn' : objects s' !! node = Some (compound_props ps (S (next_ref s)))) by apply lookup_insert_eq.
  assert (Hs' : objects s' !! S (next_ref s) = Some (sub_expression op (next_ref s) value)).
  { cbn. rewrite !lookup_insert_ne by lia. apply lookup_insert_eq. }
  rewrite !(hget_obj _ _ _ _ Hn'), !(hget_obj _ _ _ _ Hs'). unfold compound_props.
  rewrite find_set_eq, (find_set_ne "operator"), (find_set_ne "left" "right"), find_set_eq,
    (find_set_ne "left" "operator"), Hl by done.
  split_and!; try done; [lia|..]; cbn; rewrite !lookup_insert_ne by lia; [done|apply lookup_insert_eq].
Qed.

(** ** Witness and examples *)

Definition store_of (l : list hobj) : store := mkStore (list_to_map (imap pair l)) (length l).
Definition tree (t : string) (fields : list (string * hval)) : hobj := ("type"%string, text t) :: fields.

(** a[i++] += 1 *)
Definition sample : store := store_of
  [ tree "AssignmentExpression" [("operator", text "+="); ("left", Ref 1); ("right", Ref 5)];
    tree "MemberExpression" [("object", Ref 2); ("property", Ref 3)];
    tree "Identifier" [("name", text "a")];
    tree "UpdateExpression" [("operator", text "++"); ("argument", Ref 4)];
    tree "Identifier" [("name", text "i")];
    tree "Literal" [("value", text "1")] ]%string.

Lemma sample_wf : store_wf sample.
Proof.
  intros l Hl. do 6 (destruct l as [|l]; [cbn in Hl; lia|]). clear Hl.
  apply not_elem_of_list_to_map_1. cbn. rewrite !not_elem_of_cons. split_and!; try lia. apply not_elem_of_nil.
Qed.

(** The increment stands on both sides. *)
Lemma compound_assignment_duplicates_witness :
  exists s' sub target', processOperator 0 (Prim Undef) sample = Some (0%nat, s') /\
    hget s' (Ref 0) "left" = Some (Ref 1) /\ hget s' (Ref 0) "right" = Some (Ref sub) /\
    hget s' (Ref sub) "left" = Some (Ref target') /\
    hget s' (Ref 1) "property" = Some (Ref 3) /\ hget s' (Ref target') "property" = Some (Ref 3).
Proof.
  destruct (compound_assignment_duplicates sample 0 1 (Prim Undef)
    (tree "AssignmentExpression" [("operator", text "+="); ("left", Ref 1); ("right", Ref 5)])%string
    (tree "MemberExpression" [("object", Ref 2); ("property", Ref 3)])%string (str "+=") (Ref 5))
    as (s' & sub & t & E & _ & H1 & H2 & _ & _ & _ & H3 & _ & H4 & H5);
    [apply sample_wf|reflexivity|reflexivity|discriminate|reflexivity|reflexivity|discriminate|reflexivity|reflexivity|].
  exists s', sub, t. split; [exact E|]. split; [exact H1|]. split; [exact H2|]. split; [exact H3|].
  rewrite (hget_obj _ _ _ _ H4), (hget_obj _ _ _ _ H5). split; reflexivity.
Defined.

(** [f(...x).y += 1]: the spread argument is shared by the two copies of the
    target, and each visit wraps it once more. *)
Definition spread_sample : store := store_of
  [ tree "AssignmentExpression" [("operator", text "+="); ("left", Ref 1); ("right", Ref 8)];
    tree "MemberExpression" [("object", Ref 2); ("property", Ref 7)];
    tree "CallExpression" [("callee", Ref 3); ("arguments", Ref 4)];
    tree "Identifier" [("name", text "f")];
    [("0", Ref 5)];
    tree "SpreadElement" [("argument", Ref 6)];
    tree "Identifier" [("name", text "x")];
    tree "Identifier" [("name", text "y")];
    tree "Literal" [("value", text "1")] ]%string.

Definition path (s : store) (v : hval) (ks : list string) : option hval :=
  foldl (fun o k => v ← o; hget s v k) (Some v) ks.

Example spread_wrapped_twice :
  match traverseOperator 20 0 (Prim Undef) spread_sample with
  | Some (_, s) =>
      path s (Ref 5) ["argument"; "callee"; "name"] = Some (text "_IOSTSpreadElement") /\
      path s (Ref 5) ["argument"; "arguments"; "0"; "callee"; "name"] = Some (text "_IOSTSpreadElement") /\
      path s (Ref 5) ["argument"; "arguments"; "0"; "arguments"; "0"] = Some (Ref 6)
  | None => False
  end%string.
Proof. vm_compute. auto. Qed.

End Operators.
