(* ===== verification/VmOps.v ===== *)
(** * The metered operators of contracts (vm/v8vm/v8/libjs/vm.js)

    The gas injector rewrites the operators, template literals and spread
    elements of a contract into calls of three functions of [vm.js], which charge
    through the native [incr] ([Instruction]) and then do what the operator does.

    Operators on strings, the arithmetic and comparison of two numbers and strict
    equality are the language's and are written out. What V8 computes on other
    operands, where a conversion can run code of the contract, is the class
    [V8Operators]; nothing is assumed of it. *)

From Stdlib Require Import ZArith Lia SpecFloat.
From stdpp Require Import base gmap strings list.
From S2P Require Import Prelude Allocator V8 Bridge Instruction JsValue Operators.
Local Open Scope Z_scope.

Module VmOps.
Import Instruction.

Inductive binop :=
  | OAdd | OSub | OMul | ODiv | ORem | OPow | OOr | OAnd | OXor | OShr | OUShr | OShl
  | OStrictEq | OStrictNe | OGt | OGe | OLt | OLe.

(** A result is the value returned, or an exception: it is in the state. *)
Class V8Operators (H : Type) := {
  Operator : binop -> Value -> Value -> State H -> State H;
  (* [v.toString().length] of a number or an object *)
  ToStringLength : Value -> State H -> State H;
  (* the conversion of an argument of [concat] that is a number or an object *)
  ToText : Value -> State H -> State H;
  (* [v.length] of a value that is not a string *)
  GetLength : Value -> State H -> State H;
}.

(** ** The language *)

Definition strict_equals (a b : Value) : bool :=
  match a, b with
  | Undefined, Undefined | Null, Null => true
  | Boolean x, Boolean y => Bool.eqb x y
  | Number x, Number y => SFeqb x y
  | JsString x, JsString y => bool_decide (x = y)
  | External p, External q => bool_decide (p = q)
  | ObjectRef i, ObjectRef j => Nat.eqb i j
  | _, _ => false
  end.

(** The text of a primitive that is not a number. *)
Definition plain_text (v : Value) : option jsstring :=
  match v with
  | JsString s => Some s
  | Undefined => Some (JsValue.str "undefined")
  | Null => Some (JsValue.str "null")
  | Boolean true => Some (JsValue.str "true")
  | Boolean false => Some (JsValue.str "false")
  | _ => None
  end.

(** Strings compare by their code units. *)
Fixpoint string_lt (a b : jsstring) : bool :=
  match a, b with
  | _, [] => false
  | [], _ :: _ => true
  | x :: a', y :: b' => if x =? y then string_lt a' b' else x <? y
  end.

(** The operators that need no conversion; [None] is left to V8. *)
Definition pure_op (o : binop) (a b : Value) : option Value :=
  match o, a, b with
  | OStrictEq, _, _ => Some (Boolean (strict_equals a b))
  | OStrictNe, _, _ => Some (Boolean (negb (strict_equals a b)))
  | OAdd, JsString x, JsString y => Some (JsString (x ++ y))
  | OLt, JsString x, JsString y => Some (Boolean (string_lt x y))
  | OGt, JsString x, JsString y => Some (Boolean (string_lt y x))
  | OLe, JsString x, JsString y => Some (Boolean (negb (string_lt y x)))
  | OGe, JsString x, JsString y => Some (Boolean (negb (string_lt x y)))
  | OAdd, Number x, Number y => Some (Number (SFadd 53 1024 x y))
  | OSub, Number x, Number y => Some (Number (SFsub 53 1024 x y))
  | OMul, Number x, Number y => Some (Number (SFmul 53 1024 x y))
  | ODiv, Number x, Number y => Some (Number (SFdiv 53 1024 x y))
  | OLt, Number x, Number y => Some (Boolean (SFltb x y))
  | OGt, Number x, Number y => Some (Boolean (SFltb y x))
  | OLe, Number x, Number y => Some (Boolean (SFleb x y))
  | OGe, Number x, Number y => Some (Boolean (SFleb y x))
  | _, _, _ => None
  end.

Section VmOps.
Context {H : Type} {codec : V8Codec} {engine : V8Operators H}.

(** ** JavaScript code: a value, an exception ([None]), or undefined behaviour
    of a native function. *)

Definition Js (A : Type) : Type := State H -> option (option A * State H).

Definition jret {A} (a : A) : Js A := fun st => Some (Some a, st).

Definition jbind {A B} (m : Js A) (k : A -> Js B) : Js B := fun st =>
  '(a, st) ← m st;
  match a with Some a => k a st | None => Some (None, st) end.

Local Notation "x <- m ; k" := (jbind m (fun x => k)) (at level 100, m at next level, right associativity).
Local Notation "m ;; k" := (jbind m (fun _ => k)) (at level 100, right associativity).

Definition finish (st : State H) : option Value * State H :=
  match exception st with Some _ => (None, st) | None => (Some (retval st), st) end.

Definition in_v8 (f : State H -> State H) : Js Value := fun st => Some (finish (f st)).

(** [_IOSTInstruction_counter.incr(v)] *)
Definition incr (v : Value) : Js Value := fun st =>
  st ← run (IOSTContractInstruction_Incr (mkInfo [v] (External PInstruction) (External PSandbox))) st;
  Some (finish st).

Definition operator (o : binop) (a b : Value) : Js Value :=
  match pure_op o a b with Some v => jret v | None => in_v8 (Operator o a b) end.

(** [v.toString().length] *)
Definition string_length (v : Value) : Js Value :=
  match plain_text v with Some s => jret (NumberOfInt (Z.of_nat (length s))) | None => in_v8 (ToStringLength v) end.

(** [v <= 0], [v > 0] as a condition; a comparison gives a boolean. *)
Definition condition (o : binop) (v : Value) : Js bool :=
  r <- operator o v (NumberOfInt 0) ;
  jret (match r with Boolean b => b | _ => false end).

Definition nullish (v : Value) : bool := match v with Undefined | Null => true | _ => false end.

(** [v === null || v === undefined || v.toString().length <= 0 ? 0 : v.toString().length] *)
Definition operand_gas (v : Value) : Js Value :=
  if nullish v then jret (NumberOfInt 0)
  else
    l <- string_length v ;
    none <- condition OLe l ;
    if none then jret (NumberOfInt 0) else string_length v.

Definition compares (op : string) : bool :=
  existsb (String.eqb op) ["=="; "!="; "==="; "!=="; "<"; "<="; ">"; ">="]%string.

(** The cases of the switch but the first. *)
Definition op_case (op : string) : option binop :=
  match op with
  | "-" => Some OSub | "*" => Some OMul | "/" => Some ODiv | "%" => Some ORem | "**" => Some OPow
  | "|" => Some OOr | "&" => Some OAnd | "^" => Some OXor | ">>" => Some OShr | ">>>" => Some OUShr | "<<" => Some OShl
  | "==" => Some OStrictEq | "!=" => Some OStrictNe | "===" => Some OStrictEq | "!==" => Some OStrictNe
  | ">" => Some OGt | ">=" => Some OGe | "<" => Some OLt | "<=" => Some OLe
  | _ => None
  end%string.

Definition _IOSTBinaryOp (left right : Value) (op : string) : Js Value :=
  (if (IsString left || IsString right) && compares op then
     g <- operand_gas left ; incr g ;;
     g <- operand_gas right ; incr g
   else jret Undefined) ;;
  incr (NumberOfInt 3) ;;
  if String.eqb op "+" then
    v <- operator OAdd left right ;
    match v with
    | JsString s => incr (NumberOfInt (Z.of_nat (length s))) ;; jret v
    | _ => jret v
    end
  else match op_case op with
       | Some o => operator o left right
       | None => jret Undefined
       end.

(** An argument of [concat] as text; what V8 converts is a string. *)
Definition text_of (v : Value) : Js jsstring :=
  match plain_text v with
  | Some s => jret s
  | None => r <- in_v8 (ToText v) ; jret (match r with JsString s => s | _ => [] end)
  end.

(** The loop of the template: [strings] is not empty. *)
Fixpoint template_loop (strings : list jsstring) (keys : list Value) (res : jsstring) : Js jsstring :=
  match strings with
  | [] => jret res
  | [last] => jret (res ++ last)
  | s :: strings' =>
      incr (NumberOfInt 8) ;;
      k <- text_of (default Undefined (head keys)) ;
      template_loop strings' (tail keys) (res ++ s ++ k)
  end.

Definition _IOSTTemplateTag (strings : list jsstring) (keys : list Value) : Js Value :=
  incr (NumberOfInt 4) ;;
  res <- template_loop strings keys [] ;
  jret (JsString res).

(** [args.length] *)
Definition length_prop (v : Value) : Js Value :=
  match v with JsString s => jret (NumberOfInt (Z.of_nat (length s))) | _ => in_v8 (GetLength v) end.

Definition _IOSTSpreadElement (args : Value) : Js Value :=
  (if nullish args then jret Undefined
   else
     l <- length_prop args ;
     some <- condition OGt l ;
     if some then l <- length_prop args ; incr l else jret Undefined) ;;
  jret args.

End VmOps.

(** ** Whole numbers as doubles *)

Lemma digits_unique q n : 0 < n -> 2 ^ (n - 1) <= Zpos q < 2 ^ n -> Zpos (digits2_pos q) = n.
Proof.
  intros Hn Hq. pose proof (digits2_pos_bounds q) as Hd.
  destruct (Z.lt_trichotomy (Zpos (digits2_pos q)) n) as [Hl|[He|Hl]]; [|done|].
  - assert (2 ^ Zpos (digits2_pos q) <= 2 ^ (n - 1)) by (apply Z.pow_le_mono_r; lia). lia.
  - assert (2 ^ n <= 2 ^ (Zpos (digits2_pos q) - 1)) by (apply Z.pow_le_mono_r; lia). lia.
Qed.

(** The double of a number below [2 ^ 53] is this number. *)
Lemma double_exact z : 0 < z < 2 ^ 53 ->
  exists m e, double_of_Z z = S754_finite false m e /\ e <= 0 /\ Zpos m = z * 2 ^ (- e) /\
    2 ^ 52 <= Zpos m < 2 ^ 53 /\ -53 <= e.
Proof.
  intros Hz. destruct z as [|p|p]; [lia| |lia]. pose proof (digits2_pos_bounds p) as Hd.
  set (d := Zpos (digits2_pos p)) in *.
  assert (Hd53 : d <= 53).
  { destruct (Z.le_gt_cases d 53); [done|]. assert (2 ^ 53 <= 2 ^ (d - 1)) by (apply Z.pow_le_mono_r; lia). lia. }
  assert (Hd1 : 1 <= d) by (unfold d; lia).
  assert (Hm : exists m, shl_align p 0 (fexp 53 1024 (d + 0)) = (m, d - 53) /\ Zpos m = Zpos p * 2 ^ (53 - d)).
  { unfold shl_align, fexp, emin. replace (Z.max (d + 0 - 53) (3 - 1024 - 53)) with (d - 53) by lia.
    destruct (d - 53 - 0) as [|k|k] eqn:Ek; [|lia|].
    - exists p. replace (d - 53) with 0 by lia. replace (53 - d) with 0 by lia. split; [done|lia].
    - eexists. split; [done|]. change (Pos.iter xO p k) with (shift_pos k p). rewrite shift_pos_correct, Z.mul_comm. replace (53 - d) with (Zpos k) by lia. done. }
  destruct Hm as (m & Em & Vm). exists m, (d - 53).
  assert (Hr : 2 ^ 52 <= Zpos m < 2 ^ 53).
  { rewrite Vm. replace (2 ^ 53) with (2 ^ d * 2 ^ (53 - d)) by (rewrite <- Z.pow_add_r by lia; f_equal; lia).
    replace (2 ^ 52) with (2 ^ (d - 1) * 2 ^ (53 - d)) by (rewrite <- Z.pow_add_r by lia; f_equal; lia).
    assert (0 < 2 ^ (53 - d)) by (apply Z.pow_pos_nonneg; lia). nia. }
  assert (Dm : Zpos (digits2_pos m) = 53) by (apply digits_unique; lia).
  split; [|split_and!; [lia|rewrite Vm; f_equal; f_equal; lia|lia..]].
  unfold double_of_Z, binary_normalize, binary_round. fold d. rewrite Em. unfold binary_round_aux.
  assert (Hs : shr_fexp 53 1024 (Zpos m) (d - 53) loc_Exact = (shr_record_of_loc (Zpos m) loc_Exact, d - 53)).
  { unfold shr_fexp, shr. cbn [Zdigits2]. rewrite Dm. unfold fexp, emin.
    replace (Z.max (53 + (d - 53) - 53) (3 - 1024 - 53) - (d - 53)) with 0 by lia. done. }
  rewrite Hs. cbn [shr_record_of_loc shr_m loc_of_shr_record round_nearest_even]. rewrite Hs. cbn [shr_record_of_loc shr_m].
  destruct (Z.leb_spec (d - 53) (1024 - 53)); [done|lia].
Qed.

Lemma int_gas z : 0 <= z < INT_MAX ->
  valid_binary 53 1024 (double_of_Z z) = true /\ gas_amount (double_of_Z z) /\ trunc_double (double_of_Z z) = z.
Proof.
  unfold INT_MAX. intros Hz. destruct (Z.eq_dec z 0) as [->|Hnz]; [done|].
  destruct (double_exact z) as (m & e & -> & He & Vm & Hm & He'); [lia|].
  assert (Dm : Zpos (digits2_pos m) = 53) by (apply digits_unique; lia). split_and!.
  - cbn. unfold bounded, canonical_mantissa, fexp, emin. rewrite Dm. apply andb_true_intro. split; [apply Z.eqb_eq; lia|apply Z.leb_le; lia].
  - cbn [gas_amount]. unfold INT_MAX. replace (Z.max 0 e) with 0 by lia. replace (Z.max 0 (- e)) with (- e) by lia.
    rewrite Vm. assert (0 < 2 ^ (- e)) by (apply Z.pow_pos_nonneg; lia). nia.
  - cbn [trunc_double]. destruct (Z.leb_spec 0 e) as [H0|H0].
    + replace e with 0 in * by lia. change (2 ^ (- 0)) with 1 in Vm. change (2 ^ 0) with 1. lia.
    + rewrite Vm. apply Z.div_mul. assert (0 < 2 ^ (- e)) by (apply Z.pow_pos_nonneg; lia). lia.
Qed.

Lemma le_zero n : 0 <= n < 2 ^ 53 -> SFleb (double_of_Z n) (double_of_Z 0) = (n =? 0).
Proof.
  intros Hn. destruct (Z.eqb_spec n 0) as [->|Hnz]; [done|].
  destruct (double_exact n) as (m & e & -> & _); [lia|]. done.
Qed.

(** ** What is charged *)

Section Charges.
Context {H : Type} {codec : V8Codec} {engine : V8Operators H}.

(** No exception is pending, [n] more units of gas and [c] more calls fit their
    counters, and the memory is within its limit. *)
Record room (n c : Z) (st : State H) : Prop := mkRoom {
  room_exception : exception st = None;
  room_gas : 0 <= gasUsed (sbx st) /\ gasUsed (sbx st) + n <= SIZE_MAX;
  room_count : 0 <= instr_count (sbx st) /\ instr_count (sbx st) + c <= INT_MAX;
  room_memory : MemoryUsage st <= memLimit (sbx st) }.

(** Exactly [n] units were charged in [c] calls, and nothing else happened. *)
Definition spent (n c : Z) (st st' : State H) : Prop :=
  exists v, st' = set_retval v (set_sbx (set_count (instr_count (sbx st) + c)
    (set_gasUsed (gasUsed (sbx st) + n) (sbx st))) st).

Lemma spent_nothing st : spent 0 0 st st.
Proof. exists (retval st). destruct st as [e r so h nx t [a j g gl ml ic] ho]. cbn. by rewrite !Z.add_0_r. Qed.

Lemma spent_trans n c n' c' st1 st2 st3 :
  spent n c st1 st2 -> spent n' c' st2 st3 -> spent (n + n') (c + c') st1 st3.
Proof.
  intros [v ->] [v' ->]. exists v'. destruct st1 as [e r so h nx t [a j g gl ml ic] ho]. cbn. by rewrite <- !Z.add_assoc.
Qed.

Lemma incr_spent n n' c' st :
  0 <= n < INT_MAX -> 0 <= n' -> 0 <= c' -> room (n + n') (1 + c') st ->
  exists v st', incr (NumberOfInt n) st = Some (Some v, st') /\ spent n 1 st st' /\ room n' c' st'.
Proof.
  intros Hn Hn' Hc' [He Hg Hc Hm]. destruct (int_gas n Hn) as (Hv & Hga & Ht). unfold incr, NumberOfInt.
  rewrite (incr_checks (double_of_Z n)) by done. rewrite (proj2 (incr_guard_iff _ Hv) Hga), Ht.
  rewrite incr_tail by (done || (unfold counters_ok; lia)). cbn [base.mbind option_bind].
  assert (Emet : exists v, metered n st = set_retval v (set_sbx (set_count (instr_count (sbx st) + 1)
    (set_gasUsed (gasUsed (sbx st) + n) (sbx st))) st)).
  { unfold metered. destruct (Z.leb_spec (gasUsed (sbx st) + n) SIZE_MAX); [|lia]. eexists. unfold after_mem_check.
    replace (MemoryUsage _ >? memLimit _) with false; [by rewrite andb_false_r|]. symmetry. rewrite Z.gtb_ltb. apply Z.ltb_ge.
    destruct st as [? ? ? ? ? ? [] ?]. exact Hm. }
  destruct Emet as [v Emet]. rewrite Emet. clear Emet.
  destruct st as [e r so h nx t [a j g gl ml ic] ho]. cbn in He. subst e. eexists _, _. split; [reflexivity|].
  split; [by exists v|]. cbn in Hg, Hc. split; [done|cbn; lia|cbn; lia|exact Hm].
Qed.

Definition size (v : Value) : Z := match v with JsString s => Z.of_nat (length s) | _ => 0 end.

Lemma operand_gas_string s (st : State H) :
  Z.of_nat (length s) < INT_MAX -> operand_gas (JsString s) st = Some (Some (NumberOfInt (size (JsString s))), st).
Proof.
  unfold INT_MAX. intros Hs. unfold operand_gas, string_length, condition, operator, jbind, jret, NumberOfInt, size.
  cbn [nullish plain_text pure_op base.mbind option_bind]. rewrite le_zero by lia.
  destruct (Z.eqb_spec (Z.of_nat (length s)) 0) as [->|]; done.
Qed.

(** The operator of the language behind each token; [==] and [!=] are the
    strict comparisons. *)
Definition token_table : list (string * binop) :=
  [ ("+", OAdd); ("-", OSub); ("*", OMul); ("/", ODiv); ("%", ORem); ("**", OPow);
    ("|", OOr); ("&", OAnd); ("^", OXor); (">>", OShr); (">>>", OUShr); ("<<", OShl);
    ("==", OStrictEq); ("!=", OStrictNe); ("===", OStrictEq); ("!==", OStrictNe);
    (">", OGt); (">=", OGe); ("<", OLt); ("<=", OLe) ]%string.

Definition is_comparison (o : binop) : bool :=
  match o with OStrictEq | OStrictNe | OGt | OGe | OLt | OLe => true | _ => false end.

Definition is_addition (o : binop) : bool := match o with OAdd => true | _ => false end.

(** The price of an operator on [l] and [r] with the result [v]. *)
Definition op_gas (o : binop) (l r v : Value) : Z :=
  (if IsString l && is_comparison o then size l + size r else 0) + (3 + (if is_addition o then size v else 0)).

Definition op_calls (o : binop) (l v : Value) : Z :=
  (if IsString l && is_comparison o then 2 else 0) + (1 + (if is_addition o && IsString v then 1 else 0)).

(** What the switch and the first test make of the tokens of the table. *)
Lemma token_cases op o : (op, o) ∈ token_table ->
  compares op = is_comparison o /\ String.eqb op "+" = is_addition o /\
  (if is_addition o then o = OAdd else op_case op = Some o).
Proof.
  intros Hin. unfold token_table in Hin.
  repeat (apply elem_of_cons in Hin as [[= -> ->]|Hin]; [done|]). by apply elem_of_nil in Hin.
Qed.

Lemma text_size_nonneg v : 0 <= size v.
Proof. destruct v; cbn; lia. Qed.

Lemma op_gas_parts o (v : Value) :
  0 <= 3 + (if is_addition o then size v else 0) /\ 0 <= 1 + (if is_addition o && IsString v then 1 else 0).
Proof. assert (H0 := text_size_nonneg v). destruct (is_addition o), (IsString v); cbn; lia. Qed.

(** The charge for the lengths of two strings that are compared. *)
Lemma compare_spent o l r v st :
  IsString l = IsString r -> size l < INT_MAX -> size r < INT_MAX -> room (op_gas o l r v) (op_calls o l v) st ->
  exists u st1, (if (IsString l || IsString r) && is_comparison o
       then jbind (operand_gas l) (fun g => jbind (incr g) (fun _ => jbind (operand_gas r) (fun g => incr g)))
       else jret Undefined) st = Some (Some u, st1) /\
    spent (if IsString l && is_comparison o then size l + size r else 0) (if IsString l && is_comparison o then 2 else 0) st st1 /\
    room (3 + (if is_addition o then size v else 0)) (1 + (if is_addition o && IsString v then 1 else 0)) st1.
Proof.
  intros Hlr Hl Hr Hroom. assert (Hp := op_gas_parts o v). unfold op_gas, op_calls in Hroom. rewrite <- Hlr, orb_diag.
  destruct (IsString l && is_comparison o) eqn:Ec.
  - apply andb_prop in Ec as [El _]. rewrite El in Hlr. destruct l as [| | | |sl| |]; try done. destruct r as [| | | |sr| |]; try done.
    unfold jbind. rewrite operand_gas_string by done. cbn [base.mbind option_bind].
    destruct (incr_spent (size (JsString sl)) (size (JsString sr) + (3 + (if is_addition o then size v else 0)))
      (1 + (1 + (if is_addition o && IsString v then 1 else 0))) st) as (v1 & st1 & -> & S1 & R1);
      [split; [apply text_size_nonneg|done]|assert (H0 := text_size_nonneg (JsString sr)); lia|lia| |].
    { destruct Hroom as [? ? ? ?]. split; [done|lia|lia|done]. }
    cbn [base.mbind option_bind]. rewrite operand_gas_string by done. cbn [base.mbind option_bind].
    destruct (incr_spent (size (JsString sr)) (3 + (if is_addition o then size v else 0))
      (1 + (if is_addition o && IsString v then 1 else 0)) st1) as (v2 & st2 & -> & S2 & R2);
      [split; [apply text_size_nonneg|done]|lia|lia|done|].
    exists v2, st2. split; [done|]. split; [exact (spent_trans _ _ _ _ _ _ _ S1 S2)|done].
  - exists Undefined, st. split; [done|]. split; [apply spent_nothing|]. by rewrite !Z.add_0_l in Hroom.
Qed.

Lemma binary_op_spec op o l r v st :
  (op, o) ∈ token_table -> pure_op o l r = Some v -> IsString l = IsString r ->
  size l < INT_MAX -> size r < INT_MAX -> size v < INT_MAX -> room (op_gas o l r v) (op_calls o l v) st ->
  exists st', _IOSTBinaryOp l r op st = Some (Some v, st') /\ spent (op_gas o l r v) (op_calls o l v) st st'.
Proof.
  intros (Ec & Ea & Eo)%token_cases Hv Hlr Hl Hr Hsv Hroom. unfold _IOSTBinaryOp. rewrite Ec, Ea. unfold jbind at 1.
  destruct (compare_spent o l r v st Hlr Hl Hr Hroom) as (u & st1 & -> & S1 & R1). cbn [base.mbind option_bind].
  unfold jbind at 1. assert (Hp := op_gas_parts o v). assert (Hv0 := text_size_nonneg v).
  destruct (incr_spent 3 (if is_addition o then size v else 0) (if is_addition o && IsString v then 1 else 0) st1)
    as (v2 & st2 & -> & S2 & R2); [done|destruct (is_addition o); lia|destruct (is_addition o && IsString v); done|exact R1|].
  cbn [base.mbind option_bind]. unfold op_gas, op_calls. destruct (is_addition o) eqn:Ep.
  - subst o. unfold operator, jbind, jret. rewrite Hv. cbn [base.mbind option_bind andb].
    destruct v as [| | | |s| |]; cbn [IsString andb size] in *;
      try (exists st2; split; [done|]; exact (spent_trans _ _ _ _ _ _ _ S1 S2)).
    destruct (incr_spent (Z.of_nat (length s)) 0 0 st2) as (v3 & st3 & -> & S3 & _); [lia|done|done|by rewrite !Z.add_0_r|].
    exists st3. split; [done|]. exact (spent_trans _ _ _ _ _ _ _ S1 (spent_trans _ _ _ _ _ _ _ S2 S3)).
  - rewrite Eo. unfold operator, jret. rewrite Hv. exists st2. split; [done|]. exact (spent_trans _ _ _ _ _ _ _ S1 S2).
Qed.

(** An operator that is left to V8, where no length is charged first: the 3
    units, then V8's own operator, and the length of the string an addition
    gave. *)
Definition engine_op (op : string) (o : binop) (l r : Value) (st : State H) : Prop :=
  exists st1, spent 3 1 st st1 /\
    (o <> OAdd -> _IOSTBinaryOp l r op st = Some (finish (Operator o l r st1))) /\
    (forall v st2, o = OAdd -> finish (Operator o l r st1) = (Some v, st2) ->
       size v < INT_MAX -> room (size v) 1 st2 ->
       exists st3, _IOSTBinaryOp l r op st = Some (Some v, st3) /\
         spent (size v) (if IsString v then 1 else 0) st2 st3).

Lemma engine_op_spec op o l r st :
  (op, o) ∈ token_table -> pure_op o l r = None ->
  (IsString l || IsString r) && is_comparison o = false -> room 3 1 st -> engine_op op o l r st.
Proof.
  intros (Ec & Ea & Eo)%token_cases Hv Hno Hroom.
  destruct (incr_spent 3 0 0 st) as (u & st1 & E1 & S1 & _); [done|done|done|by rewrite !Z.add_0_r|].
  assert (Eb : _IOSTBinaryOp l r op st =
    (if is_addition o then jbind (operator OAdd l r) (fun v => match v with
       | JsString s => jbind (incr (NumberOfInt (Z.of_nat (length s)))) (fun _ => jret v) | _ => jret v end)
     else match op_case op with Some o => operator o l r | None => jret Undefined end) st1).
  { unfold _IOSTBinaryOp. rewrite Ec, Ea, Hno. unfold jbind at 1. cbn [jret base.mbind option_bind].
    unfold jbind at 1. rewrite E1. reflexivity. }
  exists st1. rewrite Eb. split; [done|]. destruct (is_addition o) eqn:Ep.
  - subst o. split; [done|]. intros v st2 _ Ef Hs Hr2. unfold operator, jbind. rewrite Hv. unfold in_v8.
    rewrite Ef. cbn [base.mbind option_bind].
    destruct v as [| | | |s| |]; try (exists st2; split; [done|apply spent_nothing]).
    cbn [size IsString] in *. destruct (incr_spent (Z.of_nat (length s)) 0 0 st2) as (v3 & st3 & -> & S3 & _);
      [lia|done|done|by rewrite !Z.add_0_r|]. by exists st3.
  - rewrite Eo. split; [|by intros v st2 ->]. intros _. unfold operator. by rewrite Hv.
Qed.

(** C26: The operators that the gas injector rewrites are exactly the tokens of
    the table, and for each of them [_IOSTBinaryOp] computes the operator the
    table names ([==] and [!=] are the strict comparisons) and charges exactly
    3, the lengths of both strings when it compares two and the length of the
    string an addition makes. Where no conversion runs, on two strings, on two
    numbers or for strict equality without a string on one side only, it
    returns what the operator of the language gives, and gas and calls that fit
    their counters never make it fail. Everything else, but a comparison with a
    string, is charged its 3 units and then answered by V8's operator on the
    same operands, in the same order, with the length of a resulting string
    charged for an addition. *)
Theorem operators_metered (op : string) (o : binop) (l r : Value) (st : State H) :
  (op, o) ∈ token_table ->
  Operators.ops = map fst token_table /\
  (forall v, pure_op o l r = Some v -> IsString l = IsString r ->
     size l < INT_MAX -> size r < INT_MAX -> size v < INT_MAX -> room (op_gas o l r v) (op_calls o l v) st ->
     exists st', _IOSTBinaryOp l r op st = Some (Some v, st') /\ spent (op_gas o l r v) (op_calls o l v) st st') /\
  (pure_op o l r = None -> (IsString l || IsString r) && is_comparison o = false -> room 3 1 st ->
     engine_op op o l r st).
Proof.
  intros Hin. split; [reflexivity|]. split; [intros v; by apply binary_op_spec|by apply engine_op_spec].
Qed.

(** ** Templates and spread elements *)

Fixpoint interleave (strings keys : list jsstring) : jsstring :=
  match strings with
  | [] => []
  | [last] => last
  | s :: strings' => s ++ default [] (head keys) ++ interleave strings' (tail keys)
  end.

Lemma template_loop_spec strings keys res st n c :
  length strings = S (length keys) -> 0 <= n -> 0 <= c ->
  room (8 * Z.of_nat (length keys) + n) (Z.of_nat (length keys) + c) st ->
  exists st', template_loop strings (map JsString keys) res st = Some (Some (res ++ interleave strings keys), st') /\
    spent (8 * Z.of_nat (length keys)) (Z.of_nat (length keys)) st st'.
Proof.
  revert keys res st. induction strings as [|s strings IH]; intros keys res st Hl Hn Hc Hr; [done|].
  destruct keys as [|k keys]; cbn [length] in Hl.
  - destruct strings; [|done]. exists st. split; [done|apply spent_nothing].
  - destruct strings as [|s' strings]; [done|]. cbn [length] in Hr.
    change (template_loop (s :: s' :: strings) (map JsString (k :: keys)) res) with
      (jbind (incr (NumberOfInt 8)) (fun _ => jbind (text_of (JsString k)) (fun k =>
        template_loop (s' :: strings) (map JsString keys) (res ++ s ++ k)))).
    unfold jbind. destruct (incr_spent 8 (8 * Z.of_nat (length keys) + n) (Z.of_nat (length keys) + c) st)
      as (v & st1 & -> & S1 & R1); [done|lia|lia| |].
    { destruct Hr as [? ? ? ?]. split; [done|lia|lia|done]. }
    cbn [base.mbind option_bind text_of plain_text jret].
    destruct (IH keys (res ++ s ++ k) st1 ltac:(cbn [length] in *; lia) Hn Hc R1) as (st2 & -> & S2). exists st2. split.
    + do 3 f_equal. rewrite <- !app_assoc. done.
    + replace (8 * Z.of_nat (length (k :: keys))) with (8 + 8 * Z.of_nat (length keys)) by (cbn [length]; lia).
      replace (Z.of_nat (length (k :: keys))) with (1 + Z.of_nat (length keys)) by (cbn [length]; lia).
      exact (spent_trans _ _ _ _ _ _ _ S1 S2).
Qed.

(** A template with strings to fill in is the text, at 4 units and 8 for each of
    them, whatever its length; a spread string is charged by its length. *)
Theorem templates_and_spreads_metered (strings keys : list jsstring) (s : jsstring) (st : State H) :
  length strings = S (length keys) -> Z.of_nat (length s) < INT_MAX ->
  (room (4 + 8 * Z.of_nat (length keys)) (1 + Z.of_nat (length keys)) st ->
    exists st', _IOSTTemplateTag strings (map JsString keys) st = Some (Some (JsString (interleave strings keys)), st') /\
      spent (4 + 8 * Z.of_nat (length keys)) (1 + Z.of_nat (length keys)) st st') /\
  (room (Z.of_nat (length s)) 1 st ->
    exists st', _IOSTSpreadElement (JsString s) st = Some (Some (JsString s), st') /\
      spent (Z.of_nat (length s)) (if Nat.eqb (length s) 0 then 0 else 1) st st').
Proof.
  intros Hl Hs. split; intros Hr.
  - unfold _IOSTTemplateTag, jbind.
    destruct (incr_spent 4 (8 * Z.of_nat (length keys)) (Z.of_nat (length keys)) st) as (v & st1 & -> & S1 & R1); [done|lia|lia|done|].
    cbn [base.mbind option_bind].
    destruct (template_loop_spec strings keys [] st1 0 0 Hl) as (st2 & -> & S2); [done|done|by rewrite !Z.add_0_r|].
    exists st2. split; [done|exact (spent_trans _ _ _ _ _ _ _ S1 S2)].
  - unfold _IOSTSpreadElement, jbind, length_prop, condition, operator, jbind, jret, NumberOfInt.
    cbn [nullish pure_op base.mbind option_bind].
    destruct (Nat.eqb_spec (length s) 0) as [E|E].
    + rewrite E. exists st. split; [done|apply spent_nothing].
    + unfold INT_MAX in Hs. destruct (double_exact (Z.of_nat (length s))) as (m & e & Ed & _); [lia|].
      assert (Elt : SFltb (double_of_Z 0) (double_of_Z (Z.of_nat (length s))) = true) by (by rewrite Ed). rewrite Elt.
      destruct (incr_spent (Z.of_nat (length s)) 0 0 st) as (v & st1 & E1 & S1 & _); [unfold INT_MAX; lia|done|done|by rewrite !Z.add_0_r|].
      unfold NumberOfInt in E1. rewrite E1. exists st1. split; [done|exact S1].
Qed.

End Charges.

#[local] Existing Instance latin1.

(** An engine that leaves the state as it is. *)
Definition still : V8Operators unit := {|
  Operator _ _ _ st := st; ToStringLength _ st := st; ToText _ st := st; GetLength _ st := st |}.
#[local] Existing Instance still.

Definition fresh_sandbox : State unit :=
  initial_state (mkSandbox Allocator.new_allocator None 0 1000 100000000 0) tt.

(** [ab] and [c] added: 3 units and 3 for the result. *)
Lemma operators_metered_witness :
  exists st', _IOSTBinaryOp (JsString [97; 98]) (JsString [99]) "+" fresh_sandbox = Some (Some (JsString [97; 98; 99]), st') /\
    spent 6 2 fresh_sandbox st'.
Proof.
  refine (proj1 (proj2 (operators_metered "+" OAdd (JsString [97; 98]) (JsString [99]) fresh_sandbox _))
    (JsString [97; 98; 99]) _ _ _ _ _ _); try reflexivity; [left|].
  split; [reflexivity|split; [discriminate|discriminate]|split; discriminate|discriminate].
Defined.

Lemma templates_and_spreads_metered_witness :
  exists st', _IOSTTemplateTag [[97]; [98]] [JsString [99]] fresh_sandbox = Some (Some (JsString [97; 99; 98]), st').
Proof.
  destruct (templates_and_spreads_metered [[97]; [98]] [[99]] [] fresh_sandbox) as [E _]; [reflexivity|reflexivity|].
  destruct E as (st' & E & _); [|exists st'; exact E].
  split; [reflexivity|split; [discriminate|discriminate]|split; discriminate|discriminate].
Defined.

End VmOps.
