(* ===== verification/Validate.v ===== *)
(** * Checking a contract against its ABI (vm/v8vm/v8/libjs/validate.js)

    [validate] parses the contract and compares the class it exports with the
    ABI sent along with it. Every failed check is an exception, caught at the
    end and returned as text; the caller looks for the text "success". *)

From Stdlib Require Import ZArith Lia SpecFloat.
From stdpp Require Import base strings list.
From S2P Require Import Prelude V8 JsValue.
Local Open Scope Z_scope.

Module Validate.
Export JsValue.

(** ** Exceptions *)

(** An [Error] with its message, or a TypeError of the engine. *)
Inductive exn := JsError (message : jsstring) | TypeError.

Inductive result (A : Type) := Throw (e : exn) | Ok (a : A).
Arguments Throw {A} e.
Arguments Ok {A} a.

Definition bind {A B} (x : result A) (f : A -> result B) : result B :=
  match x with Ok a => f a | Throw e => Throw e end.

Local Notation "'let*' x := a 'in' b" := (bind a (fun x => b))
  (at level 10, x name, a at level 100, b at level 200).
Local Notation "a ';;' b" := (bind a (fun _ => b)) (at level 100, right associativity).

Definition read (o : jsval) (k : string) : result jsval :=
  match get o k with Some v => Ok v | None => Throw TypeError end.

Definition when (b : bool) (e : exn) : result unit := if b then Throw e else Ok tt.

Section Validate.

(** The engine's conversions of a value to a string and, for strings, arrays
    and objects, to a number. *)
Context (toString : jsval -> jsstring) (toNumber : jsval -> spec_float).

(** [v <= k] and [v > k] for a number [k]. *)
Definition number_of (v : jsval) : spec_float :=
  match v with
  | Undef => S754_nan
  | Null => double_of_Z 0
  | Bool b => double_of_Z (if b then 1 else 0)
  | Int z => double_of_Z z
  | Num d => d
  | _ => toNumber v
  end.

Definition le_num (v : jsval) (k : Z) : bool :=
  match v with Int z => z <=? k | _ => SFleb (number_of v) (double_of_Z k) end.
Definition gt_num (v : jsval) (k : Z) : bool :=
  match v with Int z => k <? z | _ => SFltb (double_of_Z k) (number_of v) end.

(** [a === b] for values that are not both objects. *)
Definition strict_eq (a b : jsval) : bool :=
  match a, b with
  | Undef, Undef | Null, Null => true
  | Bool x, Bool y => Bool.eqb x y
  | Int x, Int y => x =? y
  | Num x, Num y => SFeqb x y
  | Str s, Str t => bool_decide (s = t)
  | _, _ => false
  end.

(** ** Names *)

Definition within_chars (lo hi c : Z) : bool := (lo <=? c) && (c <=? hi).

(** [ch >= 'a' && ch <= 'z' || ch >= 'A' && ch <= 'Z' || ch >= '0' && ch <= '9' || ch == '_'] *)
Definition name_char (c : Z) : bool :=
  within_chars 97 122 c || within_chars 65 90 c || within_chars 48 57 c || (c =? 95).

(** [name[0]] *)
Definition first (name : jsval) : jsval :=
  match name with
  | Str (c :: _) => Str [c]
  | Arr (v :: _) => v
  | Obj ps => default Undef (find_prop "0" ps)
  | _ => Undef
  end.

Fixpoint check_chars (s : jsstring) : result unit :=
  match s with
  | [] => Ok tt
  | ch :: s' =>
      when (negb (name_char ch))
        (JsError (str "abi name invalid. abi name contains invalid character " ++ [ch])) ;;
      check_chars s'
  end.

(** The loop over the keys of the name calls [charAt], which only strings
    have. *)
Definition each_char (name : jsval) : result unit :=
  match name with
  | Str s => check_chars s
  | Arr (_ :: _) | Obj (_ :: _) => Throw TypeError
  | _ => Ok tt
  end.

Definition checkAbiNameValid (name : jsval) : result unit :=
  let* len := read name "length" in
  when (le_num len 0 || gt_num len 32)
    (JsError (str "abi name invalid. abi name length should be between 1,32  got " ++ toString name)) ;;
  when (is_str (first name) "_")
    (JsError (str "abi name invalid. abi name shouldn't start with _")) ;;
  each_char name.

(** ** Amount limits *)

Definition is_string (v : jsval) : bool := match v with Str _ => true | _ => false end.

(** The values a [for ... in] loop reads: elements, property values, or the
    characters of a string. *)
Definition items (v : jsval) : list jsval :=
  match v with
  | Arr l => l
  | Obj ps => map snd ps
  | Str s => map (fun c => Str [c]) s
  | _ => []
  end.

Definition check_limit (limit : jsval) : result unit :=
  let* token := read limit "token" in
  when (negb (is_string token))
    (JsError (str "amountLimit invalid. token in amountLimit should be string type. limit = " ++ toString limit)) ;;
  let* val := read limit "val" in
  when (negb (is_string val))
    (JsError (str "amountLimit invalid. val in amountLimit should be string type. limit = " ++ toString limit)).

Fixpoint for_each {A} (f : A -> result unit) (l : list A) : result unit :=
  match l with [] => Ok tt | x :: l' => f x ;; for_each f l' end.

Definition checkAmountLimitValid (amountLimit : jsval) : result unit :=
  for_each check_limit (items amountLimit).

(** ** The export *)

(** [o.k1.k2...type !== t], read from left to right. *)
Fixpoint read_path (o : jsval) (path : list string) : result jsval :=
  match path with [] => Ok o | k :: path' => let* v := read o k in read_path v path' end.

(** A chain of conditions [o.path !== text || ...]: true when one differs; the
    rest is not read then. *)
Fixpoint differs (o : jsval) (tests : list (list string * string)) : result bool :=
  match tests with
  | [] => Ok false
  | (path, text) :: tests' =>
      let* v := read_path o path in
      if negb (is_str v text) then Ok true else differs o tests'
  end.

Definition export_tests : list (list string * string) :=
  [ (["type"], "ExpressionStatement");
    (["expression"; "type"], "AssignmentExpression");
    (["expression"; "operator"], "=");
    (["expression"; "left"; "type"], "MemberExpression");
    (["expression"; "left"; "object"; "type"], "Identifier");
    (["expression"; "left"; "property"; "type"], "Identifier");
    (["expression"; "left"; "object"; "name"], "module");
    (["expression"; "left"; "property"; "name"], "exports");
    (["expression"; "right"; "type"], "Identifier") ]%string.

(** [v[v.length - 1]] *)
Definition last_item (v : jsval) : jsval :=
  match v with Arr l => default Undef (list.last l) | _ => Undef end.

Definition checkExports (ast : jsval) : result jsval :=
  let* ty := read ast "type" in
  let* empty :=
    if negb (is_str ty "Program") then Ok true
    else let* len := read_path ast ["body"; "length"]%string in Ok (le_num len 1) in
  when empty (JsError (str "empty source code.")) ;;
  let* body := read ast "body" in
  let last := last_item body in
  let* bad := differs last export_tests in
  when bad (JsError (str "last expression must be 'module.exports = CLASS_IDENTIFIER;'")) ;;
  read_path last ["expression"; "right"; "name"]%string.

(** ** Methods *)

Definition argument_types : list string := ["string"; "bool"; "number"; "json"]%string.

Definition check_arg (arg : jsval) : result unit :=
  when (negb (existsb (is_str arg) argument_types))
    (JsError (str "args should be one of [" ++ [34] ++ str "string" ++ [34] ++ str ", " ++ [34] ++ str "bool" ++ [34]
      ++ str ", " ++ [34] ++ str "number" ++ [34] ++ str ", " ++ [34] ++ str "json" ++ [34] ++ str "]")).

(** The own properties of [methodMap], the last definition of a name first.
    What it inherits is never an array. *)
Abbreviation methods := (list (jsstring * jsval)).

Fixpoint method_params (name : jsstring) (methodMap : methods) : jsval :=
  match methodMap with
  | [] => Undef
  | (k, params) :: methodMap' => if bool_decide (k = name) then params else method_params name methodMap'
  end.

(** The key a value is used as. *)
Definition key (v : jsval) : jsstring := match v with Str s => s | _ => toString v end.

Definition is_array (v : jsval) : bool := match v with Arr _ => true | _ => false end.

Definition checkOneAbi (methodMap : methods) (a : jsval) : result unit :=
  let* name := read a "name" in
  checkAbiNameValid name ;;
  let* amountLimit := read a "amountLimit" in
  match amountLimit with
  | Undef | Null => Ok tt
  | _ => checkAmountLimitValid amountLimit
  end ;;
  when (is_str name "init") (JsError (str "abi shouldn't contain internal function: init")) ;;
  let params := method_params (key name) methodMap in
  when (negb (is_array params)) (JsError (str "abi not defined in source code: " ++ toString name)) ;;
  let* args := read a "args" in
  let args := if falsy args then Arr [] else args in
  let* n := read args "length" in
  let* np := read params "length" in
  when (negb (strict_eq n np)) (JsError (str "args length not match: " ++ toString name)) ;;
  for_each check_arg (items args).

Definition class_tests : list (list string * string) :=
  [ (["type"], "ClassDeclaration"); (["id"; "type"], "Identifier") ]%string.

Definition method_tests : list (list string * string) :=
  [ (["type"], "MethodDefinition"); (["key"; "type"], "Identifier");
    (["value"; "type"], "FunctionExpression") ]%string.

(** [for (x of v)]: arrays and strings can be iterated. *)
Definition iterate (v : jsval) : result (list jsval) :=
  match v with Arr l => Ok l | Str s => Ok (items (Str s)) | _ => Throw TypeError end.

Fixpoint collect (members : list jsval) (methodMap : methods) : result methods :=
  match members with
  | [] => Ok methodMap
  | m :: members' =>
      let* skip := differs m method_tests in
      if skip then collect members' methodMap
      else
        let* name := read_path m ["key"; "name"]%string in
        when (is_str name "constructor")
          (JsError (str "smart contract class shouldn't contain constructor method!!")) ;;
        let* params := read_path m ["value"; "params"]%string in
        collect members' ((key name, params) :: methodMap)
  end.

Definition checkOneClass (node abi cls : jsval) : result bool :=
  let* other := differs node class_tests in
  if other then Ok false
  else
    let* name := read_path node ["id"; "name"]%string in
    if negb (strict_eq name cls) then Ok false
    else
      let* ty := read_path node ["body"; "type"]%string in
      if negb (is_str ty "ClassBody") then Ok false
      else
        let* body := read_path node ["body"; "body"]%string in
        let* members := iterate body in
        let* methodMap := collect members [] in
        when (match method_params (str "init") methodMap with Undef | Null => true | _ => false end)
          (JsError (str "init not found!")) ;;
        let* entries := iterate abi in
        for_each (checkOneAbi methodMap) entries ;;
        Ok true.

Fixpoint check_classes (nodes : list jsval) (abi cls : jsval) : result unit :=
  match nodes with
  | [] => Throw (JsError (str "abi not match your source code."))
  | node :: nodes' =>
      let* found := checkOneClass node abi cls in
      if found then Ok tt else check_classes nodes' abi cls
  end.

Definition checkAbi (body abi cls : jsval) : result unit :=
  let* nodes := iterate body in
  check_classes nodes abi cls.

(** [err.toString()]; what follows the colon of a TypeError is up to the
    engine. *)
Context (typeErrorMessage : jsstring).

Definition exn_text (e : exn) : jsstring :=
  match e with
  | JsError message => str "Error: " ++ message
  | TypeError => str "TypeError: " ++ typeErrorMessage
  end.

(** [esprima.parseScript] throws outside of the [try]: [None]. *)
Context (parseScript : jsstring -> option jsval).

Definition validate (source : jsstring) (abi : jsval) : option jsstring :=
  ast ← parseScript source;
  Some match (let* cls := checkExports ast in
              let* body := read ast "body" in
              checkAbi body abi cls) with
       | Throw err => exn_text err
       | Ok _ => str "success"
       end.

End Validate.

(** ** What a valid contract is *)

Definition all_text (o : jsval) (tests : list (list string * string)) : Prop :=
  Forall (fun t => read_path o t.1 = Ok (Str (str t.2))) tests.

(** The trees of the parser: the fields that go with a node's type are there. *)
Definition member_shaped (m : jsval) : Prop :=
  exists b, differs m method_tests = Ok b /\
    (b = false -> exists name params, read_path m ["key"; "name"]%string = Ok (Str name) /\
       read_path m ["value"; "params"]%string = Ok (Arr params)).

Definition statement_shaped (node : jsval) : Prop :=
  exists b, differs node class_tests = Ok b /\
    (b = false -> exists name members, read_path node ["id"; "name"]%string = Ok (Str name) /\
       read_path node ["body"; "type"]%string = Ok (Str (str "ClassBody")) /\
       read_path node ["body"; "body"]%string = Ok (Arr members) /\ Forall member_shaped members).

Definition program_shaped (ast : jsval) (body : list jsval) : Prop :=
  get ast "type" = Some (Str (str "Program")) /\ get ast "body" = Some (Arr body) /\
  Forall statement_shaped body /\
  (forall s, list.last body = Some s -> exists b, differs s export_tests = Ok b /\
     (b = false -> exists cls, read_path s ["expression"; "right"; "name"]%string = Ok (Str cls))).

(** The ABI as Go prints it: a name that is a string or left out. *)
Definition entry_shaped (a : jsval) : Prop :=
  get a "name" = Some Undef \/ exists s, get a "name" = Some (Str s).

(** The methods of a class body, in the order of the source. *)
Definition method_of (m : jsval) : option (jsstring * jsval) :=
  match differs m method_tests, read_path m ["key"; "name"]%string, read_path m ["value"; "params"]%string with
  | Ok false, Ok (Str name), Ok params => Some (name, params)
  | _, _, _ => None
  end.

Definition methods_of (members : list jsval) : list (jsstring * jsval) := omap method_of members.

(** The parameters of the last definition of a name. *)
Definition params_of (name : jsstring) (members : list jsval) : jsval :=
  method_params name (reverse (methods_of members)).

Definition name_letter (c : Z) : Prop :=
  97 <= c <= 122 \/ 65 <= c <= 90 \/ 48 <= c <= 57 \/ c = 95.

Definition valid_name (s : jsstring) : Prop :=
  1 <= Z.of_nat (length s) <= 32 /\ head s <> Some 95 /\ Forall name_letter s.

Definition valid_limit (l : jsval) : Prop :=
  (exists t, get l "token" = Some (Str t)) /\ (exists v, get l "val" = Some (Str v)).

Definition valid_args (a : jsval) (params : list jsval) : Prop :=
  exists v, get a "args" = Some v /\
    (falsy v = true /\ params = [] \/
     exists args, v = Arr args /\ length args = length params /\
       Forall (fun arg => exists t, In t argument_types /\ arg = Str (str t)) args).

(** An entry of the ABI that fits the class. *)
Definition valid_entry (members : list jsval) (a : jsval) : Prop :=
  exists name params, get a "name" = Some (Str name) /\ valid_name name /\ name <> str "init" /\
    (exists v, get a "amountLimit" = Some v /\ (v = Undef \/ v = Null \/ Forall valid_limit (items v))) /\
    params_of name members = Arr params /\ valid_args a params.

Definition exports_class (body : list jsval) (cls : jsstring) : Prop :=
  2 <= Z.of_nat (length body) /\ exists s, list.last body = Some s /\ all_text s export_tests /\
    read_path s ["expression"; "right"; "name"]%string = Ok (Str cls).

Definition declares_class (node : jsval) (cls : jsstring) (members : list jsval) : Prop :=
  all_text node class_tests /\ read_path node ["id"; "name"]%string = Ok (Str cls) /\
  read_path node ["body"; "body"]%string = Ok (Arr members).

(** The first class of the exported name has no constructor, has an [init], and
    every entry of the ABI fits it. *)
Definition accepts (body entries : list jsval) : Prop :=
  exists cls before node after members,
    exports_class body cls /\ body = before ++ node :: after /\
    Forall (fun n => forall ms, ~ declares_class n cls ms) before /\ declares_class node cls members /\
    ~ In (str "constructor") (map fst (methods_of members)) /\ (exists ps, params_of (str "init") members = Arr ps) /\
    Forall (valid_entry members) entries.

(** ** Running the checks *)

Lemma when_ok b e x : when b e = Ok x <-> b = false.
Proof. destruct x. by destruct b. Qed.

Lemma bind_ok {A B} (x : result A) (f : A -> result B) b :
  bind x f = Ok b <-> exists a, x = Ok a /\ f a = Ok b.
Proof. destruct x; cbn; split; [done|by intros (? & ? & _)|by eauto|by intros (? & [= <-] & ?)]. Qed.

Lemma read_ok o k v : read o k = Ok v <-> get o k = Some v.
Proof. unfold read. destruct (get o k); split; congruence. Qed.

Lemma differs_false o tests : differs o tests = Ok false <-> all_text o tests.
Proof.
  unfold all_text. induction tests as [|[p t] tests IH]; [cbn; split; [by constructor|done]|].
  cbn [differs]. rewrite bind_ok, Forall_cons, <- IH. cbn [fst snd]. split.
  - intros (v & Hv & H). destruct (is_str v t) eqn:E; [|done]. apply is_str_spec in E as ->. by split.
  - intros [Hv H]. exists (Str (str t)). split; [done|].
    assert (E : is_str (Str (str t)) t = true) by by apply is_str_spec. by rewrite E.
Qed.

Lemma for_each_ok {A} (f : A -> result unit) l u : for_each f l = Ok u <-> Forall (fun x => f x = Ok tt) l.
Proof.
  destruct u. induction l as [|x l IH]; [done|]. cbn [for_each]. rewrite bind_ok, Forall_cons, <- IH. split.
  - intros ([] & ? & ?). done.
  - intros [? ?]. by exists tt.
Qed.

Lemma name_char_spec c : name_char c = true <-> name_letter c.
Proof. unfold name_char, within_chars, name_letter. lia. Qed.

Lemma check_chars_ok s u : check_chars s = Ok u <-> Forall name_letter s.
Proof.
  destruct u. induction s as [|c s IH]; [done|]. cbn [check_chars].
  rewrite bind_ok, Forall_cons, <- IH, <- name_char_spec. split.
  - intros ([] & H%when_ok & ?). by destruct (name_char c).
  - intros [-> ?]. by exists tt.
Qed.

Section Proofs.
Context (toString : jsval -> jsstring) (toNumber : jsval -> spec_float).

Lemma name_ok s u : checkAbiNameValid toString toNumber (Str s) = Ok u <-> valid_name s.
Proof.
  unfold checkAbiNameValid, valid_name. cbn [read get]. cbn -[when is_str first each_char str]. rewrite bind_ok.
  split.
  - intros ([] & H1%when_ok & H2). apply bind_ok in H2 as ([] & H2%when_ok & H3%check_chars_ok).
    split_and!; [lia..| |done]. intros E. destruct s as [|c s]; [done|]. injection E as ->. by vm_compute in H2.
  - intros (H1 & H2 & H3). exists tt. split; [apply when_ok; lia|]. apply bind_ok. exists tt.
    split; [|by destruct u; apply check_chars_ok]. apply when_ok. destruct s as [|c s]; [cbn in H1; lia|].
    destruct (is_str _ "_") eqn:E; [|done]. apply is_str_spec in E. injection E as ->. done.
Qed.

Lemma limits_ok v u : checkAmountLimitValid toString v = Ok u <-> Forall valid_limit (items v).
Proof.
  unfold checkAmountLimitValid. rewrite for_each_ok. apply Forall_iff. intros l. unfold check_limit, valid_limit.
  rewrite bind_ok. split.
  - intros (t & Ht%read_ok & H). apply bind_ok in H as ([] & H1%when_ok & H).
    apply bind_ok in H as (w & Hw%read_ok & H2%when_ok). destruct t; try done. destruct w; try done. by eauto.
  - intros [[t Ht] [w Hw]]. exists (Str t). split; [by apply read_ok|]. apply bind_ok. exists tt. split; [done|].
    apply bind_ok. exists (Str w). split; [by apply read_ok|done].
Qed.

Lemma args_ok args u :
  for_each check_arg args = Ok u <->
  Forall (fun arg => exists t, In t argument_types /\ arg = Str (str t)) args.
Proof.
  rewrite for_each_ok. apply Forall_iff. intros arg. unfold check_arg. rewrite when_ok, negb_false_iff.
  rewrite existsb_exists. split; intros (t & Ht & E); exists t; (split; [done|]); by apply is_str_spec.
Qed.

(** The two conditions on the arguments: their number and their types. *)
Lemma args_fit a params :
  (exists v, get a "args" = Some v /\
     let args := if falsy v then Arr [] else v in
     (exists n, read args "length" = Ok n /\ strict_eq n (Int (Z.of_nat (length params))) = true) /\
     for_each check_arg (items args) = Ok tt) <->
  valid_args a params.
Proof.
  unfold valid_args. split; intros (v & Hv & H); exists v; (split; [done|]).
  - destruct H as [(n & Hn%read_ok & E) H]. destruct (falsy v) eqn:Ef.
    { left. injection Hn as <-. cbn in E. split; [done|]. by destruct params. }
    destruct v as [| | | | |s|l|ps]; try done; try (by injection Hn as <-).
    + destruct s as [|c s]; [done|]. apply args_ok in H. apply Forall_inv in H as (t & Ht & E').
      by repeat destruct Ht as [<-|Ht].
    + right. exists l. injection Hn as <-. cbn [items] in H. apply args_ok in H. split_and!; [done| |done].
      cbn in E. lia.
    + cbn [get] in Hn. injection Hn as Hn. destruct (find_prop "length" ps) as [w|] eqn:El; [|by subst n].
      cbn in Hn. subst w. destruct n; try done. apply args_ok in H. cbn [items] in H.
      rewrite List.Forall_forall in H. destruct (H (Int z)) as (t & _ & [=]).
      apply find_prop_In in El as Hin.
      by apply (in_map snd) in Hin.
  - destruct H as [[Hf ->]|(args & -> & Hl & H)].
    + rewrite Hf. cbn. split; [by eexists|done].
    + cbn [falsy]. cbv zeta. split; [|by apply args_ok].
      exists (Int (Z.of_nat (length args))). split; [done|]. cbn. lia.
Qed.

Lemma limit_ok v :
  (match v with Undef | Null => Ok tt | _ => checkAmountLimitValid toString v end) = Ok tt <->
  v = Undef \/ v = Null \/ Forall valid_limit (items v).
Proof.
  destruct v; try (rewrite limits_ok; split; [by auto|intros [|[|]]; done]); split; auto.
Qed.

Lemma entry_ok members a :
  entry_shaped a ->
  checkOneAbi toString toNumber (reverse (methods_of members)) a = Ok tt <-> valid_entry members a.
Proof.
  intros Hs. unfold checkOneAbi, valid_entry. rewrite bind_ok. split.
  - intros (name & Hn%read_ok & H). destruct Hs as [E|[s E]]; rewrite E in Hn; injection Hn as <-; [discriminate H|].
    apply bind_ok in H as ([] & H1%name_ok & H). apply bind_ok in H as (lim & Hl%read_ok & H).
    apply bind_ok in H as ([] & H2%limit_ok & H). apply bind_ok in H as ([] & H3%when_ok & H).
    cbn [key] in H. fold (params_of s members) in H. apply bind_ok in H as ([] & H4%when_ok & H).
    destruct (params_of s members) as [| | | | | |params|] eqn:Ep; try done.
    exists s, params. do 2 (split; [done|]). split; [|split; [by eauto|split; [done|]]].
    + intros ->. assert (X : is_str (Str (str "init")) "init" = true) by by apply is_str_spec. congruence.
    + apply args_fit. apply bind_ok in H as (v & Hv%read_ok & H). exists v. split; [done|]. cbv zeta in H |- *.
      apply bind_ok in H as (n & Hr & H). apply bind_ok in H as (np & Hnp & H).
      injection Hnp as <-. apply bind_ok in H as ([] & Hw%when_ok%negb_false_iff & H). eauto.
  - intros (s & params & Hn & H1 & Hi & (lim & Hl & H2) & Hp & H3). exists (Str s).
    split; [by apply read_ok|]. apply bind_ok. exists tt. split; [by apply name_ok|].
    apply bind_ok. exists lim. split; [by apply read_ok|]. apply bind_ok. exists tt. split; [by apply limit_ok|].
    apply bind_ok. exists tt. split.
    { apply when_ok. destruct (is_str _ _) eqn:E; [|done]. apply is_str_spec in E. congruence. }
    cbn [key]. fold (params_of s members). rewrite Hp. cbn [is_array negb when bind].
    apply args_fit in H3 as (v & Hv & (n & Hr & Hq) & Hc). apply bind_ok. exists v. split; [by apply read_ok|].
    cbv zeta in *. apply bind_ok. exists n. split; [done|]. apply bind_ok. exists (Int (Z.of_nat (length params))).
    split; [reflexivity|]. by rewrite Hq.
Qed.

(** ** Classes *)

Lemma collect_ok members acc r :
  Forall member_shaped members ->
  collect toString members acc = Ok r <->
  ~ In (str "constructor") (map fst (methods_of members)) /\ r = reverse (methods_of members) ++ acc.
Proof.
  intros HF. revert acc. induction HF as [|m members (b & Hd & Hb) _ IH]; intros acc.
  { cbn. split; [intros [= <-]; by split; [intros []|]|by intros [_ ->]]. }
  cbn [collect]. rewrite Hd. cbn [bind]. unfold methods_of in *. destruct b.
  - rewrite IH. cbn [omap list_omap]. assert (E : method_of m = None) by (unfold method_of; by rewrite Hd). by rewrite E.
  - destruct (Hb eq_refl) as (name & params & Hn & Hp). rewrite Hn, Hp. cbn [bind].
    assert (E : method_of m = Some (name, Arr params)) by (unfold method_of; by rewrite Hd, Hn, Hp).
    cbn [omap list_omap]. rewrite E. cbn [map fst In]. rewrite bind_ok, reverse_cons, <- app_assoc. cbn [app]. split.
    + intros ([] & Hc%when_ok & [H1 H2]%IH). split; [|done]. intros [->|]; [|done].
      assert (X : is_str (Str (str "constructor")) "constructor" = true) by by apply is_str_spec. congruence.
    + intros [H1 ->]. exists tt. split; [|apply IH; tauto]. apply when_ok.
      destruct (is_str _ _) eqn:X; [|done]. apply is_str_spec in X. injection X as ->. tauto.
Qed.

Lemma params_shape members name :
  Forall member_shaped members ->
  params_of name members = Undef \/ exists ps, params_of name members = Arr ps.
Proof.
  intros HF. unfold params_of. assert (H : Forall (fun kv => exists ps, snd kv = Arr ps) (reverse (methods_of members))).
  { apply Forall_reverse. induction HF as [|m members (b & Hd & Hb) _ IH]; [constructor|].
    unfold methods_of in *. cbn [omap list_omap]. destruct (method_of m) as [[n p]|] eqn:E; [|done].
    constructor; [|done]. unfold method_of in E. rewrite Hd in E. destruct b; [done|].
    destruct (Hb eq_refl) as (n' & ps & Hn & Hp). rewrite Hn, Hp in E. injection E as <- <-. by eauto. }
  induction H as [|[k v] ms [ps Hv] _ IH]; [by left|]. cbn. case_bool_decide; [|done]. right. by eauto.
Qed.

Lemma class_ok node cls entries b :
  statement_shaped node -> Forall entry_shaped entries ->
  checkOneClass toString toNumber node (Arr entries) (Str cls) = Ok b <->
  (b = false /\ forall ms, ~ declares_class node cls ms) \/
  (b = true /\ exists members, declares_class node cls members /\
     ~ In (str "constructor") (map fst (methods_of members)) /\
     (exists ps, params_of (str "init") members = Arr ps) /\ Forall (valid_entry members) entries).
Proof.
  intros (d & Hd & Hs) HE. unfold checkOneClass. rewrite Hd. cbn [bind]. destruct d.
  { split; [intros [= <-]|intros [[-> _]|(-> & ms & (Ht & _) & _)]; [done|]].
    - left. split; [done|]. intros ms (Ht & _). apply differs_false in Ht. congruence.
    - apply differs_false in Ht. congruence. }
  destruct (Hs eq_refl) as (name & members & Hn & Ht & Hb & HM). rewrite Hn. cbn [bind strict_eq].
  destruct (bool_decide_reflect (name = cls)) as [->|Hne]; cbn [negb].
  2:{ split; [intros [= <-]|intros [[-> _]|(-> & ms & (_ & Hc & _) & _)]; [done|congruence]].
      left. split; [done|]. intros ms (_ & Hc & _). congruence. }
  rewrite Ht. cbn [bind]. assert (X : is_str (Str (str "ClassBody")) "ClassBody" = true) by by apply is_str_spec.
  rewrite X, Hb. cbn [bind negb iterate].
  assert (HD : declares_class node cls members) by (split_and!; [by apply differs_false|done..]).
  assert (HU : forall ms, declares_class node cls ms -> ms = members) by (intros ms (_ & _ & E); congruence).
  rewrite bind_ok. split.
  - intros (mm & [Hc ->]%collect_ok & H); [|done]. rewrite app_nil_r in H.
    apply bind_ok in H as ([] & Hi%when_ok & H). apply bind_ok in H as ([] & HF%for_each_ok & [= <-]).
    right. split; [done|]. exists members. split_and!; [apply HD..|done| |].
    + fold (params_of (str "init") members) in Hi. destruct (params_shape members (str "init") HM) as [E|]; [|done].
      by rewrite E in Hi.
    + rewrite List.Forall_forall in *. intros a Ha. apply entry_ok; auto.
  - intros [[-> HN]|(-> & ms & HD' & Hc & [ps Hps] & HV)]; [by destruct (HN members)|].
    apply HU in HD' as ->. eexists. split; [by apply collect_ok|]. rewrite app_nil_r.
    apply bind_ok. exists tt. split.
    { fold (params_of (str "init") members). by rewrite Hps. }
    apply bind_ok. exists tt. split; [|done]. apply for_each_ok. rewrite List.Forall_forall in *.
    intros a Ha. apply entry_ok; auto.
Qed.

Lemma classes_ok nodes cls entries :
  Forall statement_shaped nodes -> Forall entry_shaped entries ->
  check_classes toString toNumber nodes (Arr entries) (Str cls) = Ok tt <->
  exists before node after members, nodes = before ++ node :: after /\
    Forall (fun n => forall ms, ~ declares_class n cls ms) before /\ declares_class node cls members /\
    ~ In (str "constructor") (map fst (methods_of members)) /\
    (exists ps, params_of (str "init") members = Arr ps) /\ Forall (valid_entry members) entries.
Proof.
  intros HS HE. induction HS as [|n nodes Hn _ IH].
  { split; [done|]. intros ([|] & ? & ? & ? & [=] & _). }
  cbn [check_classes]. rewrite bind_ok. split.
  - intros (b & Hb & H). apply class_ok in Hb as [[-> HN]|(-> & members & HD & HR)]; [| |done..].
    + apply IH in H as (before & node & after & members & -> & HF & HD). exists (n :: before), node, after, members.
      split; [done|]. split; [by constructor|done].
    + exists [], n, nodes, members. split; [done|]. split; [constructor|]. by split.
  - intros ([|x before] & node & after & members & [= <- ->] & HF & HD & HR).
    + exists true. split; [|done]. apply class_ok; [done..|]. right. by eauto.
    + apply Forall_cons in HF as [HN HF]. exists false. split; [apply class_ok; [done..|]; by left|].
      apply IH. exists before, node, after, members. by split.
Qed.

Lemma exports_ok ast body v :
  program_shaped ast body ->
  checkExports toNumber ast = Ok v <-> exists cls, v = Str cls /\ exports_class body cls.
Proof.
  intros (Ht & Hb & _ & HL). unfold checkExports, exports_class.
  assert (Hp : is_str (Str (str "Program")) "Program" = true) by by apply is_str_spec.
  assert (Hrb : read ast "body" = Ok (Arr body)) by by apply read_ok.
  assert (Hrl : read_path ast ["body"; "length"]%string = Ok (Int (Z.of_nat (length body)))).
  { cbn [read_path]. by rewrite Hrb. }
  rewrite (proj2 (read_ok _ _ _) Ht). cbn [bind]. rewrite Hp, Hrl, Hrb. cbn [negb bind le_num].
  destruct (Z.leb_spec (Z.of_nat (length body)) 1) as [Hlen|Hlen]; cbn [when bind last_item].
  { split; [done|]. intros (cls & _ & ? & _). lia. }
  destruct (list.last body) as [s|] eqn:El.
  2:{ apply last_None in El. subst body. cbn in Hlen. lia. }
  change (default Undef (Some s)) with s. destruct (HL s eq_refl) as (b & Hd & Hcls). rewrite Hd. cbn [bind]. destruct b; cbn [when bind].
  - split; [done|]. intros (cls & _ & _ & s' & [= <-] & Hx & _). apply differs_false in Hx. congruence.
  - destruct (Hcls eq_refl) as [cls Hc]. rewrite Hc. split.
    + intros [= <-]. exists cls. split; [done|]. split; [lia|]. exists s. split_and!; [done|by apply differs_false|done].
    + intros (cls' & -> & _ & s' & [= <-] & _ & E). congruence.
Qed.

End Proofs.

(** C11: the answer of [validate] is "success" exactly for a contract that
    assigns a class to [module.exports] in its last statement, whose first class
    of that name has no constructor and has an [init] method, and whose ABI
    lists methods of that class other than [init], each with a name of 1 to 32
    letters, digits and underscores that does not start with an underscore, as
    many arguments as the method has parameters, argument types out of the four
    known ones, and amount limits made of strings. Every other contract gets the
    text of an error. *)
Theorem validate_success (toString : jsval -> jsstring) (toNumber : jsval -> spec_float)
    (typeErrorMessage : jsstring) (parseScript : jsstring -> option jsval)
    (source : jsstring) (ast : jsval) (body entries : list jsval) :
  parseScript source = Some ast -> program_shaped ast body -> Forall entry_shaped entries ->
  validate toString toNumber typeErrorMessage parseScript source (Arr entries) = Some (str "success")
    <-> accepts body entries.
Proof.
  intros Hps HS HE. unfold validate. rewrite Hps. cbn [mbind option_bind].
  assert (Hx : forall e, exn_text typeErrorMessage e <> str "success") by by intros [].
  transitivity (
    bind (checkExports toNumber ast) (fun cls => bind (read ast "body") (fun b =>
      checkAbi toString toNumber b (Arr entries) cls)) = Ok tt).
  { cbn. destruct (bind _ _) as [e|[]]; split; try done. intros [= E]. by apply Hx in E. }
  pose proof HS as (_ & Hb & HF & _). rewrite bind_ok. unfold read. rewrite Hb. cbn [bind checkAbi iterate]. split.
  - intros (v & Hv & H). apply (exports_ok toNumber ast body v HS) in Hv as (cls & -> & Hex).
    cbn in H. apply classes_ok in H as (before & node & after & members & H); [|done..].
    exists cls, before, node, after, members. by split.
  - intros (cls & before & node & after & members & Hex & H). exists (Str cls). split.
    + apply (exports_ok toNumber ast body _ HS). by exists cls.
    + cbn. apply classes_ok; [done..|]. by exists before, node, after, members.
Qed.

(** ** Witness *)

Definition tree (t : string) (fields : list (string * jsval)) : jsval :=
  Obj (("type"%string, Str (str t)) :: fields).
Definition ident (name : string) : jsval := tree "Identifier" [("name"%string, Str (str name))].
Definition sample_method (name : string) (params : list jsval) : jsval :=
  tree "MethodDefinition" [("key", ident name); ("value", tree "FunctionExpression" [("params", Arr params)])]%string.

(** class C { init() {} f(a) {} } module.exports = C; *)
Definition sample_body : list jsval :=
  [ tree "ClassDeclaration"
      [("id", ident "C"); ("body", tree "ClassBody"
         [("body", Arr [sample_method "init" []; sample_method "f" [ident "a"]])])];
    tree "ExpressionStatement"
      [("expression", tree "AssignmentExpression"
         [("operator", Str (str "="));
          ("left", tree "MemberExpression" [("object", ident "module"); ("property", ident "exports")]);
          ("right", ident "C")])] ]%string.
Definition sample_ast : jsval := tree "Program" [("body"%string, Arr sample_body)].
Definition sample_abi : list jsval :=
  [ Obj [("name", Str (str "f")); ("args", Arr [Str (str "string")])]%string ].

Lemma sample_shaped : program_shaped sample_ast sample_body.
Proof.
  split; [reflexivity|]. split; [reflexivity|]. split.
  - constructor; [|constructor; [|constructor]].
    + exists false. split; [reflexivity|]. intros _.
      exists (str "C"), [sample_method "init" []; sample_method "f" [ident "a"]].
      do 3 (split; [reflexivity|]).
      repeat (constructor; [exists false; split; [reflexivity|]; intros _; by eexists _, _|]). constructor.
    + exists true. split; [reflexivity|done].
  - intros s [= <-]. exists false. split; [reflexivity|]. intros _. by exists (str "C").
Qed.

Lemma validate_success_witness : accepts sample_body sample_abi.
Proof.
  apply (validate_success (fun _ => []) (fun _ => S754_nan) [] (fun _ => Some sample_ast) [] sample_ast).
  - reflexivity.
  - apply sample_shaped.
  - constructor; [|constructor]. right. by exists (str "f").
  - vm_compute. reflexivity.
Defined.

(** A computed name is taken for the name it is computed from, and static
    methods count as methods: class C { init() {} static [f](a) {} } passes. *)
Example computed_method_accepted :
  validate (fun _ => []) (fun _ => S754_nan) [] (fun _ => Some (tree "Program" [("body", Arr
    [ tree "ClassDeclaration"
        [("id", ident "C"); ("body", tree "ClassBody"
           [("body", Arr [sample_method "init" [];
              tree "MethodDefinition" [("key", ident "f"); ("computed", Bool true);
                ("value", tree "FunctionExpression" [("params", Arr [ident "a"])]); ("static", Bool true)]])])];
      default Undef (list.last sample_body) ])]%string)) [] (Arr sample_abi) = Some (str "success").
Proof. vm_compute. reflexivity. Qed.

End Validate.
