(* ===== verification/StorageJs.v ===== *)
(** * The storage object of a contract (vm/v8vm/v8/libjs/storage.js)

    Contracts do not call the native methods themselves: [storage.js] wraps
    them, fills in the RAM payer and parses the two results that are JSON. This
    file puts the wrappers on top of the native methods of [Storage]. *)

From Stdlib Require Import ZArith Lia.
From stdpp Require Import base gmap strings list.
From S2P Require Import Prelude V8 Bridge Storage.
Local Open Scope Z_scope.

Module StorageJs.
Import Storage.

Section StorageJs.
Context {H : Type} {codec : V8Codec} {go : GoStorage H}.

(** [JSON.parse]; [None] is an exception. *)
Context (JSON_parse : Value -> option Value).

(** A call of a method of [new IOSTStorage]; [None] is undefined behaviour. *)
Definition storage_info (args : list Value) : FunctionCallbackInfo :=
  mkInfo args (External PStorage) (External PSandbox).

Definition call (handler : FunctionCallbackInfo -> M H unit) (args : list Value) (st : State H)
    : option (State H) :=
  run (handler (storage_info args)) st.

(** [throw new Error(message)] *)
Definition throw (message : string) (st : State H) : option (State H) :=
  Some (set_exception (Some message) st).

(** A parameter that is not given is undefined. *)
Definition param (args : list Value) (i : nat) : Value := default Undefined (args !! i).

(** [p = ""] *)
Definition no_payer : Value := JsString [].

(** [if (p === undefined) { p = ""; }] *)
Definition payer (p : Value) : Value := if IsUndefined p then no_payer else p.

(** [JSON.parse(...)] of the value a native call returned. *)
Definition parsed (r : option (State H)) : option (State H) :=
  st ← r;
  match exception st with
  | Some _ => Some st
  | None =>
      match JSON_parse (retval st) with
      | Some v => Some (set_retval v st)
      | None => throw "SyntaxError" st
      end
  end.

Lemma parsed_none (r : option (State H)) : parsed r = None <-> r = None.
Proof.
  destruct r as [st|]; [|done]. unfold parsed. cbn.
  by destruct (exception st); [|destruct (JSON_parse (retval st))].
Qed.

Abbreviation JsFunction := (list Value -> State H -> option (State H)).

(** ** simpleStorage *)

Definition js_put : JsFunction := fun args st =>
  let k := param args 0 in let v := param args 1 in let p := param args 2 in
  if negb (IsString v) then throw "storage put must be string" st
  else call IOSTContractStorage_Put [k; v; payer p] st.

Definition js_get : JsFunction := fun args => call IOSTContractStorage_Get [param args 0; no_payer].
Definition js_has : JsFunction := fun args => call IOSTContractStorage_Has [param args 0; no_payer].
Definition js_del : JsFunction := fun args => call IOSTContractStorage_Del [param args 0; no_payer].

(** ** mapStorage *)

Definition js_mapPut : JsFunction := fun args st =>
  let k := param args 0 in let f := param args 1 in let v := param args 2 in let p := param args 3 in
  if negb (IsString v) then throw "storage mapPut must be string" st
  else call IOSTContractStorage_MapPut [k; f; v; payer p] st.

Definition js_mapHas : JsFunction := fun args =>
  call IOSTContractStorage_MapHas [param args 0; param args 1; no_payer].
Definition js_mapGet : JsFunction := fun args =>
  call IOSTContractStorage_MapGet [param args 0; param args 1; no_payer].
Definition js_mapKeys : JsFunction := fun args st =>
  parsed (call IOSTContractStorage_MapKeys [param args 0; no_payer] st).
Definition js_mapLen : JsFunction := fun args => call IOSTContractStorage_MapLen [param args 0; no_payer].
Definition js_mapDel : JsFunction := fun args =>
  call IOSTContractStorage_MapDel [param args 0; param args 1; no_payer].

(** ** globalStorage *)

Definition js_globalGet : JsFunction := fun args =>
  call IOSTContractStorage_GlobalGet [param args 0; param args 1; no_payer].
Definition js_globalHas : JsFunction := fun args =>
  call IOSTContractStorage_GlobalHas [param args 0; param args 1; no_payer].
Definition js_globalMapHas : JsFunction := fun args =>
  call IOSTContractStorage_GlobalMapHas [param args 0; param args 1; param args 2; no_payer].
Definition js_globalMapGet : JsFunction := fun args =>
  call IOSTContractStorage_GlobalMapGet [param args 0; param args 1; param args 2; no_payer].
Definition js_globalMapKeys : JsFunction := fun args st =>
  parsed (call IOSTContractStorage_GlobalMapKeys [param args 0; param args 1; no_payer] st).
Definition js_globalMapLen : JsFunction := fun args =>
  call IOSTContractStorage_GlobalMapLen [param args 0; param args 1; no_payer].

(** The object the module exports. *)
Definition IOSTContractStorage : list (string * JsFunction) :=
  [ ("put", js_put); ("get", js_get); ("has", js_has); ("del", js_del);
    ("mapPut", js_mapPut); ("mapHas", js_mapHas); ("mapGet", js_mapGet);
    ("mapKeys", js_mapKeys); ("mapLen", js_mapLen); ("mapDel", js_mapDel);
    ("globalGet", js_globalGet); ("globalHas", js_globalHas);
    ("globalMapHas", js_globalMapHas); ("globalMapGet", js_globalMapGet);
    ("globalMapKeys", js_globalMapKeys); ("globalMapLen", js_globalMapLen) ].

(** ** What the wrappers promise *)

(** The arguments of the native call. *)
Definition native_args (name : string) (args : list Value) : list Value :=
  match name with
  | "put" => [param args 0; param args 1; payer (param args 2)]
  | "mapPut" => [param args 0; param args 1; param args 2; payer (param args 3)]
  | "get" | "has" | "del" | "mapKeys" | "mapLen" => [param args 0; no_payer]
  | "globalMapHas" | "globalMapGet" => [param args 0; param args 1; param args 2; no_payer]
  | _ => [param args 0; param args 1; no_payer]
  end%string.

Definition returns_json (name : string) : bool :=
  String.eqb name "mapKeys" || String.eqb name "globalMapKeys".

Definition wraps (name : string) (f : JsFunction) (args : list Value) (st : State H) : Prop :=
  exists a st1, storage_api name = Some a /\ api_spec a (storage_info (native_args name args)) st st1 /\
    f args st = (if returns_json name then parsed (Some st1) else Some st1).

(** A call is undefined exactly on the arguments the native method is undefined
    on, and otherwise does what the contract says. *)
Definition wraps_total (name : string) (f : JsFunction) (args : list Value) (st : State H) : Prop :=
  (f args st = None <-> undefined_on name (storage_info (native_args name args))) /\
  (~ undefined_on name (storage_info (native_args name args)) -> wraps name f args st).

(** A call that goes straight to the native method. *)
Lemma wraps_native name f handler args st :
  (name, handler) ∈ InitStorage ->
  heap_wf st -> (forall a l, storage_api name = Some a -> go_ok (api_go a l (host st))) ->
  (f args st = if returns_json name then parsed (call handler (native_args name args) st)
               else call handler (native_args name args) st) ->
  wraps_total name f args st.
Proof.
  intros Hin Hwf Hgo E.
  destruct (storage_contract name handler (storage_info (native_args name args)) Hin eq_refl) as (a & Ha & Hi).
  destruct (Hi st Hwf (fun l => Hgo a l Ha)) as [Hn Hs]. split.
  - rewrite <- Hn, E. destruct (returns_json name); [apply parsed_none|done].
  - intros Hu. destruct (Hs Hu) as (st1 & Hr & Hspec).
    exists a, st1. split_and!; [done..|]. rewrite E. unfold call. by rewrite Hr.
Qed.

(** The wrappers' own check of the value only rejects what the native method
    rejects too. *)
Lemma wraps_throw name f args st msg v a n :
  storage_api name = Some a -> api_arity a = Some n ->
  v ∈ native_args name args -> IsString v = false -> returns_json name = false ->
  f args st = throw msg st -> ~ undefined_on name (storage_info (native_args name args)) ->
  wraps_total name f args st.
Proof.
  intros Ha Hn Hv Hs Hj E Hu. split; [rewrite E; by split|]. intros _. eexists _, _. split; [exact Ha|]. rewrite Hj. split; [|exact E].
  apply api_reject. eapply reject_arg; [exact Hn|exact Hv|]. intros s ->. done.
Qed.

(** No argument before the payer is rejected when the payer is the problem. *)
Lemma undefined_strings n name args i v :
  unchecked_payer n (storage_info (native_args name args)) -> (i < n)%nat ->
  arg (storage_info (native_args name args)) i = v -> IsString v = true.
Proof. intros (_ & Hu & _)%unchecked_payer_inv Hi Hv. by destruct (Hu i v Hi Hv) as (s & -> & _). Qed.

Lemma storage_wraps name f args st :
  (name, f) ∈ IOSTContractStorage -> heap_wf st ->
  (forall a l, storage_api name = Some a -> go_ok (api_go a l (host st))) ->
  wraps_total name f args st.
Proof.
  intros Hin Hwf Hgo. unfold IOSTContractStorage in Hin.
  repeat (apply elem_of_cons in Hin as [[= -> ->]|Hin]); [..|by apply elem_of_nil in Hin].
  1: destruct (IsString (param args 1)) eqn:Hv;
    [|eapply (wraps_throw "put" _ _ _ _ (param args 1)); [done|done|right; left|done|done| |];
      [unfold js_put; by rewrite Hv|
       intros Hu; pose proof (undefined_strings 2 "put" args 1 _ Hu ltac:(lia) eq_refl); cbn in *; congruence]].
  5: destruct (IsString (param args 2)) eqn:Hv;
    [|eapply (wraps_throw "mapPut" _ _ _ _ (param args 2)); [done|done|right; right; left|done|done| |];
      [unfold js_mapPut; by rewrite Hv|
       intros Hu; pose proof (undefined_strings 3 "mapPut" args 2 _ Hu ltac:(lia) eq_refl); cbn in *; congruence]].
  all: eapply wraps_native; [unfold InitStorage; repeat first [left | right]|done..|].
  all: unfold js_put, js_mapPut; rewrite ?Hv; done.
Qed.


(** C27: contract code reaches the undefined behaviour of the native put: with
    short strings for the other arguments, [storage.put] and [storage.mapPut]
    run into it exactly when the payer passed to them is neither undefined nor
    a string, for example a number. *)
Theorem contract_reaches_undefined (args : list Value) (st : State H) :
  heap_wf st ->
  (js_put args st = None <->
   exists k v p, param args 0 = JsString k /\ param args 1 = JsString v /\ param args 2 = p /\
     short k /\ short v /\ p <> Undefined /\ IsString p = false) /\
  (js_mapPut args st = None <->
   exists k f v p, param args 0 = JsString k /\ param args 1 = JsString f /\ param args 2 = JsString v /\
     param args 3 = p /\ short k /\ short f /\ short v /\ p <> Undefined /\ IsString p = false).
Proof.
  intros Hwf. assert (Hpay : forall p, IsString (payer p) = false <-> p <> Undefined /\ IsString p = false).
  { intros []; cbn; naive_solver. }
  unfold js_put, js_mapPut, call. split.
  - destruct (IsString (param args 1)) eqn:Hv; cbn [negb].
    + rewrite (proj1 (put_undefined (storage_info _) st eq_refl Hwf)). split.
      * intros (strs & p & E & Hl & HS & Hp). destruct strs as [|k [|v []]]; try done. injection E as E1 E2 <-.
        apply Hpay in Hp as [? ?]. inversion HS as [|? ? ? HS']. inversion HS'. by exists k, v, (param args 2).
      * intros (k & v & p & E1 & E2 & E3 & ? & ? & ? & ?). exists [k; v], (payer (param args 2)). cbn.
        rewrite E1, E2, E3. split_and!; [done..|by repeat constructor|by apply Hpay].
    + split; [done|]. intros (k & v & p & _ & E & _). by rewrite E in Hv.
  - destruct (IsString (param args 2)) eqn:Hv; cbn [negb].
    + rewrite (proj2 (put_undefined (storage_info _) st eq_refl Hwf)). split.
      * intros (strs & p & E & Hl & HS & Hp). destruct strs as [|k [|f [|v []]]]; try done. injection E as E1 E2 E3 <-.
        apply Hpay in Hp as [? ?]. inversion HS as [|? ? ? HS']. inversion HS' as [|? ? ? HS'']. inversion HS''.
        by exists k, f, v, (param args 3).
      * intros (k & f & v & p & E1 & E2 & E3 & E4 & ? & ? & ? & ? & ?). exists [k; f; v], (payer (param args 3)). cbn.
        rewrite E1, E2, E3, E4. split_and!; [done..|by repeat constructor|by apply Hpay].
    + split; [done|]. intros (k & f & v & p & _ & _ & E & _). by rewrite E in Hv.
Qed.

End StorageJs.

(** ** Witnesses *)

#[local] Existing Instance latin1.
#[local] Existing Instance flat_storage.

Definition key_value : list Value := [JsString [107]; JsString [118]].


Lemma contract_reaches_undefined_witness :
  js_put (key_value ++ [Number (double_of_Z 5)]) start = None.
Proof.
  apply (proj1 (contract_reaches_undefined (key_value ++ [Number (double_of_Z 5)]) start ltac:(by intros i _))).
  exists [107], [118], (Number (double_of_Z 5)). by repeat split.
Defined.

End StorageJs.
