(* ===== verification/Int64.v ===== *)
(** * Integers and numbers of contracts (vm/v8vm/v8/libjs/int64.js, float64.js)

    Contracts calculate amounts with [Int64] and [Float64], two classes that
    keep a [BigNumber] and check its range after every operation. The
    arbitrary-precision library itself (bignumber.js, third-party code) is the
    class [BigNumber]; [BigNumberLaws] is what it does on integers in the
    configuration environment.js loads it with: powers are cut to 50 significant
    digits (POW_PRECISION), reciprocals to 50 decimal places (DECIMAL_PLACES),
    both towards zero (ROUND_DOWN). *)

From Stdlib Require Import ZArith Lia.
From stdpp Require Import base strings list.
From S2P Require Import Prelude.
Local Open Scope Z_scope.

Module Int64.

(** ** The library *)

Class BigNumber (BN : Type) := {
  plus_ : BN -> BN -> BN;
  minus_ : BN -> BN -> BN;
  times_ : BN -> BN -> BN;
  div_ : BN -> BN -> BN;
  idiv_ : BN -> BN -> BN;
  mod_ : BN -> BN -> BN;
  pow_ : BN -> BN -> BN;
  shiftedBy_ : BN -> Z -> BN;
  negated_ : BN -> BN;
  eq_ : BN -> BN -> bool;
  gt_ : BN -> BN -> bool;
  gte_ : BN -> BN -> bool;
  lt_ : BN -> BN -> bool;
  lte_ : BN -> BN -> bool;
  isZero_ : BN -> bool;
  isPositive_ : BN -> bool;
  isNegative_ : BN -> bool;
  isInteger_ : BN -> bool;
  toString_ : BN -> string;
  integer : Z -> BN;            (* new BigNumber('...') of an integer literal *)
  nan : BN;                     (* what the constructor makes of other text *)
}.

(** Far inside the library's exponent range. *)
Definition small (z : Z) : Prop := - 2 ^ 64 <= z <= 2 ^ 64.

(** The 50 digits and 50 decimal places of the configuration. *)
Definition precision : Z := 10 ^ 50.

(** [denotes b z]: the number [b] is the integer [z]. A power of up to 50 digits
    is exact; a longer one is cut to its first 50 digits, still an integer of
    that size, or is infinite beyond the exponent range. With a negative
    exponent the reciprocal is cut to 50 decimal places: a fraction, or zero. *)
Class BigNumberLaws (BN : Type) {big : BigNumber BN} := {
  denotes : BN -> Z -> Prop;
  integer_denotes z : small z -> denotes (integer z) z;
  isInteger_spec b : isInteger_ b = true <-> exists z, denotes b z;
  plus_denotes a b x y : denotes a x -> denotes b y -> small x -> small y -> denotes (plus_ a b) (x + y);
  minus_denotes a b x y : denotes a x -> denotes b y -> small x -> small y -> denotes (minus_ a b) (x - y);
  times_denotes a b x y : denotes a x -> denotes b y -> small x -> small y -> denotes (times_ a b) (x * y);
  idiv_denotes a b x y : denotes a x -> denotes b y -> small x -> small y -> y <> 0 -> denotes (idiv_ a b) (Z.quot x y);
  idiv_zero a b x : denotes a x -> denotes b 0 -> isInteger_ (idiv_ a b) = false;
  mod_denotes a b x y : denotes a x -> denotes b y -> small x -> small y -> y <> 0 -> denotes (mod_ a b) (Z.rem x y);
  mod_zero a b x : denotes a x -> denotes b 0 -> isInteger_ (mod_ a b) = false;
  pow_denotes a b x y : denotes a x -> denotes b y -> small x -> small y -> 0 <= y ->
    Z.abs (x ^ y) < precision -> denotes (pow_ a b) (x ^ y);
  pow_cut a b x y : denotes a x -> denotes b y -> small x -> small y -> 0 <= y ->
    precision <= Z.abs (x ^ y) ->
    isInteger_ (pow_ a b) = false \/ exists z, denotes (pow_ a b) z /\ precision <= 10 * Z.abs z;
  pow_unit a b x y : denotes a x -> denotes b y -> small y -> y < 0 -> Z.abs x = 1 ->
    denotes (pow_ a b) (x ^ (- y));
  pow_zero a b y : denotes a 0 -> denotes b y -> small y -> y < 0 -> isInteger_ (pow_ a b) = false;
  pow_fraction a b x y : denotes a x -> denotes b y -> small x -> small y -> y < 0 -> 2 <= Z.abs x ->
    Z.abs x ^ (- y) <= precision -> isInteger_ (pow_ a b) = false;
  pow_vanishes a b x y : denotes a x -> denotes b y -> small x -> small y -> y < 0 -> 2 <= Z.abs x ->
    precision < Z.abs x ^ (- y) -> denotes (pow_ a b) 0;
  negated_denotes a x : denotes a x -> small x -> denotes (negated_ a) (- x);
  eq_denotes a b x y : denotes a x -> denotes b y -> eq_ a b = (x =? y);
  gt_denotes a b x y : denotes a x -> denotes b y -> gt_ a b = (y <? x);
  gte_denotes a b x y : denotes a x -> denotes b y -> gte_ a b = (y <=? x);
  lt_denotes a b x y : denotes a x -> denotes b y -> lt_ a b = (x <? y);
  lte_denotes a b x y : denotes a x -> denotes b y -> lte_ a b = (x <=? y);
  nan_integer : isInteger_ nan = false;
  nan_gt b : gt_ nan b = false;
  nan_lt b : lt_ nan b = false;
}.

(** ** Results *)

Inductive result (A : Type) := Throw (message : string) | Ok (a : A).
Arguments Throw {A} message.
Arguments Ok {A} a.

Definition bind {A B} (x : result A) (f : A -> result B) : result B :=
  match x with Ok a => f a | Throw e => Throw e end.

Local Notation "'let*' x := a 'in' b" := (bind a (fun x => b))
  (at level 10, x name, a at level 100, b at level 200).
Local Notation "a ';;' b" := (bind a (fun _ => b)) (at level 100, right associativity).

Section Int64.
Context {BN : Type} {big : BigNumber BN}.

Definition MaxInt64 : BN := integer 9223372036854775807.
Definition MinInt64 : BN := integer (-9223372036854775808).

(** ** class Int64 *)

Record Int64 := mkInt64 { number : BN }.

Definition Int64_validate (this : Int64) : result unit :=
  if negb (isInteger_ (number this)) then
    Throw ("Int64: " +:+ toString_ (number this) +:+ " is not an integer")
  else if gt_ (number this) MaxInt64 then
    Throw ("Int64: " +:+ toString_ (number this) +:+ " overflow int64")
  else if lt_ (number this) MinInt64 then
    Throw ("Int64: " +:+ toString_ (number this) +:+ " underflow int64")
  else Ok tt.

(** [new Int64(n)], for an [n] the library has made a number of. *)
Definition new_Int64 (n : BN) : result Int64 :=
  let this := mkInt64 n in Int64_validate this ;; Ok this.

(** An argument: missing, another [Int64], or something [new BigNumber] takes. *)
Inductive argument := Missing (shown : string) | AnInt64 (i : Int64) | Other (n : BN).

Definition Int64_checkArgument (arg : argument) : result Int64 :=
  match arg with
  | Missing shown => Throw ("Int64 argument: " +:+ shown +:+ " is empty")
  | AnInt64 i => Int64_validate i ;; Ok i
  | Other n => let* i := new_Int64 n in Int64_validate i ;; Ok i
  end.

(** The methods of two operands. *)
Definition binary (op : BN -> BN -> BN) (this : Int64) (n : argument) : result Int64 :=
  let* arg := Int64_checkArgument n in
  let rs := op (number this) (number arg) in
  new_Int64 rs.

Definition plus := binary plus_.
Definition minus := binary minus_.
Definition multi := binary times_.
Definition div := binary idiv_.
Definition mod' := binary mod_.
Definition pow := binary pow_.

Definition shift (this : Int64) (n : Z) : result Int64 := new_Int64 (shiftedBy_ (number this) n).

Definition compare (op : BN -> BN -> bool) (this : Int64) (n : argument) : result bool :=
  let* arg := Int64_checkArgument n in Ok (op (number this) (number arg)).

Definition eq := compare eq_.
Definition gt := compare gt_.
Definition gte := compare gte_.
Definition lt := compare lt_.
Definition lte := compare lte_.

Definition negated (this : Int64) : result Int64 := new_Int64 (negated_ (number this)).
Definition isZero (this : Int64) : bool := isZero_ (number this).
Definition isPositive (this : Int64) : bool := isPositive_ (number this).
Definition isNegative (this : Int64) : bool := isNegative_ (number this).
Definition toString (this : Int64) : string := toString_ (number this).

(** ** class Float64 *)

Record Float64 := mkFloat64 { fnumber : BN }.

Definition Float64_validate (this : Float64) : result unit :=
  if gt_ (fnumber this) MaxInt64 then
    Throw ("Float64: " +:+ toString_ (fnumber this) +:+ " overflow float64")
  else if lt_ (fnumber this) MinInt64 then
    Throw ("Float64: " +:+ toString_ (fnumber this) +:+ " underflow float64")
  else Ok tt.

Definition new_Float64 (n : BN) : result Float64 :=
  let this := mkFloat64 n in Float64_validate this ;; Ok this.

Inductive float_argument := FMissing (shown : string) | AFloat64 (x : Float64) | FOther (n : BN).

Definition Float64_checkArgument (arg : float_argument) : result Float64 :=
  match arg with
  | FMissing shown => Throw ("float64 argument: " +:+ shown +:+ " is empty")
  | AFloat64 x => Float64_validate x ;; Ok x
  | FOther n => let* x := new_Float64 n in Float64_validate x ;; Ok x
  end.

Definition fbinary (op : BN -> BN -> BN) (this : Float64) (n : float_argument) : result Float64 :=
  let* arg := Float64_checkArgument n in
  let rs := op (fnumber this) (fnumber arg) in
  new_Float64 rs.

Definition fplus := fbinary plus_.
Definition fminus := fbinary minus_.
Definition fmulti := fbinary times_.
Definition fdiv := fbinary div_.
Definition fmod := fbinary mod_.
Definition fpow := fbinary pow_.

Definition fcompare (op : BN -> BN -> bool) (this : Float64) (n : float_argument) : result bool :=
  let* arg := Float64_checkArgument n in Ok (op (fnumber this) (fnumber arg)).

Definition feq := fcompare eq_.
Definition fgt := fcompare gt_.
Definition fgte := fcompare gte_.
Definition flt := fcompare lt_.
Definition flte := fcompare lte_.
Definition fnegated (this : Float64) : result Float64 := new_Float64 (negated_ (fnumber this)).

(** ** The range *)

Definition in_range (z : Z) : Prop := - 2 ^ 63 <= z < 2 ^ 63.
Definition in_range_b (z : Z) : bool := (- 2 ^ 63 <=? z) && (z <? 2 ^ 63).

Context {laws : BigNumberLaws BN}.

(** The object holds the integer [z], in range. *)
Definition holds (i : Int64) (z : Z) : Prop := denotes (number i) z /\ in_range z.

(** What an operation with the exact result [z] does: the result if it fits, an
    exception otherwise. *)
Definition exact (r : result Int64) (z : Z) : Prop :=
  if in_range_b z then exists i, r = Ok i /\ holds i z else exists e, r = Throw e.

Lemma validate_denotes i z :
  denotes (number i) z -> Int64_validate i = Ok tt <-> in_range z.
Proof.
  intros Hz. unfold Int64_validate. assert (Hi : isInteger_ (number i) = true) by (apply isInteger_spec; eauto).
  rewrite Hi. cbn [negb]. unfold MaxInt64, MinInt64.
  rewrite (gt_denotes _ _ _ _ Hz (integer_denotes 9223372036854775807 ltac:(unfold small; lia))),
    (lt_denotes _ _ _ _ Hz (integer_denotes (-9223372036854775808) ltac:(unfold small; lia))).
  unfold in_range. change (2 ^ 63) with 9223372036854775808.
  destruct (Z.ltb_spec 9223372036854775807 z), (Z.ltb_spec z (-9223372036854775808)); split; (done || lia).
Qed.

Lemma new_exact n z : denotes n z -> exact (new_Int64 n) z.
Proof.
  intros Hz. unfold new_Int64, exact. pose proof (validate_denotes (mkInt64 n) z Hz) as Hv.
  destruct (in_range_b z) eqn:Er.
  - rewrite (proj2 Hv) by (unfold in_range, in_range_b in *; lia). cbn. eexists. split; [done|].
    split; [done|]. unfold in_range, in_range_b in *; lia.
  - destruct (Int64_validate _) as [e|[]]; [by exists e|].
    apply proj1 in Hv. specialize (Hv eq_refl). unfold in_range, in_range_b in *. lia.
Qed.

Lemma new_not_integer n : isInteger_ n = false -> exists e, new_Int64 n = Throw e.
Proof. intros H. unfold new_Int64, Int64_validate. cbn. rewrite H. cbn. by eexists. Qed.

(** An argument that stands for [z]. *)
Definition argument_holds (a : argument) (z : Z) : Prop :=
  match a with Missing _ => False | AnInt64 i => holds i z | Other n => denotes n z /\ in_range z end.

Lemma checkArgument_holds a z :
  argument_holds a z -> exists i, Int64_checkArgument a = Ok i /\ holds i z.
Proof.
  destruct a as [|i|n]; cbn; [done|..].
  - intros [Hd Hr]. exists i. by rewrite (proj2 (validate_denotes i z Hd) Hr).
  - intros [Hd Hr]. pose proof (new_exact n z Hd) as He. unfold exact in He.
    replace (in_range_b z) with true in He by (unfold in_range, in_range_b in *; lia).
    destruct He as (i & -> & Hi). exists i. split; [|done]. cbn.
    by rewrite (proj2 (validate_denotes i z (proj1 Hi)) Hr).
Qed.

Lemma in_range_small z : in_range z -> small z.
Proof. unfold in_range, small. lia. Qed.

(** The number that reaches the constructor decides the outcome. *)
Lemma binary_new op i a x y :
  holds i x -> argument_holds a y ->
  exists b, denotes b y /\ small x /\ small y /\ binary op i a = new_Int64 (op (number i) b).
Proof.
  intros [Hx Hrx] Ha. unfold binary. destruct (checkArgument_holds a y Ha) as (j & -> & [Hj Hry]).
  exists (number j). split_and!; [done|by apply in_range_small..|done].
Qed.

(** An operation the library computes exactly. *)
Lemma binary_exact op f i a x y :
  (forall b, denotes (number i) x -> denotes b y -> small x -> small y -> denotes (op (number i) b) (f x y)) ->
  holds i x -> argument_holds a y -> exact (binary op i a) (f x y).
Proof.
  intros Hop Hi Ha. destruct (binary_new op i a x y Hi Ha) as (b & Hb & Hx & Hy & ->).
  apply new_exact. by apply Hop; [apply Hi|..].
Qed.

(** A number outside the range gives an exception, whatever it is exactly. *)
Lemma new_outside n z z' :
  ~ in_range z -> isInteger_ n = false \/ (denotes n z' /\ ~ in_range z') -> exact (new_Int64 n) z.
Proof.
  intros Hz Hn. unfold exact. replace (in_range_b z) with false by (unfold in_range, in_range_b in *; lia).
  destruct Hn as [Hn|[Hd Hr]]; [by apply new_not_integer|].
  pose proof (new_exact n z' Hd) as He. unfold exact in He.
  by replace (in_range_b z') with false in He by (unfold in_range, in_range_b in *; lia).
Qed.

Lemma pow_exact i a x y :
  holds i x -> argument_holds a y -> 0 <= y -> exact (pow i a) (x ^ y).
Proof.
  intros Hi Ha H0. destruct (binary_new pow_ i a x y Hi Ha) as (b & Hb & Hx & Hy & E). unfold pow. rewrite E.
  destruct (Z.lt_ge_cases (Z.abs (x ^ y)) precision) as [Hl|Hl].
  - by apply new_exact, pow_denotes; [apply Hi|..].
  - destruct (pow_cut _ _ _ _ (proj1 Hi) Hb Hx Hy H0 Hl) as [Hn|(z & Hz & Hbig)];
      [eapply (new_outside _ _ 0)|eapply (new_outside _ _ z)]; try (by left); try right;
      unfold in_range, precision in *; lia || (split; [done|lia]).
Qed.

Lemma pow_negative i a x y :
  holds i x -> argument_holds a y -> y < 0 ->
  (Z.abs x = 1 -> exact (pow i a) (x ^ (- y))) /\
  (x = 0 \/ 2 <= Z.abs x /\ Z.abs x ^ (- y) <= precision -> exists e, pow i a = Throw e) /\
  (2 <= Z.abs x -> precision < Z.abs x ^ (- y) -> exact (pow i a) 0).
Proof.
  intros Hi Ha H0. destruct (binary_new pow_ i a x y Hi Ha) as (b & Hb & Hx & Hy & E). unfold pow. rewrite E.
  destruct Hi as [Hd _]. split_and!.
  - intros H1. by apply new_exact, pow_unit.
  - intros [->|[H2 Hp]]; apply new_not_integer; [by eapply pow_zero|by eapply pow_fraction].
  - intros H2 Hp. by eapply new_exact, pow_vanishes.
Qed.

Lemma binary_undefined op i a x :
  (forall b, denotes b 0 -> isInteger_ (op (number i) b) = false) ->
  holds i x -> argument_holds a 0 -> exists e, binary op i a = Throw e.
Proof.
  intros Hop [Hx _] Ha. unfold binary. destruct (checkArgument_holds a 0 Ha) as (j & -> & [Hj _]). cbn [bind].
  apply new_not_integer. by apply Hop.
Qed.


(** The comparisons are those of the integers. *)
Lemma int64_compare (i : Int64) (a : argument) (x y : Z) :
  holds i x -> argument_holds a y ->
  eq i a = Ok (x =? y) /\ gt i a = Ok (y <? x) /\ gte i a = Ok (y <=? x) /\
  lt i a = Ok (x <? y) /\ lte i a = Ok (x <=? y).
Proof.
  intros [Hx _] Ha. unfold eq, gt, gte, lt, lte, compare.
  destruct (checkArgument_holds a y Ha) as (j & -> & [Hj _]). cbn [bind].
  rewrite (eq_denotes _ _ _ _ Hx Hj), (gt_denotes _ _ _ _ Hx Hj), (gte_denotes _ _ _ _ Hx Hj),
    (lt_denotes _ _ _ _ Hx Hj), (lte_denotes _ _ _ _ Hx Hj). done.
Qed.

(** No result of [Float64] arithmetic is outside the bounds. *)
Lemma fbinary_bounded op x a r :
  fbinary op x a = Ok r -> gt_ (fnumber r) MaxInt64 = false /\ lt_ (fnumber r) MinInt64 = false.
Proof.
  unfold fbinary, new_Float64. destruct (Float64_checkArgument a) as [|y]; [done|]. cbn [bind].
  unfold Float64_validate. cbn [fnumber].
  destruct (gt_ (op _ _) MaxInt64) eqn:Eg; [done|]. destruct (lt_ (op _ _) MinInt64) eqn:El; [done|].
  intros [= <-]. by split.
Qed.

(** What is not a number: [Int64] rejects it, but [Float64] only compares
    with its bounds, which is false both times, and so accepts it. *)
Theorem float64_accepts_nan :
  (exists e, new_Int64 nan = Throw e) /\ new_Float64 nan = Ok (mkFloat64 nan).
Proof.
  split; [apply new_not_integer, nan_integer|].
  unfold new_Float64, Float64_validate. cbn [fnumber]. by rewrite nan_gt, nan_lt.
Qed.

End Int64.

(** ** An instance: integers, and one value for everything else *)

Definition on_integers {A} (d : A) (f : Z -> Z -> A) (a b : option Z) : A :=
  match a, b with Some x, Some y => f x y | _, _ => d end.

#[local] Instance big_option : BigNumber (option Z) := {
  plus_ := on_integers None (fun x y => Some (x + y));
  minus_ := on_integers None (fun x y => Some (x - y));
  times_ := on_integers None (fun x y => Some (x * y));
  div_ := on_integers None (fun x y => if (y =? 0) || negb (Z.rem x y =? 0) then None else Some (Z.quot x y));
  idiv_ := on_integers None (fun x y => if y =? 0 then None else Some (Z.quot x y));
  mod_ := on_integers None (fun x y => if y =? 0 then None else Some (Z.rem x y));
  pow_ := on_integers None (fun x y =>
    if 0 <=? y then Some (x ^ y) else if Z.abs x =? 1 then Some (x ^ (- y))
    else if x =? 0 then None else if Z.abs x ^ (- y) <=? precision then None else Some 0);
  shiftedBy_ := fun a n => match a with Some x => if n <? 0 then None else Some (x * 10 ^ n) | None => None end;
  negated_ := fun a => match a with Some x => Some (- x) | None => None end;
  eq_ := on_integers false Z.eqb;
  gt_ := on_integers false (fun x y => y <? x);
  gte_ := on_integers false (fun x y => y <=? x);
  lt_ := on_integers false Z.ltb;
  lte_ := on_integers false Z.leb;
  isZero_ := fun a => match a with Some x => x =? 0 | None => false end;
  isPositive_ := fun a => match a with Some x => 0 <=? x | None => false end;
  isNegative_ := fun a => match a with Some x => x <? 0 | None => false end;
  isInteger_ := fun a => match a with Some _ => true | None => false end;
  toString_ := fun _ => "n"%string;
  integer := Some;
  nan := None;
}.

#[local] Instance big_option_laws : BigNumberLaws (option Z).
Proof.
  refine {| denotes := fun a z => a = Some z |}; try by intros; simplify_eq.
  - intros [x|]; cbn; split; try done; [by eauto|by intros [? ?]].
  - intros a b x y -> -> _ _ Hy. cbn. by destruct (Z.eqb_spec y 0).
  - intros a b x y -> -> _ _ Hy. cbn. by destruct (Z.eqb_spec y 0).
  - intros a b x y -> -> _ _ Hy _. cbn. by destruct (Z.leb_spec 0 y); [|lia].
  - intros a b x y -> -> _ _ Hy Hp. right. cbn. destruct (Z.leb_spec 0 y); [|lia]. eexists. split; [done|lia].
  - intros a b x y -> -> _ Hy Hx. cbn. destruct (Z.leb_spec 0 y); [lia|]. by rewrite Hx.
  - intros a b y -> -> _ Hy. cbn. by destruct (Z.leb_spec 0 y); [lia|].
  - intros a b x y -> -> _ _ Hy Hx Hp. cbn [pow_ big_option on_integers]. destruct (Z.leb_spec 0 y); [lia|].
    rewrite (proj2 (Z.eqb_neq _ _)), (proj2 (Z.eqb_neq _ _)) by lia. by rewrite (proj2 (Z.leb_le _ _) Hp).
  - intros a b x y -> -> _ _ Hy Hx Hp. cbn [pow_ big_option on_integers]. destruct (Z.leb_spec 0 y); [lia|].
    rewrite (proj2 (Z.eqb_neq _ _)), (proj2 (Z.eqb_neq _ _)) by lia. by rewrite (proj2 (Z.leb_gt _ _) Hp).
Defined.


Lemma float64_accepts_nan_witness : new_Float64 (None : option Z) = Ok (mkFloat64 None).
Proof. apply (@float64_accepts_nan (option Z) big_option big_option_laws). Defined.

End Int64.
