(* ===== verification/Format.v ===== *)
(** * Formatting log messages (vm/v8vm/v8/libjs/utils.js, console.js)

    [console.log] and its siblings format their arguments the way node.js does,
    with a first argument that can hold placeholders. The code walks over the
    string with three indices: the current character, the end of what was
    already copied, and the next argument. *)

From Stdlib Require Import ZArith Lia.
From stdpp Require Import base strings list sets.
From S2P Require Import Prelude V8 JsValue.
Local Open Scope Z_scope.

Module Format.
Import JsValue.

(** ** Arguments *)

(** What the formatter tells apart. *)
Inductive kind := KString (s : jsstring) | KBig (* Int64 or BigNumber *) | KObject | KSymbol | KOther.

Section Format.

(** The engine's conversions of a value. *)
Context {V : Type} (kind_of : V -> kind) (undefined : V).
Context (to_String to_Number parse_Int parse_Float to_JSON big_toString template : V -> jsstring).
Context (array_JSON : list V -> jsstring).

(** [arguments[a]] *)
Definition nth_arg (args : list V) (a : nat) : V := default undefined (args !! a).

(** One placeholder: the text and the next argument; [None] when the character
    is not a placeholder. *)
Definition placeholder (args : list V) (a : nat) (c : Z) : option (jsstring * nat) :=
  if c =? 115 then Some (to_String (nth_arg args a), S a)
  else if c =? 100 then
    let curr := nth_arg args a in
    let a := S a in
    match kind_of curr with
    | KBig => Some (big_toString curr, a)
    | _ => Some (to_Number (nth_arg args a), S a)
    end
  else if c =? 118 then Some (to_JSON (nth_arg args a), S a)
  else if c =? 105 then Some (parse_Int (nth_arg args a), S a)
  else if c =? 102 then Some (parse_Float (nth_arg args a), S a)
  else None.

Definition slice (f : jsstring) (from to : nat) : jsstring := take (to - from) (drop from f).

(** The loop, from position [i] on, where [rest] is what is left of [f]; the
    arguments count from 0 here, from 2 in the code. *)
Fixpoint scan (f : jsstring) (args : list V) (rest : jsstring) (i : nat) (str : jsstring) (a lastPos : nat)
    : jsstring * nat * nat :=
  match rest with
  | c :: ((next :: rest') as tail) =>
      if c =? 37 then
        let i := S i in
        if negb (Nat.eqb a (length args)) then
          match placeholder args a next with
          | Some (tempStr, a') =>
              let str := if negb (Nat.eqb lastPos (i - 1)) then str ++ slice f lastPos (i - 1) else str in
              scan f args rest' (S i) (str ++ tempStr) a' (S i)
          | None =>
              if next =? 37 then scan f args rest' (S i) (str ++ slice f lastPos i) a (S i)
              else scan f args rest' (S i) str a lastPos
          end
        else if next =? 37 then scan f args rest' (S i) (str ++ slice f lastPos i) a (S i)
        else scan f args rest' (S i) str a lastPos
      else scan f args tail (S i) str a lastPos
  | _ => (str, a, lastPos)
  end.

(** The arguments that are left, each after a blank. *)
Definition appended (x : V) : jsstring :=
  match kind_of x with KObject | KSymbol => 32 :: to_JSON x | _ => 32 :: template x end.

Definition formatWithOptions (args : list V) : jsstring :=
  match args with
  | [] => array_JSON []
  | v :: rest =>
      match kind_of v with
      | KString f =>
          match rest with
          | [] => f
          | _ =>
              let '(str, a, lastPos) := scan f rest f 0 [] 0 0 in
              let str := if Nat.eqb lastPos 0 then f
                         else if Nat.ltb lastPos (length f) then str ++ drop lastPos f else str in
              str ++ concat (map appended (drop a rest))
          end
      | _ => match rest with [] => to_JSON v | _ => array_JSON args end
      end
  end.

(** ** What the text should be

    The reading of a format from left to right: a placeholder takes the next
    argument and is replaced by the conversion its letter names, a doubled
    percent sign is one, anything else stays, and the arguments that are left
    follow, each after a blank. A placeholder for numbers has a reading only
    where its argument is an [Int64] or a [BigNumber]. *)

Definition trailing (args : list V) : jsstring :=
  flat_map (fun x => [32] ++
    (if (match kind_of x with KObject | KSymbol => true | _ => false end) then to_JSON x else template x)) args.

Inductive renders : jsstring -> list V -> jsstring -> Prop :=
  | renders_s f x args t : renders f args t -> renders (str "%s" ++ f) (x :: args) (to_String x ++ t)
  | renders_d f x args t :
      kind_of x = KBig -> renders f args t -> renders (str "%d" ++ f) (x :: args) (big_toString x ++ t)
  | renders_v f x args t : renders f args t -> renders (str "%v" ++ f) (x :: args) (to_JSON x ++ t)
  | renders_i f x args t : renders f args t -> renders (str "%i" ++ f) (x :: args) (parse_Int x ++ t)
  | renders_f f x args t : renders f args t -> renders (str "%f" ++ f) (x :: args) (parse_Float x ++ t)
  | renders_percent f args t : renders f args t -> renders (str "%%" ++ f) args (str "%" ++ t)
  | renders_unknown c f args t :
      c ∉ str "sdvif%" -> renders f args t -> renders (str "%" ++ c :: f) args (str "%" ++ c :: t)
  | renders_no_argument c f t :
      c ∉ str "%" -> renders f [] t -> renders (str "%" ++ c :: f) [] (str "%" ++ c :: t)
  | renders_character c f args t : c ∉ str "%" -> renders f args t -> renders (c :: f) args (c :: t)
  | renders_last args : renders (str "%") args (str "%" ++ trailing args)
  | renders_end args : renders [] args (trailing args).

(** ** The loop copies in one go what lies between two placeholders

    The same steps as the loop's, one character at a time. *)
Fixpoint stepwise (args : list V) (a : nat) (f : jsstring) : jsstring * nat :=
  match f with
  | c :: ((next :: rest) as tail) =>
      if c =? 37 then
        match (if Nat.eqb a (length args) then None else placeholder args a next) with
        | Some (text, a') => let r := stepwise args a' rest in (text ++ fst r, snd r)
        | None =>
            let r := stepwise args a rest in
            (if next =? 37 then 37 :: fst r else 37 :: next :: fst r, snd r)
        end
      else let r := stepwise args a tail in (c :: fst r, snd r)
  | _ => (f, a)
  end.

Lemma scan_plain f args c next rest i str a lastPos :
  c <> 37 -> scan f args (c :: next :: rest) i str a lastPos = scan f args (next :: rest) (S i) str a lastPos.
Proof. intros H%Z.eqb_neq. cbn [scan]. by rewrite H. Qed.

Lemma stepwise_plain args a c next rest :
  c <> 37 -> stepwise args a (c :: next :: rest) =
  (c :: fst (stepwise args a (next :: rest)), snd (stepwise args a (next :: rest))).
Proof. intros H%Z.eqb_neq. cbn [stepwise]. by rewrite H. Qed.

Lemma slice_snoc f lastPos i c :
  (lastPos <= i)%nat -> f !! i = Some c -> slice f lastPos (S i) = slice f lastPos i ++ [c].
Proof.
  intros Hl Hc. unfold slice. replace (S i - lastPos)%nat with (S (i - lastPos)) by lia.
  apply take_S_r. rewrite lookup_drop. by replace (lastPos + (i - lastPos))%nat with i by lia.
Qed.

Lemma slice_nil f i : slice f i i = [].
Proof. unfold slice. by rewrite Nat.sub_diag. Qed.

Ltac split_result str' a' lastPos' E :=
  match goal with |- context [scan ?f ?args ?rest ?i ?str ?a ?l] =>
    destruct (scan f args rest i str a l) as [[str' a'] lastPos'] eqn:E end;
  cbv zeta; cbn [fst snd].

(** What is already known to be part of the text: what was copied, and what lies
    between the last copy and the current position. *)
Lemma scan_stepwise f args rest : forall i str a lastPos,
  drop i f = rest -> (lastPos <= i)%nat -> (lastPos = 0%nat -> str = []) ->
  let '(str', a', lastPos') := scan f args rest i str a lastPos in
  a' = snd (stepwise args a rest) /\ (lastPos' = 0%nat -> str' = []) /\
  str ++ slice f lastPos i ++ fst (stepwise args a rest) = str' ++ drop lastPos' f.
Proof.
  induction rest as [rest IH] using (induction_ltof1 _ length); unfold ltof in IH.
  intros i str a lastPos Hrest Hle H0.
  assert (Hstop : str ++ slice f lastPos i ++ rest = str ++ drop lastPos f).
  { f_equal. unfold slice. rewrite <- Hrest.
    replace i with (lastPos + (i - lastPos))%nat at 2 by lia.
    by rewrite <- drop_drop, take_drop. }
  destruct rest as [|c [|next rest]]; [by cbn..|]. clear Hstop.
  assert (Hc : f !! i = Some c).
  { rewrite <- (Nat.add_0_r i), <- lookup_drop, Hrest. done. }
  assert (Hn : f !! S i = Some next).
  { rewrite <- (Nat.add_1_r i), <- lookup_drop, Hrest. done. }
  assert (Hd1 : drop (S i) f = next :: rest).
  { rewrite <- (Nat.add_1_r i), <- drop_drop, Hrest. done. }
  assert (Hd2 : drop (S (S i)) f = rest).
  { rewrite <- (Nat.add_1_r (S i)), <- drop_drop, Hd1. done. }
  destruct (Z.eq_dec c 37) as [->|Hne].
  2:{ rewrite scan_plain, stepwise_plain by done. specialize (IH (next :: rest) ltac:(cbn; lia) (S i) str a lastPos Hd1 ltac:(lia) H0).
      destruct (scan _ _ _ _ _ _ _) as [[str' a'] lastPos']. cbv zeta. cbn [fst snd]. destruct IH as (H1 & H2 & H3).
      split_and!; [done..|]. rewrite (slice_snoc f lastPos i c) in H3 by done. rewrite <- H3, <- app_assoc. done. }
  cbn [scan stepwise]. change (37 =? 37) with true. cbn iota.
  assert (Hlit : forall b str' a' lastPos',
    (scan f args rest (S (S i)) str a lastPos) = (str', a', lastPos') ->
    negb b = true ->
    a' = snd (stepwise args a rest) /\ (lastPos' = 0%nat -> str' = []) /\
    str ++ slice f lastPos i ++ 37 :: next :: fst (stepwise args a rest) = str' ++ drop lastPos' f).
  { intros b str' a' lastPos' E _. specialize (IH rest ltac:(cbn; lia) (S (S i)) str a lastPos Hd2 ltac:(lia) H0).
    rewrite E in IH. destruct IH as (H1 & H2 & H3). split_and!; [done..|].
    rewrite (slice_snoc f lastPos (S i) next), (slice_snoc f lastPos i 37) in H3 by (done || lia).
    rewrite <- H3, <- !app_assoc. done. }
  assert (Hpct : next = 37 -> forall str' a' lastPos',
    scan f args rest (S (S i)) (str ++ slice f lastPos (S i)) a (S (S i)) = (str', a', lastPos') ->
    a' = snd (stepwise args a rest) /\ (lastPos' = 0%nat -> str' = []) /\
    str ++ slice f lastPos i ++ 37 :: fst (stepwise args a rest) = str' ++ drop lastPos' f).
  { intros -> str' a' lastPos' E.
    specialize (IH rest ltac:(cbn; lia) (S (S i)) (str ++ slice f lastPos (S i)) a (S (S i)) Hd2 ltac:(lia) ltac:(lia)).
    rewrite E in IH. destruct IH as (H1 & H2 & H3). split_and!; [done..|].
    rewrite slice_nil, (slice_snoc f lastPos i 37) in H3 by (done || lia).
    rewrite <- H3, <- !app_assoc. done. }
  destruct (Nat.eqb a (length args)) eqn:Ea; cbn [negb].
  { destruct (Z.eqb_spec next 37) as [En|En]; split_result str' a' lastPos' E.
    - by apply Hpct.
    - by apply (Hlit false). }
  destruct (placeholder args a next) as [[text a1]|] eqn:Ep.
  - replace (S i - 1)%nat with i by lia.
    set (str1 := if negb (Nat.eqb lastPos i) then str ++ slice f lastPos i else str).
    assert (Hs : str1 = str ++ slice f lastPos i).
    { subst str1. destruct (Nat.eqb_spec lastPos i) as [->|]; cbn; [by rewrite slice_nil, app_nil_r|done]. }
    rewrite Hs. clear str1 Hs.
    specialize (IH rest ltac:(cbn; lia) (S (S i)) ((str ++ slice f lastPos i) ++ text) a1 (S (S i)) Hd2 ltac:(lia) ltac:(lia)).
    destruct (scan _ _ _ _ _ _ _) as [[str' a'] lastPos']. cbv zeta. cbn [fst snd]. destruct IH as (H1 & H2 & H3).
    split_and!; [done..|]. rewrite slice_nil in H3. rewrite <- H3, <- !app_assoc. done.
  - destruct (Z.eqb_spec next 37) as [En|En]; split_result str' a' lastPos' E.
    + by apply Hpct.
    + by apply (Hlit false).
Qed.

Lemma stepwise_format v f args :
  kind_of v = KString f -> args <> [] ->
  formatWithOptions (v :: args) =
  fst (stepwise args 0 f) ++ concat (map appended (drop (snd (stepwise args 0 f)) args)).
Proof.
  intros Hv Hargs. unfold formatWithOptions. rewrite Hv. destruct args as [|x args]; [done|].
  pose proof (scan_stepwise f (x :: args) f 0 [] 0 0 eq_refl ltac:(lia) ltac:(done)) as H.
  destruct (scan _ _ _ _ _ _ _) as [[str a] lastPos]. destruct H as (-> & H0 & H).
  rewrite slice_nil in H. cbn [app] in H. rewrite H. f_equal.
  destruct (Nat.eqb_spec lastPos 0) as [->|Hne]; [by rewrite H0|].
  destruct (Nat.ltb_spec lastPos (length f)); [done|]. by rewrite drop_ge, app_nil_r by done.
Qed.

(** ** The steps follow the reading *)

Lemma trailing_appended args : concat (map appended args) = trailing args.
Proof.
  induction args as [|x args IH]; [done|]. cbn. rewrite IH. unfold appended. by destruct (kind_of x).
Qed.

(** The whole text from argument [a] on. *)
Definition rest_text (args : list V) (a : nat) (f : jsstring) : jsstring :=
  fst (stepwise args a f) ++ concat (map appended (drop (snd (stepwise args a f)) args)).

Lemma rest_placeholder args a c f text a' :
  a <> length args -> placeholder args a c = Some (text, a') ->
  rest_text args a (37 :: c :: f) = text ++ rest_text args a' f.
Proof.
  intros Ha%Nat.eqb_neq Hp. unfold rest_text. cbn [stepwise]. change (37 =? 37) with true. cbn iota.
  rewrite Ha, Hp. cbv zeta. cbn [fst snd]. by rewrite <- app_assoc.
Qed.

Lemma rest_literal args a c f :
  a = length args \/ placeholder args a c = None ->
  rest_text args a (37 :: c :: f) = (if c =? 37 then [37] else [37; c]) ++ rest_text args a f.
Proof.
  intros Hc. unfold rest_text. cbn [stepwise]. change (37 =? 37) with true. cbn iota.
  replace (if Nat.eqb a (length args) then None else placeholder args a c) with (@None (jsstring * nat)).
  - cbv zeta. cbn [fst snd]. by destruct (c =? 37).
  - destruct (Nat.eqb_spec a (length args)); [done|]. by destruct Hc as [?| ->].
Qed.

Lemma rest_character args a c f : c <> 37 -> rest_text args a (c :: f) = c :: rest_text args a f.
Proof.
  intros Hc. unfold rest_text. destruct f as [|n f]; [by cbn; rewrite ?(proj2 (Z.eqb_neq _ _) Hc)|].
  by rewrite stepwise_plain by done.
Qed.

Lemma next_argument args a x (rest : list V) :
  drop a args = x :: rest -> a <> length args /\ nth_arg args a = x /\ drop (S a) args = rest.
Proof.
  intros Hd. split_and!.
  - intros ->. by rewrite drop_all in Hd.
  - unfold nth_arg. rewrite <- (Nat.add_0_r a), <- lookup_drop, Hd. done.
  - by rewrite <- (Nat.add_1_r a), <- drop_drop, Hd.
Qed.

Lemma placeholder_none args a c : c ∉ str "sdvif%" -> placeholder args a c = None /\ c <> 37.
Proof.
  change (str "sdvif%") with [115; 100; 118; 105; 102; 37]. rewrite !not_elem_of_cons.
  intros (H1 & H2 & H3 & H4 & H5 & H6 & _). unfold placeholder.
  by rewrite !(proj2 (Z.eqb_neq _ _)) by done.
Qed.

Lemma not_percent c : c ∉ str "%" -> c <> 37.
Proof. change (str "%") with [37]. set_solver. Qed.

Lemma renders_rest args f rest t :
  renders f rest t -> forall a, (a <= length args)%nat -> drop a args = rest -> rest_text args a f = t.
Proof.
  induction 1 as [f x rest t _ IH|f x rest t Hx _ IH|f x rest t _ IH|f x rest t _ IH|f x rest t _ IH
    |f rest t _ IH|c f rest t Hc _ IH|c f t Hc _ IH|c f rest t Hc _ IH|rest|rest]; intros a Ha Hd.
  1-5: destruct (next_argument _ _ _ _ Hd) as (Hl & Hn & Hd'); assert (S a <= length args)%nat by lia;
    rewrite <- (IH (S a)) by done; apply rest_placeholder; [done|]; unfold placeholder; cbn; by rewrite Hn, ?Hx.
  - rewrite <- (IH a) by done. by apply (rest_literal args a 37); right.
  - apply placeholder_none with (args := args) (a := a) in Hc as [Hp Hc].
    rewrite <- (IH a) by done. etrans; [by apply (rest_literal args a c); right|].
    by rewrite (proj2 (Z.eqb_neq _ _) Hc).
  - apply not_percent in Hc. rewrite <- (IH a) by done.
    assert (a = length args). { apply (f_equal length) in Hd. rewrite length_drop in Hd. cbn in Hd. lia. }
    etrans; [by apply (rest_literal args a c); left|]. by rewrite (proj2 (Z.eqb_neq _ _) Hc).
  - apply not_percent in Hc. rewrite <- (IH a) by done. by apply rest_character.
  - unfold rest_text. cbn. by rewrite Hd, trailing_appended.
  - unfold rest_text. cbn. by rewrite Hd, trailing_appended.
Qed.

(** Every format has a reading that has no placeholder for numbers, or only
    big numbers to fill in. *)
Lemma renders_exists f : forall args,
  100 ∉ f \/ Forall (fun x => kind_of x = KBig) args -> exists t, renders f args t.
Proof.
  induction f as [f IH] using (induction_ltof1 _ length); unfold ltof in IH. intros args Hd.
  destruct f as [|c f]; [by eexists; apply renders_end|].
  destruct (decide (c = 37)) as [->|Hc].
  2:{ destruct (IH f ltac:(cbn; lia) args) as [t Ht]; [|exists (c :: t); apply renders_character; [set_solver|done]].
      destruct Hd as [Hd|]; [left|by right]. set_solver. }
  destruct f as [|c f]; [by eexists; apply renders_last|].
  assert (Hrec : forall args', (forall P, Forall P args -> Forall P args') -> exists t, renders f args' t).
  { intros args' Hargs. apply IH; [cbn; lia|]. destruct Hd as [Hd|Hd]; [left; set_solver|right; auto]. }
  destruct (Hrec args) as [t0 Ht0]; [done|].
  destruct (decide (c = 37)) as [->|Hc]; [by eexists; apply renders_percent|].
  destruct args as [|x args]; [eexists; apply renders_no_argument; [set_solver|done]|].
  destruct (Hrec args) as [t Ht]; [by intros P H%Forall_inv_tail|].
  destruct (decide (c = 115)) as [->|]; [by eexists; apply renders_s|].
  destruct (decide (c = 100)) as [->|].
  { eexists. apply renders_d; [|done]. destruct Hd as [Hd|Hd]; [set_solver|by inversion Hd]. }
  destruct (decide (c = 118)) as [->|]; [by eexists; apply renders_v|].
  destruct (decide (c = 105)) as [->|]; [by eexists; apply renders_i|].
  destruct (decide (c = 102)) as [->|]; [by eexists; apply renders_f|].
  eexists. apply renders_unknown; [|exact Ht0]. change (str "sdvif%") with [115; 100; 118; 105; 102; 37]. set_solver.
Qed.


(** The placeholder for numbers takes an argument to look at and then
    prints the one after it: a plain number given for [%d] is lost, and what is
    printed is the conversion of undefined, or the next argument. *)
Theorem format_d_skips (v x : V) :
  kind_of v = KString (str "%d") -> kind_of x <> KBig ->
  formatWithOptions [v; x] = to_Number undefined /\
  forall y, formatWithOptions [v; x; y] = to_Number y.
Proof.
  change (str "%d") with [37; 100]. intros Hv Hx. unfold formatWithOptions, scan, placeholder. rewrite Hv. cbn.
  destruct (kind_of x); try done; split; intros; cbn; by rewrite ?app_nil_r.
Qed.

End Format.

(** ** Witnesses *)

Definition sample_kind (v : option jsstring) : kind := match v with Some s => KString s | None => KOther end.
Definition show (v : option jsstring) : jsstring := default (str "NaN") v.


Lemma format_d_skips_witness :
  formatWithOptions sample_kind None show show show show show show show (fun _ => [])
    [Some (str "%d"); Some (str "5")] = str "NaN".
Proof.
  apply (format_d_skips sample_kind None show show show show show show show (fun _ => [])
    (Some (str "%d")) (Some (str "5"))); [reflexivity|discriminate].
Defined.

End Format.
