(* ===== verification/ConsoleJs.v ===== *)
(** * The console of contracts (vm/v8vm/v8/libjs/console.js, utils.js: format)

    The five methods of [console] format their arguments ([Format]) and pass the
    text with its level to the native logger ([Modules]). *)

From Stdlib Require Import ZArith Lia.
From stdpp Require Import base gmap strings list.
From S2P Require Import Prelude Allocator V8 Bridge Modules JsValue Format.
Local Open Scope Z_scope.

Module ConsoleJs.
Import Modules Format.
Import JsValue (str).

Section ConsoleJs.
Context {H : Type} {codec : V8Codec} {go : GoConsole H}.

(** The conversions of the engine, as for the formatter. *)
Context {V : Type} (kind_of : V -> kind) (undefined : V).
Context (to_String to_Number parse_Int parse_Float to_JSON big_toString template : V -> jsstring).
Context (array_JSON : list V -> jsstring).

Definition format (args : list V) : jsstring :=
  formatWithOptions kind_of undefined to_String to_Number parse_Int parse_Float to_JSON big_toString template array_JSON args.

Definition _format (args : list V) : jsstring := let formatStr := format args in formatStr.

(** [_log(level, this._format(...args))] *)
Definition _log (level : string) (args : list V) (st : State H) : option (State H) :=
  run (NewConsoleLog (mkInfo [JsString (str level); JsString (_format args)] Undefined (External PSandbox))) st.

Definition debug (args : list V) : State H -> option (State H) := _log "Debug" args.
Definition info (args : list V) : State H -> option (State H) := _log "Info" args.
Definition warn (args : list V) : State H -> option (State H) := _log "Warn" args.
Definition error (args : list V) : State H -> option (State H) := _log "Error" args.
Definition log (args : list V) : State H -> option (State H) := info args.

Definition Console : list (string * (list V -> State H -> option (State H))) :=
  [ ("debug", debug); ("info", info); ("warn", warn); ("error", error); ("log", log) ]%string.

Definition level_of (name : string) : string :=
  match name with "debug" => "Debug" | "warn" => "Warn" | "error" => "Error" | _ => "Info" end%string.

(** Every method hands the level of its name and the formatted text to the Go
    logger, once, when the text is short enough, and never throws then. *)
Theorem console_logs (name : string) (f : list V -> State H -> option (State H)) (args : list V) (st : State H) :
  (name, f) ∈ Console -> short (format args) ->
  let r := CConsole (cstr_of (Utf8Value (str (level_of name)))) (cstr_of (Utf8Value (format args))) (host st) in
  exists st', f args st = Some st' /\ host st' = r.2 /\ exception st' = exception st /\ sbx st' = sbx st.
Proof.
  intros Hin Hs r.
  assert (E : f args st = _log (level_of name) args st /\ short (str (level_of name))).
  { unfold Console in Hin. repeat (apply elem_of_cons in Hin as [[= -> ->]|Hin]; [split; [done|by vm_compute]|]).
    by apply elem_of_nil in Hin. }
  destruct E as [-> Hl]. unfold _log, _format.
  rewrite (console_drops_error _ (str (level_of name)) (format args) st) by done. fold r.
  eexists. split; [done|]. by destruct (r.1).
Qed.

End ConsoleJs.

#[local] Existing Instance latin1.

(** A logger that keeps the texts. *)
Definition keep_logs : GoConsole (list string) := InitGoConsole (list string) (fun _ l h => (None, h ++ [data l])).
#[local] Existing Instance keep_logs.

Definition empty_log : State (list string) :=
  initial_state (mkSandbox Allocator.new_allocator None 0 1000 100000000 0) [].

Lemma console_logs_witness :
  exists st', log sample_kind None show show show show show show show (fun _ => []) [Some (str "a%sb"); Some (str "1")] empty_log = Some st' /\
    host st' = ["a1b"]%string.
Proof.
  destruct (console_logs sample_kind None show show show show show show show (fun _ => []) "log"
    (log sample_kind None show show show show show show show (fun _ => [])) [Some (str "a%sb"); Some (str "1")] empty_log)
    as (st' & E & Hh & _); [by right; right; right; right; left|unfold short; vm_compute; discriminate|].
  exists st'. split; [exact E|]. rewrite Hh. reflexivity.
Defined.

End ConsoleJs.
