(* ===== verification/Words.v ===== *)
(** * Bytes and bits

    What the modules of libsecp256k1 share: byte strings as lists of integers
    below 256, their big-endian and little-endian readings, and bit operations
    that never carry. *)

From Stdlib Require Import ZArith Lia List.
From stdpp Require Import base list.
From S2P Require Import Prelude.
Local Open Scope Z_scope.

(** ** Bits *)

Lemma lor_high a b n : 0 <= n -> 0 <= a < 2 ^ n -> Z.lor a (b * 2 ^ n) = a + b * 2 ^ n.
Proof.
  intros Hn Ha. rewrite <- Z.shiftl_mul_pow2 by lia.
  assert (Hl : Z.land a (Z.shiftl b n) = 0).
  { apply Z.bits_inj'. intros i Hi. rewrite Z.land_spec, Z.bits_0, andb_false_iff.
    destruct (Z_lt_dec i n) as [Hlt|Hge].
    - right. by apply Z.shiftl_spec_low.
    - left. rewrite <- (Z.mod_small a (2 ^ n)) by lia. apply Z.mod_pow2_bits_high. lia. }
  by rewrite <- Z.lxor_lor, Z.add_nocarry_lxor.
Qed.

(** A mask of [w] ones at position [s] cuts out a field. *)
Lemma land_field p w s :
  0 <= w -> 0 <= s -> Z.land p ((2 ^ w - 1) * 2 ^ s) = (p / 2 ^ s) mod 2 ^ w * 2 ^ s.
Proof.
  intros Hw Hs. rewrite <- !Z.shiftl_mul_pow2, <- Z.shiftr_div_pow2 by lia.
  rewrite <- Z.land_ones, Z.ones_equiv, <- Z.sub_1_r by lia. apply Z.bits_inj'. intros i Hi.
  rewrite Z.land_spec. destruct (Z_lt_dec i s) as [Hlt|Hge].
  - by rewrite !Z.shiftl_spec_low, andb_false_r by lia.
  - rewrite !Z.shiftl_spec by lia. rewrite Z.land_spec, Z.shiftr_spec by lia.
    by replace (i - s + s) with i by lia.
Qed.

(** ** Byte strings *)

Definition is_byte (b : Z) : Prop := 0 <= b < 256.
Abbreviation bytes := (list Z).

(** Big-endian: the first byte is the most significant one. *)
Definition be_word (l : bytes) : Z := fold_left (fun acc b => acc * 256 + b) l 0.

Fixpoint be_bytes (n : nat) (x : Z) : bytes :=
  match n with O => [] | S n' => be_bytes n' (x / 256) ++ [x mod 256] end.

(** Little-endian, as the memory of the machine. *)
Fixpoint le_word (l : bytes) : Z :=
  match l with [] => 0 | b :: l' => b + 256 * le_word l' end.

Fixpoint le_bytes (n : nat) (x : Z) : bytes :=
  match n with O => [] | S n' => x mod 256 :: le_bytes n' (x / 256) end.

Lemma be_word_app l b : be_word (l ++ [b]) = be_word l * 256 + b.
Proof. unfold be_word. by rewrite fold_left_app. Qed.

Lemma be_word_concat l1 l2 : be_word (l1 ++ l2) = be_word l1 * 256 ^ Z.of_nat (length l2) + be_word l2.
Proof.
  induction l2 as [|b l2 IH] using rev_ind; [rewrite app_nil_r; cbn; lia|].
  rewrite app_assoc, !be_word_app, IH, length_app, Nat2Z.inj_add. cbn [length].
  rewrite Z.pow_add_r by lia. lia.
Qed.

Lemma length_be_bytes n x : length (be_bytes n x) = n.
Proof. revert x. induction n as [|n IH]; intros x; [done|]. cbn. rewrite length_app, IH. cbn. lia. Qed.

Lemma length_le_bytes n x : length (le_bytes n x) = n.
Proof. revert x. induction n as [|n IH]; intros x; [done|]. cbn. by rewrite IH. Qed.

Lemma be_bytes_range n x : Forall is_byte (be_bytes n x).
Proof.
  revert x. induction n as [|n IH]; intros x; [constructor|]. cbn. apply Forall_app. split; [apply IH|].
  constructor; [|constructor]. apply Z.mod_pos_bound. lia.
Qed.

Lemma le_bytes_range n x : Forall is_byte (le_bytes n x).
Proof.
  revert x. induction n as [|n IH]; intros x; constructor; [|apply IH]. apply Z.mod_pos_bound. lia.
Qed.

Lemma le_word_range l : Forall is_byte l -> 0 <= le_word l < 256 ^ Z.of_nat (length l).
Proof.
  induction 1 as [|b l Hb Hl IH]; [cbn; lia|]. cbn [le_word length]. unfold is_byte in Hb.
  rewrite Nat2Z.inj_succ, Z.pow_succ_r by lia. lia.
Qed.

Lemma be_word_range l : Forall is_byte l -> 0 <= be_word l < 256 ^ Z.of_nat (length l).
Proof.
  induction l as [|b l IH] using rev_ind; [cbn; lia|]. intros [Hl Hb]%Forall_app.
  rewrite be_word_app, length_app, Nat2Z.inj_add. cbn [length]. inversion Hb as [|? ? Hb' _]; subst.
  unfold is_byte in Hb'. rewrite Z.pow_add_r by lia. specialize (IH Hl). lia.
Qed.

Lemma be_bytes_word l : Forall is_byte l -> be_bytes (length l) (be_word l) = l.
Proof.
  induction l as [|b l IH] using rev_ind; [done|]. intros [Hl Hb]%Forall_app.
  inversion Hb as [|? ? Hb' _]; subst. unfold is_byte in Hb'.
  rewrite length_app, Nat.add_comm. cbn [length Nat.add be_bytes]. rewrite be_word_app.
  rewrite Z.div_add_l, Z.div_small, Z.add_0_r by lia.
  by rewrite IH, Z.add_comm, Z.mod_add, Z.mod_small by (done || lia).
Qed.

Lemma be_word_bytes n x : be_word (be_bytes n x) = x mod 256 ^ Z.of_nat n.
Proof.
  revert x. induction n as [|n IH]; intros x; [by rewrite Z.mod_1_r|].
  cbn [be_bytes]. rewrite be_word_app, IH, Nat2Z.inj_succ, Z.pow_succ_r by lia.
  rewrite (Z.rem_mul_r x 256) by (try apply Z.pow_pos_nonneg; lia). lia.
Qed.

Lemma be_bytes_app n k x :
  be_bytes (n + k) x = be_bytes n (x / 256 ^ Z.of_nat k) ++ be_bytes k x.
Proof.
  revert x. induction k as [|k IH]; intros x; [by rewrite Nat.add_0_r, Z.div_1_r, app_nil_r|].
  rewrite <- plus_n_Sm. cbn [be_bytes]. rewrite IH, app_assoc. do 3 f_equal.
  rewrite Nat2Z.inj_succ, Z.pow_succ_r, Z.div_div by (try apply Z.pow_pos_nonneg; lia). done.
Qed.

Lemma le_bytes_rev n x : le_bytes n x = rev (be_bytes n x).
Proof.
  revert x. induction n as [|n IH]; intros x; [done|]. cbn [be_bytes le_bytes].
  by rewrite rev_app_distr, IH.
Qed.

(** Byte [i] counted from the end. *)
Lemma be_word_nth l i :
  Forall is_byte l -> (i < length l)%nat ->
  nth (length l - 1 - i) l 0 = (be_word l / 256 ^ Z.of_nat i) mod 256.
Proof.
  revert i. induction l as [|b l IH] using rev_ind; [cbn; lia|]. intros i [Hl Hb]%Forall_app Hi.
  inversion Hb as [|? ? Hb' _]; subst. unfold is_byte in Hb'. rewrite length_app in *. cbn [length] in *.
  rewrite be_word_app. destruct i as [|i].
  - rewrite Z.div_1_r, app_nth2 by lia. replace (_ - _)%nat with 0%nat by lia. cbn [nth].
    rewrite Z.add_comm, Z.mod_add, Z.mod_small by lia. done.
  - rewrite app_nth1 by lia. rewrite Nat2Z.inj_succ, Z.pow_succ_r by lia.
    rewrite <- Z.div_div, Z.div_add_l, (Z.div_small b), Z.add_0_r by (try apply Z.pow_pos_nonneg; lia).
    rewrite <- IH by (done || lia). f_equal. lia.
Qed.

Lemma be_bytes_nth n x k :
  (k < n)%nat -> nth k (be_bytes n x) 0 = (x / 256 ^ Z.of_nat (n - 1 - k)) mod 256.
Proof.
  revert x. induction n as [|n IH]; intros x Hk; [lia|]. cbn [be_bytes].
  destruct (Nat.eq_dec k n) as [->|Hne].
  - rewrite app_nth2 by (rewrite length_be_bytes; lia). rewrite length_be_bytes, Nat.sub_diag. cbn [nth].
    replace (S n - 1 - n)%nat with 0%nat by lia. by rewrite Z.div_1_r.
  - rewrite app_nth1 by (rewrite length_be_bytes; lia). rewrite IH by lia.
    replace (S n - 1 - k)%nat with (S (n - 1 - k)) by lia. rewrite Nat2Z.inj_succ, Z.pow_succ_r by lia.
    by rewrite Z.div_div by (try apply Z.pow_pos_nonneg; lia).
Qed.

#[export] Hint Resolve be_bytes_range le_bytes_range : words.
Create Rewrite HintDb byte_length.
#[export] Hint Rewrite length_be_bytes length_le_bytes : byte_length.

Lemma le_word_bytes n x : le_word (le_bytes n x) = x mod 256 ^ Z.of_nat n.
Proof.
  revert x. induction n as [|n IH]; intros x; [symmetry; apply Z.mod_1_r|]. cbn [le_bytes le_word]. rewrite IH.
  rewrite Nat2Z.inj_succ, Z.pow_succ_r, Z.rem_mul_r by lia. done.
Qed.

(** ** Copies into a buffer *)

(** [memcpy(dst + off, src, length src)] on a buffer that is large enough. *)
Definition memcpy (dst : bytes) (off : nat) (src : bytes) : bytes :=
  take off dst ++ src ++ drop (off + length src) dst.

Lemma length_memcpy dst off src :
  (off + length src <= length dst)%nat -> length (memcpy dst off src) = length dst.
Proof. intros H. unfold memcpy. rewrite !length_app, length_take, length_drop. lia. Qed.

Lemma memcpy_prefix dst off src :
  (off <= length dst)%nat -> take (off + length src) (memcpy dst off src) = take off dst ++ src.
Proof.
  intros H. unfold memcpy. rewrite app_assoc. rewrite take_app_le, take_ge; [done|..];
    rewrite !length_app, length_take; lia.
Qed.

(** Writing behind a prefix that has been written. *)
Lemma memcpy_after pre off b b0 src :
  off = length pre -> (off <= length b0)%nat -> b = pre ++ drop (length pre) b0 ->
  memcpy b off src = (pre ++ src) ++ drop (length (pre ++ src)) b0.
Proof.
  intros -> Hl ->. unfold memcpy. rewrite take_app_length, <- app_assoc. f_equal. f_equal.
  rewrite drop_app_ge by lia. rewrite drop_drop, length_app. f_equal. lia.
Qed.
