(* ===== verification/Fips.v ===== *)
(** * SHA-256, HMAC and the RFC 6979 generator as their standards define them

    FIPS 180-4, RFC 2104 and RFC 6979 section 3.2, written from the standards
    and independent of the C code: what Sha256.v is checked against. *)

From Stdlib Require Import ZArith Lia List.
From stdpp Require Import base list.
From S2P Require Import Prelude Words.
Local Open Scope Z_scope.
Local Open Scope word_scope.

(** The eight chaining words. *)
Record S8 := mkS8 { s_0 : Z; s_1 : Z; s_2 : Z; s_3 : Z; s_4 : Z; s_5 : Z; s_6 : Z; s_7 : Z }.

Module Fips.

Definition ROTR (n x : Z) : Z := Z.lor (Z.shiftr x n) (u32 (Z.shiftl x (32 - n))).
Definition SHR (n x : Z) : Z := Z.shiftr x n.

Definition Ch (x y z : Z) : Z := Z.lxor (Z.land x y) (Z.land (Z.lnot x) z).
Definition Maj (x y z : Z) : Z := Z.lxor (Z.lxor (Z.land x y) (Z.land x z)) (Z.land y z).
Definition Sigma0 (x : Z) : Z := Z.lxor (Z.lxor (ROTR 2 x) (ROTR 13 x)) (ROTR 22 x).
Definition Sigma1 (x : Z) : Z := Z.lxor (Z.lxor (ROTR 6 x) (ROTR 11 x)) (ROTR 25 x).
Definition sigma0 (x : Z) : Z := Z.lxor (Z.lxor (ROTR 7 x) (ROTR 18 x)) (SHR 3 x).
Definition sigma1 (x : Z) : Z := Z.lxor (Z.lxor (ROTR 17 x) (ROTR 19 x)) (SHR 10 x).

(** The round constants, eight to a row. *)
Definition row_words (row : Z) : list Z :=
  map (fun i => (row / 2 ^ (32 * (7 - Z.of_nat i))) mod 2 ^ 32) (seq 0 8).

Definition K : list Z := Eval vm_compute in
  flat_map row_words
    [0x428a2f9871374491b5c0fbcfe9b5dba53956c25b59f111f1923f82a4ab1c5ed5;
     0xd807aa9812835b01243185be550c7dc372be5d7480deb1fe9bdc06a7c19bf174;
     0xe49b69c1efbe47860fc19dc6240ca1cc2de92c6f4a7484aa5cb0a9dc76f988da;
     0x983e5152a831c66db00327c8bf597fc7c6e00bf3d5a7914706ca635114292967;
     0x27b70a852e1b21384d2c6dfc53380d13650a7354766a0abb81c2c92e92722c85;
     0xa2bfe8a1a81a664bc24b8b70c76c51a3d192e819d6990624f40e3585106aa070;
     0x19a4c1161e376c082748774c34b0bcb5391c0cb34ed8aa4a5b9cca4f682e6ff3;
     0x748f82ee78a5636f84c878148cc7020890befffaa4506cebbef9a3f7c67178f2].

Definition H0 : S8 :=
  mkS8 0x6a09e667 0xbb67ae85 0x3c6ef372 0xa54ff53a 0x510e527f 0x9b05688c 0x1f83d9ab 0x5be0cd19.

(** The next word of the message schedule, from the words so far. *)
Definition next_word (ws : list Z) : Z :=
  let W i := nth (length ws - i) ws 0 in
  u32 (sigma1 (W 2%nat) + W 7%nat + sigma0 (W 15%nat) + W 16%nat).

Fixpoint schedule (n : nat) (ws : list Z) : list Z :=
  match n with O => ws | S n' => schedule n' (ws ++ [next_word ws]) end.

Definition round (r : S8) (kw : Z * Z) : S8 :=
  let '(mkS8 a b c d e f g h) := r in let '(k, w) := kw in
  let T1 := u32 (h + Sigma1 e + Ch e f g + k + w) in
  let T2 := u32 (Sigma0 a + Maj a b c) in
  mkS8 (u32 (T1 + T2)) a b c (u32 (d + T1)) e f g.

Definition add8 (x y : S8) : S8 :=
  mkS8 (u32 (s_0 x + s_0 y)) (u32 (s_1 x + s_1 y)) (u32 (s_2 x + s_2 y)) (u32 (s_3 x + s_3 y))
       (u32 (s_4 x + s_4 y)) (u32 (s_5 x + s_5 y)) (u32 (s_6 x + s_6 y)) (u32 (s_7 x + s_7 y)).

(** The words of a block, big-endian. *)
Fixpoint words (n : nat) (block : bytes) : list Z :=
  match n with O => [] | S n' => be_word (take 4 block) :: words n' (drop 4 block) end.

Definition compress (h : S8) (block : bytes) : S8 :=
  add8 h (fold_left round (combine K (schedule 48 (words 16 block))) h).

(** The blocks of a message whose length is a multiple of 64. *)
Fixpoint blocks (n : nat) (m : bytes) : list bytes :=
  match n with O => [] | S n' => take 64 m :: blocks n' (drop 64 m) end.

Definition hash_blocks (h : S8) (m : bytes) : S8 :=
  fold_left compress (blocks (length m / 64) m) h.

(** One bit, the smallest number of zeros that leaves 8 bytes in the last
    block, and the length in bits as a 64-bit number. *)
Definition pad (m : bytes) : bytes :=
  m ++ 0x80 :: repeat 0 (Z.to_nat ((55 - Z.of_nat (length m)) mod 64)) ++ be_bytes 8 (8 * Z.of_nat (length m)).

Definition digest (h : S8) : bytes :=
  be_bytes 4 (s_0 h) ++ be_bytes 4 (s_1 h) ++ be_bytes 4 (s_2 h) ++ be_bytes 4 (s_3 h) ++
  be_bytes 4 (s_4 h) ++ be_bytes 4 (s_5 h) ++ be_bytes 4 (s_6 h) ++ be_bytes 4 (s_7 h).

Definition SHA256 (m : bytes) : bytes := digest (hash_blocks H0 (pad m)).

(** RFC 2104. *)
Definition hmac_key (key : bytes) : bytes :=
  let k := if (length key <=? 64)%nat then key else SHA256 key in
  k ++ repeat 0 (64 - length k).

Definition HMAC (key m : bytes) : bytes :=
  let k := hmac_key key in
  SHA256 (map (Z.lxor 0x5c) k ++ SHA256 (map (Z.lxor 0x36) k ++ m)).

(** RFC 6979, sections 2.3.3 and 2.3.4, for a group of 256-bit order [q]: the
    bytes of an integer, and those of a message hash, reduced modulo [q]. *)
Definition int2octets (x : Z) : bytes := be_bytes 32 x.
Definition bits2octets (q : Z) (h1 : bytes) : bytes := int2octets (be_word h1 mod q).

(** Section 3.2, step d, with the additional data of section 3.6: what seeds the
    generator, for the secret key [x] and the hash [h1]. *)
Definition rfc6979_input (q x : Z) (h1 extra : bytes) : bytes :=
  int2octets x ++ bits2octets q h1 ++ extra.

(** RFC 6979, section 3.2: the state [K, V], from the seed. *)
Definition rfc6979_seed (seed : bytes) : bytes * bytes :=
  let V0 := repeat 1 32 in
  let K1 := HMAC (repeat 0 32) (V0 ++ [0] ++ seed) in
  let V1 := HMAC K1 V0 in
  let K2 := HMAC K1 (V1 ++ [1] ++ seed) in
  (K2, HMAC K2 V1).

(** The state for the next candidate. *)
Definition rfc6979_next (KV : bytes * bytes) : bytes * bytes :=
  let K := HMAC (fst KV) (snd KV ++ [0]) in (K, HMAC K (snd KV)).

(** [V] after [j] steps, and the blocks [V_1, V_2, ...] put together. *)
Fixpoint V_after (K V : bytes) (j : nat) : bytes :=
  match j with O => V | S j' => V_after K (HMAC K V) j' end.

Fixpoint V_stream (K V : bytes) (j : nat) : bytes :=
  match j with O => [] | S j' => HMAC K V ++ V_stream K (HMAC K V) j' end.

(** The digest of the three letters abc. *)
Example sha256_abc :
  SHA256 [97; 98; 99] =
  be_bytes 32 0xba7816bf8f01cfea414140de5dae2223b00361a396177a9cb410ff61f20015ad.
Proof. vm_compute. reflexivity. Qed.

End Fips.
