(* ===== verification/Sha256.v ===== *)
(** * The hash functions of libsecp256k1 (libsecp256k1/src/hash_impl.h)

    SHA-256 on a stream, HMAC-SHA256 and the RFC 6979 generator, translated from
    the code; the proofs are in Sha256Facts.v. *)

From Stdlib Require Import ZArith Lia List.
From stdpp Require Import base list.
From S2P Require Import Prelude Words Fips.
Local Open Scope Z_scope.
Local Open Scope word_scope.

Module Sha256.

(** ** The macros *)

Definition Ch (x y z : Z) : Z := Z.lxor z (Z.land x (Z.lxor y z)).
Definition Maj (x y z : Z) : Z := Z.lor (Z.land x y) (Z.land z (Z.lor x y)).
Definition Sigma0 (x : Z) : Z :=
  Z.lxor (Z.lxor (Z.lor (Z.shiftr x 2) (u32 (Z.shiftl x 30))) (Z.lor (Z.shiftr x 13) (u32 (Z.shiftl x 19))))
    (Z.lor (Z.shiftr x 22) (u32 (Z.shiftl x 10))).
Definition Sigma1 (x : Z) : Z :=
  Z.lxor (Z.lxor (Z.lor (Z.shiftr x 6) (u32 (Z.shiftl x 26))) (Z.lor (Z.shiftr x 11) (u32 (Z.shiftl x 21))))
    (Z.lor (Z.shiftr x 25) (u32 (Z.shiftl x 7))).
Definition sigma0 (x : Z) : Z :=
  Z.lxor (Z.lxor (Z.lor (Z.shiftr x 7) (u32 (Z.shiftl x 25))) (Z.lor (Z.shiftr x 18) (u32 (Z.shiftl x 14))))
    (Z.shiftr x 3).
Definition sigma1 (x : Z) : Z :=
  Z.lxor (Z.lxor (Z.lor (Z.shiftr x 17) (u32 (Z.shiftl x 15))) (Z.lor (Z.shiftr x 19) (u32 (Z.shiftl x 13))))
    (Z.shiftr x 10).

(** The new values of [d] and [h]. *)
Definition Round (a b c d e f g h k w : Z) : Z * Z :=
  let t1 := u32 (u32 (u32 (u32 (h + Sigma1 e) + Ch e f g) + k) + w) in
  let t2 := u32 (Sigma0 a + Maj a b c) in
  (u32 (d + t1), u32 (t1 + t2)).

(** On a little-endian machine. *)
Definition BE32 (p : Z) : Z :=
  u32 (Z.lor (Z.lor (Z.lor (Z.shiftl (Z.land p 0xFF) 24) (Z.shiftl (Z.land p 0xFF00) 8))
    (Z.shiftr (Z.land p 0xFF0000) 8)) (Z.shiftr (Z.land p 0xFF000000) 24)).

(** [buf] is the byte view of [uint32_t buf[16]]. *)
Record secp256k1_sha256_t := mkSha { s : S8; buf : bytes; bytes_ : Z }.

Definition secp256k1_sha256_initialize (buf : bytes) : secp256k1_sha256_t :=
  mkSha (mkS8 0x6a09e667 0xbb67ae85 0x3c6ef372 0xa54ff53a 0x510e527f 0x9b05688c 0x1f83d9ab 0x5be0cd19)
    buf 0.

(** [((uint32_t * )buf)[i]]. *)
Definition word_at (buf : bytes) (i : Z) : Z := le_word (take 4 (drop (Z.to_nat (4 * i)) buf)).

(** The sixteen words [w0 .. w15]. *)
Record W16 := mkW16 {
  w_0 : Z; w_1 : Z; w_2 : Z; w_3 : Z; w_4 : Z; w_5 : Z; w_6 : Z; w_7 : Z;
  w_8 : Z; w_9 : Z; w_10 : Z; w_11 : Z; w_12 : Z; w_13 : Z; w_14 : Z; w_15 : Z }.

Definition rounds_0_15 (chunk : Z -> Z) (r : S8) : S8 * W16 :=
  let '(mkS8 a b c d e f g h) := r in
  let w0 := BE32 (chunk 0) in let '(d, h) := Round a b c d e f g h 0x428a2f98 w0 in
  let w1 := BE32 (chunk 1) in let '(c, g) := Round h a b c d e f g 0x71374491 w1 in
  let w2 := BE32 (chunk 2) in let '(b, f) := Round g h a b c d e f 0xb5c0fbcf w2 in
  let w3 := BE32 (chunk 3) in let '(a, e) := Round f g h a b c d e 0xe9b5dba5 w3 in
  let w4 := BE32 (chunk 4) in let '(h, d) := Round e f g h a b c d 0x3956c25b w4 in
  let w5 := BE32 (chunk 5) in let '(g, c) := Round d e f g h a b c 0x59f111f1 w5 in
  let w6 := BE32 (chunk 6) in let '(f, b) := Round c d e f g h a b 0x923f82a4 w6 in
  let w7 := BE32 (chunk 7) in let '(e, a) := Round b c d e f g h a 0xab1c5ed5 w7 in
  let w8 := BE32 (chunk 8) in let '(d, h) := Round a b c d e f g h 0xd807aa98 w8 in
  let w9 := BE32 (chunk 9) in let '(c, g) := Round h a b c d e f g 0x12835b01 w9 in
  let w10 := BE32 (chunk 10) in let '(b, f) := Round g h a b c d e f 0x243185be w10 in
  let w11 := BE32 (chunk 11) in let '(a, e) := Round f g h a b c d e 0x550c7dc3 w11 in
  let w12 := BE32 (chunk 12) in let '(h, d) := Round e f g h a b c d 0x72be5d74 w12 in
  let w13 := BE32 (chunk 13) in let '(g, c) := Round d e f g h a b c 0x80deb1fe w13 in
  let w14 := BE32 (chunk 14) in let '(f, b) := Round c d e f g h a b 0x9bdc06a7 w14 in
  let w15 := BE32 (chunk 15) in let '(e, a) := Round b c d e f g h a 0xc19bf174 w15 in
  (mkS8 a b c d e f g h, mkW16 w0 w1 w2 w3 w4 w5 w6 w7 w8 w9 w10 w11 w12 w13 w14 w15).

Definition rounds_16_31 (r : S8) (w : W16) : S8 * W16 :=
  let '(mkS8 a b c d e f g h) := r in
  let '(mkW16 w0 w1 w2 w3 w4 w5 w6 w7 w8 w9 w10 w11 w12 w13 w14 w15) := w in
  let w0 := u32 (w0 + u32 ((u32 (sigma1 w14 + w9)) + sigma0 w1)) in
  let '(d, h) := Round a b c d e f g h 0xe49b69c1 w0 in
  let w1 := u32 (w1 + u32 ((u32 (sigma1 w15 + w10)) + sigma0 w2)) in
  let '(c, g) := Round h a b c d e f g 0xefbe4786 w1 in
  let w2 := u32 (w2 + u32 ((u32 (sigma1 w0 + w11)) + sigma0 w3)) in
  let '(b, f) := Round g h a b c d e f 0x0fc19dc6 w2 in
  let w3 := u32 (w3 + u32 ((u32 (sigma1 w1 + w12)) + sigma0 w4)) in
  let '(a, e) := Round f g h a b c d e 0x240ca1cc w3 in
  let w4 := u32 (w4 + u32 ((u32 (sigma1 w2 + w13)) + sigma0 w5)) in
  let '(h, d) := Round e f g h a b c d 0x2de92c6f w4 in
  let w5 := u32 (w5 + u32 ((u32 (sigma1 w3 + w14)) + sigma0 w6)) in
  let '(g, c) := Round d e f g h a b c 0x4a7484aa w5 in
  let w6 := u32 (w6 + u32 ((u32 (sigma1 w4 + w15)) + sigma0 w7)) in
  let '(f, b) := Round c d e f g h a b 0x5cb0a9dc w6 in
  let w7 := u32 (w7 + u32 ((u32 (sigma1 w5 + w0)) + sigma0 w8)) in
  let '(e, a) := Round b c d e f g h a 0x76f988da w7 in
  let w8 := u32 (w8 + u32 ((u32 (sigma1 w6 + w1)) + sigma0 w9)) in
  let '(d, h) := Round a b c d e f g h 0x983e5152 w8 in
  let w9 := u32 (w9 + u32 ((u32 (sigma1 w7 + w2)) + sigma0 w10)) in
  let '(c, g) := Round h a b c d e f g 0xa831c66d w9 in
  let w10 := u32 (w10 + u32 ((u32 (sigma1 w8 + w3)) + sigma0 w11)) in
  let '(b, f) := Round g h a b c d e f 0xb00327c8 w10 in
  let w11 := u32 (w11 + u32 ((u32 (sigma1 w9 + w4)) + sigma0 w12)) in
  let '(a, e) := Round f g h a b c d e 0xbf597fc7 w11 in
  let w12 := u32 (w12 + u32 ((u32 (sigma1 w10 + w5)) + sigma0 w13)) in
  let '(h, d) := Round e f g h a b c d 0xc6e00bf3 w12 in
  let w13 := u32 (w13 + u32 ((u32 (sigma1 w11 + w6)) + sigma0 w14)) in
  let '(g, c) := Round d e f g h a b c 0xd5a79147 w13 in
  let w14 := u32 (w14 + u32 ((u32 (sigma1 w12 + w7)) + sigma0 w15)) in
  let '(f, b) := Round c d e f g h a b 0x06ca6351 w14 in
  let w15 := u32 (w15 + u32 ((u32 (sigma1 w13 + w8)) + sigma0 w0)) in
  let '(e, a) := Round b c d e f g h a 0x14292967 w15 in
  (mkS8 a b c d e f g h, mkW16 w0 w1 w2 w3 w4 w5 w6 w7 w8 w9 w10 w11 w12 w13 w14 w15).

Definition rounds_32_47 (r : S8) (w : W16) : S8 * W16 :=
  let '(mkS8 a b c d e f g h) := r in
  let '(mkW16 w0 w1 w2 w3 w4 w5 w6 w7 w8 w9 w10 w11 w12 w13 w14 w15) := w in
  let w0 := u32 (w0 + u32 ((u32 (sigma1 w14 + w9)) + sigma0 w1)) in
  let '(d, h) := Round a b c d e f g h 0x27b70a85 w0 in
  let w1 := u32 (w1 + u32 ((u32 (sigma1 w15 + w10)) + sigma0 w2)) in
  let '(c, g) := Round h a b c d e f g 0x2e1b2138 w1 in
  let w2 := u32 (w2 + u32 ((u32 (sigma1 w0 + w11)) + sigma0 w3)) in
  let '(b, f) := Round g h a b c d e f 0x4d2c6dfc w2 in
  let w3 := u32 (w3 + u32 ((u32 (sigma1 w1 + w12)) + sigma0 w4)) in
  let '(a, e) := Round f g h a b c d e 0x53380d13 w3 in
  let w4 := u32 (w4 + u32 ((u32 (sigma1 w2 + w13)) + sigma0 w5)) in
  let '(h, d) := Round e f g h a b c d 0x650a7354 w4 in
  let w5 := u32 (w5 + u32 ((u32 (sigma1 w3 + w14)) + sigma0 w6)) in
  let '(g, c) := Round d e f g h a b c 0x766a0abb w5 in
  let w6 := u32 (w6 + u32 ((u32 (sigma1 w4 + w15)) + sigma0 w7)) in
  let '(f, b) := Round c d e f g h a b 0x81c2c92e w6 in
  let w7 := u32 (w7 + u32 ((u32 (sigma1 w5 + w0)) + sigma0 w8)) in
  let '(e, a) := Round b c d e f g h a 0x92722c85 w7 in
  let w8 := u32 (w8 + u32 ((u32 (sigma1 w6 + w1)) + sigma0 w9)) in
  let '(d, h) := Round a b c d e f g h 0xa2bfe8a1 w8 in
  let w9 := u32 (w9 + u32 ((u32 (sigma1 w7 + w2)) + sigma0 w10)) in
  let '(c, g) := Round h a b c d e f g 0xa81a664b w9 in
  let w10 := u32 (w10 + u32 ((u32 (sigma1 w8 + w3)) + sigma0 w11)) in
  let '(b, f) := Round g h a b c d e f 0xc24b8b70 w10 in
  let w11 := u32 (w11 + u32 ((u32 (sigma1 w9 + w4)) + sigma0 w12)) in
  let '(a, e) := Round f g h a b c d e 0xc76c51a3 w11 in
  let w12 := u32 (w12 + u32 ((u32 (sigma1 w10 + w5)) + sigma0 w13)) in
  let '(h, d) := Round e f g h a b c d 0xd192e819 w12 in
  let w13 := u32 (w13 + u32 ((u32 (sigma1 w11 + w6)) + sigma0 w14)) in
  let '(g, c) := Round d e f g h a b c 0xd6990624 w13 in
  let w14 := u32 (w14 + u32 ((u32 (sigma1 w12 + w7)) + sigma0 w15)) in
  let '(f, b) := Round c d e f g h a b 0xf40e3585 w14 in
  let w15 := u32 (w15 + u32 ((u32 (sigma1 w13 + w8)) + sigma0 w0)) in
  let '(e, a) := Round b c d e f g h a 0x106aa070 w15 in
  (mkS8 a b c d e f g h, mkW16 w0 w1 w2 w3 w4 w5 w6 w7 w8 w9 w10 w11 w12 w13 w14 w15).

Definition rounds_48_63 (r : S8) (w : W16) : S8 :=
  let '(mkS8 a b c d e f g h) := r in
  let '(mkW16 w0 w1 w2 w3 w4 w5 w6 w7 w8 w9 w10 w11 w12 w13 w14 w15) := w in
  let w0 := u32 (w0 + u32 ((u32 (sigma1 w14 + w9)) + sigma0 w1)) in
  let '(d, h) := Round a b c d e f g h 0x19a4c116 w0 in
  let w1 := u32 (w1 + u32 ((u32 (sigma1 w15 + w10)) + sigma0 w2)) in
  let '(c, g) := Round h a b c d e f g 0x1e376c08 w1 in
  let w2 := u32 (w2 + u32 ((u32 (sigma1 w0 + w11)) + sigma0 w3)) in
  let '(b, f) := Round g h a b c d e f 0x2748774c w2 in
  let w3 := u32 (w3 + u32 ((u32 (sigma1 w1 + w12)) + sigma0 w4)) in
  let '(a, e) := Round f g h a b c d e 0x34b0bcb5 w3 in
  let w4 := u32 (w4 + u32 ((u32 (sigma1 w2 + w13)) + sigma0 w5)) in
  let '(h, d) := Round e f g h a b c d 0x391c0cb3 w4 in
  let w5 := u32 (w5 + u32 ((u32 (sigma1 w3 + w14)) + sigma0 w6)) in
  let '(g, c) := Round d e f g h a b c 0x4ed8aa4a w5 in
  let w6 := u32 (w6 + u32 ((u32 (sigma1 w4 + w15)) + sigma0 w7)) in
  let '(f, b) := Round c d e f g h a b 0x5b9cca4f w6 in
  let w7 := u32 (w7 + u32 ((u32 (sigma1 w5 + w0)) + sigma0 w8)) in
  let '(e, a) := Round b c d e f g h a 0x682e6ff3 w7 in
  let w8 := u32 (w8 + u32 ((u32 (sigma1 w6 + w1)) + sigma0 w9)) in
  let '(d, h) := Round a b c d e f g h 0x748f82ee w8 in
  let w9 := u32 (w9 + u32 ((u32 (sigma1 w7 + w2)) + sigma0 w10)) in
  let '(c, g) := Round h a b c d e f g 0x78a5636f w9 in
  let w10 := u32 (w10 + u32 ((u32 (sigma1 w8 + w3)) + sigma0 w11)) in
  let '(b, f) := Round g h a b c d e f 0x84c87814 w10 in
  let w11 := u32 (w11 + u32 ((u32 (sigma1 w9 + w4)) + sigma0 w12)) in
  let '(a, e) := Round f g h a b c d e 0x8cc70208 w11 in
  let w12 := u32 (w12 + u32 ((u32 (sigma1 w10 + w5)) + sigma0 w13)) in
  let '(h, d) := Round e f g h a b c d 0x90befffa w12 in
  let w13 := u32 (w13 + u32 ((u32 (sigma1 w11 + w6)) + sigma0 w14)) in
  let '(g, c) := Round d e f g h a b c 0xa4506ceb w13 in
  let '(f, b) := Round c d e f g h a b 0xbef9a3f7 (u32 ((u32 ((u32 (w14 + sigma1 w12)) + w7)) + sigma0 w15)) in
  let '(e, a) := Round b c d e f g h a 0xc67178f2 (u32 ((u32 ((u32 (w15 + sigma1 w13)) + w8)) + sigma0 w0)) in
  mkS8 a b c d e f g h.

Definition secp256k1_sha256_transform (s : S8) (buf : bytes) : S8 :=
  let '(r, w) := rounds_0_15 (word_at buf) s in
  let '(r, w) := rounds_16_31 r w in
  let '(r, w) := rounds_32_47 r w in
  let '(mkS8 a b c d e f g h) := rounds_48_63 r w in
  mkS8 (u32 (s_0 s + a)) (u32 (s_1 s + b)) (u32 (s_2 s + c)) (u32 (s_3 s + d))
       (u32 (s_4 s + e)) (u32 (s_5 s + f)) (u32 (s_6 s + g)) (u32 (s_7 s + h)).

(** [secp256k1_sha256_write]: the loop, and the copy of what remains. *)
Fixpoint write_loop (fuel : nat) (h : secp256k1_sha256_t) (bufsize : nat) (data : bytes)
  : secp256k1_sha256_t * nat * bytes :=
  match fuel with
  | O => (h, bufsize, data)
  | S fuel' =>
      if (64 <=? bufsize + length data)%nat then
        let b := memcpy (buf h) bufsize (take (64 - bufsize) data) in
        write_loop fuel' (mkSha (secp256k1_sha256_transform (s h) b) b (bytes_ h)) 0
          (drop (64 - bufsize) data)
      else (h, bufsize, data)
  end.

Definition secp256k1_sha256_write (h : secp256k1_sha256_t) (data : bytes) : secp256k1_sha256_t :=
  let bufsize := Z.to_nat (Z.land (bytes_ h) 0x3F) in
  let h := mkSha (s h) (buf h) (u64 (bytes_ h + Z.of_nat (length data))) in
  let '(h, bufsize, data) := write_loop (S (length data)) h bufsize data in
  if (length data =? 0)%nat then h
  else mkSha (s h) (memcpy (buf h) bufsize data) (bytes_ h).

Definition pad : bytes := 0x80 :: repeat 0 63.

(** The state, with its words cleared, and the digest. *)
Definition secp256k1_sha256_finalize (h : secp256k1_sha256_t) : secp256k1_sha256_t * bytes :=
  let sizedesc0 := BE32 (Z.shiftr (bytes_ h) 29) in
  let sizedesc1 := BE32 (u64 (Z.shiftl (bytes_ h) 3)) in
  let n := 1 + (119 - bytes_ h mod 64) mod 64 in
  let h := secp256k1_sha256_write h (take (Z.to_nat n) pad) in
  let h := secp256k1_sha256_write h (le_bytes 4 sizedesc0 ++ le_bytes 4 sizedesc1) in
  let out i := le_bytes 4 (BE32 i) in
  (mkSha (mkS8 0 0 0 0 0 0 0 0) (buf h) (bytes_ h),
   out (s_0 (s h)) ++ out (s_1 (s h)) ++ out (s_2 (s h)) ++ out (s_3 (s h)) ++
   out (s_4 (s h)) ++ out (s_5 (s h)) ++ out (s_6 (s h)) ++ out (s_7 (s h))).

(** ** HMAC *)

Record secp256k1_hmac_sha256_t := mkHmac { inner : secp256k1_sha256_t; outer : secp256k1_sha256_t }.

(** [junk] is what the uninitialised buffers hold. *)
Definition secp256k1_hmac_sha256_initialize (junk : bytes) (key : bytes) : secp256k1_hmac_sha256_t :=
  let rkey :=
    if (length key <=? 64)%nat then key ++ repeat 0 (64 - length key)
    else
      let sha256 := secp256k1_sha256_write (secp256k1_sha256_initialize junk) key in
      snd (secp256k1_sha256_finalize sha256) ++ repeat 0 32 in
  let rkey := map (fun b => Z.lxor b 0x5c) rkey in
  let outer := secp256k1_sha256_write (secp256k1_sha256_initialize junk) rkey in
  let rkey := map (fun b => Z.lxor b (Z.lxor 0x5c 0x36)) rkey in
  let inner := secp256k1_sha256_write (secp256k1_sha256_initialize junk) rkey in
  mkHmac inner outer.

Definition secp256k1_hmac_sha256_write (h : secp256k1_hmac_sha256_t) (data : bytes)
  : secp256k1_hmac_sha256_t :=
  mkHmac (secp256k1_sha256_write (inner h) data) (outer h).

Definition secp256k1_hmac_sha256_finalize (h : secp256k1_hmac_sha256_t)
  : secp256k1_hmac_sha256_t * bytes :=
  let '(inner, temp) := secp256k1_sha256_finalize (inner h) in
  let outer := secp256k1_sha256_write (outer h) temp in
  let '(outer, out32) := secp256k1_sha256_finalize outer in
  (mkHmac inner outer, out32).

(** ** RFC 6979 *)

Record secp256k1_rfc6979_hmac_sha256_t := mkRng { v : bytes; k : bytes; retry : Z }.

(** [initialize(&hmac, key, 32); write each part; finalize]. *)
Definition hmac_parts (junk key : bytes) (parts : list bytes) : bytes :=
  snd (secp256k1_hmac_sha256_finalize
    (fold_left secp256k1_hmac_sha256_write parts (secp256k1_hmac_sha256_initialize junk key))).

Definition secp256k1_rfc6979_hmac_sha256_initialize (junk key : bytes) : secp256k1_rfc6979_hmac_sha256_t :=
  let v := repeat 1 32 in
  let k := repeat 0 32 in
  let k := hmac_parts junk k [v; [0]; key] in
  let v := hmac_parts junk k [v] in
  let k := hmac_parts junk k [v; [1]; key] in
  let v := hmac_parts junk k [v] in
  mkRng v k 0.

(** The [while (outlen > 0)] loop: the new [v] and the output. *)
Fixpoint generate_loop (fuel : nat) (junk v k : bytes) (outlen : nat) : bytes * bytes :=
  match fuel with
  | O => (v, [])
  | S fuel' =>
      if (outlen =? 0)%nat then (v, [])
      else
        let v := hmac_parts junk k [v] in
        let now := Nat.min outlen 32 in
        let '(v', out) := generate_loop fuel' junk v k (outlen - now) in
        (v', take now v ++ out)
  end.

Definition secp256k1_rfc6979_hmac_sha256_generate (junk : bytes) (rng : secp256k1_rfc6979_hmac_sha256_t)
    (outlen : nat) : secp256k1_rfc6979_hmac_sha256_t * bytes :=
  let '(v, k) :=
    if retry rng =? 0 then (v rng, k rng)
    else
      let k := hmac_parts junk (k rng) [v rng; [0]] in
      (hmac_parts junk k [v rng], k) in
  let '(v, out) := generate_loop outlen junk v k outlen in
  (mkRng v k 1, out).

Definition secp256k1_rfc6979_hmac_sha256_finalize (rng : secp256k1_rfc6979_hmac_sha256_t)
  : secp256k1_rfc6979_hmac_sha256_t := mkRng (repeat 0 32) (repeat 0 32) 0.

End Sha256.
