(* ===== verification/Sha256Facts.v ===== *)
(** * The hash functions implement their standards

    The code hashes a stream: any sequence of writes followed by the
    finalisation is the hash of the concatenation, for messages below 2^61
    bytes, the range of the bit counter. *)

From Stdlib Require Import ZArith Lia List.
From stdpp Require Import base list.
From S2P Require Import Prelude Words Fips Sha256.
Local Open Scope Z_scope.
Local Open Scope word_scope.

(** ** One block: the code is the compression function *)

Module Sha256Facts.
Import Sha256.

Lemma Ch_fips x y z : Ch x y z = Fips.Ch x y z.
Proof.
  apply Z.bits_inj'. intros i Hi. unfold Ch, Fips.Ch.
  repeat first [rewrite Z.lxor_spec|rewrite Z.land_spec|rewrite Z.lnot_spec by lia].
  by destruct (Z.testbit x i), (Z.testbit y i), (Z.testbit z i).
Qed.

Lemma Maj_fips x y z : Maj x y z = Fips.Maj x y z.
Proof.
  apply Z.bits_inj'. intros i Hi. unfold Maj, Fips.Maj.
  repeat first [rewrite Z.lxor_spec|rewrite Z.land_spec|rewrite Z.lor_spec].
  by destruct (Z.testbit x i), (Z.testbit y i), (Z.testbit z i).
Qed.

(** A sum of words may be reduced after each addition. *)
Lemma wrap_sum4 a b c d : u32 (u32 (u32 (a + b) + c) + d) = u32 (a + b + c + d).
Proof. by rewrite <- (wrap_add_l 32 (a + b + c)), <- (wrap_add_l 32 (a + b)). Qed.

Lemma wrap_sum5 a b c d e : u32 (u32 (u32 (u32 (a + b) + c) + d) + e) = u32 (a + b + c + d + e).
Proof. by rewrite <- (wrap_add_l 32 (a + b + c + d)), <- wrap_sum4. Qed.

(** One [Round] is one step of the specification, with the registers renamed
    instead of moved. *)
Lemma round_step a b c d e f g h k w d' h' :
  Round a b c d e f g h k w = (d', h') ->
  Fips.round (mkS8 a b c d e f g h) (k, w) = mkS8 h' a b c d' e f g.
Proof.
  unfold Round, Fips.round. intros [= <- <-]. rewrite Ch_fips, Maj_fips.
  change Sigma0 with Fips.Sigma0. change Sigma1 with Fips.Sigma1.
  by rewrite (wrap_sum5 h (Fips.Sigma1 e) (Fips.Ch e f g)).
Qed.

Lemma word_sum w0 w1 w9 w14 :
  u32 (w0 + u32 (u32 (sigma1 w14 + w9) + sigma0 w1)) =
  u32 (Fips.sigma1 w14 + w9 + Fips.sigma0 w1 + w0).
Proof.
  change Fips.sigma0 with sigma0. change Fips.sigma1 with sigma1.
  rewrite wrap_add_l, wrap_add_r. f_equal. lia.
Qed.

Lemma word_sum_inline w0 w1 w9 w14 :
  u32 (u32 (u32 (w0 + sigma1 w14) + w9) + sigma0 w1) =
  u32 (Fips.sigma1 w14 + w9 + Fips.sigma0 w1 + w0).
Proof.
  change Fips.sigma0 with sigma0. change Fips.sigma1 with sigma1.
  rewrite wrap_sum4. f_equal. lia.
Qed.

Lemma schedule_step n ws w :
  Fips.next_word ws = w -> Fips.schedule (S n) ws = Fips.schedule n (ws ++ [w]).
Proof. intros <-. reflexivity. Qed.

(** ** Words in memory *)

Lemma BE32_bytes p b0 b1 b2 b3 :
  is_byte b0 -> is_byte b1 -> is_byte b2 -> is_byte b3 ->
  p mod 2 ^ 32 = b0 + 256 * (b1 + 256 * (b2 + 256 * b3)) ->
  BE32 p = b0 * 2 ^ 24 + b1 * 2 ^ 16 + b2 * 2 ^ 8 + b3.
Proof.
  unfold is_byte, BE32. intros H0 H1 H2 H3 Hp.
  change 0xFF with ((2 ^ 8 - 1) * 2 ^ 0). change 0xFF00 with ((2 ^ 8 - 1) * 2 ^ 8).
  change 0xFF0000 with ((2 ^ 8 - 1) * 2 ^ 16). change 0xFF000000 with ((2 ^ 8 - 1) * 2 ^ 24).
  rewrite !land_field, !Z.shiftl_mul_pow2, !Z.shiftr_div_pow2 by lia.
  assert (E : (p / 2 ^ 0) mod 2 ^ 8 = b0 /\ (p / 2 ^ 8) mod 2 ^ 8 = b1 /\
              (p / 2 ^ 16) mod 2 ^ 8 = b2 /\ (p / 2 ^ 24) mod 2 ^ 8 = b3).
  { change (2 ^ 0) with 1. change (2 ^ 8) with 256. change (2 ^ 16) with 65536.
    change (2 ^ 24) with 16777216. change (2 ^ 32) with 4294967296 in Hp.
    Z.to_euclidean_division_equations. lia. }
  destruct E as (-> & -> & -> & ->).
  replace (b2 * 2 ^ 16 / 2 ^ 8) with (b2 * 2 ^ 8) by (apply Z.div_unique_exact; lia).
  replace (b3 * 2 ^ 24 / 2 ^ 24) with b3 by (apply Z.div_unique_exact; lia).
  rewrite <- !Z.lor_assoc, (Z.lor_comm (b2 * 2 ^ 8)), (lor_high b3 b2 8) by lia.
  replace (b1 * 2 ^ 8 * 2 ^ 8) with (b1 * 2 ^ 16) by lia.
  rewrite (Z.lor_comm (b1 * 2 ^ 16)), (lor_high _ b1 16) by lia.
  replace (b0 * 2 ^ 0 * 2 ^ 24) with (b0 * 2 ^ 24) by lia.
  rewrite (Z.lor_comm (b0 * 2 ^ 24)), (lor_high _ b0 24) by lia.
  rewrite wrap_small by lia. lia.
Qed.

Lemma BE32_word l : length l = 4%nat -> Forall is_byte l -> BE32 (le_word l) = be_word l.
Proof.
  destruct l as [|b0 [|b1 [|b2 [|b3 []]]]]; try done. intros _ Hl.
  rewrite !Forall_cons in Hl. destruct Hl as (H0 & H1 & H2 & H3 & _).
  rewrite (BE32_bytes _ b0 b1 b2 b3 H0 H1 H2 H3).
  - unfold be_word. cbn [fold_left]. lia.
  - unfold is_byte in *. cbn [le_word]. rewrite Z.mod_small; lia.
Qed.

Lemma BE32_store p : le_bytes 4 (BE32 p) = be_bytes 4 p.
Proof.
  assert (Hb : forall z, is_byte (z mod 256)) by (intros z; apply Z.mod_pos_bound; lia).
  rewrite (BE32_bytes p _ _ _ _ (Hb p) (Hb (p / 256)) (Hb (p / 256 / 256)) (Hb (p / 256 / 256 / 256))).
  - cbn [le_bytes be_bytes app]. set (a := p mod 256). set (b := p / 256 mod 256).
    set (c := p / 256 / 256 mod 256). set (d := p / 256 / 256 / 256 mod 256).
    assert (Ha := Hb p). assert (Hb' := Hb (p / 256)). assert (Hc := Hb (p / 256 / 256)).
    assert (Hd := Hb (p / 256 / 256 / 256)). fold a b c d in Ha, Hb', Hc, Hd. unfold is_byte in *.
    clearbody a b c d. clear p Hb. set (n := a * _ + _ + _ + d).
    assert (E : n mod 256 = d /\ n / 256 mod 256 = c /\ n / 256 / 256 mod 256 = b /\
                n / 256 / 256 / 256 mod 256 = a)
      by (subst n; Z.to_euclidean_division_equations; lia).
    by destruct E as (-> & -> & -> & ->).
  - change (2 ^ 32) with 4294967296. Z.to_euclidean_division_equations. lia.
Qed.

Lemma words_at (b : bytes) n i :
  Forall is_byte b -> (4 * (i + n) <= length b)%nat ->
  Fips.words n (drop (4 * i) b) = map (fun j => BE32 (word_at b (Z.of_nat j))) (seq i n).
Proof.
  intros Hb. revert i. induction n as [|n IH]; intros i Hl; [done|]. cbn [Fips.words seq map]. f_equal.
  - unfold word_at. replace (Z.to_nat (4 * Z.of_nat i)) with (4 * i)%nat by lia.
    symmetry. apply BE32_word; [rewrite length_take, length_drop; lia|]. auto using Forall_take, Forall_drop.
  - rewrite drop_drop. replace (4 * i + 4)%nat with (4 * S i)%nat by lia. apply IH. lia.
Qed.

(** Walks through the code: names the words and the registers of each round. *)
Lemma let_named {A B} (e : A) (R : A -> B) (y : B) :
  (forall w, w = e -> R w = y) -> (let x := e in R x) = y.
Proof. intros H. by apply H. Qed.

#[local] Opaque Round sigma0 sigma1 wrap.

Lemma pair_named {A B C} (p : A * B) (R : A -> B -> C) (y : C) :
  (forall a b, p = (a, b) -> R a b = y) -> (let '(a, b) := p in R a b) = y.
Proof. intros H. destruct p. by apply H. Qed.

Ltac code_step :=
  lazymatch goal with
  | |- (let x := ?e in @?R x) = ?y =>
      apply (let_named e R y); let w := fresh "w" in let E := fresh "Ew" in intros w E; cbv beta
  | |- (match ?p with (x, y) => @?R x y end) = ?z =>
      apply (pair_named p R z); let d := fresh "r" in let h := fresh "r" in let E := fresh "Er" in
      intros d h E; cbv beta
  end.

Lemma round_fold a b c d e f g h k w d' h' l y :
  Round a b c d e f g h k w = (d', h') ->
  fold_left Fips.round l (mkS8 h' a b c d' e f g) = y ->
  fold_left Fips.round ((k, w) :: l) (mkS8 a b c d e f g h) = y.
Proof. intros E <-. cbn [fold_left]. by rewrite (round_step _ _ _ _ _ _ _ _ _ _ _ _ E). Qed.

Definition words_list (w : W16) : list Z :=
  [w_0 w; w_1 w; w_2 w; w_3 w; w_4 w; w_5 w; w_6 w; w_7 w;
   w_8 w; w_9 w; w_10 w; w_11 w; w_12 w; w_13 w; w_14 w; w_15 w].

#[local] Opaque Fips.round Fips.sigma0 Fips.sigma1.

Lemma rounds_0_15_spec chunk r :
  let W i := BE32 (chunk i) in
  let w := mkW16 (W 0) (W 1) (W 2) (W 3) (W 4) (W 5) (W 6) (W 7)
                 (W 8) (W 9) (W 10) (W 11) (W 12) (W 13) (W 14) (W 15) in
  rounds_0_15 chunk r = (fold_left Fips.round (combine (take 16 Fips.K) (words_list w)) r, w).
Proof.
  intros W w. destruct r as [a b c d e f g h]. cbv beta iota delta [rounds_0_15]. do 32 code_step.
  subst. unfold W. f_equal. cbn [words_list w_0 w_1 w_2 w_3 w_4 w_5 w_6 w_7 w_8 w_9 w_10 w_11 w_12
    w_13 w_14 w_15 take Fips.K combine].
  symmetry. do 16 (eapply round_fold; [eassumption|]). reflexivity.
Qed.

(** The next sixteen words. *)
Definition next_words (w : W16) : W16 :=
  let n w0 w1 w9 w14 := u32 (Fips.sigma1 w14 + w9 + Fips.sigma0 w1 + w0) in
  let '(mkW16 w0 w1 w2 w3 w4 w5 w6 w7 w8 w9 w10 w11 w12 w13 w14 w15) := w in
  let w0 := n w0 w1 w9 w14 in let w1 := n w1 w2 w10 w15 in let w2 := n w2 w3 w11 w0 in
  let w3 := n w3 w4 w12 w1 in let w4 := n w4 w5 w13 w2 in let w5 := n w5 w6 w14 w3 in
  let w6 := n w6 w7 w15 w4 in let w7 := n w7 w8 w0 w5 in let w8 := n w8 w9 w1 w6 in
  let w9 := n w9 w10 w2 w7 in let w10 := n w10 w11 w3 w8 in let w11 := n w11 w12 w4 w9 in
  let w12 := n w12 w13 w5 w10 in let w13 := n w13 w14 w6 w11 in let w14 := n w14 w15 w7 w12 in
  let w15 := n w15 w0 w8 w13 in
  mkW16 w0 w1 w2 w3 w4 w5 w6 w7 w8 w9 w10 w11 w12 w13 w14 w15.

Lemma next_word_suffix pre ws :
  (16 <= length ws)%nat -> Fips.next_word (pre ++ ws) = Fips.next_word ws.
Proof.
  intros H. unfold Fips.next_word. rewrite length_app.
  assert (Hn : forall i, (i <= 16)%nat ->
    nth (length pre + length ws - i) (pre ++ ws) 0 = nth (length ws - i) ws 0).
  { intros i Hi. rewrite app_nth2 by lia. f_equal. lia. }
  by rewrite !Hn by lia.
Qed.

Lemma schedule_suffix n pre ws :
  (16 <= length ws)%nat -> Fips.schedule n (pre ++ ws) = pre ++ Fips.schedule n ws.
Proof.
  revert ws. induction n as [|n IH]; intros ws H; [done|]. cbn [Fips.schedule].
  rewrite next_word_suffix, <- app_assoc, IH by (rewrite ?length_app; lia). done.
Qed.

Lemma schedule_shift n w0 w1 w2 w3 w4 w5 w6 w7 w8 w9 w10 w11 w12 w13 w14 w15 :
  Fips.schedule (S n) [w0; w1; w2; w3; w4; w5; w6; w7; w8; w9; w10; w11; w12; w13; w14; w15] =
  w0 :: Fips.schedule n [w1; w2; w3; w4; w5; w6; w7; w8; w9; w10; w11; w12; w13; w14; w15; u32 (Fips.sigma1 w14 + w9 + Fips.sigma0 w1 + w0)].
Proof.
  exact (schedule_suffix n [w0] [w1; w2; w3; w4; w5; w6; w7; w8; w9; w10; w11; w12; w13; w14; w15; u32 (Fips.sigma1 w14 + w9 + Fips.sigma0 w1 + w0)]
    ltac:(cbn; lia)).
Qed.

Lemma next_words_schedule w n :
  Fips.schedule (16 + n) (words_list w) =
  words_list w ++ Fips.schedule n (words_list (next_words w)).
Proof.
  destruct w as [w0 w1 w2 w3 w4 w5 w6 w7 w8 w9 w10 w11 w12 w13 w14 w15].
  destruct (next_words _) as [v0 v1 v2 v3 v4 v5 v6 v7 v8 v9 v10 v11 v12 v13 v14 v15] eqn:E.
  cbv beta iota delta [next_words] in E. injection E as E0 E1 E2 E3 E4 E5 E6 E7 E8 E9 E10 E11 E12 E13 E14 E15.
  rewrite E0 in *.
  rewrite E1 in *.
  rewrite E2 in *.
  rewrite E3 in *.
  rewrite E4 in *.
  rewrite E5 in *.
  rewrite E6 in *.
  rewrite E7 in *.
  rewrite E8 in *.
  rewrite E9 in *.
  rewrite E10 in *.
  rewrite E11 in *.
  rewrite E12 in *.
  rewrite E13 in *.
  unfold words_list; cbn [w_0 w_1 w_2 w_3 w_4 w_5 w_6 w_7 w_8 w_9 w_10 w_11 w_12 w_13 w_14 w_15 app].
  change (16 + n)%nat with (S (S (S (S (S (S (S (S (S (S (S (S (S (S (S (S n)))))))))))))))).
  rewrite schedule_shift, E0.
  rewrite schedule_shift, E1.
  rewrite schedule_shift, E2.
  rewrite schedule_shift, E3.
  rewrite schedule_shift, E4.
  rewrite schedule_shift, E5.
  rewrite schedule_shift, E6.
  rewrite schedule_shift, E7.
  rewrite schedule_shift, E8.
  rewrite schedule_shift, E9.
  rewrite schedule_shift, E10.
  rewrite schedule_shift, E11.
  rewrite schedule_shift, E12.
  rewrite schedule_shift, E13.
  rewrite schedule_shift, E14.
  rewrite schedule_shift, E15.
  reflexivity.
Qed.

(** A group of rounds: names everything, checks the words, follows the rounds. *)
Ltac group_proof :=
  repeat code_step; symmetry;
  lazymatch goal with
  | |- context [next_words ?w] =>
      let E := fresh "E" in let x := fresh "x" in
      destruct (next_words w) as [] eqn:E; cbv beta iota delta [next_words] in E;
      rewrite ?word_sum, ?word_sum_inline in *; injection E; clear E; intros; subst
  end;
  try f_equal;
  cbn [words_list w_0 w_1 w_2 w_3 w_4 w_5 w_6 w_7 w_8 w_9 w_10 w_11 w_12
    w_13 w_14 w_15 take drop Fips.K combine];
  do 16 (eapply round_fold; [eassumption|]); reflexivity.

Lemma rounds_16_31_spec r w :
  rounds_16_31 r w =
  (fold_left Fips.round (combine (take 16 (drop 16 Fips.K)) (words_list (next_words w))) r, next_words w).
Proof.
  destruct r as [a b c d e f g h], w as [w0 w1 w2 w3 w4 w5 w6 w7 w8 w9 w10 w11 w12 w13 w14 w15].
  cbv beta iota delta [rounds_16_31]. group_proof.
Qed.

Lemma rounds_32_47_spec r w :
  rounds_32_47 r w =
  (fold_left Fips.round (combine (take 16 (drop 32 Fips.K)) (words_list (next_words w))) r, next_words w).
Proof.
  destruct r as [a b c d e f g h], w as [w0 w1 w2 w3 w4 w5 w6 w7 w8 w9 w10 w11 w12 w13 w14 w15].
  cbv beta iota delta [rounds_32_47]. group_proof.
Qed.

Lemma rounds_48_63_spec r w :
  rounds_48_63 r w =
  fold_left Fips.round (combine (take 16 (drop 48 Fips.K)) (words_list (next_words w))) r.
Proof.
  destruct r as [a b c d e f g h], w as [w0 w1 w2 w3 w4 w5 w6 w7 w8 w9 w10 w11 w12 w13 w14 w15].
  cbv beta iota delta [rounds_48_63]. group_proof.
Qed.


(** The constants and words of the four groups. *)
Lemma combine_groups w0 w1 w2 w3 :
  combine Fips.K (words_list w0 ++ words_list w1 ++ words_list w2 ++ words_list w3) =
  combine (take 16 Fips.K) (words_list w0) ++ combine (take 16 (drop 16 Fips.K)) (words_list w1) ++
  combine (take 16 (drop 32 Fips.K)) (words_list w2) ++ combine (take 16 (drop 48 Fips.K)) (words_list w3).
Proof. reflexivity. Qed.

Lemma transform_compress (h : S8) (b : bytes) :
  length b = 64%nat -> Forall is_byte b ->
  secp256k1_sha256_transform h b = Fips.compress h b.
Proof.
  intros Hl Hb. assert (Hw := words_at b 16 0 Hb ltac:(lia)).
  change (drop (4 * 0) b) with b in Hw. unfold Fips.compress, secp256k1_sha256_transform.
  rewrite (rounds_0_15_spec (word_at b) h), Hw. set (w := mkW16 _ _ _ _ _ _ _ _ _ _ _ _ _ _ _ _).
  change (map _ _) with (words_list w). clearbody w.
  rewrite rounds_16_31_spec, rounds_32_47_spec, rounds_48_63_spec.
  change 48%nat with (16 + (16 + (16 + 0)))%nat. rewrite !next_words_schedule.
  change (16 + (16 + (16 + 0)))%nat with 48%nat. cbn [Fips.schedule]. rewrite combine_groups, !fold_left_app.
  unfold Fips.add8. by destruct (fold_left Fips.round (combine (take 16 (drop 48 Fips.K)) _) _).
Qed.

#[local] Transparent Round sigma0 sigma1 wrap Fips.round Fips.sigma0 Fips.sigma1.

(** ** The stream *)

(** What a prefix of the stream leaves unprocessed. *)
Definition rem64 (m : bytes) : bytes := drop (64 * (length m / 64)) m.

Lemma short_blocks h m : (length m < 64)%nat -> Fips.hash_blocks h m = h /\ rem64 m = m.
Proof. intros H. unfold Fips.hash_blocks, rem64. by rewrite Nat.div_small by lia. Qed.

Lemma long_blocks h m :
  (64 <= length m)%nat ->
  Fips.hash_blocks h m = Fips.hash_blocks (Fips.compress h (take 64 m)) (drop 64 m) /\
  rem64 m = rem64 (drop 64 m).
Proof.
  intros H. unfold Fips.hash_blocks, rem64. rewrite drop_drop, length_drop.
  replace (length m) with ((length m - 64) + 1 * 64)%nat at 1 3 by lia.
  rewrite Nat.div_add, Nat.add_1_r by lia. split; [done|]. f_equal. lia.
Qed.

Lemma length_rem64 m : (length (rem64 m) < 64)%nat /\ length (rem64 m) = (length m mod 64)%nat.
Proof.
  unfold rem64. rewrite length_drop. assert (Hd := Nat.div_mod_eq (length m) 64).
  assert (Hm := Nat.mod_upper_bound (length m) 64 ltac:(lia)). lia.
Qed.

(** Processing can stop and resume between any two bytes. *)
Lemma blocks_resume h m d :
  Fips.hash_blocks h (m ++ d) = Fips.hash_blocks (Fips.hash_blocks h m) (rem64 m ++ d) /\
  rem64 (m ++ d) = rem64 (rem64 m ++ d).
Proof.
  revert h. induction m as [m IH] using (induction_ltof1 _ length); unfold ltof in IH; intros h.
  destruct (Nat.lt_ge_cases (length m) 64) as [Hs|Hl].
  - destruct (short_blocks h m Hs) as [-> ->]. done.
  - destruct (long_blocks h m Hl) as [-> ->].
    destruct (long_blocks h (m ++ d)) as [-> ->]; [rewrite length_app; lia|].
    rewrite take_app_le, drop_app_le by lia. apply IH. rewrite length_drop. lia.
Qed.

(** The loop of [write]: all the blocks of the buffered bytes and the data. *)
Lemma write_loop_spec fuel h n data :
  (length data < fuel)%nat -> (n < 64)%nat -> length (buf h) = 64%nat ->
  Forall is_byte (buf h) -> Forall is_byte data ->
  let l := take n (buf h) ++ data in
  let '(h', n', rest) := write_loop fuel h n data in
  s h' = Fips.hash_blocks (s h) l /\ take n' (buf h') ++ rest = rem64 l /\
  length (buf h') = 64%nat /\ Forall is_byte (buf h') /\ bytes_ h' = bytes_ h /\
  (n' + length rest < 64)%nat /\ Forall is_byte rest.
Proof.
  revert h n data. induction fuel as [|fuel IH]; [lia|]. intros h n data Hf Hn Hb Hbb Hd.
  cbn [write_loop]. set (l := take n (buf h) ++ data).
  assert (Hl : length l = (n + length data)%nat) by (unfold l; rewrite length_app, length_take; lia).
  destruct (Nat.leb_spec 64 (n + length data)) as [Hge|Hlt].
  - set (b := memcpy (buf h) n (take (64 - n) data)).
    assert (Eb : b = take 64 l).
    { unfold b, l, memcpy. rewrite (drop_ge (buf h)) by (rewrite length_take; lia).
      rewrite app_nil_r, take_app, take_take, length_take. do 2 f_equal; lia. }
    assert (Ed : drop (64 - n) data = drop 64 l).
    { unfold l. rewrite drop_app, (drop_ge (take n (buf h))) by (rewrite length_take; lia).
      rewrite length_take. cbn [app]. f_equal. lia. }
    assert (Hl64 : length b = 64%nat) by (rewrite Eb, length_take; lia).
    assert (Hlb : Forall is_byte l) by (apply Forall_app; auto using Forall_take).
    destruct (long_blocks (s h) l ltac:(lia)) as [-> ->]. rewrite <- Eb, <- Ed.
    rewrite <- transform_compress by (rewrite ?Eb; auto using Forall_take; rewrite <- Eb; done).
    apply (IH (mkSha (secp256k1_sha256_transform (s h) b) b (bytes_ h)) 0%nat (drop (64 - n) data));
      cbn [buf]; [rewrite length_drop; lia|lia|done|rewrite Eb|]; auto using Forall_take, Forall_drop.
  - destruct (short_blocks (s h) l ltac:(lia)) as [-> ->]. auto 8.
Qed.

(** The hash object after the bytes [m] were written. *)
Record absorbed (m : bytes) (h : secp256k1_sha256_t) : Prop := mkAbsorbed {
  ab_state : s h = Fips.hash_blocks Fips.H0 m;
  ab_pending : take (length m mod 64) (buf h) = rem64 m;
  ab_length : length (buf h) = 64%nat;
  ab_bytes : Forall is_byte (buf h);
  ab_count : bytes_ h = u64 (Z.of_nat (length m));
}.

Lemma absorbed_init junk :
  length junk = 64%nat -> Forall is_byte junk -> absorbed [] (secp256k1_sha256_initialize junk).
Proof. done. Qed.

Lemma count_mod64 n : Z.to_nat (Z.land (u64 (Z.of_nat n)) 0x3F) = (n mod 64)%nat.
Proof.
  change 0x3F with (Z.ones 6). rewrite Z.land_ones by lia. unfold wrap.
  rewrite Z.mod_mod_divide by (by exists (2 ^ 58)).
  change (2 ^ 6) with (Z.of_nat 64). by rewrite <- Nat2Z.inj_mod, Nat2Z.id.
Qed.

Lemma absorbed_write m h data :
  absorbed m h -> Forall is_byte data -> absorbed (m ++ data) (secp256k1_sha256_write h data).
Proof.
  intros [Hs Hp Hl Hb Hc] Hd. unfold secp256k1_sha256_write. rewrite Hc, count_mod64.
  set (h1 := mkSha (s h) (buf h) _). set (n := (length m mod 64)%nat) in *.
  assert (Hn : (n < 64)%nat) by (apply Nat.mod_upper_bound; lia).
  assert (Hw := write_loop_spec (S (length data)) h1 n data ltac:(lia) Hn Hl Hb Hd).
  destruct (write_loop _ _ _ _) as [[h2 n2] rest]. destruct Hw as (Hs2 & Hp2 & Hl2 & Hb2 & Hc2 & Hlt & Hr).
  cbn [buf s bytes_ h1] in *. rewrite Hp in *. destruct (blocks_resume Fips.H0 m data) as [E1 E2].
  assert (Hn2 : (length (m ++ data) mod 64 = n2 + length rest)%nat).
  { destruct (length_rem64 (m ++ data)) as [_ <-]. rewrite E2, <- Hp2, length_app, length_take. lia. }
  assert (Hcount : u64 (u64 (Z.of_nat (length m)) + Z.of_nat (length data)) = u64 (Z.of_nat (length (m ++ data)))).
  { by rewrite wrap_add_l, length_app, Nat2Z.inj_add. }
  destruct (Nat.eqb_spec (length rest) 0) as [E|E].
  - apply nil_length_inv in E. subst rest. rewrite app_nil_r in Hp2. cbn [length] in Hn2.
    constructor; [by rewrite E1, Hs2, Hs|by rewrite Hn2, Nat.add_0_r, E2|done..|by rewrite Hc2].
  - constructor; cbn [s buf bytes_].
    + by rewrite E1, Hs2, Hs.
    + by rewrite Hn2, memcpy_prefix, E2 by lia.
    + by rewrite length_memcpy by lia.
    + unfold memcpy. rewrite !Forall_app. auto using Forall_take, Forall_drop.
    + by rewrite Hc2.
Qed.

(** Any number of writes. *)
Lemma absorbed_writes m h parts :
  absorbed m h -> Forall (Forall is_byte) parts ->
  absorbed (m ++ concat parts) (fold_left secp256k1_sha256_write parts h).
Proof.
  intros Hm Hp. revert m h Hm. induction Hp as [|d parts Hd Hp IH]; intros m h Hm.
  - by rewrite app_nil_r.
  - cbn [concat fold_left]. rewrite app_assoc. by apply IH, absorbed_write.
Qed.

Lemma size_bytes n :
  0 <= n < 2 ^ 61 ->
  le_bytes 4 (BE32 (Z.shiftr n 29)) ++ le_bytes 4 (BE32 (u64 (Z.shiftl n 3))) = be_bytes 8 (8 * n).
Proof.
  intros Hn. rewrite !BE32_store, Z.shiftr_div_pow2, Z.shiftl_mul_pow2 by lia.
  rewrite wrap_small, (be_bytes_app 4 4) by lia. f_equal; f_equal; [|lia].
  change (256 ^ Z.of_nat 4) with (8 * 2 ^ 29). rewrite Z.div_mul_cancel_l by lia. done.
Qed.

Lemma pad_take n :
  0 <= n -> take (Z.to_nat (1 + (119 - n mod 64) mod 64)) pad = 0x80 :: repeat 0 (Z.to_nat ((55 - n) mod 64)).
Proof.
  intros Hn. rewrite Z2Nat.inj_add by (try apply Z.mod_pos_bound; lia).
  change (Z.to_nat 1 + ?k)%nat with (S k). unfold pad. cbn [take]. f_equal.
  replace ((119 - n mod 64) mod 64) with ((55 - n) mod 64) by (Z.to_euclidean_division_equations; lia).
  assert (Hr := Z.mod_pos_bound (55 - n) 64 ltac:(lia)).
  change (repeat 0 63) with (replicate 63 0). rewrite take_replicate.
  replace (Nat.min _ 63) with (Z.to_nat ((55 - n) mod 64)) by lia. clear. set (k := Z.to_nat _). clearbody k.
  induction k as [|k IH]; [done|]. cbn. by rewrite IH.
Qed.

Lemma finalize_spec m h :
  absorbed m h -> Z.of_nat (length m) < 2 ^ 61 ->
  snd (secp256k1_sha256_finalize h) = Fips.SHA256 m.
Proof.
  intros Hm Hlen. assert (Hc := ab_count _ _ Hm). rewrite wrap_small in Hc by lia.
  unfold secp256k1_sha256_finalize. rewrite Hc, size_bytes, pad_take by lia.
  set (p1 := 0x80 :: repeat 0 _).
  assert (Hb1 : Forall is_byte p1).
  { constructor; [by unfold is_byte|]. apply Forall_forall. intros x Hx.
    apply list_elem_of_In, repeat_spec in Hx. by subst. }
  assert (H2 := absorbed_write _ _ _ (absorbed_write _ _ p1 Hm Hb1)
    (be_bytes_range 8 (8 * Z.of_nat (length m)))).
  cbn [snd]. rewrite !BE32_store, (ab_state _ _ H2).
  unfold Fips.SHA256, Fips.digest, Fips.pad. rewrite <- app_assoc. done.
Qed.

(** ** HMAC *)

Definition buffer (junk : bytes) : Prop := length junk = 64%nat /\ Forall is_byte junk.

Lemma absorbed_from junk parts :
  buffer junk -> Forall (Forall is_byte) parts ->
  absorbed (concat parts) (fold_left secp256k1_sha256_write parts (secp256k1_sha256_initialize junk)).
Proof. intros [Hl Hb] Hp. by apply (absorbed_writes []); [apply absorbed_init|]. Qed.

Lemma absorbed_one junk m :
  buffer junk -> Forall is_byte m -> absorbed m (secp256k1_sha256_write (secp256k1_sha256_initialize junk) m).
Proof.
  intros Hj Hm. rewrite <- (app_nil_l m) at 1. apply absorbed_write; [by apply absorbed_init; apply Hj|done].
Qed.

Lemma length_sha m : length (Fips.SHA256 m) = 32%nat.
Proof. unfold Fips.SHA256, Fips.digest. rewrite !length_app, !length_be_bytes. done. Qed.

Lemma sha_range m : Forall is_byte (Fips.SHA256 m).
Proof. unfold Fips.SHA256, Fips.digest. rewrite !Forall_app. auto 10 with words. Qed.

Lemma hmac_length key m : length (Fips.HMAC key m) = 32%nat.
Proof. apply length_sha. Qed.

Lemma hmac_range key m : Forall is_byte (Fips.HMAC key m).
Proof. apply sha_range. Qed.

Lemma repeat_range n x : is_byte x -> Forall is_byte (repeat x n).
Proof. intros Hx. induction n; constructor; done. Qed.

Lemma lxor_byte a b : is_byte a -> is_byte b -> is_byte (Z.lxor a b).
Proof.
  unfold is_byte. intros Ha Hb. split; [apply Z.lxor_nonneg; lia|].
  destruct (Z.eq_dec (Z.lxor a b) 0) as [->|E]; [lia|].
  apply (Z.log2_lt_pow2 _ 8); [assert (0 <= Z.lxor a b) by (apply Z.lxor_nonneg; lia); lia|].
  eapply Z.le_lt_trans; [apply Z.log2_lxor; lia|]. apply Z.max_lub_lt;
    (destruct (Z.eq_dec a 0) as [->|]; destruct (Z.eq_dec b 0) as [->|]; try done; apply Z.log2_lt_pow2; lia).
Qed.

Lemma map_lxor_range c l : is_byte c -> Forall is_byte l -> Forall is_byte (map (Z.lxor c) l).
Proof. intros Hc Hl. apply Forall_map. eapply Forall_impl; [exact Hl|]. cbn. by auto using lxor_byte. Qed.

Lemma hmac_key_spec key : Forall is_byte key ->
  Forall is_byte (Fips.hmac_key key) /\ length (Fips.hmac_key key) = 64%nat.
Proof.
  intros Hk. unfold Fips.hmac_key. rewrite Forall_app, length_app, repeat_length.
  destruct (Nat.leb_spec (length key) 64); rewrite ?length_sha; repeat split;
    auto using sha_range; try (by apply repeat_range); lia.
Qed.

(** The HMAC object after the bytes [m] were written. *)
Record keyed (key m : bytes) (h : secp256k1_hmac_sha256_t) : Prop := mkKeyed {
  k_inner : absorbed (map (Z.lxor 0x36) (Fips.hmac_key key) ++ m) (inner h);
  k_outer : absorbed (map (Z.lxor 0x5c) (Fips.hmac_key key)) (outer h);
}.

Lemma keyed_init junk key :
  buffer junk -> Forall is_byte key -> Z.of_nat (length key) < 2 ^ 61 ->
  keyed key [] (secp256k1_hmac_sha256_initialize junk key).
Proof.
  intros Hj Hk Hlen. destruct (hmac_key_spec key Hk) as [Hr _]. unfold secp256k1_hmac_sha256_initialize.
  set (rkey := if (_ <=? _)%nat then _ else _).
  assert (E : rkey = Fips.hmac_key key).
  { unfold rkey, Fips.hmac_key. destruct (length key <=? 64)%nat; [done|].
    rewrite (finalize_spec key), length_sha by auto using absorbed_one. done. }
  rewrite E. clear E rkey. rewrite map_map.
  rewrite (map_ext (fun b => Z.lxor b 0x5c) (Z.lxor 0x5c)) by (intros; apply Z.lxor_comm).
  rewrite (map_ext (fun b => Z.lxor (Z.lxor b 0x5c) (Z.lxor 0x5c 0x36)) (Z.lxor 0x36)).
  2: { intros b. rewrite <- !Z.lxor_assoc, (Z.lxor_assoc b), Z.lxor_nilpotent, Z.lxor_0_r. apply Z.lxor_comm. }
  constructor; cbn [inner outer]; rewrite ?app_nil_r; apply absorbed_one; auto; by apply map_lxor_range.
Qed.

Lemma keyed_writes key m h parts :
  keyed key m h -> Forall (Forall is_byte) parts ->
  keyed key (m ++ concat parts) (fold_left secp256k1_hmac_sha256_write parts h).
Proof.
  intros Hm Hp. revert m h Hm. induction Hp as [|d parts Hd Hp IH]; intros m h [Hi Ho].
  - rewrite app_nil_r. by constructor.
  - cbn [concat fold_left]. rewrite app_assoc. apply IH. constructor; cbn [inner outer]; [|done].
    rewrite app_assoc. by apply absorbed_write.
Qed.

Lemma keyed_finalize key m h :
  keyed key m h -> Forall is_byte key -> Z.of_nat (length m) + 64 < 2 ^ 61 ->
  snd (secp256k1_hmac_sha256_finalize h) = Fips.HMAC key m.
Proof.
  intros [Hi Ho] Hk Hlen. destruct (hmac_key_spec key Hk) as [_ Hkl].
  unfold secp256k1_hmac_sha256_finalize.
  assert (Ei := finalize_spec _ _ Hi ltac:(rewrite length_app, length_map, Hkl; lia)).
  destruct (secp256k1_sha256_finalize (inner h)) as [i temp]. cbn [snd] in Ei. subst temp.
  assert (Ho2 := absorbed_write _ _ _ Ho (sha_range (map (Z.lxor 54) (Fips.hmac_key key) ++ m))).
  assert (Eo := finalize_spec _ _ Ho2 ltac:(rewrite length_app, length_map, Hkl, length_sha; lia)).
  by destruct (secp256k1_sha256_finalize _) as [o out].
Qed.

Lemma hmac_parts_spec junk key parts :
  buffer junk -> Forall is_byte key -> Forall (Forall is_byte) parts ->
  Z.of_nat (length key) < 2 ^ 61 -> Z.of_nat (length (concat parts)) + 64 < 2 ^ 61 ->
  hmac_parts junk key parts = Fips.HMAC key (concat parts).
Proof.
  intros Hj Hk Hp Hlk Hlp. unfold hmac_parts. apply keyed_finalize; [|done..].
  apply (keyed_writes key []); [|done]. by apply keyed_init.
Qed.

(** ** RFC 6979 *)

Definition word32 (l : bytes) : Prop := length l = 32%nat /\ Forall is_byte l.

(** A generator state the functions below make. *)
Definition rng_ok (rng : secp256k1_rfc6979_hmac_sha256_t) : Prop := word32 (v rng) /\ word32 (k rng).

Lemma word32_hmac key m : word32 (Fips.HMAC key m).
Proof. split; [apply hmac_length|apply hmac_range]. Qed.

Lemma word32_repeat x : is_byte x -> word32 (repeat x 32).
Proof. split; [apply repeat_length|by apply repeat_range]. Qed.

(** Calls of HMAC with a 32-byte key and a 32-byte value in front. *)
Lemma hmac_step junk K V tail :
  buffer junk -> word32 K -> word32 V ->
  Forall (Forall is_byte) tail -> Z.of_nat (length (concat tail)) + 96 < 2 ^ 61 ->
  hmac_parts junk K (V :: tail) = Fips.HMAC K (V ++ concat tail).
Proof.
  intros Hj [HK HbK] [HV HbV] Ht Hl. apply hmac_parts_spec; auto; [lia|].
  cbn [concat]. rewrite length_app. lia.
Qed.

Lemma hmac_step_one junk K V :
  buffer junk -> word32 K -> word32 V -> hmac_parts junk K [V] = Fips.HMAC K V.
Proof. intros Hj HK HV. rewrite hmac_step by (done || (cbn; lia)). by rewrite app_nil_r. Qed.

Lemma hmac_step_byte junk K V x seed :
  buffer junk -> word32 K -> word32 V -> is_byte x -> Forall is_byte seed ->
  Z.of_nat (length seed) < 2 ^ 60 ->
  hmac_parts junk K [V; [x]; seed] = Fips.HMAC K (V ++ [x] ++ seed).
Proof.
  intros Hj HK HV Hx Hs Hl. rewrite hmac_step; [cbn [concat]; by rewrite !app_nil_r| | | | |]; auto.
  cbn [concat app]. rewrite app_nil_r, length_cons. lia.
Qed.

Lemma generate_loop_spec fuel junk V K n :
  buffer junk -> word32 K -> word32 V -> (n <= fuel)%nat ->
  generate_loop fuel junk V K n =
  (Fips.V_after K V ((n + 31) / 32), take n (Fips.V_stream K V ((n + 31) / 32))).
Proof.
  intros Hj HK. revert V n. induction fuel as [|fuel IH]; intros V n HV Hn.
  { by replace n with 0%nat by lia. }
  cbn [generate_loop]. destruct (Nat.eqb_spec n 0) as [->|E]; [done|].
  rewrite hmac_step_one by done. rewrite IH by (apply word32_hmac || lia).
  assert (Hd : ((n + 31) / 32 = S ((n - Nat.min n 32 + 31) / 32))%nat).
  { destruct (Nat.min_spec n 32) as [[Hlt ->]|[Hge ->]].
    - rewrite Nat.sub_diag, (Nat.div_small (0 + 31)) by lia.
      symmetry. apply (Nat.div_unique _ _ _ (n - 1)); lia.
    - replace (n + 31)%nat with (n - 32 + 31 + 1 * 32)%nat by lia. rewrite Nat.div_add by lia. lia. }
  rewrite Hd. cbn [Fips.V_after Fips.V_stream]. f_equal. rewrite take_app, hmac_length.
  f_equal; [|f_equal; lia].
  destruct (Nat.min_spec n 32) as [[Hlt ->]|[Hge ->]]; [done|].
  by rewrite !take_ge by (rewrite hmac_length; lia).
Qed.

Lemma rng_seed_spec junk seed :
  buffer junk -> Forall is_byte seed -> Z.of_nat (length seed) < 2 ^ 60 ->
  let rng0 := secp256k1_rfc6979_hmac_sha256_initialize junk seed in
  rng_ok rng0 /\ (k rng0, v rng0) = Fips.rfc6979_seed seed /\ retry rng0 = 0.
Proof.
  intros Hj Hs Hl. unfold secp256k1_rfc6979_hmac_sha256_initialize, Fips.rfc6979_seed.
  assert (H0 : is_byte 0) by by unfold is_byte. assert (H1 : is_byte 1) by by unfold is_byte.
  rewrite (hmac_step_byte _ (repeat 0 32)), (hmac_step_one _ _ (repeat 1 32))
    by auto using word32_repeat, word32_hmac.
  rewrite hmac_step_byte, hmac_step_one by auto using word32_hmac.
  repeat split; apply word32_hmac.
Qed.

Lemma rng_generate_spec junk rng n :
  buffer junk -> rng_ok rng ->
  let '(K, V) := if retry rng =? 0 then (k rng, v rng) else Fips.rfc6979_next (k rng, v rng) in
  secp256k1_rfc6979_hmac_sha256_generate junk rng n =
  (mkRng (Fips.V_after K V ((n + 31) / 32)) K 1, take n (Fips.V_stream K V ((n + 31) / 32))).
Proof.
  intros Hj [Hv Hk]. unfold secp256k1_rfc6979_hmac_sha256_generate, Fips.rfc6979_next. cbn [fst snd].
  destruct (retry rng =? 0).
  - by rewrite generate_loop_spec.
  - rewrite (hmac_step junk (k rng) (v rng) [[0]]); [|auto..|repeat constructor; lia|cbn; lia]. cbn [concat]. rewrite app_nil_r.
    rewrite hmac_step_one by auto using word32_hmac.
    by rewrite generate_loop_spec by auto using word32_hmac.
Qed.

(** ** The properties *)

(** C37: hashing a message in any number of pieces gives the SHA-256 digest of
    the whole message as FIPS 180-4 defines it, for every message shorter than
    2^61 bytes, whatever the uninitialised buffer held before. *)
Theorem sha256_stream (junk : bytes) (parts : list bytes) :
  buffer junk -> Forall (Forall is_byte) parts -> Z.of_nat (length (concat parts)) < 2 ^ 61 ->
  snd (secp256k1_sha256_finalize
    (fold_left secp256k1_sha256_write parts (secp256k1_sha256_initialize junk))) =
  Fips.SHA256 (concat parts).
Proof. intros Hj Hp Hl. apply finalize_spec; [by apply absorbed_from|done]. Qed.

(** The keyed hash of a message written in any number of pieces is the
    HMAC-SHA256 of the whole message as RFC 2104 defines it, for keys of any
    length: longer keys are hashed first. *)
Theorem hmac_stream (junk key : bytes) (parts : list bytes) :
  buffer junk -> Forall is_byte key -> Forall (Forall is_byte) parts ->
  Z.of_nat (length key) < 2 ^ 61 -> Z.of_nat (length (concat parts)) + 64 < 2 ^ 61 ->
  snd (secp256k1_hmac_sha256_finalize
    (fold_left secp256k1_hmac_sha256_write parts (secp256k1_hmac_sha256_initialize junk key))) =
  Fips.HMAC key (concat parts).
Proof. apply hmac_parts_spec. Qed.

(** The deterministic nonce generator follows RFC 6979: seeding gives the
    [K] and [V] of steps b to g, each call after the first starts with the
    update of step h.3, and the output is the concatenation of the successive
    [V] cut to the length asked for. *)
Theorem rfc6979_generates (junk seed : bytes) (rng : secp256k1_rfc6979_hmac_sha256_t) (n : nat) :
  buffer junk -> Forall is_byte seed -> Z.of_nat (length seed) < 2 ^ 60 -> rng_ok rng ->
  (let rng0 := secp256k1_rfc6979_hmac_sha256_initialize junk seed in
   rng_ok rng0 /\ (k rng0, v rng0) = Fips.rfc6979_seed seed /\ retry rng0 = 0) /\
  (let '(K, V) := if retry rng =? 0 then (k rng, v rng) else Fips.rfc6979_next (k rng, v rng) in
   secp256k1_rfc6979_hmac_sha256_generate junk rng n =
   (mkRng (Fips.V_after K V ((n + 31) / 32)) K 1, take n (Fips.V_stream K V ((n + 31) / 32)))).
Proof. intros Hj Hs Hl Hr. split; [by apply rng_seed_spec|by apply rng_generate_spec]. Qed.

(** ** Witnesses *)

Lemma zeros_buffer : buffer (repeat 0 64).
Proof. split; [reflexivity|]. repeat constructor; unfold is_byte; lia. Defined.

Lemma sha256_stream_witness :
  snd (secp256k1_sha256_finalize
    (fold_left secp256k1_sha256_write [[97]; [98; 99]] (secp256k1_sha256_initialize (repeat 0 64)))) =
  Fips.SHA256 [97; 98; 99].
Proof.
  apply (sha256_stream (repeat 0 64) [[97]; [98; 99]] zeros_buffer); [|reflexivity].
  repeat constructor; unfold is_byte; lia.
Defined.

Lemma hmac_stream_witness :
  snd (secp256k1_hmac_sha256_finalize
    (fold_left secp256k1_hmac_sha256_write [[1]; [2]]
      (secp256k1_hmac_sha256_initialize (repeat 0 64) [7]))) = Fips.HMAC [7] [1; 2].
Proof.
  apply (hmac_stream (repeat 0 64) [7] [[1]; [2]] zeros_buffer); try reflexivity;
    repeat constructor; unfold is_byte; lia.
Defined.

Definition some_rng : secp256k1_rfc6979_hmac_sha256_t := mkRng (repeat 5 32) (repeat 6 32) 0.

Lemma rfc6979_generates_witness :
  secp256k1_rfc6979_hmac_sha256_generate (repeat 0 64) some_rng 40 =
  (mkRng (Fips.V_after (repeat 6 32) (repeat 5 32) 2) (repeat 6 32) 1,
   take 40 (Fips.V_stream (repeat 6 32) (repeat 5 32) 2)).
Proof.
  refine (proj2 (rfc6979_generates (repeat 0 64) [9] some_rng 40 zeros_buffer _ _ _)); [|reflexivity|];
    repeat constructor; unfold is_byte; lia.
Defined.

End Sha256Facts.
