(* ===== verification/Field.v ===== *)
(** * The field of secp256k1 on 64-bit machines
    (libsecp256k1/src/field_5x52.h, field_5x52_impl.h, field_5x52_int128_impl.h)

    An element is five 64-bit limbs in base 2^52 that may hold more than 52
    bits each; its magnitude bounds how much more. Every operation is the C
    code statement by statement, with the wrap-around of [uint64_t] and
    [uint128_t] written out; a sum or product of several terms of one type is
    reduced once, at its end. *)

From Stdlib Require Import ZArith Lia List.
From stdpp Require Import base list.
From S2P Require Import Prelude Words.
Local Open Scope Z_scope.
Local Open Scope word_scope.

Module Field.

Record secp256k1_fe := mkFe { n0 : Z; n1 : Z; n2 : Z; n3 : Z; n4 : Z }.

Definition M52 : Z := 0xFFFFFFFFFFFFF.
Definition M48 : Z := 0x0FFFFFFFFFFFF.
Definition b2z (b : bool) : Z := if b then 1 else 0.

(** ** Normalisation *)

Definition secp256k1_fe_normalize (r : secp256k1_fe) : secp256k1_fe :=
  let '(mkFe t0 t1 t2 t3 t4) := r in
  let x := Z.shiftr t4 48 in let t4 := Z.land t4 M48 in
  let t0 := u64 (t0 + u64 (x * 0x1000003D1)) in
  let t1 := u64 (t1 + Z.shiftr t0 52) in let t0 := Z.land t0 M52 in
  let t2 := u64 (t2 + Z.shiftr t1 52) in let t1 := Z.land t1 M52 in let m := t1 in
  let t3 := u64 (t3 + Z.shiftr t2 52) in let t2 := Z.land t2 M52 in let m := Z.land m t2 in
  let t4 := u64 (t4 + Z.shiftr t3 52) in let t3 := Z.land t3 M52 in let m := Z.land m t3 in
  let x := Z.lor (Z.shiftr t4 48)
             (Z.land (Z.land (b2z (t4 =? M48)) (b2z (m =? M52))) (b2z (t0 >=? 0xFFFFEFFFFFC2F))) in
  let t0 := u64 (t0 + u64 (x * 0x1000003D1)) in
  let t1 := u64 (t1 + Z.shiftr t0 52) in let t0 := Z.land t0 M52 in
  let t2 := u64 (t2 + Z.shiftr t1 52) in let t1 := Z.land t1 M52 in
  let t3 := u64 (t3 + Z.shiftr t2 52) in let t2 := Z.land t2 M52 in
  let t4 := u64 (t4 + Z.shiftr t3 52) in let t3 := Z.land t3 M52 in
  let t4 := Z.land t4 M48 in
  mkFe t0 t1 t2 t3 t4.

Definition secp256k1_fe_normalize_weak (r : secp256k1_fe) : secp256k1_fe :=
  let '(mkFe t0 t1 t2 t3 t4) := r in
  let x := Z.shiftr t4 48 in let t4 := Z.land t4 M48 in
  let t0 := u64 (t0 + u64 (x * 0x1000003D1)) in
  let t1 := u64 (t1 + Z.shiftr t0 52) in let t0 := Z.land t0 M52 in
  let t2 := u64 (t2 + Z.shiftr t1 52) in let t1 := Z.land t1 M52 in
  let t3 := u64 (t3 + Z.shiftr t2 52) in let t2 := Z.land t2 M52 in
  let t4 := u64 (t4 + Z.shiftr t3 52) in let t3 := Z.land t3 M52 in
  mkFe t0 t1 t2 t3 t4.

Definition secp256k1_fe_normalize_var (r : secp256k1_fe) : secp256k1_fe :=
  let '(mkFe t0 t1 t2 t3 t4) := r in
  let x := Z.shiftr t4 48 in let t4 := Z.land t4 M48 in
  let t0 := u64 (t0 + u64 (x * 0x1000003D1)) in
  let t1 := u64 (t1 + Z.shiftr t0 52) in let t0 := Z.land t0 M52 in
  let t2 := u64 (t2 + Z.shiftr t1 52) in let t1 := Z.land t1 M52 in let m := t1 in
  let t3 := u64 (t3 + Z.shiftr t2 52) in let t2 := Z.land t2 M52 in let m := Z.land m t2 in
  let t4 := u64 (t4 + Z.shiftr t3 52) in let t3 := Z.land t3 M52 in let m := Z.land m t3 in
  let x := Z.lor (Z.shiftr t4 48)
             (Z.land (Z.land (b2z (t4 =? M48)) (b2z (m =? M52))) (b2z (t0 >=? 0xFFFFEFFFFFC2F))) in
  if negb (x =? 0) then
    let t0 := u64 (t0 + 0x1000003D1) in
    let t1 := u64 (t1 + Z.shiftr t0 52) in let t0 := Z.land t0 M52 in
    let t2 := u64 (t2 + Z.shiftr t1 52) in let t1 := Z.land t1 M52 in
    let t3 := u64 (t3 + Z.shiftr t2 52) in let t2 := Z.land t2 M52 in
    let t4 := u64 (t4 + Z.shiftr t3 52) in let t3 := Z.land t3 M52 in
    let t4 := Z.land t4 M48 in
    mkFe t0 t1 t2 t3 t4
  else mkFe t0 t1 t2 t3 t4.

Definition secp256k1_fe_normalizes_to_zero (r : secp256k1_fe) : bool :=
  let '(mkFe t0 t1 t2 t3 t4) := r in
  let x := Z.shiftr t4 48 in let t4 := Z.land t4 M48 in
  let t0 := u64 (t0 + u64 (x * 0x1000003D1)) in
  let t1 := u64 (t1 + Z.shiftr t0 52) in let t0 := Z.land t0 M52 in
  let z0 := t0 in let z1 := Z.lxor t0 0x1000003D0 in
  let t2 := u64 (t2 + Z.shiftr t1 52) in let t1 := Z.land t1 M52 in
  let z0 := Z.lor z0 t1 in let z1 := Z.land z1 t1 in
  let t3 := u64 (t3 + Z.shiftr t2 52) in let t2 := Z.land t2 M52 in
  let z0 := Z.lor z0 t2 in let z1 := Z.land z1 t2 in
  let t4 := u64 (t4 + Z.shiftr t3 52) in let t3 := Z.land t3 M52 in
  let z0 := Z.lor z0 t3 in let z1 := Z.land z1 t3 in
  let z0 := Z.lor z0 t4 in let z1 := Z.land z1 (Z.lxor t4 0xF000000000000) in
  (z0 =? 0) || (z1 =? M52).

Definition secp256k1_fe_normalizes_to_zero_var (r : secp256k1_fe) : bool :=
  let t0 := n0 r in
  let t4 := n4 r in
  let x := Z.shiftr t4 48 in
  let t0 := u64 (t0 + u64 (x * 0x1000003D1)) in
  let z0 := Z.land t0 M52 in
  let z1 := Z.lxor z0 0x1000003D0 in
  if negb (z0 =? 0) && negb (z1 =? M52) then false
  else
    let t1 := n1 r in
    let t2 := n2 r in
    let t3 := n3 r in
    let t4 := Z.land t4 M48 in
    let t1 := u64 (t1 + Z.shiftr t0 52) in
    let t2 := u64 (t2 + Z.shiftr t1 52) in let t1 := Z.land t1 M52 in
    let z0 := Z.lor z0 t1 in let z1 := Z.land z1 t1 in
    let t3 := u64 (t3 + Z.shiftr t2 52) in let t2 := Z.land t2 M52 in
    let z0 := Z.lor z0 t2 in let z1 := Z.land z1 t2 in
    let t4 := u64 (t4 + Z.shiftr t3 52) in let t3 := Z.land t3 M52 in
    let z0 := Z.lor z0 t3 in let z1 := Z.land z1 t3 in
    let z0 := Z.lor z0 t4 in let z1 := Z.land z1 (Z.lxor t4 0xF000000000000) in
    (z0 =? 0) || (z1 =? M52).

(** ** Simple operations *)

(** [a] is an [int], converted to [uint64_t]. *)
Definition secp256k1_fe_set_int (a : Z) : secp256k1_fe := mkFe (u64 a) 0 0 0 0.

Definition secp256k1_fe_is_zero (a : secp256k1_fe) : bool :=
  Z.lor (Z.lor (Z.lor (Z.lor (n0 a) (n1 a)) (n2 a)) (n3 a)) (n4 a) =? 0.

Definition secp256k1_fe_is_odd (a : secp256k1_fe) : Z := Z.land (n0 a) 1.

Definition secp256k1_fe_clear : secp256k1_fe := mkFe 0 0 0 0 0.

(** The loop runs from limb 4 down to limb 0. *)
Fixpoint cmp_limbs (l : list (Z * Z)) : Z :=
  match l with
  | [] => 0
  | (x, y) :: l' => if x >? y then 1 else if x <? y then -1 else cmp_limbs l'
  end.

Definition secp256k1_fe_cmp_var (a b : secp256k1_fe) : Z :=
  cmp_limbs [(n4 a, n4 b); (n3 a, n3 b); (n2 a, n2 b); (n1 a, n1 b); (n0 a, n0 b)].

Definition secp256k1_fe_negate (a : secp256k1_fe) (m : Z) : secp256k1_fe :=
  mkFe (u64 (0xFFFFEFFFFFC2F * 2 * (m + 1) - n0 a)) (u64 (0xFFFFFFFFFFFFF * 2 * (m + 1) - n1 a))
       (u64 (0xFFFFFFFFFFFFF * 2 * (m + 1) - n2 a)) (u64 (0xFFFFFFFFFFFFF * 2 * (m + 1) - n3 a))
       (u64 (0x0FFFFFFFFFFFF * 2 * (m + 1) - n4 a)).

Definition secp256k1_fe_mul_int (r : secp256k1_fe) (a : Z) : secp256k1_fe :=
  mkFe (u64 (n0 r * a)) (u64 (n1 r * a)) (u64 (n2 r * a)) (u64 (n3 r * a)) (u64 (n4 r * a)).

Definition secp256k1_fe_add (r a : secp256k1_fe) : secp256k1_fe :=
  mkFe (u64 (n0 r + n0 a)) (u64 (n1 r + n1 a)) (u64 (n2 r + n2 a)) (u64 (n3 r + n3 a)) (u64 (n4 r + n4 a)).

Definition cmov64 (mask0 mask1 r a : Z) : Z := Z.lor (Z.land r mask0) (Z.land a mask1).

(** [flag + ~((uint64_t)0)], and its complement. *)
Definition secp256k1_fe_cmov (r a : secp256k1_fe) (flag : Z) : secp256k1_fe :=
  let mask0 := u64 (flag + (2 ^ 64 - 1)) in
  let mask1 := 2 ^ 64 - 1 - mask0 in
  mkFe (cmov64 mask0 mask1 (n0 r) (n0 a)) (cmov64 mask0 mask1 (n1 r) (n1 a))
       (cmov64 mask0 mask1 (n2 r) (n2 a)) (cmov64 mask0 mask1 (n3 r) (n3 a))
       (cmov64 mask0 mask1 (n4 r) (n4 a)).

(** ** Conversions *)

Record secp256k1_fe_storage := mkStorage { sn0 : Z; sn1 : Z; sn2 : Z; sn3 : Z }.

Definition secp256k1_fe_storage_cmov (r a : secp256k1_fe_storage) (flag : Z) : secp256k1_fe_storage :=
  let mask0 := u64 (flag + (2 ^ 64 - 1)) in
  let mask1 := 2 ^ 64 - 1 - mask0 in
  mkStorage (cmov64 mask0 mask1 (sn0 r) (sn0 a)) (cmov64 mask0 mask1 (sn1 r) (sn1 a))
            (cmov64 mask0 mask1 (sn2 r) (sn2 a)) (cmov64 mask0 mask1 (sn3 r) (sn3 a)).

Definition secp256k1_fe_to_storage (a : secp256k1_fe) : secp256k1_fe_storage :=
  mkStorage (Z.lor (n0 a) (u64 (Z.shiftl (n1 a) 52)))
            (Z.lor (Z.shiftr (n1 a) 12) (u64 (Z.shiftl (n2 a) 40)))
            (Z.lor (Z.shiftr (n2 a) 24) (u64 (Z.shiftl (n3 a) 28)))
            (Z.lor (Z.shiftr (n3 a) 36) (u64 (Z.shiftl (n4 a) 16))).

Definition secp256k1_fe_from_storage (a : secp256k1_fe_storage) : secp256k1_fe :=
  mkFe (Z.land (sn0 a) M52)
       (Z.lor (Z.shiftr (sn0 a) 52) (Z.land (u64 (Z.shiftl (sn1 a) 12)) M52))
       (Z.lor (Z.shiftr (sn1 a) 40) (Z.land (u64 (Z.shiftl (sn2 a) 24)) M52))
       (Z.lor (Z.shiftr (sn2 a) 28) (Z.land (u64 (Z.shiftl (sn3 a) 36)) M52))
       (Z.shiftr (sn3 a) 16).

(** Limb [i], and [r->n[i] |= x]. *)
Definition limb (a : secp256k1_fe) (i : Z) : Z :=
  if i =? 0 then n0 a else if i =? 1 then n1 a else if i =? 2 then n2 a
  else if i =? 3 then n3 a else n4 a.

Definition or_limb (r : secp256k1_fe) (i x : Z) : secp256k1_fe :=
  if i =? 0 then mkFe (Z.lor (n0 r) x) (n1 r) (n2 r) (n3 r) (n4 r)
  else if i =? 1 then mkFe (n0 r) (Z.lor (n1 r) x) (n2 r) (n3 r) (n4 r)
  else if i =? 2 then mkFe (n0 r) (n1 r) (Z.lor (n2 r) x) (n3 r) (n4 r)
  else if i =? 3 then mkFe (n0 r) (n1 r) (n2 r) (Z.lor (n3 r) x) (n4 r)
  else mkFe (n0 r) (n1 r) (n2 r) (n3 r) (Z.lor (n4 r) x).

(** The body of the inner loop of [set_b32]. *)
Definition set_nibble (a : bytes) (r : secp256k1_fe) (ij : Z * Z) : secp256k1_fe :=
  let '(i, j) := ij in
  let limb := (8 * i + 4 * j) / 52 in
  let shift := (8 * i + 4 * j) mod 52 in
  or_limb r limb (u64 (Z.shiftl (Z.land (Z.shiftr (nth (Z.to_nat (31 - i)) a 0) (4 * j)) 0xF) shift)).

(** [(i, 0), (i, 1)] for [i] from 0 to 31. *)
Definition nibbles : list (Z * Z) :=
  flat_map (fun i => [(Z.of_nat i, 0); (Z.of_nat i, 1)]) (seq 0 32).

Definition secp256k1_fe_set_b32 (a : bytes) : secp256k1_fe * Z :=
  let r := fold_left (set_nibble a) nibbles secp256k1_fe_clear in
  if (n4 r =? M48) && (Z.land (Z.land (n3 r) (n2 r)) (n1 r) =? M52) && (n0 r >=? 0xFFFFEFFFFFC2F)
  then (r, 0) else (r, 1).

(** Byte [31 - i] of the output. *)
Definition get_byte (a : secp256k1_fe) (i : Z) : Z :=
  let nibble c j :=
    let l := (8 * i + 4 * j) / 52 in
    let shift := (8 * i + 4 * j) mod 52 in
    Z.lor c (Z.shiftl (Z.land (Z.shiftr (limb a l) shift) 0xF) (4 * j)) in
  nibble (nibble 0 0) 1.

Definition secp256k1_fe_get_b32 (a : secp256k1_fe) : bytes :=
  map (fun k => get_byte a (31 - Z.of_nat k)) (seq 0 32).

(** ** Multiplication and squaring *)

Definition R52 : Z := 0x1000003D10.

Definition secp256k1_fe_mul_inner (a b : secp256k1_fe) : secp256k1_fe :=
  let '(mkFe a0 a1 a2 a3 a4) := a in
  let '(mkFe b0 b1 b2 b3 b4) := b in
  let d := u128 (a0 * b3 + a1 * b2 + a2 * b1 + a3 * b0) in
  let c := u128 (a4 * b4) in
  let d := u128 (d + Z.land c M52 * R52) in let c := Z.shiftr c 52 in
  let t3 := u64 (Z.land d M52) in let d := Z.shiftr d 52 in
  let d := u128 (d + (a0 * b4 + a1 * b3 + a2 * b2 + a3 * b1 + a4 * b0)) in
  let d := u128 (d + c * R52) in
  let t4 := u64 (Z.land d M52) in let d := Z.shiftr d 52 in
  let tx := Z.shiftr t4 48 in let t4 := Z.land t4 (Z.shiftr M52 4) in
  let c := u128 (a0 * b0) in
  let d := u128 (d + (a1 * b4 + a2 * b3 + a3 * b2 + a4 * b1)) in
  let u0 := u64 (Z.land d M52) in let d := Z.shiftr d 52 in
  let u0 := Z.lor (u64 (Z.shiftl u0 4)) tx in
  let c := u128 (c + u0 * Z.shiftr R52 4) in
  let r0 := u64 (Z.land c M52) in let c := Z.shiftr c 52 in
  let c := u128 (c + (a0 * b1 + a1 * b0)) in
  let d := u128 (d + (a2 * b4 + a3 * b3 + a4 * b2)) in
  let c := u128 (c + Z.land d M52 * R52) in let d := Z.shiftr d 52 in
  let r1 := u64 (Z.land c M52) in let c := Z.shiftr c 52 in
  let c := u128 (c + (a0 * b2 + a1 * b1 + a2 * b0)) in
  let d := u128 (d + (a3 * b4 + a4 * b3)) in
  let c := u128 (c + Z.land d M52 * R52) in let d := Z.shiftr d 52 in
  let r2 := u64 (Z.land c M52) in let c := Z.shiftr c 52 in
  let c := u128 (c + (d * R52 + t3)) in
  let r3 := u64 (Z.land c M52) in let c := Z.shiftr c 52 in
  let c := u128 (c + t4) in
  let r4 := u64 c in
  mkFe r0 r1 r2 r3 r4.

(** [t3], [t4], [tx] and [u0] are [int64_t] here. *)
Definition secp256k1_fe_sqr_inner (a : secp256k1_fe) : secp256k1_fe :=
  let '(mkFe a0 a1 a2 a3 a4) := a in
  let d := u128 (u64 (a0 * 2) * a3 + u64 (a1 * 2) * a2) in
  let c := u128 (a4 * a4) in
  let d := u128 (d + Z.land c M52 * R52) in let c := Z.shiftr c 52 in
  let t3 := swrap 64 (Z.land d M52) in let d := Z.shiftr d 52 in
  let a4 := u64 (a4 * 2) in
  let d := u128 (d + (a0 * a4 + u64 (a1 * 2) * a3 + a2 * a2)) in
  let d := u128 (d + c * R52) in
  let t4 := swrap 64 (Z.land d M52) in let d := Z.shiftr d 52 in
  let tx := Z.shiftr t4 48 in let t4 := Z.land t4 (Z.shiftr M52 4) in
  let c := u128 (a0 * a0) in
  let d := u128 (d + (a1 * a4 + u64 (a2 * 2) * a3)) in
  let u0 := swrap 64 (Z.land d M52) in let d := Z.shiftr d 52 in
  let u0 := Z.lor (swrap 64 (Z.shiftl u0 4)) tx in
  let c := u128 (c + u128 u0 * Z.shiftr R52 4) in
  let r0 := u64 (Z.land c M52) in let c := Z.shiftr c 52 in
  let a0 := u64 (a0 * 2) in
  let c := u128 (c + a0 * a1) in
  let d := u128 (d + (a2 * a4 + a3 * a3)) in
  let c := u128 (c + Z.land d M52 * R52) in let d := Z.shiftr d 52 in
  let r1 := u64 (Z.land c M52) in let c := Z.shiftr c 52 in
  let c := u128 (c + (a0 * a2 + a1 * a1)) in
  let d := u128 (d + a3 * a4) in
  let c := u128 (c + Z.land d M52 * R52) in let d := Z.shiftr d 52 in
  let r2 := u64 (Z.land c M52) in let c := Z.shiftr c 52 in
  let c := u128 (c + (d * R52 + u128 t3)) in
  let r3 := u64 (Z.land c M52) in let c := Z.shiftr c 52 in
  let c := u128 (c + u128 t4) in
  let r4 := u64 c in
  mkFe r0 r1 r2 r3 r4.

Definition secp256k1_fe_mul (a b : secp256k1_fe) : secp256k1_fe := secp256k1_fe_mul_inner a b.
Definition secp256k1_fe_sqr (a : secp256k1_fe) : secp256k1_fe := secp256k1_fe_sqr_inner a.

End Field.
