(* ===== verification/FieldFacts.v ===== *)
(** * Correctness of the field arithmetic

    The value of an element, what its magnitude bounds, and that every
    operation of [Field] computes in the integers modulo [P] without a single
    overflow of its machine words. *)

From Stdlib Require Import ZArith Lia List.
From stdpp Require Import base list.
From S2P Require Import Prelude Words Field.
Local Open Scope Z_scope.
Local Open Scope word_scope.

Module FieldFacts.
Import Field.

(** ** Values and magnitudes *)

Definition P : Z := 2 ^ 256 - 2 ^ 32 - 977.

Definition val (a : secp256k1_fe) : Z :=
  n0 a + n1 a * 2 ^ 52 + n2 a * 2 ^ 104 + n3 a * 2 ^ 156 + n4 a * 2 ^ 208.

(** [secp256k1_fe_verify]: what magnitude [m] means. *)
Definition magnitude (m : Z) (a : secp256k1_fe) : Prop :=
  0 <= n0 a <= 2 * m * M52 /\ 0 <= n1 a <= 2 * m * M52 /\ 0 <= n2 a <= 2 * m * M52 /\
  0 <= n3 a <= 2 * m * M52 /\ 0 <= n4 a <= 2 * m * M48.

Definition normalized (a : secp256k1_fe) : Prop :=
  0 <= n0 a <= M52 /\ 0 <= n1 a <= M52 /\ 0 <= n2 a <= M52 /\ 0 <= n3 a <= M52 /\
  0 <= n4 a <= M48 /\ val a < P.

Definition eqm (x y : Z) : Prop := x mod P = y mod P.
Notation "x ≡ y" := (eqm x y) (at level 70).

Lemma eqm_mult k x y : x = y + k * P -> x ≡ y.
Proof. intros ->. unfold eqm. by rewrite Z.mod_add. Qed.

(** ** Walking through straight-line code *)

Definition ensures {A} (x : A) (Q : A -> Prop) : Prop := Q x.

Lemma ensures_let {A B} (e : A) (R : A -> B) (Q : B -> Prop) :
  (forall x, x = e -> ensures (R x) Q) -> ensures (let x := e in R x) Q.
Proof. intros H. by apply H. Qed.

(** A word splits at bit 52. *)
Lemma split52 y :
  0 <= y -> y = Z.shiftr y 52 * 2 ^ 52 + Z.land y M52 /\ 0 <= Z.land y M52 < 2 ^ 52 /\ 0 <= Z.shiftr y 52.
Proof.
  intros Hy. change M52 with (Z.ones 52). rewrite Z.land_ones, Z.shiftr_div_pow2 by lia.
  assert (H := Z.div_mod y (2 ^ 52) ltac:(lia)). assert (Hm := Z.mod_pos_bound y (2 ^ 52) ltac:(lia)).
  assert (Hd := Z.div_pos y (2 ^ 52) Hy ltac:(lia)). lia.
Qed.

Lemma split48 y :
  0 <= y -> y = Z.shiftr y 48 * 2 ^ 48 + Z.land y M48 /\ 0 <= Z.land y M48 < 2 ^ 48 /\ 0 <= Z.shiftr y 48.
Proof.
  intros Hy. change M48 with (Z.ones 48). rewrite Z.land_ones, Z.shiftr_div_pow2 by lia.
  assert (H := Z.div_mod y (2 ^ 48) ltac:(lia)). assert (Hm := Z.mod_pos_bound y (2 ^ 48) ltac:(lia)).
  assert (Hd := Z.div_pos y (2 ^ 48) Hy ltac:(lia)). lia.
Qed.

Lemma swrap64_small z : 0 <= z < 2 ^ 63 -> swrap 64 z = z.
Proof. intros Hz. by apply swrap_small. Qed.

(** One assignment of a sum or product: it does not overflow and fits [n] bits. *)
Ltac next_let :=
  lazymatch goal with |- ensures (let x := ?e in @?R x) ?Q => apply (ensures_let e R Q) end.

Tactic Notation "assign" ident(x) constr(n) :=
  next_let; let H := fresh "E" x in intros x H; cbv beta;
  repeat match type of H with context [wrap 128 ?v] => is_var v; rewrite (wrap_small 128 v) in H by lia end;
  rewrite ?swrap64_small, ?(wrap_small 64 (_ * _)), ?(wrap_small 64), ?(wrap_small 128) in H by lia;
  let B := fresh "B" x in assert (B : 0 <= x < 2 ^ n) by lia.

(** One assignment that keeps or drops the low bits of [y]. *)
Tactic Notation "split_at_52" ident(y) := pose proof (split52 y ltac:(lia)).
Tactic Notation "split_at_48" ident(y) := pose proof (split48 y ltac:(lia)).

Lemma lor_shl4 x y : 0 <= x -> 0 <= y < 2 ^ 4 -> Z.lor (Z.shiftl x 4) y = x * 16 + y.
Proof. intros Hx Hy. rewrite Z.shiftl_mul_pow2, Z.lor_comm, lor_high by lia. lia. Qed.

(** [(u0 << 4) | tx] *)
Tactic Notation "assign_or" ident(x) constr(n) :=
  next_let; let H := fresh "E" x in intros x H; cbv beta;
  rewrite ?(wrap_small 64), ?swrap64_small, lor_shl4 in H by (rewrite ?Z.shiftl_mul_pow2 by lia; lia);
  let B := fresh "B" x in assert (B : 0 <= x < 2 ^ n) by lia.

(** Names a product and bounds it. *)
Lemma mul_bound x y u v : 0 <= x <= u -> 0 <= y <= v -> 0 <= x * y <= u * v.
Proof. intros Hx Hy. nia. Qed.

Tactic Notation "name_product" ident(x) ident(y) ident(p) :=
  let B := fresh "B" p in
  assert (B := mul_bound x y _ _ ltac:(eassumption) ltac:(eassumption));
  let E := fresh "E" p in remember (x * y) as p eqn:E in *.

Ltac forget_products := repeat match goal with E : ?p = _ * _ |- _ => is_var p; clear E end.

Lemma mul_inner_spec a b :
  magnitude 8 a -> magnitude 8 b ->
  ensures (secp256k1_fe_mul_inner a b) (fun r => magnitude 1 r /\ val r ≡ val a * val b).
Proof.
  destruct a as [a0 a1 a2 a3 a4], b as [b0 b1 b2 b3 b4]. unfold magnitude, val; cbn [n0 n1 n2 n3 n4].
  unfold M52, M48. intros (Ha0 & Ha1 & Ha2 & Ha3 & Ha4) (Hb0 & Hb1 & Hb2 & Hb3 & Hb4).
  cbv beta iota delta [secp256k1_fe_mul_inner R52]. change (Z.shiftr M52 4) with M48.
  change (Z.shiftr 0x1000003D10 4) with 0x1000003D1.
  name_product a0 b0 p00.
  name_product a0 b1 p01.
  name_product a0 b2 p02.
  name_product a0 b3 p03.
  name_product a0 b4 p04.
  name_product a1 b0 p10.
  name_product a1 b1 p11.
  name_product a1 b2 p12.
  name_product a1 b3 p13.
  name_product a1 b4 p14.
  name_product a2 b0 p20.
  name_product a2 b1 p21.
  name_product a2 b2 p22.
  name_product a2 b3 p23.
  name_product a2 b4 p24.
  name_product a3 b0 p30.
  name_product a3 b1 p31.
  name_product a3 b2 p32.
  name_product a3 b3 p33.
  name_product a3 b4 p34.
  name_product a4 b0 p40.
  name_product a4 b1 p41.
  name_product a4 b2 p42.
  name_product a4 b3 p43.
  name_product a4 b4 p44.
  assert (Hv : (a0 + a1 * 2 ^ 52 + a2 * 2 ^ 104 + a3 * 2 ^ 156 + a4 * 2 ^ 208) *
    (b0 + b1 * 2 ^ 52 + b2 * 2 ^ 104 + b3 * 2 ^ 156 + b4 * 2 ^ 208) =
    p00 + (p01 + p10) * 2 ^ 52 + (p02 + p11 + p20) * 2 ^ 104 + (p03 + p12 + p21 + p30) * 2 ^ 156 +
    (p04 + p13 + p22 + p31 + p40) * 2 ^ 208 + (p14 + p23 + p32 + p41) * 2 ^ 260 +
    (p24 + p33 + p42) * 2 ^ 312 + (p34 + p43) * 2 ^ 364 + p44 * 2 ^ 416) by (subst; ring).
  rewrite Hv. clear Hv Ha0 Ha1 Ha2 Ha3 Ha4 Hb0 Hb1 Hb2 Hb3 Hb4. forget_products.
  assign d 114. assign c 112. split_at_52 c. assign d1 115. assign c1 60.
  split_at_52 d1. assign t3 52. assign d2 63. assign d3 115. assign d4 116.
  split_at_52 d4. assign t4 52. assign d5 64. split_at_48 t4. assign tx 4. assign t4' 48.
  assign c2 112. assign d6 115. split_at_52 d6. assign u0 52. assign d7 63.
  assign_or u1 56. assign c3 115. split_at_52 c3. assign r0 52. assign c4 63.
  assign c5 114. assign d8 114. split_at_52 d8. assign c6 115. assign d9 62.
  split_at_52 c6. assign r1 52. assign c7 63. assign c8 114. assign d10 114. split_at_52 d10.
  assign c9 115. assign d11 62. split_at_52 c9. assign r2 52. assign c10 63. assign c11 100.
  split_at_52 c11. assign r3 52. assign c12 48. assign c13 49. assign r4 49.
  unfold ensures. cbn [n0 n1 n2 n3 n4]. split; [lia|].
  symmetry. apply (eqm_mult (16 * (Z.land c M52 * 2 ^ 156 + c1 * 2 ^ 208 + Z.land d8 M52 * 2 ^ 52 +
    Z.land d10 M52 * 2 ^ 104 + d11 * 2 ^ 156) + u1)). unfold P. lia.
Qed.

(** A product with a doubled factor, by the name of the product. *)
Tactic Notation "double_left" ident(x) ident(y) ident(p) :=
  let E := fresh in assert (E : x * 2 * y = 2 * p) by (subst p; ring); rewrite E; clear E.

Lemma sqr_inner_spec a :
  magnitude 8 a ->
  ensures (secp256k1_fe_sqr_inner a) (fun r => magnitude 1 r /\ val r ≡ val a * val a).
Proof.
  destruct a as [a0 a1 a2 a3 a4]. unfold magnitude, val; cbn [n0 n1 n2 n3 n4].
  unfold M52, M48. intros (Ha0 & Ha1 & Ha2 & Ha3 & Ha4).
  cbv beta iota delta [secp256k1_fe_sqr_inner R52]. change (Z.shiftr M52 4) with M48.
  change (Z.shiftr 0x1000003D10 4) with 0x1000003D1.
  name_product a0 a0 p00. name_product a0 a1 p01. name_product a0 a2 p02. name_product a0 a3 p03. name_product a0 a4 p04. name_product a1 a1 p11. name_product a1 a2 p12. name_product a1 a3 p13. name_product a1 a4 p14. name_product a2 a2 p22. name_product a2 a3 p23. name_product a2 a4 p24. name_product a3 a3 p33. name_product a3 a4 p34. name_product a4 a4 p44.
  assert (Hv : (a0 + a1 * 2 ^ 52 + a2 * 2 ^ 104 + a3 * 2 ^ 156 + a4 * 2 ^ 208) *
    (a0 + a1 * 2 ^ 52 + a2 * 2 ^ 104 + a3 * 2 ^ 156 + a4 * 2 ^ 208) =
    p00 + 2 * p01 * 2 ^ 52 + (2 * p02 + p11) * 2 ^ 104 + 2 * (p03 + p12) * 2 ^ 156 +
    (2 * (p04 + p13) + p22) * 2 ^ 208 + 2 * (p14 + p23) * 2 ^ 260 +
    (2 * p24 + p33) * 2 ^ 312 + 2 * p34 * 2 ^ 364 + p44 * 2 ^ 416) by (subst; ring).
  rewrite Hv. clear Hv. rewrite !(wrap_small 64 (_ * 2)) by lia.
  double_left a0 a3 p03. double_left a1 a2 p12. double_left a1 a3 p13. double_left a2 a3 p23.
  assert (H4 : forall t, t = a4 * 2 ->
    a0 * t = 2 * p04 /\ a1 * t = 2 * p14 /\ a2 * t = 2 * p24 /\ a3 * t = 2 * p34)
    by (intros t ->; subst; repeat split; ring).
  assert (H0 : forall t, t = a0 * 2 -> t * a1 = 2 * p01 /\ t * a2 = 2 * p02)
    by (intros t ->; subst; split; ring).
  forget_products.
  assign d 114. assign c 112. split_at_52 c. assign d1 115. assign c1 60.
  split_at_52 d1. assign t3 52. assign d2 63.
  assign a4' 53. destruct (H4 a4' Ea4') as (-> & -> & -> & ->). clear H4.
  assign d3 115. assign d4 116.
  split_at_52 d4. assign t4 52. assign d5 64. split_at_48 t4. assign tx 4. assign t4' 48.
  assign c2 112. assign d6 115. split_at_52 d6. assign u0 52. assign d7 63.
  assign_or u1 56. assign c3 115. split_at_52 c3. assign r0 52. assign c4 63.
  assign a0' 57. destruct (H0 a0' Ea0') as (-> & ->). clear H0.
  assign c5 114. assign d8 114. split_at_52 d8. assign c6 115. assign d9 62.
  split_at_52 c6. assign r1 52. assign c7 63. assign c8 114. assign d10 114. split_at_52 d10.
  assign c9 115. assign d11 62. split_at_52 c9. assign r2 52. assign c10 63. assign c11 100.
  split_at_52 c11. assign r3 52. assign c12 48. assign c13 49. assign r4 49.
  unfold ensures. cbn [n0 n1 n2 n3 n4]. split; [lia|].
  symmetry. apply (eqm_mult (16 * (Z.land c M52 * 2 ^ 156 + c1 * 2 ^ 208 + Z.land d8 M52 * 2 ^ 52 +
    Z.land d10 M52 * 2 ^ 104 + d11 * 2 ^ 156) + u1)). unfold P. lia.
Qed.

(** ** Normalisation *)

(** Masks of ones. *)
Lemma land_all_ones a b :
  0 <= a <= M52 -> 0 <= b <= M52 -> Z.land a b = M52 <-> a = M52 /\ b = M52.
Proof.
  intros Ha Hb. split; [|by intros [-> ->]].
  assert (H : forall x y, 0 <= x <= M52 -> Z.land x y = M52 -> x = M52).
  { intros x y Hx E. rewrite <- (Z.mod_small x (2 ^ 52)) by (unfold M52 in Hx; lia).
    rewrite <- Z.land_ones by lia. change (Z.ones 52) with M52. rewrite <- E, Z.land_assoc, Z.land_diag.
    done. }
  intros E. split; [by apply (H a b)|]. apply (H b a); [done|]. by rewrite Z.land_comm.
Qed.

Lemma land_small a b : 0 <= a <= M52 -> 0 <= b <= M52 -> 0 <= Z.land a b <= M52.
Proof.
  intros Ha Hb. assert (E : Z.land (Z.land a b) M52 = Z.land a b).
  { rewrite <- Z.land_assoc. f_equal. change M52 with (Z.ones 52). rewrite Z.land_ones by lia.
    apply Z.mod_small. unfold M52 in Hb. lia. }
  destruct (split52 (Z.land a b)) as (_ & Hl & _); [apply Z.land_nonneg; lia|]. rewrite E in Hl.
  unfold M52. lia.
Qed.

Lemma lxor_eq x c y : Z.lxor x c = y <-> x = Z.lxor y c.
Proof. split; [intros <-|intros ->]; by rewrite Z.lxor_assoc, Z.lxor_nilpotent, Z.lxor_0_r. Qed.

(** What the first pass leaves: limbs of 52 bits and at most one carry. *)
Definition reduced (a : secp256k1_fe) : Prop :=
  0 <= n0 a <= M52 /\ 0 <= n1 a <= M52 /\ 0 <= n2 a <= M52 /\ 0 <= n3 a <= M52 /\ 0 <= n4 a < 2 ^ 48 + 2 ^ 13.

(** The test for a final subtraction. *)
Lemma final_reduction t0 t1 t2 t3 t4 :
  reduced (mkFe t0 t1 t2 t3 t4) ->
  Z.lor (Z.shiftr t4 48)
    (Z.land (Z.land (b2z (t4 =? M48)) (b2z (Z.land (Z.land t1 t2) t3 =? M52))) (b2z (t0 >=? 0xFFFFEFFFFFC2F))) =
  b2z (P <=? val (mkFe t0 t1 t2 t3 t4)).
Proof.
  unfold reduced, val; cbn [n0 n1 n2 n3 n4]. intros (H0 & H1 & H2 & H3 & H4).
  assert (Hm : (Z.land (Z.land t1 t2) t3 =? M52) = (t1 =? M52) && (t2 =? M52) && (t3 =? M52)).
  { apply eq_true_iff_eq. rewrite !andb_true_iff, !Z.eqb_eq.
    rewrite (land_all_ones (Z.land t1 t2) t3), (land_all_ones t1 t2) by auto using land_small. tauto. }
  rewrite Hm. clear Hm. unfold M52, M48, P in *.
  destruct (split48 t4) as (Ht & Hl & Hs); [lia|]. unfold M48 in *.
  destruct (Z.leb_spec (2 ^ 48) t4) as [Hge|Hlt].
  - replace (Z.shiftr t4 48) with 1 by lia.
    destruct (Z.eqb_spec t4 0x0FFFFFFFFFFFF) as [|_]; [lia|]. cbn [b2z Z.land Z.lor].
    destruct (Z.leb_spec (2 ^ 256 - 2 ^ 32 - 977)
      (t0 + t1 * 2 ^ 52 + t2 * 2 ^ 104 + t3 * 2 ^ 156 + t4 * 2 ^ 208)); [done|lia].
  - replace (Z.shiftr t4 48) with 0 by lia. rewrite Z.lor_0_l.
    destruct (Z.leb_spec (2 ^ 256 - 2 ^ 32 - 977)
      (t0 + t1 * 2 ^ 52 + t2 * 2 ^ 104 + t3 * 2 ^ 156 + t4 * 2 ^ 208)) as [Hp|Hp].
    + destruct (Z.eqb_spec t4 0x0FFFFFFFFFFFF); [|lia]. destruct (Z.eqb_spec t3 0xFFFFFFFFFFFFF); [|lia].
      destruct (Z.eqb_spec t2 0xFFFFFFFFFFFFF); [|lia]. destruct (Z.eqb_spec t1 0xFFFFFFFFFFFFF); [|lia].
      destruct (Z.geb_spec t0 0xFFFFEFFFFFC2F); [done|lia].
    + destruct (Z.eqb_spec t4 0x0FFFFFFFFFFFF); [|done]. destruct (Z.eqb_spec t3 0xFFFFFFFFFFFFF); [|by rewrite !andb_false_r].
      destruct (Z.eqb_spec t2 0xFFFFFFFFFFFFF); [|by rewrite andb_false_r].
      destruct (Z.eqb_spec t1 0xFFFFFFFFFFFFF); [|done]. destruct (Z.geb_spec t0 0xFFFFEFFFFFC2F); [lia|done].
Qed.

Lemma normalize_weak_spec m a :
  magnitude m a -> 0 <= m <= 2047 ->
  ensures (secp256k1_fe_normalize_weak a) (fun r => reduced r /\ val r = val a - Z.shiftr (n4 a) 48 * P).
Proof.
  destruct a as [t0 t1 t2 t3 t4]. unfold magnitude, reduced, val; cbn [n0 n1 n2 n3 n4].
  unfold M52 at 1 2 3 4. unfold M48. intros (H0 & H1 & H2 & H3 & H4) Hm.
  cbv beta iota delta [secp256k1_fe_normalize_weak].
  split_at_48 t4. assign x 13. assign u4 48. assign u0 64.
  split_at_52 u0. assign u1 64. assign r0 52.
  split_at_52 u1. assign u2 64. assign r1 52.
  split_at_52 u2. assign u3 64. assign r2 52.
  split_at_52 u3. assign r4 49. assign r3 52.
  unfold ensures, M52 in *. cbn [n0 n1 n2 n3 n4]. split; [lia|]. unfold P. lia.
Qed.

(** The final pass of [normalize], as a function of what the first one leaves:
    adding [x * 0x1000003D1] and dropping bit 256. *)
Definition final_pass (r : secp256k1_fe) (x : Z) : secp256k1_fe :=
  let '(mkFe t0 t1 t2 t3 t4) := r in
  let t0 := u64 (t0 + u64 (x * 0x1000003D1)) in
  let t1 := u64 (t1 + Z.shiftr t0 52) in let t0 := Z.land t0 M52 in
  let t2 := u64 (t2 + Z.shiftr t1 52) in let t1 := Z.land t1 M52 in
  let t3 := u64 (t3 + Z.shiftr t2 52) in let t2 := Z.land t2 M52 in
  let t4 := u64 (t4 + Z.shiftr t3 52) in let t3 := Z.land t3 M52 in
  let t4 := Z.land t4 M48 in
  mkFe t0 t1 t2 t3 t4.

Definition needs_final (r : secp256k1_fe) : Z :=
  Z.lor (Z.shiftr (n4 r) 48)
    (Z.land (Z.land (b2z (n4 r =? M48)) (b2z (Z.land (Z.land (n1 r) (n2 r)) (n3 r) =? M52)))
      (b2z (n0 r >=? 0xFFFFEFFFFFC2F))).

Lemma normalize_passes a :
  secp256k1_fe_normalize a =
  let r := secp256k1_fe_normalize_weak a in final_pass r (needs_final r).
Proof. by destruct a. Qed.

Lemma normalize_var_passes a :
  secp256k1_fe_normalize_var a =
  let r := secp256k1_fe_normalize_weak a in
  if negb (needs_final r =? 0) then final_pass r 1 else r.
Proof. by destruct a. Qed.

Lemma final_pass_spec r :
  reduced r ->
  ensures (final_pass r (needs_final r)) (fun r' => normalized r' /\ val r' = val r - needs_final r * P).
Proof.
  intros Hr. destruct r as [t0 t1 t2 t3 t4]. unfold needs_final. cbn [n0 n1 n2 n3 n4].
  rewrite final_reduction by done. set (x := b2z _).
  assert (Hx : x = 1 /\ P <= val (mkFe t0 t1 t2 t3 t4) \/ x = 0 /\ val (mkFe t0 t1 t2 t3 t4) < P).
  { unfold x. destruct (Z.leb_spec P (val (mkFe t0 t1 t2 t3 t4))); [by left|by right]. }
  clearbody x. revert Hr Hx. unfold reduced, normalized, val, P; cbn [n0 n1 n2 n3 n4].
  unfold M52 at 1 2 3 4. intros (H0 & H1 & H2 & H3 & H4) Hx. cbv beta iota delta [final_pass].
  assert (Hx01 : 0 <= x <= 1) by lia.
  assign u0 53. split_at_52 u0. assign u1 53. assign r0 52.
  split_at_52 u1. assign u2 53. assign r1 52.
  split_at_52 u2. assign u3 53. assign r2 52.
  split_at_52 u3. assign u4 49. assign r3 52. split_at_48 u4. assign r4 48.
  unfold ensures, M52, M48 in *. cbn [n0 n1 n2 n3 n4].
  assert (Hc : Z.shiftr u4 48 = x) by lia. lia.
Qed.

Lemma normalize_ensures m a :
  magnitude m a -> 0 <= m <= 2047 ->
  normalized (secp256k1_fe_normalize a) /\ val (secp256k1_fe_normalize a) = val a mod P.
Proof.
  intros Ha Hm. destruct (normalize_weak_spec m a Ha Hm) as [Hr Hv].
  rewrite normalize_passes. destruct (final_pass_spec _ Hr) as [Hn Hv2]. split; [done|].
  cbv zeta. rewrite Hv in Hv2. apply (Z.mod_unique _ _ (Z.shiftr (n4 a) 48 + needs_final (secp256k1_fe_normalize_weak a))).
  - left. destruct Hn as (? & ? & ? & ? & ? & ?). split; [|done]. unfold val. lia.
  - rewrite Hv2. lia.
Qed.

Lemma normalize_var_same m a :
  magnitude m a -> 0 <= m <= 2047 -> secp256k1_fe_normalize_var a = secp256k1_fe_normalize a.
Proof.
  intros Ha Hm. destruct (normalize_weak_spec m a Ha Hm) as [Hr _].
  rewrite normalize_passes, normalize_var_passes. cbv zeta. set (r := secp256k1_fe_normalize_weak a) in *.
  clearbody r. clear a Ha m Hm. destruct r as [t0 t1 t2 t3 t4].
  assert (Hx : needs_final (mkFe t0 t1 t2 t3 t4) = b2z (P <=? val (mkFe t0 t1 t2 t3 t4)))
    by (unfold needs_final; cbn [n0 n1 n2 n3 n4]; by apply final_reduction).
  rewrite Hx. destruct (Z.leb_spec P (val (mkFe t0 t1 t2 t3 t4))) as [|Hlt]; [done|]. cbn [b2z negb Z.eqb].
  revert Hr Hlt. unfold reduced, val, P; cbn [n0 n1 n2 n3 n4]. unfold M52.
  intros (H0 & H1 & H2 & H3 & H4) Hlt. unfold final_pass.
  assert (Hs : forall t, 0 <= t < 2 ^ 52 -> Z.shiftr t 52 = 0 /\ Z.land t M52 = t).
  { intros t Ht. destruct (split52 t) as (? & ? & ?); [lia|]. lia. }
  destruct (Hs t0) as [S0 L0]; [lia|]. destruct (Hs t1) as [S1 L1]; [lia|]. destruct (Hs t2) as [S2 L2]; [lia|].
  destruct (Hs t3) as [S3 L3]; [lia|]. destruct (split48 t4) as (E4 & ? & ?); [lia|].
  rewrite Z.mul_0_l. change (u64 0) with 0. rewrite Z.add_0_r, (wrap_small 64 t0) by lia.
  rewrite S0, L0, Z.add_0_r, (wrap_small 64 t1) by lia. rewrite S1, L1, Z.add_0_r, (wrap_small 64 t2) by lia.
  rewrite S2, L2, Z.add_0_r, (wrap_small 64 t3) by lia. rewrite S3, L3, Z.add_0_r, (wrap_small 64 t4) by lia.
  f_equal. lia.
Qed.

(** ** Testing for zero *)

(** The test on what the first pass leaves. *)
Definition zero_test (r : secp256k1_fe) : bool :=
  let z0 := Z.lor (Z.lor (Z.lor (Z.lor (n0 r) (n1 r)) (n2 r)) (n3 r)) (n4 r) in
  let z1 := Z.land (Z.land (Z.land (Z.land (Z.lxor (n0 r) 0x1000003D0) (n1 r)) (n2 r)) (n3 r))
              (Z.lxor (n4 r) 0xF000000000000) in
  (z0 =? 0) || (z1 =? M52).

Lemma to_zero_test a : secp256k1_fe_normalizes_to_zero a = zero_test (secp256k1_fe_normalize_weak a).
Proof. by destruct a. Qed.

Lemma lxor_small a b : 0 <= a <= M52 -> 0 <= b <= M52 -> 0 <= Z.lxor a b <= M52.
Proof.
  intros Ha Hb. assert (Hn : 0 <= Z.lxor a b) by (apply Z.lxor_nonneg; lia). split; [done|].
  assert (E : Z.land (Z.lxor a b) M52 = Z.lxor a b).
  { change M52 with (Z.ones 52) in *. apply Z.bits_inj'. intros i Hi. rewrite Z.land_spec, Z.lxor_spec.
    destruct (Z_lt_dec i 52); [by rewrite Z.ones_spec_low, andb_true_r by lia|].
    rewrite Z.ones_spec_high by lia. change (Z.ones 52) with (2 ^ 52 - 1) in *.
    rewrite <- (Z.mod_small a (2 ^ 52)), <- (Z.mod_small b (2 ^ 52)) by lia.
    by rewrite !Z.mod_pow2_bits_high by lia. }
  destruct (split52 (Z.lxor a b)) as (_ & Hl & _); [done|]. rewrite E in Hl. unfold M52. lia.
Qed.

Lemma zero_test_spec r :
  reduced r -> zero_test r = true <-> val r = 0 \/ val r = P.
Proof.
  destruct r as [t0 t1 t2 t3 t4]. unfold reduced, zero_test, val. cbn [n0 n1 n2 n3 n4].
  intros (H0 & H1 & H2 & H3 & H4). rewrite orb_true_iff, !Z.eqb_eq, !Z.lor_eq_0_iff.
  assert (Hc : 0 <= 0x1000003D0 <= M52 /\ 0 <= 0xF000000000000 <= M52 /\ 0 <= t4 <= M52) by (unfold M52; lia).
  destruct Hc as (Hc0 & Hc4 & H4').
  rewrite !land_all_ones by auto using land_small, lxor_small. rewrite !lxor_eq.
  change (Z.lxor M52 0x1000003D0) with 0xFFFFEFFFFFC2F. change (Z.lxor M52 0xF000000000000) with M48.
  unfold M52, M48, P in *. lia.
Qed.

Lemma zero_var_same m a :
  magnitude m a -> 0 <= m <= 2047 ->
  secp256k1_fe_normalizes_to_zero_var a = secp256k1_fe_normalizes_to_zero a.
Proof.
  intros Ha Hm. destruct (normalize_weak_spec m a Ha Hm) as [Hr _]. rewrite to_zero_test.
  unfold secp256k1_fe_normalizes_to_zero_var.
  assert (E : Z.land (u64 (n0 a + u64 (Z.shiftr (n4 a) 48 * 0x1000003D1))) M52 =
    n0 (secp256k1_fe_normalize_weak a)) by by destruct a.
  rewrite E. set (z := n0 (secp256k1_fe_normalize_weak a)) in *.
  destruct (Z.eqb_spec z 0) as [|Hz0]; [by destruct a|].
  destruct (Z.eqb_spec (Z.lxor z 0x1000003D0) M52) as [|Hz1]; [by destruct a|]. cbn [negb andb].
  symmetry. apply not_true_is_false. unfold zero_test. fold z. cbv zeta.
  rewrite orb_true_iff, !Z.eqb_eq, !Z.lor_eq_0_iff. revert Hr. unfold reduced. fold z.
  set (w := secp256k1_fe_normalize_weak a). intros (H0 & H1 & H2 & H3 & H4).
  assert (Hc : 0 <= 0x1000003D0 <= M52 /\ 0 <= 0xF000000000000 <= M52 /\ 0 <= n4 w <= M52) by (unfold M52; lia).
  destruct Hc as (Hc0 & Hc4 & H4').
  rewrite !land_all_ones by auto using land_small, lxor_small. tauto.
Qed.

Lemma to_zero_spec m a :
  magnitude m a -> 0 <= m <= 2047 -> secp256k1_fe_normalizes_to_zero a = true <-> val a mod P = 0.
Proof.
  intros Ha Hm. destruct (normalize_weak_spec m a Ha Hm) as [Hr Hv].
  rewrite to_zero_test, (zero_test_spec _ Hr).
  assert (E : val a mod P = val (secp256k1_fe_normalize_weak a) mod P).
  { symmetry. apply (eqm_mult (- Z.shiftr (n4 a) 48)). rewrite Hv. lia. }
  rewrite E. set (r := secp256k1_fe_normalize_weak a) in *. clearbody r.
  assert (Hb : 0 <= val r < 2 * P).
  { revert Hr. unfold reduced, val, P, M52. lia. }
  split.
  - intros [-> | ->]; [done|]. by apply Z.mod_same.
  - intros H0. assert (Hd := Z.div_mod (val r) P ltac:(done)). rewrite H0 in Hd. unfold P in *. lia.
Qed.

End FieldFacts.
