(* ===== verification/FieldOps.v ===== *)
(** * Field elements: addition, comparison and conversions

    The remaining operations of field_5x52_impl.h: what they do to the value
    and the magnitude, and the two encodings (32 big-endian bytes and four
    64-bit words), which lose nothing. *)

From Stdlib Require Import ZArith Lia List.
From stdpp Require Import base list.
From S2P Require Import Prelude Words Field FieldFacts.
Local Open Scope Z_scope.
Local Open Scope word_scope.

Module FieldOps.
Import Field FieldFacts.

(** ** Addition, negation, small multiples *)

Lemma add_spec m k a b :
  magnitude m a -> magnitude k b -> m + k <= 2048 ->
  magnitude (m + k) (secp256k1_fe_add a b) /\ val (secp256k1_fe_add a b) = val a + val b.
Proof.
  destruct a, b. unfold magnitude, val, secp256k1_fe_add, M52, M48. cbn [n0 n1 n2 n3 n4].
  intros (? & ? & ? & ? & ?) (? & ? & ? & ? & ?) Hm. rewrite !wrap_small by lia. lia.
Qed.

Lemma negate_spec m a :
  magnitude m a -> 0 <= m <= 2047 ->
  magnitude (m + 1) (secp256k1_fe_negate a m) /\
  val (secp256k1_fe_negate a m) = 2 * (m + 1) * P - val a.
Proof.
  destruct a. unfold magnitude, val, secp256k1_fe_negate, M52, M48, P. cbn [n0 n1 n2 n3 n4].
  intros (? & ? & ? & ? & ?) Hm. rewrite !wrap_small by lia. lia.
Qed.

Lemma mul_int_spec m k a :
  magnitude m a -> 0 <= m -> 0 <= k -> m * k <= 2048 ->
  magnitude (m * k) (secp256k1_fe_mul_int a k) /\ val (secp256k1_fe_mul_int a k) = val a * k.
Proof.
  destruct a as [a0 a1 a2 a3 a4]. unfold magnitude, val, secp256k1_fe_mul_int. cbn [n0 n1 n2 n3 n4].
  intros (H0 & H1 & H2 & H3 & H4) Hm Hk Hmk.
  assert (Hb : forall x c, 0 <= c -> 0 <= x <= 2 * m * c -> 0 <= x * k <= 2 * (m * k) * c).
  { intros x c Hc Hx. destruct (mul_bound x k _ k Hx ltac:(lia)) as [? Hle]. split; [done|].
    replace (2 * (m * k) * c) with (2 * m * c * k) by ring. done. }
  assert (B0 := Hb a0 M52 ltac:(done) H0). assert (B1 := Hb a1 M52 ltac:(done) H1).
  assert (B2 := Hb a2 M52 ltac:(done) H2). assert (B3 := Hb a3 M52 ltac:(done) H3).
  assert (B4 := Hb a4 M48 ltac:(done) H4). clear H0 H1 H2 H3 H4 Hb.
  set (q := m * k) in *. clearbody q. unfold M52, M48 in *.
  rewrite !wrap_small by lia. split; [auto|lia].
Qed.

Lemma set_int_spec a : 0 <= a < 2 ^ 31 ->
  normalized (secp256k1_fe_set_int a) /\ val (secp256k1_fe_set_int a) = a.
Proof.
  intros Ha. unfold normalized, val, secp256k1_fe_set_int, M52, M48, P. cbn [n0 n1 n2 n3 n4].
  rewrite wrap_small by lia. lia.
Qed.

(** ** Comparison of normalised elements *)

Lemma cmp_var_spec a b :
  normalized a -> normalized b ->
  secp256k1_fe_cmp_var a b = match val a ?= val b with Lt => -1 | Eq => 0 | Gt => 1 end.
Proof.
  destruct a as [a0 a1 a2 a3 a4], b as [b0 b1 b2 b3 b4].
  unfold normalized, val, M52, M48, secp256k1_fe_cmp_var, cmp_limbs. cbn [n0 n1 n2 n3 n4].
  intros (? & ? & ? & ? & ? & _) (? & ? & ? & ? & ? & _).
  assert (Hlt : forall x y, x < y -> (x ?= y) = Lt) by (intros x y ?; by apply Z.compare_lt_iff).
  assert (Hgt : forall x y, y < x -> (x ?= y) = Gt) by (intros x y ?; by apply Z.compare_gt_iff).
  repeat (match goal with |- context [?x >? ?y] => destruct (Z.gtb_spec x y) end;
    [rewrite Hgt by lia; done|
     match goal with |- context [?x <? ?y] => destruct (Z.ltb_spec x y) end;
     [rewrite Hlt by lia; done|]]).
  replace a4 with b4 by lia. replace a3 with b3 by lia. replace a2 with b2 by lia.
  replace a1 with b1 by lia. replace a0 with b0 by lia. by rewrite Z.compare_refl.
Qed.

Lemma is_zero_spec a : normalized a -> secp256k1_fe_is_zero a = true <-> val a = 0.
Proof.
  destruct a. unfold normalized, val, secp256k1_fe_is_zero. cbn [n0 n1 n2 n3 n4].
  intros (? & ? & ? & ? & ? & _). rewrite Z.eqb_eq, !Z.lor_eq_0_iff. lia.
Qed.

Lemma is_odd_spec a : normalized a -> secp256k1_fe_is_odd a = val a mod 2.
Proof.
  destruct a as [a0 a1 a2 a3 a4]. unfold normalized, val, secp256k1_fe_is_odd. cbn [n0 n1 n2 n3 n4].
  intros _. change 1 with (Z.ones 1). rewrite Z.land_ones by lia. change (2 ^ 1) with 2.
  rewrite <- (Z.mod_add a0 (a1 * 2 ^ 51 + a2 * 2 ^ 103 + a3 * 2 ^ 155 + a4 * 2 ^ 207) 2) by lia.
  f_equal. lia.
Qed.

(** ** Conditional move *)

Lemma cmov64_spec flag r a :
  flag = 0 \/ flag = 1 -> 0 <= r < 2 ^ 64 -> 0 <= a < 2 ^ 64 ->
  cmov64 (u64 (flag + (2 ^ 64 - 1))) (2 ^ 64 - 1 - u64 (flag + (2 ^ 64 - 1))) r a =
  if flag =? 1 then a else r.
Proof.
  intros [-> | ->] Hr Ha; unfold cmov64.
  - change (u64 (0 + (2 ^ 64 - 1))) with (Z.ones 64). change (2 ^ 64 - 1 - Z.ones 64) with 0.
    rewrite Z.land_0_r, Z.lor_0_r, Z.land_ones by lia. by apply Z.mod_small.
  - change (u64 (1 + (2 ^ 64 - 1))) with 0. change (2 ^ 64 - 1 - 0) with (Z.ones 64).
    rewrite Z.land_0_r, Z.lor_0_l, Z.land_ones by lia. by apply Z.mod_small.
Qed.

Lemma cmov_spec m k r a flag :
  flag = 0 \/ flag = 1 -> magnitude m r -> magnitude k a -> m <= 2048 -> k <= 2048 ->
  secp256k1_fe_cmov r a flag = if flag =? 1 then a else r.
Proof.
  destruct r as [r0 r1 r2 r3 r4], a as [a0 a1 a2 a3 a4]. unfold magnitude, M52, M48, secp256k1_fe_cmov.
  cbn [n0 n1 n2 n3 n4]. intros Hf (? & ? & ? & ? & ?) (? & ? & ? & ? & ?) Hm Hk.
  rewrite !cmov64_spec by (done || lia). by destruct (flag =? 1).
Qed.

(** ** Four 64-bit words *)

Definition storage_val (s : secp256k1_fe_storage) : Z :=
  sn0 s + sn1 s * 2 ^ 64 + sn2 s * 2 ^ 128 + sn3 s * 2 ^ 192.

Definition storage_ok (s : secp256k1_fe_storage) : Prop :=
  0 <= sn0 s < 2 ^ 64 /\ 0 <= sn1 s < 2 ^ 64 /\ 0 <= sn2 s < 2 ^ 64 /\ 0 <= sn3 s < 2 ^ 64.

(** A word from the high bits of one limb and the low bits of the next. *)
Lemma or_words x y k : 0 <= k <= 64 -> 0 <= x < 2 ^ k -> 
  Z.lor x (u64 (Z.shiftl y k)) = x + y mod 2 ^ (64 - k) * 2 ^ k.
Proof.
  intros Hk Hx. rewrite Z.shiftl_mul_pow2 by lia. unfold wrap.
  replace (2 ^ 64) with (2 ^ (64 - k) * 2 ^ k) by (rewrite <- Z.pow_add_r by lia; f_equal; lia).
  rewrite Z.mul_mod_distr_r by (apply Z.pow_nonzero; lia). by apply lor_high; [lia|].
Qed.

Lemma or_masked x y k : 0 <= k <= 52 -> 0 <= x < 2 ^ k ->
  Z.lor x (Z.land (u64 (Z.shiftl y k)) M52) = x + y mod 2 ^ (52 - k) * 2 ^ k.
Proof.
  intros Hk Hx. rewrite Z.shiftl_mul_pow2 by lia. change M52 with (Z.ones 52). rewrite Z.land_ones by lia.
  unfold wrap. rewrite Z.mod_mod_divide by (by exists (2 ^ 12)).
  replace (2 ^ 52) with (2 ^ (52 - k) * 2 ^ k) by (rewrite <- Z.pow_add_r by lia; f_equal; lia).
  rewrite Z.mul_mod_distr_r by (apply Z.pow_nonzero; lia). by apply lor_high; [lia|].
Qed.

Lemma shiftr_range x k n : 0 <= k <= n -> 0 <= x < 2 ^ n -> 0 <= Z.shiftr x k < 2 ^ (n - k).
Proof.
  intros Hk Hx. rewrite Z.shiftr_div_pow2 by lia. split; [apply Z.div_pos; lia|].
  apply Z.div_lt_upper_bound; [lia|]. rewrite <- Z.pow_add_r by lia. replace (k + (n - k)) with n by lia. lia.
Qed.

Lemma to_storage_spec a :
  normalized a -> storage_ok (secp256k1_fe_to_storage a) /\ storage_val (secp256k1_fe_to_storage a) = val a.
Proof.
  destruct a as [a0 a1 a2 a3 a4]. unfold normalized, storage_ok, storage_val, val, secp256k1_fe_to_storage, M52, M48.
  cbn [n0 n1 n2 n3 n4 sn0 sn1 sn2 sn3]. intros (H0 & H1 & H2 & H3 & H4 & _).
  assert (S1 : 0 <= Z.shiftr a1 12 < 2 ^ 40) by (apply (shiftr_range a1 12 52); lia).
  assert (S2 : 0 <= Z.shiftr a2 24 < 2 ^ 28) by (apply (shiftr_range a2 24 52); lia).
  assert (S3 : 0 <= Z.shiftr a3 36 < 2 ^ 16) by (apply (shiftr_range a3 36 52); lia).
  rewrite (or_words a0 a1 52), (or_words _ a2 40), (or_words _ a3 28), (or_words _ a4 16) by lia.
  clear S1 S2 S3.
  rewrite !Z.shiftr_div_pow2 by lia. cbn [Z.sub].
  change (64 - 52) with 12. change (64 - 40) with 24. change (64 - 28) with 36. change (64 - 16) with 48.
  Z.to_euclidean_division_equations. lia.
Qed.

Lemma from_storage_spec s :
  storage_ok s ->
  val (secp256k1_fe_from_storage s) = storage_val s /\
  (storage_val s < P -> normalized (secp256k1_fe_from_storage s)).
Proof.
  destruct s as [s0 s1 s2 s3]. unfold storage_ok, storage_val, normalized, val, secp256k1_fe_from_storage.
  cbn [n0 n1 n2 n3 n4 sn0 sn1 sn2 sn3]. intros (H0 & H1 & H2 & H3).
  assert (S0 : 0 <= Z.shiftr s0 52 < 2 ^ 12) by (apply (shiftr_range s0 52 64); lia).
  assert (S1 : 0 <= Z.shiftr s1 40 < 2 ^ 24) by (apply (shiftr_range s1 40 64); lia).
  assert (S2 : 0 <= Z.shiftr s2 28 < 2 ^ 36) by (apply (shiftr_range s2 28 64); lia).
  rewrite (or_masked _ s1 12), (or_masked _ s2 24), (or_masked _ s3 36) by lia. clear S0 S1 S2.
  change (Z.land s0 M52) with (Z.land s0 (Z.ones 52)). rewrite Z.land_ones, !Z.shiftr_div_pow2 by lia.
  change (52 - 12) with 40. change (52 - 24) with 28. change (52 - 36) with 16.
  unfold M52, M48. assert (E : s0 mod 2 ^ 52 + (s0 / 2 ^ 52 + s1 mod 2 ^ 40 * 2 ^ 12) * 2 ^ 52 +
    (s1 / 2 ^ 40 + s2 mod 2 ^ 28 * 2 ^ 24) * 2 ^ 104 + (s2 / 2 ^ 28 + s3 mod 2 ^ 16 * 2 ^ 36) * 2 ^ 156 +
    s3 / 2 ^ 16 * 2 ^ 208 = s0 + s1 * 2 ^ 64 + s2 * 2 ^ 128 + s3 * 2 ^ 192)
    by (Z.to_euclidean_division_equations; lia).
  split; [exact E|]. intros Hp. rewrite E. Z.to_euclidean_division_equations. lia.
Qed.

(** A normalised element is determined by its value. *)
Lemma normalized_inj a b : normalized a -> normalized b -> val a = val b -> a = b.
Proof.
  destruct a, b. unfold normalized, val, M52, M48. cbn [n0 n1 n2 n3 n4]. intros. f_equal; lia.
Qed.

(** ** Thirty-two bytes *)

(** The limb of a value. *)
Definition digit (v : Z) (l : Z) : Z := (v / 2 ^ (52 * l)) mod 2 ^ 52.

Definition fe_of (v : Z) : secp256k1_fe := mkFe (digit v 0) (digit v 1) (digit v 2) (digit v 3) (digit v 4).

Lemma digit_step v nib L s l :
  0 <= L -> 0 <= l -> 0 <= s <= 48 -> 0 <= nib < 16 -> 0 <= v < 2 ^ (52 * L + s) ->
  digit (v + nib * 2 ^ (52 * L + s)) l = if l =? L then Z.lor (digit v L) (nib * 2 ^ s) else digit v l.
Proof.
  intros HL Hl Hs Hn Hv. unfold digit. rewrite Z.pow_add_r in Hv by lia. rewrite Z.pow_add_r by lia.
  assert (Hp : 0 < 2 ^ (52 * L)) by (apply Z.pow_pos_nonneg; lia).
  assert (Hps : 0 < 2 ^ s) by (apply Z.pow_pos_nonneg; lia).
  assert (Hs52 : 2 ^ s * 16 <= 2 ^ 52).
  { change 16 with (2 ^ 4). rewrite <- Z.pow_add_r by lia. apply Z.pow_le_mono_r; lia. }
  assert (Hd : v / 2 ^ (52 * L) < 2 ^ s) by (apply Z.div_lt_upper_bound; lia).
  assert (Hd0 : 0 <= v / 2 ^ (52 * L)) by (apply Z.div_pos; lia).
  destruct (Z.eqb_spec l L) as [->|Hne].
  - replace (nib * (2 ^ (52 * L) * 2 ^ s)) with (nib * 2 ^ s * 2 ^ (52 * L)) by ring.
    rewrite Z.div_add, !Z.mod_small by nia. by rewrite lor_high by lia.
  - destruct (Z.lt_ge_cases l L) as [Hlt|Hge].
    + replace (nib * (2 ^ (52 * L) * 2 ^ s)) with (nib * 2 ^ s * 2 ^ (52 * (L - l - 1)) * 2 ^ 52 * 2 ^ (52 * l)).
      2: { replace (52 * L) with (52 * (L - l - 1) + 52 + 52 * l) by lia. rewrite !Z.pow_add_r by lia. ring. }
      rewrite Z.div_add by (apply Z.pow_nonzero; lia). apply Z.mod_add. lia.
    + assert (Hb : 2 ^ (52 * L) * 2 ^ 52 <= 2 ^ (52 * l)).
      { rewrite <- Z.pow_add_r by lia. apply Z.pow_le_mono_r; lia. }
      rewrite !Z.div_small; [done| |]; nia.
Qed.

Lemma fe_of_step v nib L s :
  0 <= L <= 4 -> 0 <= s <= 48 -> 0 <= nib < 16 -> 0 <= v < 2 ^ (52 * L + s) ->
  or_limb (fe_of v) L (nib * 2 ^ s) = fe_of (v + nib * 2 ^ (52 * L + s)).
Proof.
  intros HL Hs Hn Hv. unfold fe_of. rewrite !digit_step by lia. unfold or_limb. cbn [n0 n1 n2 n3 n4].
  assert (HL' : L = 0 \/ L = 1 \/ L = 2 \/ L = 3 \/ L = 4) by lia.
  by destruct HL' as [->|[->|[->|[->| ->]]]].
Qed.

(** The loops go through the nibbles from the least significant one. *)
Lemma nibbles_seq : nibbles = map (fun t => (Z.of_nat t / 2, Z.of_nat t mod 2)) (seq 0 64).
Proof. reflexivity. Qed.

Lemma nibble_of v i j :
  0 <= v -> 0 <= i -> (j = 0 \/ j = 1) ->
  Z.land (Z.shiftr ((v / 256 ^ i) mod 256) (4 * j)) 0xF = (v / 2 ^ (8 * i + 4 * j)) mod 16.
Proof.
  intros Hv Hi Hj. change 0xF with (Z.ones 4). rewrite Z.land_ones, Z.shiftr_div_pow2 by lia.
  change 256 with (2 ^ 8) at 1. rewrite <- Z.pow_mul_r, Z.pow_add_r by lia.
  rewrite <- Z.div_div by (try apply Z.pow_nonzero; try apply Z.pow_pos_nonneg; lia).
  set (w := v / 2 ^ (8 * i)). destruct Hj as [-> | ->].
  - change (2 ^ (4 * 0)) with 1. rewrite !Z.div_1_r. change 256 with (2 ^ 4 * 2 ^ 4).
    change 16 with (2 ^ 4). rewrite Z.mod_mod_divide by (by exists (2 ^ 4)). done.
  - change (2 ^ (4 * 1)) with 16. change (2 ^ 4) with 16. Z.to_euclidean_division_equations. lia.
Qed.

Lemma set_nibble_step a V t :
  Forall is_byte a -> length a = 32%nat -> V = be_word a -> (t < 64)%nat ->
  set_nibble a (fe_of (V mod 2 ^ (4 * Z.of_nat t))) (Z.of_nat t / 2, Z.of_nat t mod 2) =
  fe_of (V mod 2 ^ (4 * Z.of_nat (S t))).
Proof.
  intros Ha Hl HV Ht. assert (HVr := be_word_range a Ha). rewrite <- HV in HVr. unfold set_nibble.
  set (i := Z.of_nat t / 2). set (j := Z.of_nat t mod 2).
  assert (Hij : Z.of_nat t = 2 * i + j /\ 0 <= i <= 31 /\ (j = 0 \/ j = 1)).
  { subst i j. Z.to_euclidean_division_equations. lia. }
  destruct Hij as (Et & Hi & Hj). clearbody i j.
  assert (Hb := be_word_nth a (Z.to_nat i) Ha ltac:(lia)). rewrite <- HV, Z2Nat.id in Hb by lia.
  replace (length a - 1 - Z.to_nat i)%nat with (Z.to_nat (31 - i)) in Hb by lia.
  rewrite Hb, nibble_of by (lia || done). set (p := 8 * i + 4 * j).
  assert (Ep : 4 * Z.of_nat t = p) by lia. assert (Ep' : 4 * Z.of_nat (S t) = p + 4) by lia.
  rewrite Ep, Ep'. assert (Hp : 0 <= p <= 252) by lia.
  assert (Hdm := Z.div_mod p 52 ltac:(lia)). assert (Hm := Z.mod_pos_bound p 52 ltac:(lia)).
  assert (Hs : p mod 52 <= 48).
  { assert (p mod 52 = 4 * ((p mod 52) / 4)); [|lia]. subst p. Z.to_euclidean_division_equations. lia. }
  assert (HL : 0 <= p / 52 <= 4) by (Z.to_euclidean_division_equations; lia).
  set (nib := (V / 2 ^ p) mod 16). assert (Hn : 0 <= nib < 16) by (apply Z.mod_pos_bound; lia).
  assert (Hpow : 0 < 2 ^ (p mod 52) <= 2 ^ 48).
  { split; [apply Z.pow_pos_nonneg; lia|apply Z.pow_le_mono_r; lia]. }
  rewrite Z.shiftl_mul_pow2, wrap_small by (lia || nia).
  assert (Hv : 0 <= V mod 2 ^ p < 2 ^ p) by (apply Z.mod_pos_bound, Z.pow_pos_nonneg; lia).
  rewrite fe_of_step by (lia || (rewrite <- Hdm; lia)). rewrite <- Hdm. f_equal.
  rewrite Z.pow_add_r by lia. change (2 ^ 4) with 16.
  rewrite Z.rem_mul_r by (try apply Z.pow_nonzero; lia). subst nib. ring.
Qed.

Lemma set_b32_limbs a :
  Forall is_byte a -> length a = 32%nat ->
  fold_left (set_nibble a) nibbles secp256k1_fe_clear = fe_of (be_word a).
Proof.
  intros Ha Hl. rewrite nibbles_seq. set (V := be_word a).
  assert (Hloop : forall n, (n <= 64)%nat ->
    fold_left (set_nibble a) (map (fun t => (Z.of_nat t / 2, Z.of_nat t mod 2)) (seq 0 n)) secp256k1_fe_clear =
    fe_of (V mod 2 ^ (4 * Z.of_nat n))).
  { induction n as [|n IH]; intros Hn; [by rewrite Z.mod_1_r|].
    rewrite seq_S, map_app, fold_left_app, IH by lia. cbn [map fold_left Nat.add].
    by apply set_nibble_step; [..|lia]. }
  rewrite Hloop by lia. f_equal. apply Z.mod_small. assert (Hr := be_word_range a Ha). rewrite Hl in Hr. done.
Qed.

Lemma fe_of_val v : 0 <= v < 2 ^ 256 -> val (fe_of v) = v /\ (v < P -> normalized (fe_of v)).
Proof.
  intros Hv. assert (E : val (fe_of v) = v).
  { unfold val, fe_of, digit. cbn [n0 n1 n2 n3 n4 Z.mul]. change (2 ^ (52 * 1)) with (2 ^ 52).
    change (2 ^ (52 * 2)) with (2 ^ 104). change (2 ^ (52 * 3)) with (2 ^ 156).
    change (2 ^ (52 * 4)) with (2 ^ 208). change (2 ^ 0) with 1. Z.to_euclidean_division_equations. lia. }
  split; [done|]. intros Hp. unfold normalized. rewrite E.
  assert (Hd : forall l, 0 <= digit v l <= M52).
  { intros l. unfold digit, M52. assert (H := Z.mod_pos_bound (v / 2 ^ (52 * l)) (2 ^ 52) ltac:(lia)). lia. }
  unfold fe_of. cbn [n0 n1 n2 n3 n4]. repeat split; try apply Hd; try done.
  unfold digit, M48. change (2 ^ (52 * 4)) with (2 ^ 208). Z.to_euclidean_division_equations. lia.
Qed.

Lemma nibble_digit v L s :
  0 <= v -> 0 <= L -> 0 <= s <= 48 ->
  Z.land (Z.shiftr (digit v L) s) 0xF = (v / 2 ^ (52 * L + s)) mod 16.
Proof.
  intros Hv HL Hs. unfold digit. change 0xF with (Z.ones 4). rewrite Z.land_ones, Z.shiftr_div_pow2 by lia.
  rewrite Z.pow_add_r, <- Z.div_div by (try apply Z.pow_nonzero; try apply Z.pow_pos_nonneg; lia).
  set (w := v / 2 ^ (52 * L)). replace 52 with (s + (52 - s)) by lia. rewrite Z.pow_add_r by lia.
  assert (Hp : 0 < 2 ^ s) by (apply Z.pow_pos_nonneg; lia).
  rewrite Z.rem_mul_r, Z.mul_comm, Z.div_add by (try apply Z.pow_nonzero; try apply Z.pow_pos_nonneg; lia).
  rewrite (Z.div_small (w mod 2 ^ s)) by (apply Z.mod_pos_bound; lia). rewrite Z.add_0_l.
  change (2 ^ 4) with 16. apply Z.mod_mod_divide. exists (2 ^ (48 - s)).
  change 16 with (2 ^ 4). rewrite <- Z.pow_add_r by lia. f_equal. lia.
Qed.

Lemma limb_fe_of v l : 0 <= l <= 4 -> limb (fe_of v) l = digit v l.
Proof.
  intros Hl. assert (H : l = 0 \/ l = 1 \/ l = 2 \/ l = 3 \/ l = 4) by lia.
  by destruct H as [->|[->|[->|[->| ->]]]].
Qed.

Lemma get_byte_spec v i :
  0 <= v -> 0 <= i <= 31 -> get_byte (fe_of v) i = (v / 256 ^ i) mod 256.
Proof.
  intros Hv Hi. unfold get_byte.
  assert (Hn : forall j, j = 0 \/ j = 1 ->
    Z.land (Z.shiftr (limb (fe_of v) ((8 * i + 4 * j) / 52)) ((8 * i + 4 * j) mod 52)) 0xF =
    (v / 2 ^ (8 * i + 4 * j)) mod 16).
  { intros j Hj. set (p := 8 * i + 4 * j).
    assert (Hdm := Z.div_mod p 52 ltac:(lia)). assert (Hm := Z.mod_pos_bound p 52 ltac:(lia)).
    assert (Hs : p mod 52 <= 48).
    { assert (p mod 52 = 4 * ((p mod 52) / 4)); [|lia]. subst p. Z.to_euclidean_division_equations. lia. }
    assert (HL : 0 <= p / 52 <= 4) by (subst p; Z.to_euclidean_division_equations; lia).
    rewrite limb_fe_of, nibble_digit by lia. by rewrite <- Hdm. }
  rewrite (Hn 0), (Hn 1) by auto. rewrite Z.lor_0_l, !Z.shiftl_mul_pow2 by lia.
  change (2 ^ (4 * 0)) with 1. change (2 ^ (4 * 1)) with (2 ^ 4). rewrite Z.mul_1_r.
  rewrite lor_high by (try apply Z.mod_pos_bound; lia).
  change 256 with (2 ^ 8) at 1. rewrite <- Z.pow_mul_r, Z.mul_0_r, Z.add_0_r, Z.mul_1_r by lia.
  rewrite Z.pow_add_r, <- Z.div_div by (try apply Z.pow_nonzero; try apply Z.pow_pos_nonneg; lia).
  set (w := v / 2 ^ (8 * i)). change (2 ^ 4) with 16. Z.to_euclidean_division_equations. lia.
Qed.

Lemma get_b32_fe_of v : 0 <= v -> secp256k1_fe_get_b32 (fe_of v) = be_bytes 32 v.
Proof.
  intros Hv. apply (nth_ext _ _ 0 0).
  - unfold secp256k1_fe_get_b32. by rewrite length_map, length_seq, length_be_bytes.
  - unfold secp256k1_fe_get_b32. intros k Hk. rewrite length_map, length_seq in Hk.
    rewrite be_bytes_nth by done.
    rewrite (nth_indep _ 0 (get_byte (fe_of v) (31 - Z.of_nat 0))) by (by rewrite length_map, length_seq).
    rewrite (map_nth (fun k => get_byte (fe_of v) (31 - Z.of_nat k))), seq_nth by done.
    rewrite get_byte_spec by lia. do 3 f_equal. lia.
Qed.

Lemma normalized_fe_of a : normalized a -> a = fe_of (val a).
Proof.
  intros Ha. assert (Hr : 0 <= val a < P).
  { destruct Ha as (? & ? & ? & ? & ? & ?). split; [unfold val; lia|done]. }
  destruct (fe_of_val (val a)) as [E Hn]; [unfold P in Hr; lia|].
  apply normalized_inj; [done|apply Hn, Hr|by rewrite E].
Qed.

(** The range test of [set_b32]. *)
Lemma set_b32_test v :
  0 <= v < 2 ^ 256 ->
  (n4 (fe_of v) =? M48) && (Z.land (Z.land (n3 (fe_of v)) (n2 (fe_of v))) (n1 (fe_of v)) =? M52) &&
    (n0 (fe_of v) >=? 0xFFFFEFFFFFC2F) = (P <=? v).
Proof.
  intros Hv. destruct (fe_of_val v Hv) as [E _]. assert (Hd : forall l, 0 <= digit v l <= M52).
  { intros l. unfold digit, M52. assert (H := Z.mod_pos_bound (v / 2 ^ (52 * l)) (2 ^ 52) ltac:(lia)). lia. }
  assert (H4 : digit v 4 < 2 ^ 48).
  { unfold digit. change (2 ^ (52 * 4)) with (2 ^ 208). Z.to_euclidean_division_equations. lia. }
  assert (F := final_reduction (digit v 0) (digit v 1) (digit v 2) (digit v 3) (digit v 4)).
  unfold fe_of in *. cbn [n0 n1 n2 n3 n4] in *. rewrite E in F.
  rewrite (Z.land_comm (digit v 3)), <- Z.land_assoc, (Z.land_comm (digit v 3)), Z.land_assoc, (Z.land_comm (digit v 2)).
  destruct (split48 (digit v 4)) as (Es & ? & ?); [apply Hd|].
  replace (Z.shiftr (digit v 4) 48) with 0 in F by (unfold M48 in *; lia). rewrite Z.lor_0_l in F.
  assert (Hr : reduced (mkFe (digit v 0) (digit v 1) (digit v 2) (digit v 3) (digit v 4))).
  { unfold reduced. cbn [n0 n1 n2 n3 n4]. assert (Hd4 := Hd 4). repeat (split; [apply Hd|]). lia. }
  specialize (F Hr).
  by destruct (P <=? v), (_ =? M48), (_ =? M52), (_ >=? _).
Qed.

Lemma normalized_range a : normalized a -> 0 <= val a < P.
Proof. intros (? & ? & ? & ? & ? & ?). split; [unfold val; lia|done]. Qed.

Lemma set_b32_spec l :
  Forall is_byte l -> length l = 32%nat ->
  secp256k1_fe_set_b32 l = (fe_of (be_word l), b2z (be_word l <? P)).
Proof.
  intros Hl Hn. assert (Hr := be_word_range l Hl). rewrite Hn in Hr.
  unfold secp256k1_fe_set_b32. rewrite set_b32_limbs by done. rewrite set_b32_test by done.
  rewrite Z.leb_antisym. by destruct (be_word l <? P).
Qed.

Lemma get_b32_spec a : normalized a -> secp256k1_fe_get_b32 a = be_bytes 32 (val a).
Proof. intros Ha. rewrite (normalized_fe_of a Ha) at 1. by apply get_b32_fe_of, normalized_range. Qed.

Lemma storage_roundtrip a : normalized a -> secp256k1_fe_from_storage (secp256k1_fe_to_storage a) = a.
Proof.
  intros Ha. destruct (to_storage_spec a Ha) as [Hok Hv]. destruct (from_storage_spec _ Hok) as [E Hn].
  apply normalized_inj; [|done|by rewrite E]. apply Hn. rewrite Hv. apply Ha.
Qed.

Lemma storage_cmov_spec s t flag :
  storage_ok s -> storage_ok t -> flag = 0 \/ flag = 1 ->
  secp256k1_fe_storage_cmov s t flag = if flag =? 1 then t else s.
Proof.
  destruct s as [s0 s1 s2 s3], t as [t0 t1 t2 t3]. unfold storage_ok. cbn [sn0 sn1 sn2 sn3]. intros Hs Ht Hf.
  unfold secp256k1_fe_storage_cmov. cbn [sn0 sn1 sn2 sn3].
  rewrite !cmov64_spec by (done || lia). by destruct (flag =? 1).
Qed.

(** ** The properties *)

(** C38: the product and the square of elements of magnitude at most 8 are the
    product and the square modulo [P], with magnitude 1, and no 64-bit or
    128-bit intermediate overflows (the wrap-arounds written in the model are
    the identity). *)
Theorem field_mul_sqr (a b : secp256k1_fe) :
  magnitude 8 a -> magnitude 8 b ->
  (magnitude 1 (secp256k1_fe_mul a b) /\ val (secp256k1_fe_mul a b) mod P = (val a * val b) mod P) /\
  (magnitude 1 (secp256k1_fe_sqr a) /\ val (secp256k1_fe_sqr a) mod P = (val a * val a) mod P).
Proof. intros Ha Hb. split; [by apply mul_inner_spec|by apply sqr_inner_spec]. Qed.

(** C39: for every magnitude up to 2047, [normalize] gives the canonical
    element of the same residue, the variable-time version gives the same
    limbs, the weak version keeps the residue and leaves at most one carry, and
    both zero tests decide whether the residue is zero. *)
Theorem field_normalize (m : Z) (a : secp256k1_fe) :
  magnitude m a -> 0 <= m <= 2047 ->
  normalized (secp256k1_fe_normalize a) /\ val (secp256k1_fe_normalize a) = val a mod P /\
  secp256k1_fe_normalize_var a = secp256k1_fe_normalize a /\
  (reduced (secp256k1_fe_normalize_weak a) /\ val (secp256k1_fe_normalize_weak a) mod P = val a mod P) /\
  (secp256k1_fe_normalizes_to_zero a = true <-> val a mod P = 0) /\
  secp256k1_fe_normalizes_to_zero_var a = secp256k1_fe_normalizes_to_zero a.
Proof.
  intros Ha Hm. destruct (normalize_ensures m a Ha Hm) as [Hn Hv].
  destruct (normalize_weak_spec m a Ha Hm) as [Hr Hw].
  split; [done|]. split; [done|]. split; [by apply (normalize_var_same m)|]. split.
  - split; [done|]. apply (eqm_mult (- Z.shiftr (n4 a) 48)). rewrite Hw. lia.
  - split; [by apply (to_zero_spec m)|by apply (zero_var_same m)].
Qed.

(** The largest element of magnitude 2048. *)
Definition fe_2048 : secp256k1_fe :=
  mkFe (4096 * M52) (4096 * M52) (4096 * M52) (4096 * M52) (4096 * M48).

(** Magnitude 2048, which the magnitude check admits, is one too many: the
    first addition of [normalize] overflows 64 bits on the largest such element
    and the result is not its residue. *)
Theorem normalize_overflows_2048 :
  magnitude 2048 fe_2048 /\ val (secp256k1_fe_normalize fe_2048) mod P <> val fe_2048 mod P.
Proof.
  split; [|vm_compute; congruence]. unfold magnitude, fe_2048, M52, M48. cbn [n0 n1 n2 n3 n4]. lia.
Qed.

(** Addition, negation and multiplication by a small integer act on the
    value as their names say, modulo [P] for the negation, and the magnitude of
    the result is the one the code records, as long as it is at most 2048. *)
Theorem field_linear (m k j : Z) (a b : secp256k1_fe) :
  magnitude m a -> magnitude k b -> 0 <= m <= 2047 -> 0 <= j -> m + k <= 2048 -> m * j <= 2048 ->
  (magnitude (m + k) (secp256k1_fe_add a b) /\ val (secp256k1_fe_add a b) = val a + val b) /\
  (magnitude (m + 1) (secp256k1_fe_negate a m) /\ val (secp256k1_fe_negate a m) mod P = (- val a) mod P) /\
  (magnitude (m * j) (secp256k1_fe_mul_int a j) /\ val (secp256k1_fe_mul_int a j) = val a * j).
Proof.
  intros Ha Hb Hm Hj Hmk Hmj. split; [by apply add_spec|]. split.
  - destruct (negate_spec m a Ha Hm) as [H ->]. split; [done|].
    apply (eqm_mult (2 * (m + 1))). lia.
  - apply mul_int_spec; [done|lia..].
Qed.

(** Reading 32 bytes gives the element whose value is the big-endian number
    and reports success exactly when it is below [P]; writing a normalised
    element gives the 32 bytes of its value; so every normalised element and
    every accepted byte string survives the round trip. *)
Theorem field_b32_roundtrip (l : bytes) (a : secp256k1_fe) :
  Forall is_byte l -> length l = 32%nat -> normalized a ->
  (val (fst (secp256k1_fe_set_b32 l)) = be_word l /\
   snd (secp256k1_fe_set_b32 l) = b2z (be_word l <? P) /\
   (be_word l < P -> normalized (fst (secp256k1_fe_set_b32 l)))) /\
  secp256k1_fe_get_b32 (fst (secp256k1_fe_set_b32 l)) = l /\
  secp256k1_fe_get_b32 a = be_bytes 32 (val a) /\
  secp256k1_fe_set_b32 (secp256k1_fe_get_b32 a) = (a, 1).
Proof.
  intros Hl Hn Ha. assert (Hr := be_word_range l Hl). rewrite Hn in Hr. change (256 ^ Z.of_nat 32) with (2 ^ 256) in Hr.
  assert (Hva := normalized_range a Ha). assert (Hset := set_b32_spec). assert (Eg := get_b32_spec a Ha).
  destruct (fe_of_val (be_word l) Hr) as [E Hno].
  rewrite Hset by done. cbn [fst snd]. split; [done|]. split; [|split; [done|]].
  - rewrite get_b32_fe_of by lia. rewrite <- Hn. by apply be_bytes_word.
  - rewrite Eg, Hset by auto using length_be_bytes with words. rewrite be_word_bytes, Z.mod_small by (unfold P in Hva; change (256 ^ Z.of_nat 32) with (2 ^ 256); lia).
    rewrite <- normalized_fe_of by done. destruct (Z.ltb_spec (val a) P); [done|lia].
Qed.

(** Packing a normalised element into four 64-bit words keeps its value and
    unpacking gives the same limbs back; unpacking any four words keeps their
    value. *)
Theorem field_storage_roundtrip (a : secp256k1_fe) (s : secp256k1_fe_storage) :
  normalized a -> storage_ok s ->
  secp256k1_fe_from_storage (secp256k1_fe_to_storage a) = a /\
  storage_val (secp256k1_fe_to_storage a) = val a /\
  val (secp256k1_fe_from_storage s) = storage_val s.
Proof.
  intros Ha Hs. split; [by apply storage_roundtrip|]. split; [by apply to_storage_spec|by apply from_storage_spec].
Qed.

(** On normalised elements the comparison orders by value, the zero and
    parity tests test the value, and the conditional moves select one of their
    arguments unchanged. *)
Theorem field_compare (a b : secp256k1_fe) (s t : secp256k1_fe_storage) (flag : Z) :
  normalized a -> normalized b -> storage_ok s -> storage_ok t -> flag = 0 \/ flag = 1 ->
  secp256k1_fe_cmp_var a b = match val a ?= val b with Lt => -1 | Eq => 0 | Gt => 1 end /\
  (secp256k1_fe_is_zero a = true <-> val a = 0) /\
  secp256k1_fe_is_odd a = val a mod 2 /\
  secp256k1_fe_cmov a b flag = (if flag =? 1 then b else a) /\
  secp256k1_fe_storage_cmov s t flag = (if flag =? 1 then t else s).
Proof.
  intros Ha Hb Hs Ht Hf. split; [by apply cmp_var_spec|]. split; [by apply is_zero_spec|].
  split; [by apply is_odd_spec|]. split.
  - assert (Hmag : forall x, normalized x -> magnitude 1 x).
    { intros x (? & ? & ? & ? & ? & _). unfold magnitude, M52, M48 in *. lia. }
    apply (cmov_spec 1 1); auto; lia.
  - by apply storage_cmov_spec.
Qed.

(** ** Witnesses *)

Definition fe_seven : secp256k1_fe := mkFe 7 0 0 0 0.
Definition word_seven : secp256k1_fe_storage := mkStorage 7 0 0 0.

Lemma seven_normalized : normalized fe_seven.
Proof. unfold normalized, val, fe_seven, M52, M48, P. cbn [n0 n1 n2 n3 n4]. lia. Defined.

Lemma seven_magnitude m : 1 <= m -> magnitude m fe_seven.
Proof. intros Hm. unfold magnitude, fe_seven, M52, M48. cbn [n0 n1 n2 n3 n4]. lia. Defined.

Lemma field_mul_sqr_witness : val (secp256k1_fe_mul fe_seven fe_seven) mod P = 49.
Proof.
  exact (proj2 (proj1 (field_mul_sqr fe_seven fe_seven (seven_magnitude 8 ltac:(lia)) (seven_magnitude 8 ltac:(lia))))).
Defined.

Lemma field_normalize_witness : val (secp256k1_fe_normalize fe_seven) = 7.
Proof. exact (proj1 (proj2 (field_normalize 1 fe_seven (seven_magnitude 1 ltac:(lia)) ltac:(lia)))). Defined.

Lemma field_linear_witness : val (secp256k1_fe_add fe_seven fe_seven) = 14.
Proof.
  exact (proj2 (proj1 (field_linear 1 1 3 fe_seven fe_seven (seven_magnitude 1 ltac:(lia))
    (seven_magnitude 1 ltac:(lia)) ltac:(lia) ltac:(lia) ltac:(lia) ltac:(lia)))).
Defined.

Lemma field_b32_roundtrip_witness :
  secp256k1_fe_set_b32 (secp256k1_fe_get_b32 fe_seven) = (fe_seven, 1).
Proof.
  refine (proj2 (proj2 (proj2 (field_b32_roundtrip (be_bytes 32 7) fe_seven _ _ seven_normalized))));
    [apply be_bytes_range|reflexivity].
Defined.

Lemma field_storage_roundtrip_witness :
  secp256k1_fe_from_storage (secp256k1_fe_to_storage fe_seven) = fe_seven.
Proof.
  refine (proj1 (field_storage_roundtrip fe_seven word_seven seven_normalized _)).
  unfold storage_ok. cbn. lia.
Defined.

Lemma field_compare_witness : secp256k1_fe_cmp_var fe_seven fe_seven = 0.
Proof.
  refine (proj1 (field_compare fe_seven fe_seven word_seven word_seven 1 seven_normalized seven_normalized _ _ _));
    [unfold storage_ok; cbn; lia|unfold storage_ok; cbn; lia|by right].
Defined.

End FieldOps.
