(* ===== verification/Primality.v ===== *)
(** * The two prime numbers of secp256k1

    Inverses and square roots in the field and among the scalars are powers:
    they are what they claim because both moduli are prime. Primality is proved
    here with Pocklington certificates, down to numbers small enough for trial
    division; the powers a certificate asks for are computed with machine
    words. *)

From Stdlib Require Import ZArith Lia List ZmodInv.
From Bignums Require Import BigZ.BigZ.
From stdpp Require Import base list.
From S2P Require Import Prelude.
Local Open Scope Z_scope.

Module Primality.

(** ** Powers modulo a number *)

Fixpoint powm (a n : BigZ.t) (e : positive) : BigZ.t :=
  match e with
  | xH => BigZ.modulo a n
  | xO e => let y := powm a n e in BigZ.modulo (BigZ.mul y y) n
  | xI e => let y := powm a n e in BigZ.modulo (BigZ.mul (BigZ.modulo (BigZ.mul y y) n) a) n
  end.

Lemma powm_spec a n e : BigZ.to_Z (powm a n e) = BigZ.to_Z a ^ Zpos e mod BigZ.to_Z n.
Proof.
  induction e as [e IH|e IH|]; cbn [powm]; rewrite ?BigZ.spec_modulo, ?BigZ.spec_mul, ?BigZ.spec_modulo,
    ?BigZ.spec_mul, ?IH; [| |by rewrite Z.pow_1_r].
  - rewrite <- Zmult_mod, Zmult_mod_idemp_l. f_equal.
    replace (Zpos e~1) with (Zpos e + Zpos e + 1) by lia. by rewrite !Z.pow_add_r, Z.pow_1_r by lia.
  - rewrite <- Zmult_mod. f_equal.
    replace (Zpos e~0) with (Zpos e + Zpos e) by lia. by rewrite Z.pow_add_r by lia.
Qed.

(** [a ^ e mod n]. *)
Definition power (a n e : Z) : Z := BigZ.to_Z (powm (BigZ.of_Z a) (BigZ.of_Z n) (Z.to_pos e)).

Lemma power_spec a n e : 0 < e -> power a n e = a ^ e mod n.
Proof. intros He. unfold power. by rewrite powm_spec, !BigZ.spec_of_Z, Z2Pos.id by done. Qed.

(** What a power that is one says of a multiple of the exponent. *)
Lemma pow_one_mul b p e k : 1 < p -> 0 <= e -> 0 <= k -> b ^ e mod p = 1 -> b ^ (e * k) mod p = 1.
Proof.
  intros Hp He Hk H. rewrite Z.pow_mul_r, <- Z.mod_pow_l, H, Z.pow_1_l by lia. apply Z.mod_small. lia.
Qed.

Lemma pow_one_diff b p e f : 1 < p -> 0 <= e -> 0 <= f ->
  b ^ e mod p = 1 -> b ^ (e + f) mod p = 1 -> b ^ f mod p = 1.
Proof.
  intros Hp He Hf H. rewrite Z.pow_add_r by lia. rewrite Zmult_mod, H, Z.mul_1_l. by rewrite Z.mod_mod by lia.
Qed.

(** Two coprime exponents with power one: the base is one. *)
Lemma pow_one_coprime b p e f : 1 < p -> 0 < e -> 0 < f -> Z.coprime e f ->
  b ^ e mod p = 1 -> b ^ f mod p = 1 -> b mod p = 1.
Proof.
  intros Hp He Hf Hc H1 H2. apply Z.Bezout_coprime in Hc. destruct Hc as (u & v & Huv).
  rewrite <- (Z.pow_1_r b). destruct (Z.lt_ge_cases 0 u).
  - apply (pow_one_diff b p (f * - v)); [lia|nia|lia|apply pow_one_mul; (done || nia)|].
    replace (f * - v + 1) with (e * u) by lia. apply pow_one_mul; (done || nia).
  - apply (pow_one_diff b p (e * - u)); [lia|nia|lia|apply pow_one_mul; (done || nia)|].
    replace (e * - u + 1) with (f * v) by lia. apply pow_one_mul; (done || nia).
Qed.

(** ** Divisors *)

Lemma prime_divisor n : 1 < n -> exists p, Z.prime p /\ (p | n).
Proof.
  intros Hn. assert (Hpos : 0 <= n) by lia. revert Hn.
  pattern n. apply Z_lt_induction; [|done]. clear. intros n IH Hn.
  destruct (Znumtheory.prime_dec n) as [Hp|Hp].
  - exists n. by rewrite Znumtheory.prime_alt.
  - destruct (Znumtheory.not_prime_divide n Hn Hp) as (d & Hd & Hdn).
    destruct (IH d ltac:(lia) ltac:(lia)) as (p & ? & ?). exists p. split; [done|]. by transitivity d.
Qed.

(** A composite number has a prime divisor up to its root. *)
Lemma composite_divisor n : 1 < n -> ~ Z.prime n -> exists p, Z.prime p /\ (p | n) /\ p * p <= n.
Proof.
  intros Hn Hp. rewrite Znumtheory.prime_alt in Hp.
  destruct (Znumtheory.not_prime_divide n Hn Hp) as (d & Hd & [k Hk]).
  assert (Hmin : exists s, 1 < s /\ (s | n) /\ s * s <= n).
  { destruct (Z.le_ge_cases d k).
    - exists d. split; [lia|]. split; [by exists k|nia].
    - exists k. split; [nia|]. split; [exists d; lia|nia]. }
  destruct Hmin as (s & Hs & Hsn & Hss). destruct (prime_divisor s Hs) as (p & Hpp & Hps).
  exists p. split; [done|]. split; [by transitivity s|].
  assert (p <= s) by (apply Z.divide_pos_le; (done || lia)). assert (2 <= p) by (by apply Z.prime_ge_2). nia.
Qed.

(** ** Trial division *)

Definition no_divisor (n : Z) (k : nat) : bool := negb (n mod Z.of_nat k =? 0).

Definition trial (n : Z) : bool :=
  (1 <? n) && forallb (no_divisor n) (seq 2 (Z.to_nat (Z.sqrt n - 1))).

Lemma trial_prime n : trial n = true -> Z.prime n.
Proof.
  unfold trial. rewrite andb_true_iff, Z.ltb_lt, forallb_forall. intros [Hn H].
  destruct (Znumtheory.prime_dec n) as [Hp|Hp]; [by rewrite Znumtheory.prime_alt|exfalso].
  rewrite <- Znumtheory.prime_alt in Hp. destruct (composite_divisor n Hn Hp) as (p & Hpp & Hpn & Hsq).
  assert (2 <= p) by (by apply Z.prime_ge_2).
  assert (p <= Z.sqrt n) by (by apply Z.sqrt_le_square; lia).
  assert (Hin : In (Z.to_nat p) (seq 2 (Z.to_nat (Z.sqrt n - 1)))) by (apply in_seq; lia).
  specialize (H _ Hin). unfold no_divisor in H. rewrite Z2Nat.id in H by lia.
  by rewrite (Z.mod0_divide n p Hpn) in H.
Qed.

(** ** Pocklington's criterion *)

(** One prime factor [q] of [n - 1] with its base [a]. *)
Definition pock_step (n : Z) (c : Z * Z) : bool :=
  let '(q, a) := c in
  ((n - 1) mod q =? 0) && (power a n (n - 1) =? 1) &&
  (Z.gcd (power a n ((n - 1) / q) - 1) n =? 1).

Lemma pock_step_divides n q a p :
  2 < n -> Z.prime q -> pock_step n (q, a) = true -> Z.prime p -> (p | n) -> (q | p - 1).
Proof.
  intros Hn Hq Hc Hp Hpn. assert (Hq2 := Z.prime_ge_2 q Hq). assert (Hp2 := Z.prime_ge_2 p Hp).
  unfold pock_step in Hc. rewrite !andb_true_iff, !Z.eqb_eq in Hc. destruct Hc as [[Hd H1] H2].
  apply Z.mod_divide in Hd; [|lia]. destruct Hd as [k Hk].
  rewrite Hk, Z.div_mul in H2 by lia. assert (0 < k) by nia.
  rewrite power_spec in H1, H2 by lia.
  assert (Hmod : forall x y, x mod n = y mod n -> x mod p = y mod p).
  { intros x y E. rewrite <- (Z.mod_mod_divide x n p), <- (Z.mod_mod_divide y n p) by done. by rewrite E. }
  set (b := a ^ k). assert (Hbq : b ^ q mod p = 1).
  { unfold b. rewrite <- Z.pow_mul_r, <- Hk by lia. rewrite (Hmod _ 1), Z.mod_small; [done|lia|].
    by rewrite H1, Z.mod_small by lia. }
  assert (Hb0 : b mod p <> 0).
  { intros E. rewrite <- Z.mod_pow_l, E, Z.pow_0_l, Z.mod_0_l in Hbq by lia. done. }
  assert (Hf := ZmodInv.Z.fermat_nz p b Hp Hb0).
  destruct (Z.BoolSpec_divide_nz q (p - 1) ltac:(lia)) as [|Hnd]; [done|exfalso].
  assert (Hb1 : b mod p = 1).
  { destruct (Z.eq_dec p 2) as [->|Hp3].
    - assert (Hr := Z.mod_pos_bound b 2 ltac:(lia)). lia.
    - apply (pow_one_coprime b p q (p - 1)); try done; try lia. by apply Z.coprime_prime_l. }
  assert (Hpd : (p | Z.gcd (b mod n - 1) n)).
  { apply Z.gcd_greatest; [|done]. apply Z.mod_divide; [lia|].
    rewrite Zminus_mod, Z.mod_mod_divide, Hb1 by done. rewrite (Z.mod_small 1) by lia. by rewrite Z.mod_0_l by lia. }
  unfold b in Hpd. rewrite H2 in Hpd. apply Z.divide_1_r_nonneg in Hpd; lia.
Qed.

Definition product (l : list Z) : Z := fold_right Z.mul 1 l.

Lemma product_divides l m :
  Forall Z.prime l -> List.NoDup l -> Forall (fun q => (q | m)) l -> (product l | m).
Proof.
  revert m. induction l as [|q l IH]; intros m Hp Hn Hd; [apply Z.divide_1_l|].
  inversion Hp as [|?? Hq Hl]; inversion Hn as [|?? Hnq Hnl]; inversion Hd as [|?? [k ->] Hdl]; subst. cbn.
  rewrite Z.mul_comm. apply Z.mul_divide_mono_r, IH; [done..|].
  rewrite Forall_forall in *. intros r Hr. specialize (Hdl r Hr). apply Z.divide_prime_mul in Hdl; [|by apply Hl].
  destruct Hdl as [|E]; [done|]. apply Z.divide_prime_prime in E; [|by apply Hl|done]. subst.
  by rewrite list_elem_of_In in Hr.
Qed.

Definition pock (n : Z) (cert : list (Z * Z)) : bool :=
  (2 <? n) && forallb (pock_step n) cert && (n <? product (map fst cert) * product (map fst cert)).

Lemma pock_prime n cert :
  Forall Z.prime (map fst cert) -> List.NoDup (map fst cert) -> pock n cert = true -> Z.prime n.
Proof.
  unfold pock. rewrite !andb_true_iff, !Z.ltb_lt, forallb_forall. intros Hq Hnd [[Hn Hs] HF].
  destruct (Znumtheory.prime_dec n) as [Hp|Hp]; [by rewrite Znumtheory.prime_alt|exfalso].
  rewrite <- Znumtheory.prime_alt in Hp.
  destruct (composite_divisor n ltac:(lia) Hp) as (p & Hpp & Hpn & Hsq).
  assert (Hd : (product (map fst cert) | p - 1)).
  { apply product_divides; [done..|]. rewrite Forall_forall in *. intros q Hin.
    rewrite list_elem_of_In in Hin. apply in_map_iff in Hin as ([q' a] & <- & Hin). cbn.
    apply (pock_step_divides n q' a); [lia| |by apply Hs|done..].
    apply Hq. rewrite list_elem_of_In, in_map_iff. by exists (q', a). }
  assert (2 <= p) by (by apply Z.prime_ge_2). assert (Hle := Z.divide_pos_le (product (map fst cert)) (p - 1) ltac:(lia) Hd).
  assert (0 <= product (map fst cert)); [|nia].
  clear -Hq. induction Hq as [|q l Hq _ IH]; cbn; [lia|]. assert (Hq2 := Z.prime_ge_2 q Hq). unfold product in IH. nia.
Qed.

(** Small primes by trial division. *)
Ltac small_prime := apply trial_prime; vm_compute; reflexivity.

(** [certified cert]: the factors are proved or among the hypotheses. *)
Ltac certified cert :=
  apply (pock_prime _ cert);
  [ repeat (first [apply List.Forall_nil | apply List.Forall_cons]); first [assumption | small_prime]
  | repeat (first [apply List.NoDup_nil | apply List.NoDup_cons]); cbn; intuition lia
  | vm_compute; reflexivity ].

(** ** The field prime *)

Lemma prime_field_128 : Z.prime 255515944373312847190720520512484175977.
Proof.
  assert (Z.prime 107590001) by certified [(53, 2); (29, 2); (7, 2)]. assert (Z.prime 7240687) by small_prime.
  certified [(107590001, 2); (7240687, 2); (96557, 2)].
Qed.

Lemma prime_field_237 :
  Z.prime 205115282021455665897114700593932402728804164701536103180137503955397371.
Proof. assert (H := prime_field_128). certified [(255515944373312847190720520512484175977, 2)]. Qed.

Lemma prime_field : Z.prime (2 ^ 256 - 2 ^ 32 - 977).
Proof.
  assert (H := prime_field_237).
  certified [(205115282021455665897114700593932402728804164701536103180137503955397371, 2)].
Qed.

(** ** The order of the group *)

Lemma prime_order_95 : Z.prime 29047611873442575647497758179.
Proof.
  assert (Z.prime 1627771) by small_prime.
  assert (Z.prime 297159362677) by certified [(1627771, 2)].
  assert (Z.prime 545358713) by certified [(28181, 2)].
  certified [(297159362677, 2); (545358713, 2)].
Qed.

Lemma prime_order_109 : Z.prime 341948486974166000522343609283189.
Proof. assert (H := prime_order_95). certified [(29047611873442575647497758179, 2)]. Qed.

Lemma prime_order_68 : Z.prime 174723607534414371449.
Proof.
  assert (Z.prime 44706919) by certified [(9349, 2)]. certified [(44706919, 2); (120233, 2)].
Qed.

Lemma prime_order : Z.prime 0xFFFFFFFFFFFFFFFFFFFFFFFFFFFFFFFEBAAEDCE6AF48A03BBFD25E8CD0364141.
Proof.
  assert (H1 := prime_order_109). assert (H2 := prime_order_68).
  certified [(341948486974166000522343609283189, 2); (174723607534414371449, 2)].
Qed.

End Primality.
