(* ===== verification/FieldExp.v ===== *)
(** * Equality, square roots and inverses in the field
    (libsecp256k1/src/field_impl.h)

    Roots and inverses are powers computed with an addition chain. The build
    uses the built-in inverse and no big-number library. *)

From Stdlib Require Import ZArith Lia List ZmodInv.
From stdpp Require Import base list.
From S2P Require Import Prelude Words Primality Field FieldFacts FieldOps.
Local Open Scope Z_scope.

Module FieldExp.
Import Field FieldFacts FieldOps.

Definition secp256k1_fe_equal (a b : secp256k1_fe) : bool :=
  let na := secp256k1_fe_negate a 1 in
  let na := secp256k1_fe_add na b in
  secp256k1_fe_normalizes_to_zero na.

Definition secp256k1_fe_equal_var (a b : secp256k1_fe) : bool :=
  let na := secp256k1_fe_negate a 1 in
  let na := secp256k1_fe_add na b in
  secp256k1_fe_normalizes_to_zero_var na.

(** [for (j=0; j<n; j++) { secp256k1_fe_sqr(&x, &x); }] *)
Fixpoint sqr_times (n : nat) (x : secp256k1_fe) : secp256k1_fe :=
  match n with O => x | S n' => sqr_times n' (secp256k1_fe_sqr x) end.

(** The root and whether it is one. *)
Definition secp256k1_fe_sqrt (a : secp256k1_fe) : secp256k1_fe * bool :=
  let x2 := secp256k1_fe_sqr a in
  let x2 := secp256k1_fe_mul x2 a in
  let x3 := secp256k1_fe_sqr x2 in
  let x3 := secp256k1_fe_mul x3 a in
  let x6 := sqr_times 3 x3 in
  let x6 := secp256k1_fe_mul x6 x3 in
  let x9 := sqr_times 3 x6 in
  let x9 := secp256k1_fe_mul x9 x3 in
  let x11 := sqr_times 2 x9 in
  let x11 := secp256k1_fe_mul x11 x2 in
  let x22 := sqr_times 11 x11 in
  let x22 := secp256k1_fe_mul x22 x11 in
  let x44 := sqr_times 22 x22 in
  let x44 := secp256k1_fe_mul x44 x22 in
  let x88 := sqr_times 44 x44 in
  let x88 := secp256k1_fe_mul x88 x44 in
  let x176 := sqr_times 88 x88 in
  let x176 := secp256k1_fe_mul x176 x88 in
  let x220 := sqr_times 44 x176 in
  let x220 := secp256k1_fe_mul x220 x44 in
  let x223 := sqr_times 3 x220 in
  let x223 := secp256k1_fe_mul x223 x3 in
  let t1 := sqr_times 23 x223 in
  let t1 := secp256k1_fe_mul t1 x22 in
  let t1 := sqr_times 6 t1 in
  let t1 := secp256k1_fe_mul t1 x2 in
  let t1 := secp256k1_fe_sqr t1 in
  let r := secp256k1_fe_sqr t1 in
  let t1 := secp256k1_fe_sqr r in
  (r, secp256k1_fe_equal t1 a).

Definition secp256k1_fe_inv (a : secp256k1_fe) : secp256k1_fe :=
  let x2 := secp256k1_fe_sqr a in
  let x2 := secp256k1_fe_mul x2 a in
  let x3 := secp256k1_fe_sqr x2 in
  let x3 := secp256k1_fe_mul x3 a in
  let x6 := sqr_times 3 x3 in
  let x6 := secp256k1_fe_mul x6 x3 in
  let x9 := sqr_times 3 x6 in
  let x9 := secp256k1_fe_mul x9 x3 in
  let x11 := sqr_times 2 x9 in
  let x11 := secp256k1_fe_mul x11 x2 in
  let x22 := sqr_times 11 x11 in
  let x22 := secp256k1_fe_mul x22 x11 in
  let x44 := sqr_times 22 x22 in
  let x44 := secp256k1_fe_mul x44 x22 in
  let x88 := sqr_times 44 x44 in
  let x88 := secp256k1_fe_mul x88 x44 in
  let x176 := sqr_times 88 x88 in
  let x176 := secp256k1_fe_mul x176 x88 in
  let x220 := sqr_times 44 x176 in
  let x220 := secp256k1_fe_mul x220 x44 in
  let x223 := sqr_times 3 x220 in
  let x223 := secp256k1_fe_mul x223 x3 in
  let t1 := sqr_times 23 x223 in
  let t1 := secp256k1_fe_mul t1 x22 in
  let t1 := sqr_times 5 t1 in
  let t1 := secp256k1_fe_mul t1 a in
  let t1 := sqr_times 3 t1 in
  let t1 := secp256k1_fe_mul t1 x2 in
  let t1 := sqr_times 2 t1 in
  secp256k1_fe_mul a t1.

(** With [USE_FIELD_INV_BUILTIN]. *)
Definition secp256k1_fe_inv_var (a : secp256k1_fe) : secp256k1_fe := secp256k1_fe_inv a.

(** With [USE_NUM_NONE]. *)
Definition secp256k1_fe_is_quad_var (a : secp256k1_fe) : bool := snd (secp256k1_fe_sqrt a).

(** [secp256k1_fe_inv_all_var]: the first loop leaves the products of the
    prefixes, the last one first here; the second loop walks back. *)
Fixpoint prefix_products (acc : secp256k1_fe) (a : list secp256k1_fe) : list secp256k1_fe :=
  match a with
  | [] => []
  | x :: a' => let p := secp256k1_fe_mul acc x in p :: prefix_products p a'
  end.

(** [rs] and [a] from index [j] down: returns [r[j], r[j-1], ..., r[1]] and the
    last [u]. *)
Fixpoint inv_back (u : secp256k1_fe) (rs a : list secp256k1_fe) : list secp256k1_fe * secp256k1_fe :=
  match rs, a with
  | r :: rs', x :: a' =>
      let rj := secp256k1_fe_mul r u in
      let '(l, u') := inv_back (secp256k1_fe_mul u x) rs' a' in
      (rj :: l, u')
  | _, _ => ([], u)
  end.

Definition secp256k1_fe_inv_all_var (a : list secp256k1_fe) : list secp256k1_fe :=
  match a with
  | [] => []
  | a0 :: a' =>
      let r := a0 :: prefix_products a0 a' in
      let u := secp256k1_fe_inv_var (default a0 (last r)) in
      let '(l, u) := inv_back u (tail (rev r)) (rev a') in
      u :: rev l
  end.

(** ** Powers *)

(** [r] is the [e]-th power of [x], fit for a multiplication. *)
Definition is_pow (x e : Z) (r : secp256k1_fe) : Prop :=
  magnitude 8 r /\ val r mod P = (x ^ e) mod P.

Lemma magnitude_mono m k a : magnitude m a -> m <= k -> magnitude k a.
Proof. unfold magnitude, M52, M48. lia. Qed.

Lemma pow_base a : magnitude 8 a -> is_pow (val a) 1 a.
Proof. intros Ha. split; [done|]. by rewrite Z.pow_1_r. Qed.

Lemma pow_mul x e f a b :
  is_pow x e a -> is_pow x f b -> 0 <= e -> 0 <= f ->
  magnitude 1 (secp256k1_fe_mul a b) /\ is_pow x (e + f) (secp256k1_fe_mul a b).
Proof.
  intros [Ha Ea] [Hb Eb] He Hf. destruct (mul_inner_spec a b Ha Hb) as [Hm Ev]. split; [done|].
  split; [eapply magnitude_mono; [eassumption|lia]|].
  unfold secp256k1_fe_mul. rewrite Ev, Z.mul_mod, Ea, Eb, <- Z.mul_mod by done.
  by rewrite Z.pow_add_r by lia.
Qed.

Lemma pow_sqr x e a :
  is_pow x e a -> 0 <= e -> magnitude 1 (secp256k1_fe_sqr a) /\ is_pow x (2 * e) (secp256k1_fe_sqr a).
Proof.
  intros [Ha Ea] He. destruct (sqr_inner_spec a Ha) as [Hm Ev]. split; [done|].
  split; [eapply magnitude_mono; [eassumption|lia]|].
  unfold secp256k1_fe_sqr. rewrite Ev, Z.mul_mod, Ea, <- Z.mul_mod by done.
  replace (2 * e) with (e + e) by lia. by rewrite Z.pow_add_r by lia.
Qed.

Lemma pow_sqr_times n x e a : is_pow x e a -> 0 <= e -> is_pow x (2 ^ Z.of_nat n * e) (sqr_times n a).
Proof.
  revert e a. induction n as [|n IH]; intros e a Ha He; [by rewrite Z.mul_1_l|].
  cbn [sqr_times]. rewrite Nat2Z.inj_succ, Z.pow_succ_r by lia.
  replace (2 * 2 ^ Z.of_nat n * e) with (2 ^ Z.of_nat n * (2 * e)) by ring.
  apply IH; [by apply pow_sqr|lia].
Qed.

(** One line of an addition chain: some squarings, then a product; the
    exponents are numbers. *)
Lemma chain n x e f g a b :
  is_pow x e a -> is_pow x f b -> (0 <=? e) && (0 <=? f) && (g =? 2 ^ Z.of_nat n * e + f) = true ->
  is_pow x g (secp256k1_fe_mul (sqr_times n a) b).
Proof.
  rewrite !andb_true_iff, !Z.leb_le, Z.eqb_eq. intros Ha Hb [[He Hf] ->].
  apply pow_mul; [by apply pow_sqr_times|done| |done]. apply Z.mul_nonneg_nonneg; [|done].
  apply Z.pow_nonneg. lia.
Qed.

(** The blocks of ones both chains build. *)
Definition blocks (a : secp256k1_fe) : secp256k1_fe * secp256k1_fe * secp256k1_fe :=
  let x2 := secp256k1_fe_mul (sqr_times 1 a) a in
  let x3 := secp256k1_fe_mul (sqr_times 1 x2) a in
  let x6 := secp256k1_fe_mul (sqr_times 3 x3) x3 in
  let x9 := secp256k1_fe_mul (sqr_times 3 x6) x3 in
  let x11 := secp256k1_fe_mul (sqr_times 2 x9) x2 in
  let x22 := secp256k1_fe_mul (sqr_times 11 x11) x11 in
  let x44 := secp256k1_fe_mul (sqr_times 22 x22) x22 in
  let x88 := secp256k1_fe_mul (sqr_times 44 x44) x44 in
  let x176 := secp256k1_fe_mul (sqr_times 88 x88) x88 in
  let x220 := secp256k1_fe_mul (sqr_times 44 x176) x44 in
  (x2, x22, secp256k1_fe_mul (sqr_times 3 x220) x3).

(** Name the next link [y], the [g]-th power, from [Ha] squared [n] times and [Hb]. *)
Ltac link y H n Ha Hb g :=
  match type of Ha with is_pow ?x _ ?a =>
  match type of Hb with is_pow _ _ ?b =>
    pose (y := secp256k1_fe_mul (sqr_times n a) b);
    assert (H : is_pow x g y) by (apply (chain n _ _ _ _ _ _ Ha Hb); vm_compute; reflexivity)
  end end.

Lemma blocks_pow a :
  magnitude 8 a ->
  exists x2 x22 x223, blocks a = (x2, x22, x223) /\
    is_pow (val a) (2 ^ 2 - 1) x2 /\ is_pow (val a) (2 ^ 22 - 1) x22 /\ is_pow (val a) (2 ^ 223 - 1) x223.
Proof.
  intros Ha. assert (H1 := pow_base a Ha). cbv beta delta [blocks].
  link x2 H2 1%nat H1 H1 (2 ^ 2 - 1). link x3 H3 1%nat H2 H1 (2 ^ 3 - 1).
  link x6 H6 3%nat H3 H3 (2 ^ 6 - 1). link x9 H9 3%nat H6 H3 (2 ^ 9 - 1).
  link x11 H11 2%nat H9 H2 (2 ^ 11 - 1). link x22 H22 11%nat H11 H11 (2 ^ 22 - 1).
  link x44 H44 22%nat H22 H22 (2 ^ 44 - 1). link x88 H88 44%nat H44 H44 (2 ^ 88 - 1).
  link x176 H176 88%nat H88 H88 (2 ^ 176 - 1). link x220 H220 44%nat H176 H44 (2 ^ 220 - 1).
  link x223 H223 3%nat H220 H3 (2 ^ 223 - 1).
  exists x2, x22, x223. split; [reflexivity|]. split; [exact H2|]. split; [exact H22|exact H223].
Qed.

(** The exponents of the two functions. *)
Lemma inv_pow a :
  magnitude 8 a -> magnitude 1 (secp256k1_fe_inv a) /\ is_pow (val a) (P - 2) (secp256k1_fe_inv a).
Proof.
  intros Ha. destruct (blocks_pow a Ha) as (x2 & x22 & x223 & E & H2 & H22 & H223).
  assert (H1 := pow_base a Ha).
  replace (secp256k1_fe_inv a) with
    (let '(x2, x22, x223) := blocks a in
     let t1 := secp256k1_fe_mul (sqr_times 23 x223) x22 in
     let t1 := secp256k1_fe_mul (sqr_times 5 t1) a in
     let t1 := secp256k1_fe_mul (sqr_times 3 t1) x2 in
     secp256k1_fe_mul a (sqr_times 2 t1)) by reflexivity.
  rewrite E. clear E.
  link y H3 23%nat H223 H22 (2 ^ 246 - 2 ^ 22 - 1).
  link z H4 5%nat H3 H1 ((2 ^ 246 - 2 ^ 22 - 1) * 2 ^ 5 + 1).
  link w H5 3%nat H4 H2 ((P - 2) / 4).
  assert (H6 : is_pow (val a) (4 * ((P - 2) / 4)) (sqr_times 2 w))
    by (apply (pow_sqr_times 2); [exact H5|vm_compute; congruence]).
  replace (P - 2) with (1 + 4 * ((P - 2) / 4)) by reflexivity.
  apply (pow_mul _ _ _ _ _ H1 H6); vm_compute; congruence.
Qed.

Lemma sqrt_pow a :
  magnitude 8 a ->
  exists r t1, secp256k1_fe_sqrt a = (r, secp256k1_fe_equal t1 a) /\ magnitude 1 r /\
    is_pow (val a) ((P + 1) / 4) r /\ magnitude 1 t1 /\ is_pow (val a) ((P + 1) / 2) t1.
Proof.
  intros Ha. destruct (blocks_pow a Ha) as (x2 & x22 & x223 & E & H2 & H22 & H223).
  replace (secp256k1_fe_sqrt a) with
    (let '(x2, x22, x223) := blocks a in
     let t1 := secp256k1_fe_mul (sqr_times 23 x223) x22 in
     let t1 := secp256k1_fe_mul (sqr_times 6 t1) x2 in
     let r := secp256k1_fe_sqr (secp256k1_fe_sqr t1) in
     (r, secp256k1_fe_equal (secp256k1_fe_sqr r) a)) by reflexivity.
  rewrite E. clear E.
  link y H3 23%nat H223 H22 (2 ^ 246 - 2 ^ 22 - 1).
  link z H4 6%nat H3 H2 ((P + 1) / 16).
  destruct (pow_sqr _ _ _ H4) as [_ H5]; [vm_compute; congruence|].
  destruct (pow_sqr _ _ _ H5) as [H6m H6]; [vm_compute; congruence|].
  destruct (pow_sqr _ _ _ H6) as [H7m H7]; [vm_compute; congruence|].
  replace (2 * (2 * (2 * ((P + 1) / 16)))) with ((P + 1) / 2) in H7 by reflexivity.
  replace (2 * (2 * ((P + 1) / 16))) with ((P + 1) / 4) in H6 by reflexivity.
  exists (secp256k1_fe_sqr (secp256k1_fe_sqr z)), (secp256k1_fe_sqr (secp256k1_fe_sqr (secp256k1_fe_sqr z))).
  split; [reflexivity|]. split; [exact H6m|]. split; [exact H6|]. split; [exact H7m|exact H7].
Qed.

(** ** Equality *)

Lemma mod_sub_zero x y n : 0 < n -> (y - x) mod n = 0 <-> x mod n = y mod n.
Proof.
  intros Hn. rewrite Z.mod_divide by lia. split.
  - intros [k Hk]. replace y with (x + k * n) by lia. by rewrite Z.mod_add by lia.
  - intros E. apply Z.mod_divide; [lia|]. by rewrite Zminus_mod, E, Z.sub_diag, Z.mod_0_l by lia.
Qed.

Lemma equal_spec m a b :
  magnitude 1 a -> magnitude m b -> 0 <= m <= 2045 ->
  (secp256k1_fe_equal a b = true <-> val a mod P = val b mod P) /\
  secp256k1_fe_equal_var a b = secp256k1_fe_equal a b.
Proof.
  intros Ha Hb Hm. unfold secp256k1_fe_equal, secp256k1_fe_equal_var.
  destruct (negate_spec 1 a Ha ltac:(lia)) as [Hn En].
  destruct (add_spec _ m _ b Hn Hb ltac:(lia)) as [Hs Es].
  split; [|apply (zero_var_same (1 + 1 + m)); (done || lia)].
  rewrite (to_zero_spec (1 + 1 + m)) by (done || lia).
  rewrite Es, En, <- (mod_sub_zero (val a)) by done.
  replace (2 * (1 + 1) * P - val a + val b) with (val b - val a + 4 * P) by lia. by rewrite Z.mod_add by done.
Qed.

(** ** What the powers are, the modulus being prime *)

Lemma prime_P : Z.prime P.
Proof. exact Primality.prime_field. Qed.

Lemma inv_spec a :
  magnitude 8 a ->
  magnitude 1 (secp256k1_fe_inv a) /\
  (val a * val (secp256k1_fe_inv a)) mod P = if decide (val a mod P = 0) then 0 else 1.
Proof.
  intros Ha. destruct (inv_pow a Ha) as [Hm [_ E]]. split; [done|].
  rewrite Z.mul_mod, E, <- Z.mul_mod by done.
  rewrite <- (Z.pow_succ_r (val a) (P - 2)) by (vm_compute; congruence).
  replace (Z.succ (P - 2)) with (P - 1) by lia. case_decide as Hz.
  - rewrite <- Z.mod_pow_l, Hz, Z.pow_0_l by reflexivity. reflexivity.
  - apply ZmodInv.Z.fermat_nz; [exact prime_P|done].
Qed.

(** Euler: the [(P + 1) / 2]-th power of a square is the square. *)
Lemma euler_square x y : (y * y) mod P = x mod P -> x ^ ((P + 1) / 2) mod P = x mod P.
Proof.
  intros E. rewrite <- (Z.mod_pow_l x), <- E, Z.mod_pow_l.
  replace (y * y) with (y ^ 2) by ring. rewrite <- Z.pow_mul_r by (vm_compute; congruence).
  replace (2 * ((P + 1) / 2)) with (P - 1 + 2) by reflexivity.
  rewrite Z.pow_add_r by (vm_compute; congruence). destruct (decide (y mod P = 0)) as [Hz|Hz].
  - rewrite Zmult_mod, <- (Z.mod_pow_l y 2), Hz. by rewrite Z.pow_0_l, Z.mod_0_l, Z.mul_0_r.
  - rewrite Zmult_mod, ZmodInv.Z.fermat_nz by (exact prime_P || done).
    by rewrite Z.mul_1_l, Z.mod_mod by done.
Qed.

Lemma sqrt_spec a :
  magnitude 8 a ->
  exists r ok, secp256k1_fe_sqrt a = (r, ok) /\ magnitude 1 r /\
    (ok = true <-> exists y, (y * y) mod P = val a mod P) /\
    (ok = true -> (val r * val r) mod P = val a mod P) /\
    (exists s, val r mod P = (s * s) mod P).
Proof.
  intros Ha. destruct (sqrt_pow a Ha) as (r & t1 & -> & Hm & [_ Hr] & Hm1 & [_ Ht]).
  destruct (equal_spec 8 t1 a Hm1 Ha ltac:(lia)) as [He _]. rewrite Ht in He.
  assert (Hsq : (val r * val r) mod P = val a ^ ((P + 1) / 2) mod P).
  { rewrite Z.mul_mod, Hr, <- Z.mul_mod by done. rewrite <- Z.pow_add_r by (vm_compute; congruence). reflexivity. }
  exists r, (secp256k1_fe_equal t1 a). split; [reflexivity|]. split; [exact Hm|]. rewrite He. split; [|split].
  - split; [|intros [y Hy]; by apply (euler_square _ y)]. intros E. exists (val r). by rewrite Hsq.
  - intros E. by rewrite Hsq.
  - exists (val a ^ ((P + 1) / 8)). rewrite Hr, <- Z.pow_add_r by (vm_compute; congruence). reflexivity.
Qed.

(** ** All inverses at once *)

(** Each of two lists' elements are inverse to each other. *)
Definition inverses (r a : list secp256k1_fe) : Prop :=
  Forall2 (fun x y => magnitude 1 x /\ (val x * val y) mod P = 1) r a.

Lemma fe_mul_spec a b :
  magnitude 8 a -> magnitude 8 b ->
  magnitude 1 (secp256k1_fe_mul a b) /\ val (secp256k1_fe_mul a b) mod P = (val a * val b) mod P.
Proof. intros Ha Hb. exact (mul_inner_spec a b Ha Hb). Qed.

(** An element that can be inverted. *)
Definition unit8 (a : secp256k1_fe) : Prop := magnitude 8 a /\ val a mod P <> 0.

Lemma mul_unit a b : unit8 a -> unit8 b -> unit8 (secp256k1_fe_mul a b).
Proof.
  intros [Ha Na] [Hb Nb]. destruct (fe_mul_spec a b Ha Hb) as [Hm E].
  split; [by eapply magnitude_mono; [eassumption|lia]|]. rewrite E.
  rewrite Z.mod_divide in Na, Nb |- * by done. rewrite (Z.divide_prime_mul _ _ _ prime_P). tauto.
Qed.

Lemma prefix_products_unit a acc :
  unit8 acc -> Forall unit8 a -> Forall unit8 (acc :: prefix_products acc a).
Proof.
  revert acc. induction a as [|x a IH]; intros acc Hc Ha; [by constructor|].
  inversion Ha; subst. constructor; [done|]. cbn [prefix_products]. apply IH; [by apply mul_unit|done].
Qed.

Lemma prefix_products_snoc a acc x :
  exists q l, acc :: prefix_products acc a = l ++ [q] /\
    acc :: prefix_products acc (a ++ [x]) = (l ++ [q]) ++ [secp256k1_fe_mul q x].
Proof.
  revert acc. induction a as [|y a IH]; intros acc; [by exists acc, []|].
  destruct (IH (secp256k1_fe_mul acc y)) as (q & l & E1 & E2). exists q, (acc :: l).
  cbn [prefix_products app]. by rewrite E1, E2.
Qed.

(** One step of the walk back: from the inverse of [acc * x], the inverse of
    [x] and the inverse of [acc]. *)
Lemma back_step u acc x :
  magnitude 8 u -> magnitude 8 acc -> magnitude 8 x ->
  (val u * val (secp256k1_fe_mul acc x)) mod P = 1 ->
  (magnitude 1 (secp256k1_fe_mul acc u) /\ (val (secp256k1_fe_mul acc u) * val x) mod P = 1) /\
  (magnitude 1 (secp256k1_fe_mul u x) /\ (val (secp256k1_fe_mul u x) * val acc) mod P = 1).
Proof.
  intros Hu Hc Hx. destruct (fe_mul_spec acc x Hc Hx) as [_ E1]. destruct (fe_mul_spec acc u Hc Hu) as [M2 E2].
  destruct (fe_mul_spec u x Hu Hx) as [M3 E3].
  rewrite Z.mul_mod, E1, <- Z.mul_mod by done. intros E.
  split; (split; [done|]); rewrite <- Zmult_mod_idemp_l, ?E2, ?E3, Zmult_mod_idemp_l; rewrite <- E; f_equal; ring.
Qed.

Lemma inv_back_spec acc a u q l :
  unit8 acc -> Forall unit8 a -> acc :: prefix_products acc a = l ++ [q] ->
  magnitude 1 u -> (val u * val q) mod P = 1 ->
  exists l' u', inv_back u (tail (rev (acc :: prefix_products acc a))) (rev a) = (l', u') /\
    inverses (rev l') a /\ magnitude 1 u' /\ (val u' * val acc) mod P = 1.
Proof.
  intros Hc Ha. revert u q l. induction a as [|x a IH] using rev_ind; intros u q l E Hu Hq.
  - assert (q = acc) as -> by (by destruct l as [|? [|]]; simplify_eq/=).
    exists [], u. split; [done|]. by split; [constructor|].
  - apply Forall_app in Ha as [Ha Hx]. rewrite Forall_singleton in Hx.
    destruct (prefix_products_snoc a acc x) as (p & k & E1 & E2). rewrite E2 in E.
    apply app_inj_tail in E as [<- <-].
    assert (Hp : unit8 p).
    { assert (H := prefix_products_unit a acc Hc Ha). rewrite E1 in H.
      apply Forall_app in H as [_ H]. by rewrite Forall_singleton in H. }
    apply (magnitude_mono 1 8) in Hu; [|lia].
    destruct (back_step u p x Hu (proj1 Hp) (proj1 Hx) Hq) as [Hr [Hm Hn]].
    rewrite E2, !rev_app_distr. cbn [rev app tail]. specialize (IH Ha (secp256k1_fe_mul u x) p k E1 Hm Hn).
    rewrite E1, rev_app_distr in IH. cbn [rev app tail] in IH. cbn [inv_back].
    destruct IH as (l' & u' & -> & Hl & Hu').
    exists (secp256k1_fe_mul p u :: l'), u'. split; [done|]. cbn [rev]. split; [|done].
    apply Forall2_app; [done|]. by constructor.
Qed.

Lemma inv_all_spec a : Forall unit8 a -> inverses (secp256k1_fe_inv_all_var a) a.
Proof.
  intros Ha. destruct a as [|a0 a]; [constructor|]. inversion Ha as [|?? H0 Ha']; subst.
  destruct (exists_last (l := a0 :: prefix_products a0 a)) as (l & q & E); [done|].
  assert (Hq : unit8 q).
  { assert (H := prefix_products_unit a a0 H0 Ha'). rewrite E in H.
    apply Forall_app in H as [_ H]. by rewrite Forall_singleton in H. }
  destruct (inv_spec q (proj1 Hq)) as [Hm Hi]. rewrite decide_False, Z.mul_comm in Hi by (apply Hq).
  destruct (inv_back_spec a0 a (secp256k1_fe_inv_var q) q l H0 Ha' E Hm Hi) as (l' & u' & Eb & Hl & Hu).
  unfold secp256k1_fe_inv_all_var. cbv zeta. rewrite E, last_snoc, <- E.
  change (default a0 (Some q)) with q. rewrite Eb. by constructor.
Qed.

(** ** The claims *)

(** Comparing field elements by the difference is comparing their residues,
    for a first argument of magnitude 1 and a second one up to 2045, and the
    variable-time version gives the same answer. *)
Theorem field_equal (m : Z) (a b : secp256k1_fe) :
  magnitude 1 a -> magnitude m b -> 0 <= m <= 2045 ->
  (secp256k1_fe_equal a b = true <-> val a mod P = val b mod P) /\
  secp256k1_fe_equal_var a b = secp256k1_fe_equal a b.
Proof. apply equal_spec. Qed.

Definition two : secp256k1_fe := mkFe 2 0 0 0 0.
Definition P_plus_2 : secp256k1_fe := mkFe (0xFFFFEFFFFFC2F + 2) M52 M52 M52 M48.

Lemma two_magnitude m : 1 <= m -> magnitude m two.
Proof. unfold magnitude, two, M52, M48. cbn. lia. Qed.

Lemma field_equal_witness :
  secp256k1_fe_equal two P_plus_2 = true /\ val two mod P = val P_plus_2 mod P.
Proof.
  assert (Hp : magnitude 1 P_plus_2) by (unfold magnitude, P_plus_2, M52, M48; cbn; lia).
  destruct (field_equal 1 two P_plus_2 (two_magnitude 1 ltac:(lia)) Hp ltac:(lia)) as [H _].
  split; [apply H|]; reflexivity.
Defined.

(** [secp256k1_fe_inv] and [secp256k1_fe_inv_var] return, with magnitude 1,
    the inverse of every element of magnitude up to 8 that is not zero modulo
    the field prime, and zero for zero. *)
Theorem field_inverse (a : secp256k1_fe) :
  magnitude 8 a ->
  secp256k1_fe_inv_var a = secp256k1_fe_inv a /\
  magnitude 1 (secp256k1_fe_inv a) /\
  (val a mod P <> 0 -> (val a * val (secp256k1_fe_inv a)) mod P = 1) /\
  (val a mod P = 0 -> val (secp256k1_fe_inv a) mod P = 0).
Proof.
  intros Ha. split; [reflexivity|]. destruct (inv_spec a Ha) as [Hm E]. split; [exact Hm|].
  split; [intros H; by rewrite decide_False in E|]. intros H. destruct (inv_pow a Ha) as [_ [_ ->]].
  by rewrite <- Z.mod_pow_l, H, Z.pow_0_l.
Qed.

Lemma field_inverse_witness : (2 * val (secp256k1_fe_inv two)) mod P = 1.
Proof.
  change 2 with (val two). apply (field_inverse two); [apply two_magnitude; lia|]. vm_compute. congruence.
Defined.

(** [secp256k1_fe_sqrt] succeeds exactly on the squares, and then its
    result is a root; the result is itself always a square. So
    [secp256k1_fe_is_quad_var] decides whether an element is a square. *)
Theorem field_square_root (a : secp256k1_fe) :
  magnitude 8 a ->
  exists r ok, secp256k1_fe_sqrt a = (r, ok) /\ magnitude 1 r /\
    (ok = true <-> exists y, (y * y) mod P = val a mod P) /\
    (ok = true -> (val r * val r) mod P = val a mod P) /\
    (exists s, val r mod P = (s * s) mod P) /\
    secp256k1_fe_is_quad_var a = ok.
Proof.
  intros Ha. destruct (sqrt_spec a Ha) as (r & ok & E & H1 & H2 & H3 & H4). exists r, ok.
  unfold secp256k1_fe_is_quad_var. rewrite E. done.
Qed.

Lemma field_square_root_witness :
  exists r, secp256k1_fe_sqrt two = (r, true) /\ (val r * val r) mod P = 2.
Proof.
  destruct (field_square_root two) as (r & ok & E & _ & _ & Hr & _); [apply two_magnitude; lia|].
  assert (ok = true) as -> by (change ok with (snd (r, ok)); rewrite <- E; vm_compute; reflexivity).
  exists r. split; [exact E|]. by rewrite Hr.
Defined.

(** From non-zero elements, [secp256k1_fe_inv_all_var] gives the inverse of
    each of them with a single inversion. *)
Theorem field_inverse_all (a : list secp256k1_fe) :
  Forall unit8 a -> inverses (secp256k1_fe_inv_all_var a) a.
Proof. apply inv_all_spec. Qed.

Lemma field_inverse_all_witness :
  inverses (secp256k1_fe_inv_all_var [two; P_plus_2; two]) [two; P_plus_2; two].
Proof.
  apply field_inverse_all.
  repeat constructor; unfold magnitude, two, P_plus_2, M52, M48; cbn; (lia || vm_compute; congruence).
Defined.

End FieldExp.
