(* ===== verification/Scalar.v ===== *)
(** * Scalars modulo the group order on 64-bit machines
    (libsecp256k1/src/scalar_4x64.h, scalar_4x64_impl.h, scalar_impl.h)

    A scalar is four 64-bit limbs. The wide products go through a 160-bit or
    192-bit accumulator that the C code keeps in three variables and updates
    with macros; each macro is a function on the accumulator here, with the
    width of its last word as an argument. The build uses the C versions, no
    assembly, with the endomorphism and the built-in inverse. *)

From Stdlib Require Import ZArith Lia List.
From stdpp Require Import base list.
From S2P Require Import Prelude Words Field.
Local Open Scope Z_scope.
Local Open Scope word_scope.

Module Scalar.
Import Field.

Record secp256k1_scalar := mkScalar { d0 : Z; d1 : Z; d2 : Z; d3 : Z }.

Definition M64 : Z := 0xFFFFFFFFFFFFFFFF.
Definition not64 (x : Z) : Z := M64 - x.

Definition SECP256K1_N_0 : Z := 0xBFD25E8CD0364141.
Definition SECP256K1_N_1 : Z := 0xBAAEDCE6AF48A03B.
Definition SECP256K1_N_2 : Z := 0xFFFFFFFFFFFFFFFE.
Definition SECP256K1_N_3 : Z := 0xFFFFFFFFFFFFFFFF.

Definition SECP256K1_N_C_0 : Z := u64 (not64 SECP256K1_N_0 + 1).
Definition SECP256K1_N_C_1 : Z := not64 SECP256K1_N_1.
Definition SECP256K1_N_C_2 : Z := 1.

Definition SECP256K1_N_H_0 : Z := 0xDFE92F46681B20A0.
Definition SECP256K1_N_H_1 : Z := 0x5D576E7357A4501D.
Definition SECP256K1_N_H_2 : Z := 0xFFFFFFFFFFFFFFFF.
Definition SECP256K1_N_H_3 : Z := 0x7FFFFFFFFFFFFFFF.

Definition secp256k1_scalar_clear : secp256k1_scalar := mkScalar 0 0 0 0.

Definition secp256k1_scalar_set_int (v : Z) : secp256k1_scalar := mkScalar v 0 0 0.

(** [a->d[i]]; the code only reads indices below 4. *)
Definition d (a : secp256k1_scalar) (i : Z) : Z :=
  if i =? 0 then d0 a else if i =? 1 then d1 a else if i =? 2 then d2 a else d3 a.

(** The result is an [unsigned int]. *)
Definition secp256k1_scalar_get_bits (a : secp256k1_scalar) (offset count : Z) : Z :=
  u32 (Z.land (Z.shiftr (d a (Z.shiftr offset 6)) (Z.land offset 0x3F)) (u64 (u64 (Z.shiftl 1 count) - 1))).

Definition secp256k1_scalar_get_bits_var (a : secp256k1_scalar) (offset count : Z) : Z :=
  if Z.shiftr (u32 (offset + count - 1)) 6 =? Z.shiftr offset 6 then
    secp256k1_scalar_get_bits a offset count
  else
    u32 (Z.land (Z.lor (Z.shiftr (d a (Z.shiftr offset 6)) (Z.land offset 0x3F))
                       (u64 (Z.shiftl (d a (Z.shiftr offset 6 + 1)) (64 - Z.land offset 0x3F))))
                (u64 (u64 (Z.shiftl 1 count) - 1))).

Definition secp256k1_scalar_check_overflow (a : secp256k1_scalar) : Z :=
  let yes := 0 in
  let no := 0 in
  let no := Z.lor no (b2z (d3 a <? SECP256K1_N_3)) in
  let no := Z.lor no (b2z (d2 a <? SECP256K1_N_2)) in
  let yes := Z.lor yes (Z.land (b2z (d2 a >? SECP256K1_N_2)) (Z.lnot no)) in
  let no := Z.lor no (b2z (d1 a <? SECP256K1_N_1)) in
  let yes := Z.lor yes (Z.land (b2z (d1 a >? SECP256K1_N_1)) (Z.lnot no)) in
  let yes := Z.lor yes (Z.land (b2z (d0 a >=? SECP256K1_N_0)) (Z.lnot no)) in
  yes.

(** Returns the scalar and [overflow]. *)
Definition secp256k1_scalar_reduce (r : secp256k1_scalar) (overflow : Z) : secp256k1_scalar * Z :=
  let t := u128 (d0 r + u64 (overflow * SECP256K1_N_C_0)) in
  let r0 := Z.land t M64 in let t := Z.shiftr t 64 in
  let t := u128 (t + u128 (d1 r + u64 (overflow * SECP256K1_N_C_1))) in
  let r1 := Z.land t M64 in let t := Z.shiftr t 64 in
  let t := u128 (t + u128 (d2 r + u32 (overflow * SECP256K1_N_C_2))) in
  let r2 := Z.land t M64 in let t := Z.shiftr t 64 in
  let t := u128 (t + d3 r) in
  let r3 := Z.land t M64 in
  (mkScalar r0 r1 r2 r3, overflow).

(** Returns the sum and whether it overflowed. *)
Definition secp256k1_scalar_add (a b : secp256k1_scalar) : secp256k1_scalar * Z :=
  let t := u128 (d0 a + d0 b) in
  let r0 := Z.land t M64 in let t := Z.shiftr t 64 in
  let t := u128 (t + u128 (d1 a + d1 b)) in
  let r1 := Z.land t M64 in let t := Z.shiftr t 64 in
  let t := u128 (t + u128 (d2 a + d2 b)) in
  let r2 := Z.land t M64 in let t := Z.shiftr t 64 in
  let t := u128 (t + u128 (d3 a + d3 b)) in
  let r3 := Z.land t M64 in let t := Z.shiftr t 64 in
  let r := mkScalar r0 r1 r2 r3 in
  let overflow := swrap 32 (u128 (t + secp256k1_scalar_check_overflow r)) in
  (fst (secp256k1_scalar_reduce r (u32 overflow)), overflow).

Definition secp256k1_scalar_cadd_bit (r : secp256k1_scalar) (bit flag : Z) : secp256k1_scalar :=
  let bit := u32 (bit + Z.land (u32 (u32 flag - 1)) 0x100) in
  let at_limb i := u64 (Z.shiftl (b2z (Z.shiftr bit 6 =? i)) (Z.land bit 0x3F)) in
  let t := u128 (d0 r + at_limb 0) in
  let r0 := Z.land t M64 in let t := Z.shiftr t 64 in
  let t := u128 (t + u128 (d1 r + at_limb 1)) in
  let r1 := Z.land t M64 in let t := Z.shiftr t 64 in
  let t := u128 (t + u128 (d2 r + at_limb 2)) in
  let r2 := Z.land t M64 in let t := Z.shiftr t 64 in
  let t := u128 (t + u128 (d3 r + at_limb 3)) in
  let r3 := Z.land t M64 in
  mkScalar r0 r1 r2 r3.

(** ** Bytes *)

(** [(uint64_t)b[7] | (uint64_t)b[6] << 8 | ... | (uint64_t)b[0] << 56] of the
    eight bytes from [i]. *)
Definition limb_of_bytes (b32 : bytes) (i : nat) : Z :=
  let b k := nth (i + k) b32 0 in
  Z.lor (Z.lor (Z.lor (Z.lor (Z.lor (Z.lor (Z.lor (b 7%nat) (Z.shiftl (b 6%nat) 8))
    (Z.shiftl (b 5%nat) 16)) (Z.shiftl (b 4%nat) 24)) (Z.shiftl (b 3%nat) 32))
    (Z.shiftl (b 2%nat) 40)) (Z.shiftl (b 1%nat) 48)) (Z.shiftl (b 0%nat) 56).

(** The scalar and what is stored at [overflow] when it is not NULL. *)
Definition secp256k1_scalar_set_b32 (b32 : bytes) : secp256k1_scalar * Z :=
  let r := mkScalar (limb_of_bytes b32 24) (limb_of_bytes b32 16) (limb_of_bytes b32 8) (limb_of_bytes b32 0) in
  secp256k1_scalar_reduce r (u32 (secp256k1_scalar_check_overflow r)).

Definition bytes_of_limb (x : Z) : bytes :=
  [wrap 8 (Z.shiftr x 56); wrap 8 (Z.shiftr x 48); wrap 8 (Z.shiftr x 40); wrap 8 (Z.shiftr x 32);
   wrap 8 (Z.shiftr x 24); wrap 8 (Z.shiftr x 16); wrap 8 (Z.shiftr x 8); wrap 8 x].

Definition secp256k1_scalar_get_b32 (a : secp256k1_scalar) : bytes :=
  bytes_of_limb (d3 a) ++ bytes_of_limb (d2 a) ++ bytes_of_limb (d1 a) ++ bytes_of_limb (d0 a).

(** ** Signs and comparisons *)

Definition secp256k1_scalar_is_zero (a : secp256k1_scalar) : bool :=
  Z.lor (Z.lor (Z.lor (d0 a) (d1 a)) (d2 a)) (d3 a) =? 0.

Definition secp256k1_scalar_negate (a : secp256k1_scalar) : secp256k1_scalar :=
  let nonzero := u64 (M64 * b2z (negb (secp256k1_scalar_is_zero a))) in
  let t := u128 (not64 (d0 a) + SECP256K1_N_0 + 1) in
  let r0 := Z.land t nonzero in let t := Z.shiftr t 64 in
  let t := u128 (t + u128 (not64 (d1 a) + SECP256K1_N_1)) in
  let r1 := Z.land t nonzero in let t := Z.shiftr t 64 in
  let t := u128 (t + u128 (not64 (d2 a) + SECP256K1_N_2)) in
  let r2 := Z.land t nonzero in let t := Z.shiftr t 64 in
  let t := u128 (t + u128 (not64 (d3 a) + SECP256K1_N_3)) in
  let r3 := Z.land t nonzero in
  mkScalar r0 r1 r2 r3.

Definition secp256k1_scalar_is_one (a : secp256k1_scalar) : bool :=
  Z.lor (Z.lor (Z.lor (Z.lxor (d0 a) 1) (d1 a)) (d2 a)) (d3 a) =? 0.

Definition secp256k1_scalar_is_high (a : secp256k1_scalar) : Z :=
  let yes := 0 in
  let no := 0 in
  let no := Z.lor no (b2z (d3 a <? SECP256K1_N_H_3)) in
  let yes := Z.lor yes (Z.land (b2z (d3 a >? SECP256K1_N_H_3)) (Z.lnot no)) in
  let no := Z.lor no (Z.land (b2z (d2 a <? SECP256K1_N_H_2)) (Z.lnot yes)) in
  let no := Z.lor no (Z.land (b2z (d1 a <? SECP256K1_N_H_1)) (Z.lnot yes)) in
  let yes := Z.lor yes (Z.land (b2z (d1 a >? SECP256K1_N_H_1)) (Z.lnot no)) in
  let yes := Z.lor yes (Z.land (b2z (d0 a >? SECP256K1_N_H_0)) (Z.lnot no)) in
  yes.

(** Returns the scalar and the sign. *)
Definition secp256k1_scalar_cond_negate (r : secp256k1_scalar) (flag : Z) : secp256k1_scalar * Z :=
  let mask := u64 (b2z (flag =? 0) - 1) in
  let nonzero := u64 (b2z (secp256k1_scalar_is_zero r) - 1) in
  let t := u128 (Z.lxor (d0 r) mask + Z.land (u64 (SECP256K1_N_0 + 1)) mask) in
  let r0 := Z.land t nonzero in let t := Z.shiftr t 64 in
  let t := u128 (t + u128 (Z.lxor (d1 r) mask + Z.land SECP256K1_N_1 mask)) in
  let r1 := Z.land t nonzero in let t := Z.shiftr t 64 in
  let t := u128 (t + u128 (Z.lxor (d2 r) mask + Z.land SECP256K1_N_2 mask)) in
  let r2 := Z.land t nonzero in let t := Z.shiftr t 64 in
  let t := u128 (t + u128 (Z.lxor (d3 r) mask + Z.land SECP256K1_N_3 mask)) in
  let r3 := Z.land t nonzero in
  (mkScalar r0 r1 r2 r3, 2 * b2z (mask =? 0) - 1).

Definition secp256k1_scalar_eq (a b : secp256k1_scalar) : bool :=
  Z.lor (Z.lor (Z.lor (Z.lxor (d0 a) (d0 b)) (Z.lxor (d1 a) (d1 b))) (Z.lxor (d2 a) (d2 b)))
    (Z.lxor (d3 a) (d3 b)) =? 0.

Definition secp256k1_scalar_is_even (a : secp256k1_scalar) : bool := Z.land (d0 a) 1 =? 0.

(** ** The accumulator

    [(c0, c1, c2)], with [c2] of [w] bits. *)

Record Acc := mkAcc { c0 : Z; c1 : Z; c2 : Z }.

Definition muladd (w a b : Z) (c : Acc) : Acc :=
  let t := u128 (a * b) in
  let th := u64 (Z.shiftr t 64) in
  let tl := u64 t in
  let c0' := u64 (c0 c + tl) in
  let th := u64 (th + b2z (c0' <? tl)) in
  let c1' := u64 (c1 c + th) in
  let c2' := wrap w (c2 c + b2z (c1' <? th)) in
  mkAcc c0' c1' c2'.

Definition muladd_fast (a b : Z) (c : Acc) : Acc :=
  let t := u128 (a * b) in
  let th := u64 (Z.shiftr t 64) in
  let tl := u64 t in
  let c0' := u64 (c0 c + tl) in
  let th := u64 (th + b2z (c0' <? tl)) in
  let c1' := u64 (c1 c + th) in
  mkAcc c0' c1' (c2 c).

Definition muladd2 (w a b : Z) (c : Acc) : Acc :=
  let t := u128 (a * b) in
  let th := u64 (Z.shiftr t 64) in
  let tl := u64 t in
  let th2 := u64 (th + th) in
  let c2' := wrap w (c2 c + b2z (th2 <? th)) in
  let tl2 := u64 (tl + tl) in
  let th2 := u64 (th2 + b2z (tl2 <? tl)) in
  let c0' := u64 (c0 c + tl2) in
  let th2 := u64 (th2 + b2z (c0' <? tl2)) in
  let c2' := wrap w (c2' + Z.land (b2z (c0' <? tl2)) (b2z (th2 =? 0))) in
  let c1' := u64 (c1 c + th2) in
  let c2' := wrap w (c2' + b2z (c1' <? th2)) in
  mkAcc c0' c1' c2'.

Definition sumadd (w a : Z) (c : Acc) : Acc :=
  let c0' := u64 (c0 c + a) in
  let over := b2z (c0' <? a) in
  let c1' := u64 (c1 c + over) in
  let c2' := wrap w (c2 c + b2z (c1' <? over)) in
  mkAcc c0' c1' c2'.

Definition sumadd_fast (a : Z) (c : Acc) : Acc :=
  let c0' := u64 (c0 c + a) in
  let c1' := u64 (c1 c + b2z (c0' <? a)) in
  mkAcc c0' c1' (c2 c).

(** The word taken out, and the accumulator left. *)
Definition extract (c : Acc) : Z * Acc := (c0 c, mkAcc (c1 c) (c2 c) 0).
Definition extract_fast (c : Acc) : Z * Acc := (c0 c, mkAcc (c1 c) 0 (c2 c)).

(** ** Products *)

(** [l[0..7] = a[0..3] * b[0..3]] *)
Definition secp256k1_scalar_mul_512 (a b : secp256k1_scalar) : list Z :=
  let c := mkAcc 0 0 0 in
  let c := muladd_fast (d0 a) (d0 b) c in
  let '(l0, c) := extract_fast c in
  let c := muladd 32 (d0 a) (d1 b) c in
  let c := muladd 32 (d1 a) (d0 b) c in
  let '(l1, c) := extract c in
  let c := muladd 32 (d0 a) (d2 b) c in
  let c := muladd 32 (d1 a) (d1 b) c in
  let c := muladd 32 (d2 a) (d0 b) c in
  let '(l2, c) := extract c in
  let c := muladd 32 (d0 a) (d3 b) c in
  let c := muladd 32 (d1 a) (d2 b) c in
  let c := muladd 32 (d2 a) (d1 b) c in
  let c := muladd 32 (d3 a) (d0 b) c in
  let '(l3, c) := extract c in
  let c := muladd 32 (d1 a) (d3 b) c in
  let c := muladd 32 (d2 a) (d2 b) c in
  let c := muladd 32 (d3 a) (d1 b) c in
  let '(l4, c) := extract c in
  let c := muladd 32 (d2 a) (d3 b) c in
  let c := muladd 32 (d3 a) (d2 b) c in
  let '(l5, c) := extract c in
  let c := muladd_fast (d3 a) (d3 b) c in
  let '(l6, c) := extract_fast c in
  [l0; l1; l2; l3; l4; l5; l6; c0 c].

Definition secp256k1_scalar_sqr_512 (a : secp256k1_scalar) : list Z :=
  let c := mkAcc 0 0 0 in
  let c := muladd_fast (d0 a) (d0 a) c in
  let '(l0, c) := extract_fast c in
  let c := muladd2 32 (d0 a) (d1 a) c in
  let '(l1, c) := extract c in
  let c := muladd2 32 (d0 a) (d2 a) c in
  let c := muladd 32 (d1 a) (d1 a) c in
  let '(l2, c) := extract c in
  let c := muladd2 32 (d0 a) (d3 a) c in
  let c := muladd2 32 (d1 a) (d2 a) c in
  let '(l3, c) := extract c in
  let c := muladd2 32 (d1 a) (d3 a) c in
  let c := muladd 32 (d2 a) (d2 a) c in
  let '(l4, c) := extract c in
  let c := muladd2 32 (d2 a) (d3 a) c in
  let '(l5, c) := extract c in
  let c := muladd_fast (d3 a) (d3 a) c in
  let '(l6, c) := extract_fast c in
  [l0; l1; l2; l3; l4; l5; l6; c0 c].

(** [l[i]] of the eight words. *)
Definition word (l : list Z) (i : Z) : Z := nth (Z.to_nat i) l 0.

(** [m[0..6] = l[0..3] + n[0..3] * SECP256K1_N_C] *)
Definition reduce_512_385 (l : list Z) : list Z :=
  let n0 := word l 4 in let n1 := word l 5 in let n2 := word l 6 in let n3 := word l 7 in
  let c := mkAcc (word l 0) 0 0 in
  let c := muladd_fast n0 SECP256K1_N_C_0 c in
  let '(m0, c) := extract_fast c in
  let c := sumadd_fast (word l 1) c in
  let c := muladd 64 n1 SECP256K1_N_C_0 c in
  let c := muladd 64 n0 SECP256K1_N_C_1 c in
  let '(m1, c) := extract c in
  let c := sumadd 64 (word l 2) c in
  let c := muladd 64 n2 SECP256K1_N_C_0 c in
  let c := muladd 64 n1 SECP256K1_N_C_1 c in
  let c := sumadd 64 n0 c in
  let '(m2, c) := extract c in
  let c := sumadd 64 (word l 3) c in
  let c := muladd 64 n3 SECP256K1_N_C_0 c in
  let c := muladd 64 n2 SECP256K1_N_C_1 c in
  let c := sumadd 64 n1 c in
  let '(m3, c) := extract c in
  let c := muladd 64 n3 SECP256K1_N_C_1 c in
  let c := sumadd 64 n2 c in
  let '(m4, c) := extract c in
  let c := sumadd_fast n3 c in
  let '(m5, c) := extract_fast c in
  [m0; m1; m2; m3; m4; m5; u32 (c0 c)].

(** [p[0..4] = m[0..3] + m[4..6] * SECP256K1_N_C] *)
Definition reduce_385_258 (m : list Z) : list Z :=
  let m4 := word m 4 in let m5 := word m 5 in let m6 := word m 6 in
  let c := mkAcc (word m 0) 0 0 in
  let c := muladd_fast m4 SECP256K1_N_C_0 c in
  let '(p0, c) := extract_fast c in
  let c := sumadd_fast (word m 1) c in
  let c := muladd 64 m5 SECP256K1_N_C_0 c in
  let c := muladd 64 m4 SECP256K1_N_C_1 c in
  let '(p1, c) := extract c in
  let c := sumadd 64 (word m 2) c in
  let c := muladd 64 m6 SECP256K1_N_C_0 c in
  let c := muladd 64 m5 SECP256K1_N_C_1 c in
  let c := sumadd 64 m4 c in
  let '(p2, c) := extract c in
  let c := sumadd_fast (word m 3) c in
  let c := muladd_fast m6 SECP256K1_N_C_1 c in
  let c := sumadd_fast m5 c in
  let '(p3, c) := extract_fast c in
  [p0; p1; p2; p3; u32 (u64 (c0 c + m6))].

(** [r[0..3] = p[0..3] + p[4] * SECP256K1_N_C], and the carry [c]. *)
Definition reduce_258_256 (p : list Z) : secp256k1_scalar * Z :=
  let p4 := word p 4 in
  let c := u128 (word p 0 + u128 (SECP256K1_N_C_0 * p4)) in
  let r0 := Z.land c M64 in let c := Z.shiftr c 64 in
  let c := u128 (c + u128 (word p 1 + u128 (SECP256K1_N_C_1 * p4))) in
  let r1 := Z.land c M64 in let c := Z.shiftr c 64 in
  let c := u128 (c + u128 (word p 2 + p4)) in
  let r2 := Z.land c M64 in let c := Z.shiftr c 64 in
  let c := u128 (c + word p 3) in
  let r3 := Z.land c M64 in let c := Z.shiftr c 64 in
  (mkScalar r0 r1 r2 r3, c).

Definition secp256k1_scalar_reduce_512 (l : list Z) : secp256k1_scalar :=
  let '(r, c) := reduce_258_256 (reduce_385_258 (reduce_512_385 l)) in
  fst (secp256k1_scalar_reduce r (u32 (c + secp256k1_scalar_check_overflow r))).

Definition secp256k1_scalar_mul (a b : secp256k1_scalar) : secp256k1_scalar :=
  secp256k1_scalar_reduce_512 (secp256k1_scalar_mul_512 a b).

Definition secp256k1_scalar_sqr (a : secp256k1_scalar) : secp256k1_scalar :=
  secp256k1_scalar_reduce_512 (secp256k1_scalar_sqr_512 a).

(** ** Shifts *)

(** Returns the scalar and the bits shifted out. *)
Definition secp256k1_scalar_shr_int (r : secp256k1_scalar) (n : Z) : secp256k1_scalar * Z :=
  let ret := Z.land (d0 r) (Z.shiftl 1 n - 1) in
  let r0 := u64 (Z.shiftr (d0 r) n + u64 (Z.shiftl (d1 r) (64 - n))) in
  let r1 := u64 (Z.shiftr (d1 r) n + u64 (Z.shiftl (d2 r) (64 - n))) in
  let r2 := u64 (Z.shiftr (d2 r) n + u64 (Z.shiftl (d3 r) (64 - n))) in
  let r3 := Z.shiftr (d3 r) n in
  (mkScalar r0 r1 r2 r3, ret).

Definition secp256k1_scalar_split_128 (a : secp256k1_scalar) : secp256k1_scalar * secp256k1_scalar :=
  (mkScalar (d0 a) (d1 a) 0 0, mkScalar (d2 a) (d3 a) 0 0).

Definition secp256k1_scalar_mul_shift_var (a b : secp256k1_scalar) (shift : Z) : secp256k1_scalar :=
  let l := secp256k1_scalar_mul_512 a b in
  let shiftlimbs := Z.shiftr shift 6 in
  let shiftlow := Z.land shift 0x3F in
  let shifthigh := u32 (64 - shiftlow) in
  let low i := Z.shiftr (word l (i + shiftlimbs)) shiftlow in
  let high i bound :=
    if (shift <? bound) && negb (shiftlow =? 0) then u64 (Z.shiftl (word l (i + shiftlimbs)) shifthigh) else 0 in
  let r0 := if shift <? 512 then Z.lor (low 0) (high 1 448) else 0 in
  let r1 := if shift <? 448 then Z.lor (low 1) (high 2 384) else 0 in
  let r2 := if shift <? 384 then Z.lor (low 2) (high 3 320) else 0 in
  let r3 := if shift <? 320 then low 3 else 0 in
  secp256k1_scalar_cadd_bit (mkScalar r0 r1 r2 r3) 0
    (Z.land (Z.shiftr (word l (Z.shiftr (shift - 1) 6)) (Z.land (shift - 1) 0x3f)) 1).

End Scalar.
