(* ===== verification/ScalarFacts.v ===== *)
(** * The scalar operations compute modulo the group order

    The accumulator macros add what they claim as long as the accumulator does
    not overflow, the wide products are exact, and the three reduction steps
    keep the residue and end below the order. *)

From Stdlib Require Import ZArith Lia List.
From stdpp Require Import base list.
From S2P Require Import Prelude Words Field FieldFacts FieldOps Scalar.
Local Open Scope Z_scope.
Local Open Scope word_scope.

Module ScalarFacts.
Import Field Scalar.
Local Abbreviation ensures := FieldFacts.ensures.

(** ** Values *)

(** The order of the group. *)
Definition N : Z := 0xFFFFFFFFFFFFFFFFFFFFFFFFFFFFFFFEBAAEDCE6AF48A03BBFD25E8CD0364141.

Definition is_word (x : Z) : Prop := 0 <= x < 2 ^ 64.

Definition limbs_ok (a : secp256k1_scalar) : Prop :=
  is_word (d0 a) /\ is_word (d1 a) /\ is_word (d2 a) /\ is_word (d3 a).

Definition sval (a : secp256k1_scalar) : Z := d0 a + d1 a * 2 ^ 64 + d2 a * 2 ^ 128 + d3 a * 2 ^ 192.

(** A scalar as the library keeps it: below the order. *)
Definition scalar_ok (a : secp256k1_scalar) : Prop := limbs_ok a /\ sval a < N.

Lemma sval_range a : limbs_ok a -> 0 <= sval a < 2 ^ 256.
Proof. unfold limbs_ok, is_word, sval. lia. Qed.

Lemma sval_inj a b : limbs_ok a -> limbs_ok b -> sval a = sval b -> a = b.
Proof. destruct a, b. unfold limbs_ok, is_word, sval. cbn [d0 d1 d2 d3]. intros. f_equal; lia. Qed.

(** ** Words and carries *)

Lemma split64 y :
  0 <= y -> y = Z.shiftr y 64 * 2 ^ 64 + Z.land y M64 /\ 0 <= Z.land y M64 < 2 ^ 64 /\ 0 <= Z.shiftr y 64.
Proof.
  intros Hy. change M64 with (Z.ones 64). rewrite Z.land_ones, Z.shiftr_div_pow2 by lia.
  assert (H := Z.div_mod y (2 ^ 64) ltac:(lia)). assert (Hm := Z.mod_pos_bound y (2 ^ 64) ltac:(lia)).
  assert (Hd := Z.div_pos y (2 ^ 64) Hy ltac:(lia)). lia.
Qed.

(** Adding two words: the carry is whether the sum is below a summand. *)
Lemma add_carry x y :
  is_word x -> is_word y ->
  is_word (u64 (x + y)) /\ x + y = u64 (x + y) + b2z (u64 (x + y) <? y) * 2 ^ 64.
Proof.
  unfold is_word. intros Hx Hy. assert (Hr := wrap_range 64 (x + y) ltac:(lia)). split; [done|].
  unfold wrap in *. assert (Hd := Z.div_mod (x + y) (2 ^ 64) ltac:(lia)).
  assert (Hq : (x + y) / 2 ^ 64 = 0 \/ (x + y) / 2 ^ 64 = 1).
  { assert (0 <= (x + y) / 2 ^ 64 < 2); [|lia]. split; [apply Z.div_pos; lia|apply Z.div_lt_upper_bound; lia]. }
  destruct (Z.ltb_spec ((x + y) mod 2 ^ 64) y); cbn [b2z]; lia.
Qed.

(** The high and low words of a product of words. *)
Lemma mul_words a b :
  is_word a -> is_word b ->
  let t := u128 (a * b) in
  a * b = u64 (Z.shiftr t 64) * 2 ^ 64 + u64 t /\ is_word (u64 t) /\ 0 <= u64 (Z.shiftr t 64) <= 2 ^ 64 - 2.
Proof.
  unfold is_word. intros Ha Hb. cbv zeta.
  assert (Hp : 0 <= a * b <= (2 ^ 64 - 1) * (2 ^ 64 - 1)) by (apply FieldFacts.mul_bound; lia).
  rewrite (wrap_small 128) by lia. rewrite Z.shiftr_div_pow2 by lia.
  assert (Hd := Z.div_mod (a * b) (2 ^ 64) ltac:(lia)). assert (Hm := Z.mod_pos_bound (a * b) (2 ^ 64) ltac:(lia)).
  assert (Hq : 0 <= a * b / 2 ^ 64 <= 2 ^ 64 - 2).
  { split; [apply Z.div_pos; lia|]. assert (a * b / 2 ^ 64 < 2 ^ 64 - 1); [apply Z.div_lt_upper_bound; lia|lia]. }
  rewrite (wrap_small 64 (a * b / 2 ^ 64)) by lia. unfold wrap. lia.
Qed.

(** ** The accumulator *)

Definition acc_val (c : Acc) : Z := c0 c + c1 c * 2 ^ 64 + c2 c * 2 ^ 128.
Definition acc_ok (w : Z) (c : Acc) : Prop := is_word (c0 c) /\ is_word (c1 c) /\ 0 <= c2 c < 2 ^ w.

(** The accumulator holds [v]. *)
Definition holds (w : Z) (c : Acc) (v : Z) : Prop := acc_ok w c /\ acc_val c = v.

Definition width (w : Z) : Prop := w = 32 \/ w = 64.

Lemma muladd_exact w a b c v :
  holds w c v -> is_word a -> is_word b -> width w -> v + a * b < 2 ^ 128 * 2 ^ w ->
  holds w (muladd w a b c) (v + a * b).
Proof.
  intros [(H0 & H1 & H2) <-] Ha Hb Hw. destruct (mul_words a b Ha Hb) as (Ep & Ht & Hh). cbv zeta in Ep.
  unfold holds, acc_ok, acc_val, muladd in *.
  set (tl := u64 (u128 (a * b))) in *. set (th := u64 (Z.shiftr (u128 (a * b)) 64)) in *. cbn [c0 c1 c2].
  destruct (add_carry (c0 c) tl H0 Ht) as [Hs Es]. set (s0 := u64 (c0 c + tl)) in *.
  assert (Hb0 : 0 <= b2z (s0 <? tl) <= 1) by (destruct (s0 <? tl); cbn; lia).
  rewrite (wrap_small 64 (th + _)) by (unfold is_word in *; lia).
  destruct (add_carry (c1 c) (th + b2z (s0 <? tl)) H1) as [Hs1 Es1]; [unfold is_word; lia|].
  set (s1 := u64 (c1 c + (th + b2z (s0 <? tl)))) in *. intros Hlt.
  assert (Hb1 : 0 <= b2z (s1 <? th + b2z (s0 <? tl)) <= 1) by (destruct (s1 <? _); cbn; lia).
  clearbody s1 s0 tl th. unfold is_word in *. destruct Hw as [-> | ->]; rewrite wrap_small by lia; lia.
Qed.

Lemma muladd_fast_exact w a b c v :
  holds w c v -> is_word a -> is_word b -> width w -> c2 c = 0 -> v + a * b < 2 ^ 128 ->
  holds w (muladd_fast a b c) (v + a * b) /\ c2 (muladd_fast a b c) = 0.
Proof.
  intros [(H0 & H1 & H2) <-] Ha Hb Hw Hc. destruct (mul_words a b Ha Hb) as (Ep & Ht & Hh). cbv zeta in Ep.
  unfold holds, acc_ok, acc_val, muladd_fast in *.
  set (tl := u64 (u128 (a * b))) in *. set (th := u64 (Z.shiftr (u128 (a * b)) 64)) in *. cbn [c0 c1 c2].
  destruct (add_carry (c0 c) tl H0 Ht) as [Hs Es]. set (s0 := u64 (c0 c + tl)) in *.
  assert (Hb0 : 0 <= b2z (s0 <? tl) <= 1) by (destruct (s0 <? tl); cbn; lia).
  rewrite (wrap_small 64 (th + _)) by (unfold is_word in *; lia). intros Hlt.
  clearbody s0 tl th. unfold is_word in *. rewrite wrap_small by lia. destruct Hw as [-> | ->]; lia.
Qed.

Lemma muladd2_exact w a b c v :
  holds w c v -> is_word a -> is_word b -> width w -> v + 2 * (a * b) < 2 ^ 128 * 2 ^ w ->
  holds w (muladd2 w a b c) (v + 2 * (a * b)).
Proof.
  intros [(H0 & H1 & H2) <-] Ha Hb Hw. destruct (mul_words a b Ha Hb) as (Ep & Ht & Hh). cbv zeta in Ep.
  unfold holds, acc_ok, acc_val, muladd2 in *.
  set (tl := u64 (u128 (a * b))) in *. set (th := u64 (Z.shiftr (u128 (a * b)) 64)) in *. cbn [c0 c1 c2].
  assert (Hthw : is_word th) by (unfold is_word; lia).
  destruct (add_carry th th Hthw Hthw) as [Hd Ed]. destruct (add_carry tl tl Ht Ht) as [Hd' Ed'].
  set (th2 := u64 (th + th)) in *. set (tl2 := u64 (tl + tl)) in *.
  destruct (add_carry (c0 c) tl2 H0 Hd') as [Hs Es]. set (s0 := u64 (c0 c + tl2)) in *.
  assert (Hk : forall x : bool, 0 <= b2z x <= 1) by (intros []; cbn; lia).
  assert (Hk1 := Hk (th2 <? th)). assert (Hk2 := Hk (tl2 <? tl)). assert (Hk3 := Hk (s0 <? tl2)).
  set (k1 := b2z (th2 <? th)) in *. set (k2 := b2z (tl2 <? tl)) in *. set (k3 := b2z (s0 <? tl2)) in *.
  clearbody k1 k2 k3 th2 tl2 s0 tl th. unfold is_word in *. rewrite (wrap_small 64 (th2 + k2)) by lia.
  assert (Hm : is_word (u64 (th2 + k2 + k3)) /\
    th2 + k2 + k3 = u64 (th2 + k2 + k3) + Z.land k3 (b2z (u64 (th2 + k2 + k3) =? 0)) * 2 ^ 64).
  { unfold is_word. assert (Hc : th2 + k2 + k3 = 2 ^ 64 \/ th2 + k2 + k3 < 2 ^ 64) by lia. destruct Hc as [Hc|Hc].
    - rewrite Hc. assert (k3 = 1) as -> by lia. change (u64 (2 ^ 64)) with 0.
      change (Z.land 1 (b2z (0 =? 0))) with 1. lia.
    - rewrite wrap_small by lia. assert (Hc3 : k3 = 0 \/ k3 = 1) by lia.
      destruct Hc3 as [-> | ->]; [rewrite Z.land_0_l; lia|].
      destruct (Z.eqb_spec (th2 + k2 + 1) 0); [lia|]. cbn [b2z]. rewrite Z.land_0_r. lia. }
  destruct Hm as [Hm Em]. set (m := u64 (th2 + k2 + k3)) in *. set (k := Z.land k3 (b2z (m =? 0))) in *.
  assert (Hkr : 0 <= k) by (unfold is_word in *; lia). clearbody m k.
  destruct (add_carry (c1 c) m H1 Hm) as [Hs1 Es1]. assert (Hk4 := Hk (u64 (c1 c + m) <? m)).
  set (s1 := u64 (c1 c + m)) in *. set (k4 := b2z (s1 <? m)) in *. clearbody s1 k4. intros Hlt. unfold is_word in *.
  destruct Hw as [-> | ->].
  - rewrite (wrap_small 32 (c2 c + k1)), (wrap_small 32 (c2 c + k1 + k)), wrap_small by lia. lia.
  - rewrite (wrap_small 64 (c2 c + k1)), (wrap_small 64 (c2 c + k1 + k)), wrap_small by lia. lia.
Qed.

Lemma sumadd_exact w a c v :
  holds w c v -> is_word a -> width w -> v + a < 2 ^ 128 * 2 ^ w -> holds w (sumadd w a c) (v + a).
Proof.
  intros [(H0 & H1 & H2) <-] Ha Hw. unfold holds, acc_ok, acc_val, sumadd. cbn [c0 c1 c2].
  assert (Hk : forall x : bool, 0 <= b2z x <= 1) by (intros []; cbn; lia).
  destruct (add_carry (c0 c) a H0 Ha) as [Hs Es]. assert (Hk0 := Hk (u64 (c0 c + a) <? a)).
  set (s0 := u64 (c0 c + a)) in *. set (k0 := b2z (s0 <? a)) in *. clearbody s0 k0.
  destruct (add_carry (c1 c) k0 H1) as [Hs1 Es1]; [unfold is_word; lia|].
  assert (Hk1 := Hk (u64 (c1 c + k0) <? k0)). set (s1 := u64 (c1 c + k0)) in *. set (k1 := b2z (s1 <? k0)) in *.
  clearbody s1 k1. intros Hlt. unfold is_word in *. destruct Hw as [-> | ->]; rewrite wrap_small by lia; lia.
Qed.

Lemma sumadd_fast_exact w a c v :
  holds w c v -> is_word a -> width w -> c2 c = 0 -> v + a < 2 ^ 128 ->
  holds w (sumadd_fast a c) (v + a) /\ c2 (sumadd_fast a c) = 0.
Proof.
  intros [(H0 & H1 & H2) <-] Ha Hw Hc. unfold holds, acc_ok, acc_val, sumadd_fast. cbn [c0 c1 c2].
  destruct (add_carry (c0 c) a H0 Ha) as [Hs Es].
  assert (Hk0 : 0 <= b2z (u64 (c0 c + a) <? a) <= 1) by (destruct (_ <? _); cbn; lia).
  set (s0 := u64 (c0 c + a)) in *. set (k0 := b2z (s0 <? a)) in *. clearbody s0 k0. intros Hlt.
  unfold is_word in *. rewrite wrap_small by lia. destruct Hw as [-> | ->]; lia.
Qed.

(** ** Values with a bound

    [keeps w c v K]: the accumulator holds [v], which is at most [K]. The bounds
    are numbers: they follow the code run on the largest operands. *)

Definition keeps (w : Z) (c : Acc) (v K : Z) : Prop := holds w c v /\ 0 <= v <= K.

Definition fits (w K A B : Z) : bool := (A <=? M64) && (B <=? M64) && (K + A * B <? 2 ^ 128 * 2 ^ w).

Lemma fits_spec w K A B a b v :
  0 <= v <= K -> 0 <= a <= A -> 0 <= b <= B -> fits w K A B = true ->
  is_word a /\ is_word b /\ v + a * b < 2 ^ 128 * 2 ^ w /\ 0 <= v + a * b <= K + A * B.
Proof.
  unfold fits, M64, is_word. rewrite !andb_true_iff, !Z.leb_le, Z.ltb_lt. intros Hv Ha Hb Hf.
  assert (H := FieldFacts.mul_bound a b A B Ha Hb). lia.
Qed.

Section Steps.
Context (w : Z) (c : Acc) (v K : Z).
Hypothesis Hw : width w.
Hypothesis Hk : keeps w c v K.

Lemma muladd_step a b A B :
  0 <= a <= A -> 0 <= b <= B -> fits w K A B = true -> keeps w (muladd w a b c) (v + a * b) (K + A * B).
Proof.
  destruct Hk as [Hh Hv]. intros Ha Hb Hf. destruct (fits_spec w K A B a b v Hv Ha Hb Hf) as (Wa & Wb & Hlt & Hle).
  split; [by apply muladd_exact|done].
Qed.

Lemma muladd2_step a b A B :
  0 <= a <= A -> 0 <= b <= B -> fits w K A B && fits w (K + A * B) A B = true ->
  keeps w (muladd2 w a b c) (v + 2 * (a * b)) (K + 2 * (A * B)).
Proof.
  destruct Hk as [Hh Hv]. rewrite andb_true_iff. intros Ha Hb [Hf Hf2].
  destruct (fits_spec w K A B a b v Hv Ha Hb Hf) as (Wa & Wb & Hlt & Hle).
  destruct (fits_spec w _ A B a b _ Hle Ha Hb Hf2) as (_ & _ & Hlt2 & Hle2).
  split; [apply muladd2_exact; (done || lia)|lia].
Qed.

Lemma sumadd_step a A :
  0 <= a <= A -> fits w K A 1 = true -> keeps w (sumadd w a c) (v + a) (K + A).
Proof.
  destruct Hk as [Hh Hv]. intros Ha Hf.
  destruct (fits_spec w K A 1 a 1 v Hv Ha ltac:(lia) Hf) as (Wa & _ & Hlt & Hle).
  split; [apply sumadd_exact; (done || lia)|lia].
Qed.

Lemma muladd_fast_step a b A B :
  c2 c = 0 -> 0 <= a <= A -> 0 <= b <= B -> fits 0 K A B = true ->
  keeps w (muladd_fast a b c) (v + a * b) (K + A * B) /\ c2 (muladd_fast a b c) = 0.
Proof.
  destruct Hk as [Hh Hv]. intros Hc Ha Hb Hf.
  destruct (fits_spec 0 K A B a b v Hv Ha Hb Hf) as (Wa & Wb & Hlt & Hle).
  destruct (muladd_fast_exact w a b c v) as [H1 H2]; [done..|lia|]. by split.
Qed.

Lemma sumadd_fast_step a A :
  c2 c = 0 -> 0 <= a <= A -> fits 0 K A 1 = true ->
  keeps w (sumadd_fast a c) (v + a) (K + A) /\ c2 (sumadd_fast a c) = 0.
Proof.
  destruct Hk as [Hh Hv]. intros Hc Ha Hf.
  destruct (fits_spec 0 K A 1 a 1 v Hv Ha ltac:(lia) Hf) as (Wa & _ & Hlt & Hle).
  destruct (sumadd_fast_exact w a c v) as [H1 H2]; [done..|lia|]. split; [split; [done|lia]|done].
Qed.

(** What an extraction leaves: the value splits into the word and the rest. *)
Lemma extract_step :
  exists l c' q, extract c = (l, c') /\ 0 <= l <= M64 /\ v = l + q * 2 ^ 64 /\ keeps w c' q (K / 2 ^ 64) /\ c2 c' = 0.
Proof.
  destruct Hk as [[(H0 & H1 & H2) <-] Hv]. exists (c0 c), (mkAcc (c1 c) (c2 c) 0), (c1 c + c2 c * 2 ^ 64).
  assert (Hq : c1 c + c2 c * 2 ^ 64 <= K / 2 ^ 64).
  { apply Z.div_le_lower_bound; unfold acc_val, is_word in *; lia. }
  unfold keeps, holds, acc_ok, acc_val, is_word, M64 in *. cbn [c0 c1 c2]. split; [done|].
  destruct Hw as [-> | ->]; lia.
Qed.

Lemma extract_fast_step :
  c2 c = 0 ->
  exists l c' q, extract_fast c = (l, c') /\ 0 <= l <= M64 /\ v = l + q * 2 ^ 64 /\ keeps w c' q (K / 2 ^ 64) /\
    c2 c' = 0 /\ c0 c' = q.
Proof.
  intros Hc. destruct Hk as [[(H0 & H1 & H2) <-] Hv]. exists (c0 c), (mkAcc (c1 c) 0 (c2 c)), (c1 c).
  assert (Hq : c1 c <= K / 2 ^ 64).
  { apply Z.div_le_lower_bound; unfold acc_val, is_word in *; lia. }
  unfold keeps, holds, acc_ok, acc_val, is_word, M64 in *. cbn [c0 c1 c2]. split; [done|]. lia.
Qed.
End Steps.

(** ** Walking through the macros *)

(** Runs the lemma of the first macro on the accumulator [H] is about. *)
Ltac acc_run lem :=
  let c' := fresh "c" in let E := fresh "E" in intros c' E; cbv beta;
  let H' := fresh "Hk" in assert (H' := lem); rewrite <- E in H'; clear E;
  lazymatch type of H' with
  | keeps _ _ _ ?K => let n := eval vm_compute in K in change K with n in H'
  | keeps _ _ _ ?K /\ _ => let n := eval vm_compute in K in change K with n in H'; destruct H' as [H' ?]
  end.

(** One macro; the bounds of its operands are hypotheses. *)
Ltac acc_step :=
  FieldFacts.next_let;
  lazymatch goal with
  | H : keeps ?w ?c ?v ?K |- forall _, _ = muladd _ ?a ?b ?c -> _ =>
      acc_run (muladd_step w c v K ltac:(unfold width; lia) H a b _ _ ltac:(eassumption) ltac:(eassumption) eq_refl);
      clear H; clear dependent c
  | H : keeps ?w ?c ?v ?K |- forall _, _ = muladd2 _ ?a ?b ?c -> _ =>
      acc_run (muladd2_step w c v K ltac:(unfold width; lia) H a b _ _ ltac:(eassumption) ltac:(eassumption) eq_refl);
      clear H; clear dependent c
  | H : keeps ?w ?c ?v ?K |- forall _, _ = sumadd _ ?a ?c -> _ =>
      acc_run (sumadd_step w c v K ltac:(unfold width; lia) H a _ ltac:(eassumption) eq_refl);
      clear H; clear dependent c
  | H : keeps ?w ?c ?v ?K, Hc : c2 ?c = 0 |- forall _, _ = muladd_fast ?a ?b ?c -> _ =>
      acc_run (muladd_fast_step w c v K ltac:(unfold width; lia) H a b _ _ Hc ltac:(eassumption) ltac:(eassumption) eq_refl);
      clear H Hc; clear dependent c
  | H : keeps ?w ?c ?v ?K, Hc : c2 ?c = 0 |- forall _, _ = sumadd_fast ?a ?c -> _ =>
      acc_run (sumadd_fast_step w c v K ltac:(unfold width; lia) H a _ Hc ltac:(eassumption) eq_refl);
      clear H Hc; clear dependent c
  end.

(** An extraction of the word [l]; [q] is the value that stays. *)
Tactic Notation "acc_out" ident(l) ident(q) :=
  let c' := fresh "c" in let E := fresh "E" in let H' := fresh "Hk" in
  let Ev := fresh "E" l in let B := fresh "B" l in
  lazymatch goal with
  | H : keeps ?w ?c ?v ?K |- context [extract ?c] =>
      destruct (extract_step w c v K ltac:(unfold width; lia) H) as (l & c' & q & E & B & Ev & H' & ?);
      rewrite E; cbv beta iota; clear E H; clear dependent c
  | H : keeps ?w ?c ?v ?K, Hc : c2 ?c = 0 |- context [extract_fast ?c] =>
      destruct (extract_fast_step w c v K H Hc) as (l & c' & q & E & B & Ev & H' & ? & ?);
      rewrite E; cbv beta iota; clear E H Hc; clear dependent c
  end;
  lazymatch type of H' with keeps _ _ _ ?K => let n := eval vm_compute in K in change K with n in H' end.

(** The value of words, the least significant one first. *)
Fixpoint words_val (l : list Z) : Z := match l with [] => 0 | x :: l' => x + 2 ^ 64 * words_val l' end.

Lemma word_le x : is_word x -> 0 <= x <= M64.
Proof. unfold is_word, M64. lia. Qed.

Lemma le_word x : 0 <= x <= M64 -> is_word x.
Proof. unfold is_word, M64. lia. Qed.

Lemma keeps_start w x : 0 <= x <= M64 -> width w -> keeps w (mkAcc x 0 0) x M64.
Proof.
  intros Hx Hw. unfold keeps, holds, acc_ok, acc_val. cbn [c0 c1 c2].
  unfold is_word, M64 in *. destruct Hw as [-> | ->]; lia.
Qed.

(** A list of words under a bound. *)
Ltac all_words :=
  repeat (apply Forall_cons_2; [apply le_word; (assumption || (unfold M64; lia))|]); apply Forall_nil_2.

(** Enters the code: the accumulator is set to its first value [x]. *)
Ltac acc_start w :=
  FieldFacts.next_let; let c := fresh "c" in let E := fresh "E" in intros c E; cbv beta;
  lazymatch type of E with
  | _ = mkAcc 0 0 0 =>
      assert (keeps w c 0 0) by (subst c; unfold keeps, holds, acc_ok, acc_val, is_word; cbn; lia);
      assert (c2 c = 0) by (by subst c); clear E
  | _ = mkAcc ?x 0 0 =>
      assert (keeps w c x M64) by (subst c; apply keeps_start; [assumption|unfold width; lia]);
      assert (c2 c = 0) by (by subst c); clear E
  end.

Lemma mul_512_spec a b :
  limbs_ok a -> limbs_ok b ->
  ensures (secp256k1_scalar_mul_512 a b) (fun l =>
    Forall is_word l /\ length l = 8%nat /\ words_val l = sval a * sval b).
Proof.
  intros (A0%word_le & A1%word_le & A2%word_le & A3%word_le) (B0%word_le & B1%word_le & B2%word_le & B3%word_le).
  destruct a as [a0 a1 a2 a3], b as [b0 b1 b2 b3]. unfold sval in *. cbn [d0 d1 d2 d3] in *.
  cbv beta iota delta [secp256k1_scalar_mul_512 d0 d1 d2 d3]. acc_start 32.
  acc_step. acc_out l0 q0. do 2 acc_step. acc_out l1 q1. do 3 acc_step. acc_out l2 q2. do 4 acc_step. acc_out l3 q3.
  do 3 acc_step. acc_out l4 q4. do 2 acc_step. acc_out l5 q5. acc_step. acc_out l6 q6.
  destruct Hk as [_ Hq6]. rewrite H1. split; [all_words|]. split; [done|]. cbn [words_val]. lia.
Qed.

Lemma sqr_512_spec a :
  limbs_ok a ->
  ensures (secp256k1_scalar_sqr_512 a) (fun l =>
    Forall is_word l /\ length l = 8%nat /\ words_val l = sval a * sval a).
Proof.
  intros (A0%word_le & A1%word_le & A2%word_le & A3%word_le).
  destruct a as [a0 a1 a2 a3]. unfold sval in *. cbn [d0 d1 d2 d3] in *.
  cbv beta iota delta [secp256k1_scalar_sqr_512 d0 d1 d2 d3]. acc_start 32.
  acc_step. acc_out l0 q0. acc_step. acc_out l1 q1. do 2 acc_step. acc_out l2 q2. do 2 acc_step. acc_out l3 q3.
  do 2 acc_step. acc_out l4 q4. acc_step. acc_out l5 q5. acc_step. acc_out l6 q6.
  destruct Hk as [_ Hq6]. rewrite H1. split; [all_words|]. split; [done|]. cbn [words_val]. lia.
Qed.

(** ** The reduction *)

(** [2 ^ 256 - N]. *)
Definition NC : Z := SECP256K1_N_C_0 + SECP256K1_N_C_1 * 2 ^ 64 + SECP256K1_N_C_2 * 2 ^ 128.

Lemma NC_spec : NC = 2 ^ 256 - N.
Proof. reflexivity. Qed.

Lemma reduce_512_385_spec l0 l1 l2 l3 n0 n1 n2 n3 :
  Forall is_word [l0; l1; l2; l3; n0; n1; n2; n3] ->
  ensures (reduce_512_385 [l0; l1; l2; l3; n0; n1; n2; n3]) (fun m =>
    exists m0 m1 m2 m3 m4 m5 m6, m = [m0; m1; m2; m3; m4; m5; m6] /\
      Forall is_word [m0; m1; m2; m3; m4; m5] /\ 0 <= m6 <= 1 /\
      words_val m = words_val [l0; l1; l2; l3] + words_val [n0; n1; n2; n3] * NC).
Proof.
  rewrite !Forall_cons, Forall_nil.
  intros (L0%word_le & L1%word_le & L2%word_le & L3%word_le & N0%word_le & N1%word_le & N2%word_le & N3%word_le & _).
  assert (C0 : 0 <= SECP256K1_N_C_0 <= SECP256K1_N_C_0) by (vm_compute; intuition congruence).
  assert (C1 : 0 <= SECP256K1_N_C_1 <= SECP256K1_N_C_1) by (vm_compute; intuition congruence).
  cbv beta iota delta [reduce_512_385].
  change (word [l0; l1; l2; l3; n0; n1; n2; n3] 0) with l0. change (word [l0; l1; l2; l3; n0; n1; n2; n3] 1) with l1.
  change (word [l0; l1; l2; l3; n0; n1; n2; n3] 2) with l2. change (word [l0; l1; l2; l3; n0; n1; n2; n3] 3) with l3.
  change (word [l0; l1; l2; l3; n0; n1; n2; n3] 4) with n0. change (word [l0; l1; l2; l3; n0; n1; n2; n3] 5) with n1.
  change (word [l0; l1; l2; l3; n0; n1; n2; n3] 6) with n2. change (word [l0; l1; l2; l3; n0; n1; n2; n3] 7) with n3.
  do 4 (FieldFacts.next_let; intros ? ->; cbv beta). acc_start 64.
  acc_step. acc_out m0 q0. do 3 acc_step. acc_out m1 q1. do 4 acc_step. acc_out m2 q2. do 4 acc_step. acc_out m3 q3.
  do 2 acc_step. acc_out m4 q4. acc_step. acc_out m5 q5.
  destruct Hk as [_ Hq]. rewrite H1. rewrite wrap_small by lia. exists m0, m1, m2, m3, m4, m5, q5.
  split; [done|]. split; [all_words|]. split; [lia|]. cbn [words_val]. unfold NC. 
  change SECP256K1_N_C_2 with 1. lia.
Qed.

Lemma reduce_385_258_spec m0 m1 m2 m3 m4 m5 m6 :
  Forall is_word [m0; m1; m2; m3; m4; m5] -> 0 <= m6 <= 1 ->
  ensures (reduce_385_258 [m0; m1; m2; m3; m4; m5; m6]) (fun p =>
    exists p0 p1 p2 p3 p4, p = [p0; p1; p2; p3; p4] /\ Forall is_word [p0; p1; p2; p3] /\ 0 <= p4 <= 3 /\
      words_val p = words_val [m0; m1; m2; m3] + words_val [m4; m5; m6] * NC).
Proof.
  rewrite !Forall_cons, Forall_nil.
  intros (M0%word_le & M1%word_le & M2%word_le & M3%word_le & M4%word_le & M5%word_le & _) M6.
  assert (C0 : 0 <= SECP256K1_N_C_0 <= SECP256K1_N_C_0) by (vm_compute; intuition congruence).
  assert (C1 : 0 <= SECP256K1_N_C_1 <= SECP256K1_N_C_1) by (vm_compute; intuition congruence).
  cbv beta iota delta [reduce_385_258].
  change (word [m0; m1; m2; m3; m4; m5; m6] 0) with m0. change (word [m0; m1; m2; m3; m4; m5; m6] 1) with m1.
  change (word [m0; m1; m2; m3; m4; m5; m6] 2) with m2. change (word [m0; m1; m2; m3; m4; m5; m6] 3) with m3.
  change (word [m0; m1; m2; m3; m4; m5; m6] 4) with m4. change (word [m0; m1; m2; m3; m4; m5; m6] 5) with m5.
  change (word [m0; m1; m2; m3; m4; m5; m6] 6) with m6.
  do 3 (FieldFacts.next_let; intros ? ->; cbv beta). acc_start 64.
  acc_step. acc_out p0 q0. do 3 acc_step. acc_out p1 q1. do 4 acc_step. acc_out p2 q2. do 3 acc_step. acc_out p3 q3.
  destruct Hk as [_ Hq]. rewrite H1. rewrite (wrap_small 64), wrap_small by lia. exists p0, p1, p2, p3, (q3 + m6).
  split; [done|]. split; [all_words|]. split; [lia|]. cbn [words_val]. unfold NC.
  change SECP256K1_N_C_2 with 1. lia.
Qed.

(** ** Four limbs with a carry *)

(** What the code does with [t] in the additions: the low word of each partial
    sum is a limb, the rest is carried on. *)
Definition ripple (x0 x1 x2 x3 : Z) : secp256k1_scalar * Z :=
  let t := x0 in
  let r0 := Z.land t M64 in let t := Z.shiftr t 64 in
  let t := u128 (t + x1) in
  let r1 := Z.land t M64 in let t := Z.shiftr t 64 in
  let t := u128 (t + x2) in
  let r2 := Z.land t M64 in let t := Z.shiftr t 64 in
  let t := u128 (t + x3) in
  let r3 := Z.land t M64 in let t := Z.shiftr t 64 in
  (mkScalar r0 r1 r2 r3, t).

Lemma ripple_spec x0 x1 x2 x3 :
  0 <= x0 < 2 ^ 127 -> 0 <= x1 < 2 ^ 127 -> 0 <= x2 < 2 ^ 127 -> 0 <= x3 < 2 ^ 127 ->
  exists r t, ripple x0 x1 x2 x3 = (r, t) /\ limbs_ok r /\ 0 <= t /\
    sval r + t * 2 ^ 256 = x0 + x1 * 2 ^ 64 + x2 * 2 ^ 128 + x3 * 2 ^ 192.
Proof.
  intros H0 H1 H2 H3. unfold ripple. destruct (split64 x0 ltac:(lia)) as (E0 & B0 & B0').
  set (r0 := Z.land x0 M64) in *. set (t0 := Z.shiftr x0 64) in *. clearbody r0 t0.
  rewrite (wrap_small 128 (t0 + x1)) by lia. destruct (split64 (t0 + x1) ltac:(lia)) as (E1 & B1 & B1').
  set (r1 := Z.land (t0 + x1) M64) in *. set (t1 := Z.shiftr (t0 + x1) 64) in *. clearbody r1 t1.
  rewrite (wrap_small 128 (t1 + x2)) by lia. destruct (split64 (t1 + x2) ltac:(lia)) as (E2 & B2 & B2').
  set (r2 := Z.land (t1 + x2) M64) in *. set (t2 := Z.shiftr (t1 + x2) 64) in *. clearbody r2 t2.
  rewrite (wrap_small 128 (t2 + x3)) by lia. destruct (split64 (t2 + x3) ltac:(lia)) as (E3 & B3 & B3').
  set (r3 := Z.land (t2 + x3) M64) in *. set (t3 := Z.shiftr (t2 + x3) 64) in *. clearbody r3 t3.
  exists (mkScalar r0 r1 r2 r3), t3. split; [done|]. unfold limbs_ok, is_word, sval. cbn [d0 d1 d2 d3]. lia.
Qed.

Lemma check_overflow_spec a :
  limbs_ok a -> secp256k1_scalar_check_overflow a = b2z (N <=? sval a).
Proof.
  destruct a as [a0 a1 a2 a3]. unfold limbs_ok, is_word, sval, secp256k1_scalar_check_overflow, N,
    SECP256K1_N_0, SECP256K1_N_1, SECP256K1_N_2, SECP256K1_N_3. cbn [d0 d1 d2 d3]. rewrite !Z.gtb_ltb, Z.geb_leb.
  intros (H0 & H1 & H2 & H3). case Z.leb_spec; intros Hn;
    repeat (case Z.ltb_spec; intros ?; try lia); case Z.leb_spec; intros ?; try lia; reflexivity.
Qed.

Lemma reduce_spec r o :
  limbs_ok r -> o = 0 \/ o = 1 ->
  limbs_ok (fst (secp256k1_scalar_reduce r o)) /\ snd (secp256k1_scalar_reduce r o) = o /\
  sval (fst (secp256k1_scalar_reduce r o)) = (sval r + o * NC) mod 2 ^ 256.
Proof.
  intros Hr Ho. replace (secp256k1_scalar_reduce r o) with
    (fst (ripple (u128 (d0 r + u64 (o * SECP256K1_N_C_0))) (u128 (d1 r + u64 (o * SECP256K1_N_C_1)))
       (u128 (d2 r + u32 (o * SECP256K1_N_C_2))) (d3 r)), o) by reflexivity.
  cbn [fst snd]. destruct Hr as (H0 & H1 & H2 & H3). unfold is_word in *.
  assert (C0 : 0 <= SECP256K1_N_C_0 < 2 ^ 64) by (vm_compute; intuition congruence).
  assert (C1 : 0 <= SECP256K1_N_C_1 < 2 ^ 64) by (vm_compute; intuition congruence).
  change SECP256K1_N_C_2 with 1.
  rewrite !(wrap_small 64), !(wrap_small 32), !(wrap_small 128) by (destruct Ho as [-> | ->]; lia).
  match goal with |- context [ripple ?a ?b ?c ?d] =>
    destruct (ripple_spec a b c d) as (r' & t & -> & Hok & Ht & E); [destruct Ho as [-> | ->]; lia..|] end.
  cbn [fst]. split; [done|]. split; [done|]. apply (Z.mod_unique_pos _ _ t); [by apply sval_range|].
  unfold NC, sval at 1. change SECP256K1_N_C_2 with 1. lia.
Qed.

(** The last step of every operation: below twice the order, with a carry. *)
Lemma reduce_once r c V :
  limbs_ok r -> 0 <= c -> sval r + c * 2 ^ 256 = V -> V < 2 * N ->
  c + secp256k1_scalar_check_overflow r = b2z (N <=? V) /\
  scalar_ok (fst (secp256k1_scalar_reduce r (b2z (N <=? V)))) /\
  sval (fst (secp256k1_scalar_reduce r (b2z (N <=? V)))) = V mod N.
Proof.
  intros Hr Hc <- HV. rewrite check_overflow_spec by done. assert (Hs := sval_range r Hr).
  set (V := sval r + c * 2 ^ 256) in *.
  assert (Hb : b2z (N <=? V) = 0 \/ b2z (N <=? V) = 1) by (destruct (N <=? V); cbn; lia).
  destruct (reduce_spec r _ Hr Hb) as (Hok & _ & E). rewrite NC_spec in E.
  assert (Hcc : c = 0 \/ c = 1) by (unfold N in HV; lia).
  assert (HN : N < 2 ^ 256 < 2 * N) by (unfold N; lia).
  assert (Hval : sval (fst (secp256k1_scalar_reduce r (b2z (N <=? V)))) = if N <=? V then V - N else V).
  { rewrite E. destruct (Z.leb_spec N V); cbn [b2z].
    - destruct Hcc as [-> | ->].
      + symmetry. apply (Z.mod_unique_pos _ _ 1); lia.
      + rewrite Z.mod_small; lia.
    - destruct Hcc as [-> | ->]; rewrite Z.mod_small; lia. }
  split.
  - destruct (Z.leb_spec N (sval r)), (Z.leb_spec N V); cbn [b2z]; lia.
  - assert (Hm : (if N <=? V then V - N else V) = V mod N).
    { destruct (Z.leb_spec N V); [apply (Z.mod_unique_pos _ _ 1); lia|symmetry; apply Z.mod_small; lia]. }
    rewrite <- Hm, Hval. split; [|done]. split; [done|]. rewrite Hval, Hm. apply Z.mod_pos_bound. lia.
Qed.

(** [2 ^ 256] is [NC] modulo the order. *)
Lemma fold_high x y : (x + y * NC) mod N = (x + y * 2 ^ 256) mod N.
Proof.
  rewrite NC_spec. replace (x + y * (2 ^ 256 - N)) with (x + y * 2 ^ 256 + - y * N) by ring. by rewrite Z.mod_add.
Qed.

Lemma words_val_app l k : words_val (l ++ k) = words_val l + 2 ^ (64 * Z.of_nat (length l)) * words_val k.
Proof.
  induction l as [|x l IH]; [cbn [app length words_val]; lia|]. cbn [app length words_val]. rewrite IH.
  rewrite Nat2Z.inj_succ. replace (64 * Z.succ (Z.of_nat (length l))) with (64 + 64 * Z.of_nat (length l)) by lia.
  rewrite Z.pow_add_r by lia. ring.
Qed.

Lemma reduce_258_256_spec p0 p1 p2 p3 p4 :
  Forall is_word [p0; p1; p2; p3] -> 0 <= p4 <= 3 ->
  exists r c, reduce_258_256 [p0; p1; p2; p3; p4] = (r, c) /\ limbs_ok r /\ 0 <= c /\
    sval r + c * 2 ^ 256 = words_val [p0; p1; p2; p3] + p4 * NC.
Proof.
  rewrite !Forall_cons, Forall_nil. intros (H0 & H1 & H2 & H3 & _) Hp. unfold is_word in *.
  replace (reduce_258_256 [p0; p1; p2; p3; p4]) with
    (ripple (u128 (p0 + u128 (SECP256K1_N_C_0 * p4))) (u128 (p1 + u128 (SECP256K1_N_C_1 * p4)))
       (u128 (p2 + p4)) p3) by reflexivity.
  assert (C0 : 0 <= SECP256K1_N_C_0 < 2 ^ 64) by (vm_compute; intuition congruence).
  assert (C1 : 0 <= SECP256K1_N_C_1 < 2 ^ 64) by (vm_compute; intuition congruence).
  rewrite (wrap_small 128 (_ * _)), (wrap_small 128 (SECP256K1_N_C_1 * _)), !(wrap_small 128) by nia.
  match goal with |- context [ripple ?a ?b ?c ?d] =>
    destruct (ripple_spec a b c d) as (r' & t & -> & Hok & Ht & E); [nia..|] end.
  exists r', t. split; [done|]. split; [done|]. split; [done|]. rewrite E. cbn [words_val]. unfold NC.
  change SECP256K1_N_C_2 with 1. lia.
Qed.

Lemma words_val_range l : Forall is_word l -> 0 <= words_val l < 2 ^ (64 * Z.of_nat (length l)).
Proof.
  induction 1 as [|x l Hx Hl IH]; [cbn; lia|]. cbn [words_val length]. unfold is_word in Hx.
  rewrite Nat2Z.inj_succ. replace (64 * Z.succ (Z.of_nat (length l))) with (64 + 64 * Z.of_nat (length l)) by lia.
  rewrite Z.pow_add_r by lia. nia.
Qed.

Lemma reduce_512_spec l :
  Forall is_word l -> length l = 8%nat ->
  scalar_ok (secp256k1_scalar_reduce_512 l) /\ sval (secp256k1_scalar_reduce_512 l) = words_val l mod N.
Proof.
  intros Hl Hlen. destruct l as [|l0 [|l1 [|l2 [|l3 [|n0 [|n1 [|n2 [|n3 [|]]]]]]]]]; try done. clear Hlen.
  destruct (reduce_512_385_spec l0 l1 l2 l3 n0 n1 n2 n3 Hl) as (m0 & m1 & m2 & m3 & m4 & m5 & m6 & E1 & Hm & H6 & V1).
  destruct (reduce_385_258_spec m0 m1 m2 m3 m4 m5 m6 Hm H6) as (p0 & p1 & p2 & p3 & p4 & E2 & Hp & H4 & V2).
  destruct (reduce_258_256_spec p0 p1 p2 p3 p4 Hp H4) as (r & c & E3 & Hr & Hc & V3).
  unfold secp256k1_scalar_reduce_512. rewrite E1, E2, E3. rewrite E1 in V1. rewrite E2 in V2.
  assert (Bp := words_val_range _ Hp). cbn [length] in Bp. change (2 ^ (64 * Z.of_nat 4)) with (2 ^ 256) in Bp.
  destruct (reduce_once r c _ Hr Hc V3) as (Eo & Hok & Ev).
  { assert (NC < 2 ^ 130) by reflexivity. assert (2 ^ 256 + 3 * 2 ^ 130 < 2 * N) by reflexivity. nia. }
  rewrite Eo, (wrap_small 32) by (destruct (N <=? _); cbn; lia). split; [done|]. rewrite Ev, fold_high.
  assert (A3 : words_val [p0; p1; p2; p3; p4] = words_val [p0; p1; p2; p3] + p4 * 2 ^ 256) by (cbn [words_val]; ring).
  rewrite <- A3, V2, fold_high.
  assert (A2 : words_val [m0; m1; m2; m3; m4; m5; m6] = words_val [m0; m1; m2; m3] + words_val [m4; m5; m6] * 2 ^ 256)
    by (cbn [words_val]; ring).
  rewrite <- A2, V1, fold_high. f_equal. cbn [words_val]. ring.
Qed.

End ScalarFacts.
