(* ===== verification/ScalarOps.v ===== *)
(** * The scalar operations, one by one

    Every operation of scalar_4x64_impl.h on its values: sums, products and
    negations modulo the order, comparisons, bytes, bits and shifts. *)

From Stdlib Require Import ZArith Lia List.
From stdpp Require Import base list.
From S2P Require Import Prelude Words Field FieldFacts FieldOps Scalar ScalarFacts.
Local Open Scope Z_scope.
Local Open Scope word_scope.

Module ScalarOps.
Import Field Scalar ScalarFacts.

(** ** Modulo the order *)

Lemma scalar_mul_spec a b :
  limbs_ok a -> limbs_ok b ->
  scalar_ok (secp256k1_scalar_mul a b) /\ sval (secp256k1_scalar_mul a b) = (sval a * sval b) mod N.
Proof.
  intros Ha Hb. destruct (mul_512_spec a b Ha Hb) as (Hw & Hl & <-). by apply reduce_512_spec.
Qed.

Lemma scalar_sqr_spec a :
  limbs_ok a ->
  scalar_ok (secp256k1_scalar_sqr a) /\ sval (secp256k1_scalar_sqr a) = (sval a * sval a) mod N.
Proof.
  intros Ha. destruct (sqr_512_spec a Ha) as (Hw & Hl & <-). by apply reduce_512_spec.
Qed.

Lemma scalar_add_spec a b :
  scalar_ok a -> scalar_ok b ->
  scalar_ok (fst (secp256k1_scalar_add a b)) /\
  sval (fst (secp256k1_scalar_add a b)) = (sval a + sval b) mod N /\
  snd (secp256k1_scalar_add a b) = b2z (N <=? sval a + sval b).
Proof.
  intros [Ha La] [Hb Lb]. replace (secp256k1_scalar_add a b) with
    (let '(r, t) := ripple (u128 (d0 a + d0 b)) (u128 (d1 a + d1 b)) (u128 (d2 a + d2 b)) (u128 (d3 a + d3 b)) in
     let overflow := swrap 32 (u128 (t + secp256k1_scalar_check_overflow r)) in
     (fst (secp256k1_scalar_reduce r (u32 overflow)), overflow)) by reflexivity.
  assert (Ha' := Ha). assert (Hb' := Hb). destruct Ha as (? & ? & ? & ?), Hb as (? & ? & ? & ?). unfold is_word in *.
  rewrite !(wrap_small 128 (_ + _)) by lia.
  match goal with |- context [ripple ?x ?y ?z ?w] =>
    destruct (ripple_spec x y z w) as (r & t & -> & Hr & Ht & E); [lia..|] end.
  assert (E' : sval r + t * 2 ^ 256 = sval a + sval b) by (rewrite E; unfold sval; ring).
  destruct (reduce_once r t _ Hr Ht E' ltac:(lia)) as (Eo & Hok & Ev).
  assert (Hb : 0 <= b2z (N <=? sval a + sval b) <= 1) by (destruct (N <=? _); cbn; lia).
  cbv zeta. cbn [fst snd]. rewrite Eo, (wrap_small 128) by lia. rewrite swrap_small by lia.
  by rewrite (wrap_small 32) by lia.
Qed.

(** ** Masks *)

Lemma land_M64 x : Z.land x M64 = x mod 2 ^ 64.
Proof. change M64 with (Z.ones 64). by rewrite Z.land_ones. Qed.

Lemma lxor_M64 x : is_word x -> Z.lxor x M64 = not64 x.
Proof.
  intros Hx. unfold not64. change M64 with (Z.ones 64). rewrite Z.lxor_comm.
  rewrite Z.sub_nocarry_ldiff.
  - apply Z.bits_inj'. intros i Hi. rewrite Z.lxor_spec, Z.ldiff_spec.
    destruct (Z.testbit x i) eqn:Ex; [|by destruct (Z.testbit _ i)].
    rewrite Z.ones_spec_low; [done|]. split; [done|]. apply Z.nle_gt. intros Hge.
    unfold is_word in Hx. assert (x = 0 \/ 0 < x) as [-> | Hp] by lia; [by rewrite Z.testbit_0_l in Ex|].
    rewrite Z.bits_above_log2 in Ex; [done|lia|]. apply Z.log2_lt_pow2; [done|].
    eapply Z.lt_le_trans; [apply Hx|]. apply Z.pow_le_mono_r; lia.
  - apply Z.bits_inj'. intros i Hi. rewrite Z.ldiff_spec, Z.bits_0.
    destruct (Z.ltb_spec i 64); [rewrite Z.ones_spec_low by lia; by destruct (Z.testbit x i)|].
    unfold is_word in Hx. assert (x = 0 \/ 0 < x) as [-> | Hp] by lia; [by rewrite Z.testbit_0_l|].
    rewrite Z.bits_above_log2; [done|lia|]. apply Z.log2_lt_pow2; [done|].
    eapply Z.lt_le_trans; [apply Hx|]. apply Z.pow_le_mono_r; lia.
Qed.

Lemma scalar_is_zero_spec a : limbs_ok a -> secp256k1_scalar_is_zero a = (sval a =? 0).
Proof.
  intros (? & ? & ? & ?). unfold secp256k1_scalar_is_zero, sval, is_word in *.
  apply eq_true_iff_eq. rewrite !Z.eqb_eq, !Z.lor_eq_0_iff. lia.
Qed.

Lemma zero_scalar a : limbs_ok a -> sval a = 0 -> a = mkScalar 0 0 0 0.
Proof. intros Ha E. apply sval_inj; [done| |done]. unfold limbs_ok, is_word. cbn. lia. Qed.

Lemma scalar_negate_spec a :
  scalar_ok a ->
  scalar_ok (secp256k1_scalar_negate a) /\ sval (secp256k1_scalar_negate a) = (- sval a) mod N.
Proof.
  intros [Ha La]. assert (Hr := sval_range a Ha). unfold secp256k1_scalar_negate. rewrite scalar_is_zero_spec by done.
  destruct (Z.eqb_spec (sval a) 0) as [E|E].
  - rewrite E. change (u64 (M64 * b2z (negb true))) with 0. rewrite !Z.land_0_r.
    split; [|done]. unfold scalar_ok, limbs_ok, is_word, sval, N. cbn. lia.
  - change (u64 (M64 * b2z (negb false))) with M64.
    match goal with |- scalar_ok ?r /\ _ => replace r with
      (fst (ripple (u128 (not64 (d0 a) + SECP256K1_N_0 + 1)) (u128 (not64 (d1 a) + SECP256K1_N_1))
        (u128 (not64 (d2 a) + SECP256K1_N_2)) (u128 (not64 (d3 a) + SECP256K1_N_3)))) by reflexivity end.
    assert (Ha' := Ha). destruct Ha as (? & ? & ? & ?). unfold is_word, not64, M64, SECP256K1_N_0, SECP256K1_N_1,
      SECP256K1_N_2, SECP256K1_N_3 in *. rewrite !(wrap_small 128) by lia.
    match goal with |- context [ripple ?x ?y ?z ?w] =>
      destruct (ripple_spec x y z w) as (r & t & -> & Hok & Ht & Er); [lia..|] end.
    cbn [fst]. assert (Hrr := sval_range r Hok).
    assert (Es : sval r = N - sval a) by (unfold sval in *; unfold N in *; lia).
    unfold scalar_ok. rewrite Es. split; [split; [done|lia]|].
    symmetry. replace (- sval a) with (N - sval a + (-1) * N) by ring. rewrite Z.mod_add by done. apply Z.mod_small. lia.
Qed.

Lemma scalar_cond_negate_spec a flag :
  scalar_ok a ->
  secp256k1_scalar_cond_negate a flag =
    (if flag =? 0 then (a, 1) else (secp256k1_scalar_negate a, -1)).
Proof.
  intros [Ha La]. unfold secp256k1_scalar_cond_negate. rewrite scalar_is_zero_spec by done.
  assert (Hn : u64 (b2z (sval a =? 0) - 1) = u64 (M64 * b2z (negb (secp256k1_scalar_is_zero a)))).
  { rewrite scalar_is_zero_spec by done. by destruct (sval a =? 0). }
  destruct (flag =? 0) eqn:Ef; cbn [b2z].
  - change (u64 (1 - 1)) with 0. rewrite !Z.lxor_0_r, !Z.land_0_r, !Z.add_0_r. f_equal.
    destruct (Z.eqb_spec (sval a) 0) as [E|E].
    + change (u64 (b2z true - 1)) with 0. rewrite !Z.land_0_r. symmetry. by apply zero_scalar.
    + change (u64 (b2z false - 1)) with M64.
      match goal with |- ?r = _ => replace r with
        (fst (ripple (u128 (d0 a)) (u128 (d1 a)) (u128 (d2 a)) (u128 (d3 a)))) by reflexivity end.
      assert (Ha' := Ha). destruct Ha as (? & ? & ? & ?). unfold is_word in *. rewrite !(wrap_small 128) by lia.
      match goal with |- context [ripple ?x ?y ?z ?w] =>
        destruct (ripple_spec x y z w) as (r & t & -> & Hok & Ht & Er); [lia..|] end.
      cbn [fst]. apply sval_inj; [done..|]. assert (Hrr := sval_range r Hok). unfold sval in *. lia.
  - change (u64 (0 - 1)) with M64. rewrite Hn. f_equal.
    unfold secp256k1_scalar_negate. destruct Ha as (H0 & H1 & H2 & H3). rewrite !lxor_M64 by done.
    rewrite (land_M64 SECP256K1_N_1), (land_M64 SECP256K1_N_2), (land_M64 SECP256K1_N_3).
    change (Z.land (u64 (SECP256K1_N_0 + 1)) M64) with (SECP256K1_N_0 + 1). rewrite Z.add_assoc. reflexivity.
Qed.

(** ** Comparisons *)

Lemma scalar_is_high_spec a : limbs_ok a -> secp256k1_scalar_is_high a = b2z (N / 2 <? sval a).
Proof.
  destruct a as [a0 a1 a2 a3]. change (N / 2) with 0x7FFFFFFFFFFFFFFFFFFFFFFFFFFFFFFF5D576E7357A4501DDFE92F46681B20A0.
  unfold limbs_ok, is_word, sval, secp256k1_scalar_is_high,
    SECP256K1_N_H_0, SECP256K1_N_H_1, SECP256K1_N_H_2, SECP256K1_N_H_3. cbn [d0 d1 d2 d3]. rewrite !Z.gtb_ltb.
  intros (H0 & H1 & H2 & H3). repeat (case Z.ltb_spec; intros ?; try lia); reflexivity.
Qed.

Lemma scalar_eq_spec a b : limbs_ok a -> limbs_ok b -> secp256k1_scalar_eq a b = (sval a =? sval b).
Proof.
  intros Ha Hb. apply eq_true_iff_eq. unfold secp256k1_scalar_eq.
  rewrite !Z.eqb_eq, !Z.lor_eq_0_iff, !Z.lxor_eq_0_iff. split.
  - intros [[[E0 E1] E2] E3]. unfold sval. by rewrite E0, E1, E2, E3.
  - intros E. by rewrite (sval_inj a b Ha Hb E).
Qed.

Lemma scalar_is_one_spec a : limbs_ok a -> secp256k1_scalar_is_one a = (sval a =? 1).
Proof.
  intros (? & ? & ? & ?). apply eq_true_iff_eq. unfold secp256k1_scalar_is_one, sval, is_word in *.
  rewrite !Z.eqb_eq, !Z.lor_eq_0_iff, Z.lxor_eq_0_iff. lia.
Qed.

Lemma scalar_is_even_spec a : secp256k1_scalar_is_even a = Z.even (sval a).
Proof.
  unfold secp256k1_scalar_is_even. change 1 with (Z.ones 1). rewrite Z.land_ones by lia. unfold sval.
  rewrite Zmod_even. replace (d0 a + d1 a * 2 ^ 64 + d2 a * 2 ^ 128 + d3 a * 2 ^ 192)
    with (d0 a + 2 * (d1 a * 2 ^ 63 + d2 a * 2 ^ 127 + d3 a * 2 ^ 191)) by ring.
  rewrite Z.even_add_mul_2. by destruct (Z.even (d0 a)).
Qed.

(** ** Thirty-two bytes *)

Lemma limb_of_bytes_at p m q :
  length m = 8%nat -> Forall is_byte m -> limb_of_bytes (p ++ m ++ q) (length p) = be_word m.
Proof.
  intros Hm Hb. destruct m as [|x0 [|x1 [|x2 [|x3 [|x4 [|x5 [|x6 [|x7 [|]]]]]]]]]; try done. clear Hm.
  rewrite !Forall_cons in Hb. destruct Hb as (H0 & H1 & H2 & H3 & H4 & H5 & H6 & H7 & _). unfold is_byte in *.
  unfold limb_of_bytes. rewrite !app_nth2_plus. cbn [app nth]. rewrite !Z.shiftl_mul_pow2 by lia.
  rewrite (lor_high x7 x6 8) by lia. rewrite (lor_high _ x5 16) by lia. rewrite (lor_high _ x4 24) by lia.
  rewrite (lor_high _ x3 32) by lia. rewrite (lor_high _ x2 40) by lia. rewrite (lor_high _ x1 48) by lia.
  rewrite (lor_high _ x0 56) by lia. unfold be_word. cbn [fold_left]. lia.
Qed.

(** Thirty-two bytes are four groups of eight. *)
Lemma four_groups b :
  length b = 32%nat -> Forall is_byte b ->
  exists g3 g2 g1 g0, b = g3 ++ g2 ++ g1 ++ g0 /\
    Forall (fun g => length g = 8%nat /\ Forall is_byte g) [g3; g2; g1; g0].
Proof.
  intros Hl Hb. exists (take 8 b), (take 8 (drop 8 b)), (take 8 (drop 16 b)), (drop 24 b). split.
  - assert (E2 : drop 16 b = take 8 (drop 16 b) ++ drop 24 b)
      by (rewrite <- (take_drop 8 (drop 16 b)) at 1; by rewrite drop_drop).
    assert (E1 : drop 8 b = take 8 (drop 8 b) ++ drop 16 b)
      by (rewrite <- (take_drop 8 (drop 8 b)) at 1; by rewrite drop_drop).
    by rewrite <- E2, <- E1, take_drop.
  - repeat (apply Forall_cons_2; [split; [rewrite ?length_take, ?length_drop; lia|]|]); [..|apply Forall_nil_2];
      auto using Forall_take, Forall_drop.
Qed.

Lemma scalar_set_b32_limbs b :
  length b = 32%nat -> Forall is_byte b ->
  let r := mkScalar (limb_of_bytes b 24) (limb_of_bytes b 16) (limb_of_bytes b 8) (limb_of_bytes b 0) in
  limbs_ok r /\ sval r = be_word b.
Proof.
  intros Hl Hb. destruct (four_groups b Hl Hb) as (g3 & g2 & g1 & g0 & -> & Hg).
  rewrite !Forall_cons in Hg. destruct Hg as ((L3 & B3) & (L2 & B2) & (L1 & B1) & (L0 & B0) & _).
  assert (E3 := limb_of_bytes_at [] g3 (g2 ++ g1 ++ g0) L3 B3). cbn [app length] in E3.
  assert (E2 := limb_of_bytes_at g3 g2 (g1 ++ g0) L2 B2). rewrite L3 in E2.
  assert (E1 := limb_of_bytes_at (g3 ++ g2) g1 g0 L1 B1). rewrite length_app, L3, L2, <- app_assoc in E1.
  assert (E0 := limb_of_bytes_at (g3 ++ g2 ++ g1) g0 [] L0 B0).
  rewrite !length_app, L3, L2, L1, app_nil_r, <- !app_assoc in E0.
  change (8 + (8 + 8))%nat with 24%nat in E0. change (8 + 8)%nat with 16%nat in E1.
  cbv zeta. rewrite E0, E1, E2, E3. clear E0 E1 E2 E3 Hl Hb.
  assert (R3 := be_word_range g3 B3). assert (R2 := be_word_range g2 B2). assert (R1 := be_word_range g1 B1).
  assert (R0 := be_word_range g0 B0). rewrite ?L3, ?L2, ?L1, ?L0 in *. change (256 ^ Z.of_nat 8) with (2 ^ 64) in *.
  split; [done|]. unfold sval. cbn [d0 d1 d2 d3]. rewrite !be_word_concat, !length_app, L2, L1, L0.
  change (256 ^ Z.of_nat 8) with (2 ^ 64). change (256 ^ Z.of_nat (8 + 8)) with (2 ^ 128).
  change (256 ^ Z.of_nat (8 + (8 + 8))) with (2 ^ 192). ring.
Qed.

Lemma scalar_set_b32_spec b :
  length b = 32%nat -> Forall is_byte b ->
  scalar_ok (fst (secp256k1_scalar_set_b32 b)) /\
  sval (fst (secp256k1_scalar_set_b32 b)) = be_word b mod N /\
  snd (secp256k1_scalar_set_b32 b) = b2z (N <=? be_word b).
Proof.
  intros Hl Hb. destruct (scalar_set_b32_limbs b Hl Hb) as [Hok E]. unfold secp256k1_scalar_set_b32.
  set (r := mkScalar _ _ _ _) in *. assert (Hr := be_word_range b Hb). rewrite Hl in Hr.
  change (256 ^ Z.of_nat 32) with (2 ^ 256) in Hr.
  destruct (reduce_once r 0 (be_word b) Hok ltac:(lia) ltac:(lia)) as (Eo & H1 & H2); [unfold N; lia|].
  rewrite Z.add_0_l in Eo. rewrite Eo, (wrap_small 32) by (destruct (N <=? _); cbn; lia). done.
Qed.

Lemma bytes_of_limb_spec x : 0 <= x -> bytes_of_limb x = be_bytes 8 x.
Proof.
  intros Hx. unfold bytes_of_limb, wrap. cbn [be_bytes app]. rewrite !Z.shiftr_div_pow2, !Z.div_div by lia.
  reflexivity.
Qed.

Lemma be_bytes_mod n x : be_bytes n (x mod 256 ^ Z.of_nat n) = be_bytes n x.
Proof.
  rewrite <- be_word_bytes. rewrite <- (length_be_bytes n x) at 1. apply be_bytes_word, be_bytes_range.
Qed.

Lemma scalar_get_b32_spec a : limbs_ok a -> secp256k1_scalar_get_b32 a = be_bytes 32 (sval a).
Proof.
  intros Ha. assert (Hr := sval_range a Ha). destruct Ha as (H0 & H1 & H2 & H3). unfold is_word in *.
  assert (E : forall k x, 0 <= x -> be_bytes 8 (x + k * 2 ^ 64) = be_bytes 8 x).
  { intros k x Hx. rewrite <- (be_bytes_mod 8 (x + _)). change (256 ^ Z.of_nat 8) with (2 ^ 64).
    rewrite Z.mod_add by lia. by rewrite <- (be_bytes_mod 8 x). }
  unfold secp256k1_scalar_get_b32. rewrite !bytes_of_limb_spec by lia.
  rewrite (be_bytes_app 8 24), (be_bytes_app 8 16), (be_bytes_app 8 8).
  change (256 ^ Z.of_nat 24) with (2 ^ 192). change (256 ^ Z.of_nat 16) with (2 ^ 128).
  change (256 ^ Z.of_nat 8) with (2 ^ 64).
  assert (V3 : sval a / 2 ^ 192 = d3 a).
  { symmetry. apply (Z.div_unique_pos _ _ _ (d0 a + d1 a * 2 ^ 64 + d2 a * 2 ^ 128)); unfold sval; lia. }
  assert (V2 : sval a / 2 ^ 128 = d2 a + d3 a * 2 ^ 64).
  { symmetry. apply (Z.div_unique_pos _ _ _ (d0 a + d1 a * 2 ^ 64)); unfold sval; lia. }
  assert (V1 : sval a / 2 ^ 64 = d1 a + (d2 a + d3 a * 2 ^ 64) * 2 ^ 64).
  { symmetry. apply (Z.div_unique_pos _ _ _ (d0 a)); unfold sval; lia. }
  assert (V0 : sval a = d0 a + (d1 a + d2 a * 2 ^ 64 + d3 a * 2 ^ 128) * 2 ^ 64) by (unfold sval; ring).
  rewrite V3, V2, V1, V0, !E by lia. done.
Qed.

(** ** Bits *)

(** The [n] bits of [V] from [p]. *)
Definition bits (V p n : Z) : Z := (V / 2 ^ p) mod 2 ^ n.

Lemma bits_testbit V p n j :
  0 <= p -> 0 <= n -> 0 <= j -> Z.testbit (bits V p n) j = (j <? n) && Z.testbit V (j + p).
Proof.
  intros Hp Hn Hj. unfold bits. rewrite Z.testbit_mod_pow2 by done.
  by rewrite <- Z.shiftr_div_pow2, Z.shiftr_spec by done.
Qed.

Lemma bits_range V p n : 0 <= n -> 0 <= bits V p n < 2 ^ n.
Proof. intros Hn. apply Z.mod_pos_bound, Z.pow_pos_nonneg; lia. Qed.

Lemma d_bits a i : limbs_ok a -> 0 <= i <= 3 -> d a i = bits (sval a) (64 * i) 64.
Proof.
  intros (H0 & H1 & H2 & H3) Hi. unfold is_word in *. unfold bits, sval.
  assert (Hc : i = 0 \/ i = 1 \/ i = 2 \/ i = 3) by lia. destruct Hc as [-> | [-> | [-> | ->]]]; cbn [d Z.eqb Z.mul].
  - unfold d. cbn. rewrite Z.div_1_r. apply (Z.mod_unique_pos _ _ (d1 a + d2 a * 2 ^ 64 + d3 a * 2 ^ 128)); lia.
  - unfold d. cbn [Z.eqb Pos.eqb]. apply (Z.mod_unique_pos _ _ (d2 a + d3 a * 2 ^ 64)); [lia|].
    symmetry. apply (Z.div_unique_pos _ _ _ (d0 a)); lia.
  - unfold d. cbn [Z.eqb Pos.eqb]. apply (Z.mod_unique_pos _ _ (d3 a)); [lia|].
    symmetry. apply (Z.div_unique_pos _ _ _ (d0 a + d1 a * 2 ^ 64)); lia.
  - unfold d. cbn [Z.eqb Pos.eqb]. apply (Z.mod_unique_pos _ _ 0); [lia|].
    symmetry. apply (Z.div_unique_pos _ _ _ (d0 a + d1 a * 2 ^ 64 + d2 a * 2 ^ 128)); lia.
Qed.

Lemma low_ones n : 0 <= n <= 63 -> u64 (u64 (Z.shiftl 1 n) - 1) = Z.ones n.
Proof.
  intros Hn. rewrite Z.shiftl_1_l, Z.ones_equiv. assert (0 < 2 ^ n) by (apply Z.pow_pos_nonneg; lia).
  assert (2 ^ n <= 2 ^ 63) by (apply Z.pow_le_mono_r; lia). rewrite (wrap_small 64 (2 ^ n)), wrap_small by lia. lia.
Qed.

(** Part of one word. *)
Lemma bits_in_word V k s n :
  0 <= k -> 0 <= s -> 0 <= n -> s + n <= 64 ->
  Z.land (Z.shiftr (bits V (64 * k) 64) s) (Z.ones n) = bits V (64 * k + s) n.
Proof.
  intros Hk Hs Hn Hsn. apply Z.bits_inj'. intros j Hj.
  rewrite Z.land_spec, Z.shiftr_spec, !bits_testbit by lia.
  destruct (Z.ltb_spec j n); [rewrite Z.ones_spec_low by lia|rewrite Z.ones_spec_high by lia; apply andb_false_r].
  destruct (Z.ltb_spec (j + s) 64); [|lia]. rewrite andb_true_r. cbn [andb]. f_equal. lia.
Qed.

(** Two neighbouring words joined, [s] bits into the first. *)
Lemma bits_two_words V k s n :
  0 <= k -> 0 < s < 64 -> 0 <= n <= 64 ->
  Z.land (Z.lor (Z.shiftr (bits V (64 * k) 64) s) (u64 (Z.shiftl (bits V (64 * (k + 1)) 64) (64 - s)))) (Z.ones n) =
  bits V (64 * k + s) n.
Proof.
  intros Hk Hs Hn. apply Z.bits_inj'. intros j Hj. unfold wrap.
  rewrite Z.land_spec, Z.lor_spec, Z.testbit_mod_pow2, Z.shiftr_spec, Z.shiftl_spec,
    (bits_testbit V (64 * k) 64), (bits_testbit V (64 * k + s) n) by lia.
  destruct (Z.ltb_spec j n); [rewrite Z.ones_spec_low by lia|rewrite Z.ones_spec_high by lia; apply andb_false_r].
  rewrite andb_true_r. cbn [andb]. destruct (Z.ltb_spec j 64); [|lia]. cbn [andb].
  destruct (Z.ltb_spec (j + s) 64).
  - rewrite (Z.testbit_neg_r _ (j - (64 - s))) by lia. rewrite orb_false_r. cbn [andb]. f_equal. lia.
  - rewrite bits_testbit by lia. destruct (Z.ltb_spec (j - (64 - s)) 64); [|lia]. cbn [andb orb]. f_equal. lia.
Qed.

Lemma shift_index o : 0 <= o -> Z.shiftr o 6 = o / 64 /\ Z.land o 0x3F = o mod 64.
Proof.
  intros Ho. rewrite Z.shiftr_div_pow2 by lia. change 0x3F with (Z.ones 6). by rewrite Z.land_ones by lia.
Qed.

Lemma scalar_get_bits_spec a offset count :
  limbs_ok a -> 0 <= offset -> 1 <= count <= 32 -> offset + count <= 256 ->
  (offset + count - 1) / 64 = offset / 64 ->
  secp256k1_scalar_get_bits a offset count = bits (sval a) offset count.
Proof.
  intros Ha Ho Hc Hoc Hs. unfold secp256k1_scalar_get_bits. destruct (shift_index offset Ho) as [-> ->].
  rewrite low_ones by lia. assert (Ed := Z.div_mod offset 64 ltac:(lia)).
  assert (Hm := Z.mod_pos_bound offset 64 ltac:(lia)).
  assert (Hd : 0 <= offset / 64 < 4) by (split; [apply Z.div_pos; lia|apply Z.div_lt_upper_bound; lia]).
  rewrite d_bits by (done || lia). rewrite bits_in_word; [|lia..|].
  - rewrite <- Ed. apply wrap_small. assert (H := bits_range (sval a) offset count ltac:(lia)).
    assert (2 ^ count <= 2 ^ 32) by (apply Z.pow_le_mono_r; lia). lia.
  - assert (Hq : offset + count - 1 < 64 * (offset / 64) + 64); [|lia].
    rewrite <- Hs. assert (E := Z.div_mod (offset + count - 1) 64 ltac:(lia)).
    assert (B := Z.mod_pos_bound (offset + count - 1) 64 ltac:(lia)). lia.
Qed.

Lemma scalar_get_bits_var_spec a offset count :
  limbs_ok a -> 0 <= offset -> 1 <= count < 32 -> offset + count <= 256 ->
  secp256k1_scalar_get_bits_var a offset count = bits (sval a) offset count.
Proof.
  intros Ha Ho Hc Hoc. unfold secp256k1_scalar_get_bits_var. rewrite (wrap_small 32) by lia.
  destruct (shift_index (offset + count - 1) ltac:(lia)) as [-> _]. destruct (shift_index offset Ho) as [-> ->].
  destruct (Z.eqb_spec ((offset + count - 1) / 64) (offset / 64)) as [Hs|Hs]; [apply scalar_get_bits_spec; (done || lia)|].
  rewrite low_ones by lia. assert (Ed := Z.div_mod offset 64 ltac:(lia)).
  assert (Hm := Z.mod_pos_bound offset 64 ltac:(lia)).
  assert (E := Z.div_mod (offset + count - 1) 64 ltac:(lia)).
  assert (B := Z.mod_pos_bound (offset + count - 1) 64 ltac:(lia)).
  assert (Hd : 0 <= offset / 64) by (apply Z.div_pos; lia).
  rewrite !d_bits by (done || lia). rewrite bits_two_words by lia. rewrite <- Ed.
  apply wrap_small. assert (H := bits_range (sval a) offset count ltac:(lia)).
  assert (2 ^ count <= 2 ^ 32) by (apply Z.pow_le_mono_r; lia). lia.
Qed.

(** ** Shifts *)

(** A value below [2 ^ 256] is its four words. *)
Lemma four_words V :
  0 <= V < 2 ^ 256 ->
  let r := mkScalar (bits V 0 64) (bits V 64 64) (bits V 128 64) (bits V 192 64) in
  limbs_ok r /\ sval r = V.
Proof.
  intros HV. cbv zeta. split.
  - unfold limbs_ok, is_word. cbn [d0 d1 d2 d3].
    split_and!; apply bits_range; lia.
  - unfold sval, bits. cbn [d0 d1 d2 d3]. rewrite Z.div_1_r. Z.to_euclidean_division_equations. lia.
Qed.

(** The sum of two disjoint parts of a word. *)
Lemma add_shifted x y k :
  0 <= k <= 64 -> 0 <= x < 2 ^ k -> x + u64 (Z.shiftl y k) = Z.lor x (u64 (Z.shiftl y k)).
Proof.
  intros Hk Hx. rewrite FieldOps.or_words by done.
  assert (E := FieldOps.or_words 0 y k Hk). rewrite Z.lor_0_l in E. rewrite E by lia. lia.
Qed.

Lemma bits_shifted V n p w : 0 <= n -> 0 <= p -> bits (V / 2 ^ n) p w = bits V (p + n) w.
Proof.
  intros Hn Hp. unfold bits. rewrite Z.div_div by (try apply Z.pow_nonzero; try apply Z.pow_pos_nonneg; lia).
  by rewrite <- Z.pow_add_r, Z.add_comm by lia.
Qed.

Lemma high_bit n V i : 0 <= V < 2 ^ n -> 0 <= n <= i -> Z.testbit V i = false.
Proof.
  intros HV Hi. rewrite <- (Z.mod_small V (2 ^ n)) by done. rewrite Z.testbit_mod_pow2 by lia.
  by destruct (Z.ltb_spec i n); [lia|].
Qed.

Lemma scalar_shr_int_spec r n :
  limbs_ok r -> 1 <= n <= 15 ->
  limbs_ok (fst (secp256k1_scalar_shr_int r n)) /\
  sval (fst (secp256k1_scalar_shr_int r n)) = sval r / 2 ^ n /\
  snd (secp256k1_scalar_shr_int r n) = sval r mod 2 ^ n.
Proof.
  intros Hr Hn. assert (HV := sval_range r Hr).
  assert (E : forall k, 0 <= k <= 2 ->
    u64 (Z.shiftr (d r k) n + u64 (Z.shiftl (d r (k + 1)) (64 - n))) = bits (sval r / 2 ^ n) (64 * k) 64).
  { intros k Hk. rewrite !d_bits by (done || lia). assert (Hb := bits_range (sval r) (64 * k) 64 ltac:(lia)).
    rewrite add_shifted by (try apply (FieldOps.shiftr_range _ n 64); lia).
    unfold wrap at 1. rewrite <- Z.land_ones by lia. rewrite bits_two_words by lia. by rewrite bits_shifted by lia. }
  assert (E3 : Z.shiftr (d3 r) n = bits (sval r / 2 ^ n) 192 64).
  { change (d3 r) with (d r 3). rewrite d_bits, bits_shifted by (done || lia). apply Z.bits_inj'. intros j Hj.
    rewrite Z.shiftr_spec, !bits_testbit by lia. replace (j + n + 64 * 3) with (j + (192 + n)) by lia.
    destruct (Z.ltb_spec (j + n) 64), (Z.ltb_spec j 64); try lia; try done.
    by rewrite (high_bit 256) by lia. }
  assert (Hp : 0 < 2 ^ n) by (apply Z.pow_pos_nonneg; lia).
  assert (HW : 0 <= sval r / 2 ^ n < 2 ^ 256).
  { split; [apply Z.div_pos; lia|]. apply Z.div_lt_upper_bound; [lia|]. nia. }
  destruct (four_words _ HW) as [Hok Ev]. unfold secp256k1_scalar_shr_int. cbn [fst snd].
  assert (E0 := E 0 ltac:(lia)). assert (E1 := E 1 ltac:(lia)). assert (E2 := E 2 ltac:(lia)).
  change (d r 0) with (d0 r) in *. change (d r (0 + 1)) with (d1 r) in *. change (d r 1) with (d1 r) in *.
  change (d r (1 + 1)) with (d2 r) in *. change (d r 2) with (d2 r) in *. change (d r (2 + 1)) with (d3 r) in *.
  rewrite E0, E1, E2, E3. split; [done|]. split; [done|].
  rewrite Z.shiftl_1_l.
  replace (2 ^ n - 1) with (Z.ones n) by (rewrite Z.ones_equiv; lia). rewrite Z.land_ones by lia.
  unfold sval. replace (d0 r + d1 r * 2 ^ 64 + d2 r * 2 ^ 128 + d3 r * 2 ^ 192) with
    (d0 r + (d1 r + d2 r * 2 ^ 64 + d3 r * 2 ^ 128) * 2 ^ (64 - n) * 2 ^ n).
  - by rewrite Z.mod_add by lia.
  - rewrite <- Z.mul_assoc, <- Z.pow_add_r by lia. replace (64 - n + n) with 64 by lia. ring.
Qed.

Lemma scalar_cadd_bit_spec r bit flag :
  limbs_ok r -> 0 <= bit < 256 -> flag = 0 \/ flag = 1 -> sval r + flag * 2 ^ bit < 2 ^ 256 ->
  limbs_ok (secp256k1_scalar_cadd_bit r bit flag) /\
  sval (secp256k1_scalar_cadd_bit r bit flag) = sval r + flag * 2 ^ bit.
Proof.
  intros Hr Hbit Hf Hlt. unfold secp256k1_scalar_cadd_bit.
  set (b' := u32 (bit + Z.land (u32 (u32 flag - 1)) 0x100)).
  assert (Eb : b' = if flag =? 1 then bit else bit + 256).
  { unfold b'. destruct Hf as [-> | ->].
    - change (Z.land (u32 (u32 0 - 1)) 0x100) with 256. by rewrite wrap_small by lia.
    - change (Z.land (u32 (u32 1 - 1)) 0x100) with 0. rewrite Z.add_0_r. by rewrite wrap_small by lia. }
  destruct (shift_index b' ltac:(destruct (flag =? 1); lia)) as [-> ->].
  assert (Hd := Z.div_mod b' 64 ltac:(lia)). assert (Hm := Z.mod_pos_bound b' 64 ltac:(lia)).
  assert (Hp : 0 < 2 ^ (b' mod 64) < 2 ^ 64).
  { split; [apply Z.pow_pos_nonneg; lia|apply Z.pow_lt_mono_r; lia]. }
  set (limb_bit i := u64 (Z.shiftl (b2z (b' / 64 =? i)) (b' mod 64))).
  assert (Hl : forall i, limb_bit i = if b' / 64 =? i then 2 ^ (b' mod 64) else 0).
  { intros i. unfold limb_bit. rewrite Z.shiftl_mul_pow2 by lia. destruct (b' / 64 =? i); cbn [b2z];
      [rewrite Z.mul_1_l|rewrite Z.mul_0_l]; apply wrap_small; lia. }
  assert (Hr' := Hr). destruct Hr' as (H0 & H1 & H2 & H3). unfold is_word in *.
  assert (Hr64 : forall i, 0 <= limb_bit i < 2 ^ 64) by (intros i; rewrite (Hl i); clear - Hp; destruct (b' / 64 =? i); lia).
  assert (B0 := Hr64 0). assert (B1 := Hr64 1). assert (B2 := Hr64 2). assert (B3 := Hr64 3).
  change (mkScalar _ _ _ _) with (fst (ripple (u128 (d0 r + limb_bit 0)) (u128 (d1 r + limb_bit 1))
    (u128 (d2 r + limb_bit 2)) (u128 (d3 r + limb_bit 3)))).
  rewrite !(wrap_small 128) by lia.
  match goal with |- context [ripple ?x ?y ?z ?w] =>
    destruct (ripple_spec x y z w) as (q & t & -> & Hok & Ht & Er); [lia..|] end.
  cbn [fst]. split; [done|].
  assert (Es : limb_bit 0 + limb_bit 1 * 2 ^ 64 + limb_bit 2 * 2 ^ 128 + limb_bit 3 * 2 ^ 192 = flag * 2 ^ bit).
  { rewrite !Hl. destruct Hf as [-> | ->].
    - change (0 =? 1) with false in Eb. cbv iota in Eb. assert (4 <= b' / 64) by (apply Z.div_le_lower_bound; lia).
      destruct (Z.eqb_spec (b' / 64) 0), (Z.eqb_spec (b' / 64) 1), (Z.eqb_spec (b' / 64) 2), (Z.eqb_spec (b' / 64) 3); lia.
    - change (1 =? 1) with true in Eb. cbv iota in Eb. rewrite <- Eb.
      assert (Hq : 0 <= b' / 64 < 4) by (split; [apply Z.div_pos; lia|apply Z.div_lt_upper_bound; lia]).
      replace (2 ^ b') with (2 ^ (64 * (b' / 64)) * 2 ^ (b' mod 64)) by (rewrite <- Z.pow_add_r by lia; f_equal; lia).
      set (m := 2 ^ (b' mod 64)) in *. clearbody m. clear - Hq.
      assert (Hc : b' / 64 = 0 \/ b' / 64 = 1 \/ b' / 64 = 2 \/ b' / 64 = 3) by lia.
      destruct Hc as [-> | [-> | [-> | ->]]]; cbn [Z.eqb Pos.eqb Z.mul Pos.mul]; lia. }
  assert (Hq := sval_range q Hok). unfold sval in *. lia.
Qed.

Lemma word_bits l i : Forall is_word l -> 0 <= i -> word l i = bits (words_val l) (64 * i) 64.
Proof.
  intros Hl Hi. unfold word. rewrite <- (Z2Nat.id i) at 2 by done. generalize (Z.to_nat i). clear i Hi.
  induction Hl as [|x l Hx Hl IH]; intros n.
  - cbn [words_val]. unfold bits. rewrite Z.div_0_l by (apply Z.pow_nonzero; lia). by destruct n.
  - unfold is_word in Hx. destruct n as [|n]; cbn [nth words_val].
    + unfold bits. rewrite Z.div_1_r, Z.add_mod, Z.mul_comm, Z.mod_mul, Z.add_0_r, Z.mod_mod, Z.mod_small by lia. done.
    + rewrite IH. rewrite Nat2Z.inj_succ.
      replace (64 * Z.succ (Z.of_nat n)) with (64 * Z.of_nat n + 64) by lia. rewrite <- bits_shifted by lia. f_equal.
      apply (Z.div_unique_pos _ _ _ x); lia.
Qed.

Lemma bits_high V p n m : 0 <= V < 2 ^ m -> 0 <= m <= p -> 0 <= n -> bits V p n = 0.
Proof.
  intros HV Hm Hn. unfold bits. rewrite Z.div_small; [apply Z.mod_0_l, Z.pow_nonzero; lia|].
  split; [lia|]. eapply Z.lt_le_trans; [apply HV|]. apply Z.pow_le_mono_r; lia.
Qed.

(** Rounding to nearest: the quotient and the bit below it. *)
Lemma round_shift V s : 0 <= V -> 1 <= s -> V / 2 ^ s + (V / 2 ^ (s - 1)) mod 2 = (V + 2 ^ (s - 1)) / 2 ^ s.
Proof.
  intros HV Hs. assert (Hp : 0 < 2 ^ (s - 1)) by (apply Z.pow_pos_nonneg; lia).
  replace (2 ^ s) with (2 ^ (s - 1) * 2) by (rewrite Z.mul_comm, <- Z.pow_succ_r by lia; f_equal; lia).
  rewrite <- !Z.div_div by lia. replace (V + 2 ^ (s - 1)) with (V + 1 * 2 ^ (s - 1)) by lia.
  rewrite Z.div_add by lia. set (q := V / 2 ^ (s - 1)). Z.to_euclidean_division_equations. lia.
Qed.

(** The window of 64 bits at [64 * j + s], from two neighbouring words. *)
Lemma window l j s :
  Forall is_word l -> 0 <= j -> 0 <= s < 64 ->
  Z.lor (Z.shiftr (word l j) s) (if negb (s =? 0) then u64 (Z.shiftl (word l (j + 1)) (64 - s)) else 0) =
  bits (words_val l) (64 * j + s) 64.
Proof.
  intros Hw Hj Hs. rewrite !word_bits by (done || lia). set (L := words_val l).
  destruct (Z.eqb_spec s 0) as [->|Hs0]; cbn [negb]; [by rewrite Z.shiftr_0_r, Z.lor_0_r, Z.add_0_r|].
  rewrite <- (bits_two_words L j s 64) by lia. rewrite Z.land_ones by lia. symmetry. apply Z.mod_small.
  assert (Hx := bits_range L (64 * j) 64 ltac:(lia)).
  assert (Hx' := FieldOps.shiftr_range _ s 64 ltac:(lia) Hx).
  rewrite <- add_shifted by lia.
  assert (E := FieldOps.or_words 0 (bits L (64 * (j + 1)) 64) (64 - s) ltac:(lia)).
  rewrite Z.lor_0_l in E. rewrite E by (split; [lia|apply Z.pow_pos_nonneg; lia]).
  replace (64 - (64 - s)) with s by lia.
  assert (Hy : 0 <= bits L (64 * (j + 1)) 64 mod 2 ^ s < 2 ^ s) by (apply Z.mod_pos_bound, Z.pow_pos_nonneg; lia).
  assert (E2 : 2 ^ s * 2 ^ (64 - s) = 2 ^ 64) by (rewrite <- Z.pow_add_r by lia; f_equal; lia). nia.
Qed.

(** A limb of the shifted product: the tests on [shift] only skip words past the end. *)
Lemma shifted_limb l shift i :
  Forall is_word l -> length l = 8%nat -> 256 <= shift < 512 -> 0 <= i ->
  (if shift <? 512 - 64 * i then
     Z.lor (Z.shiftr (word l (i + shift / 64)) (shift mod 64))
       (if (shift <? 448 - 64 * i) && negb (shift mod 64 =? 0)
        then u64 (Z.shiftl (word l (i + 1 + shift / 64)) (64 - shift mod 64)) else 0)
   else 0) = bits (words_val l / 2 ^ shift) (64 * i) 64.
Proof.
  intros Hw Hl Hs Hi. assert (HL := words_val_range l Hw). rewrite Hl in HL. change (64 * Z.of_nat 8) with 512 in HL.
  assert (Hd := Z.div_mod shift 64 ltac:(lia)). assert (Hm := Z.mod_pos_bound shift 64 ltac:(lia)).
  assert (Hq : 0 <= shift / 64) by (apply Z.div_pos; lia). rewrite bits_shifted by lia.
  destruct (Z.ltb_spec shift (512 - 64 * i)).
  - replace (64 * i + shift) with (64 * (i + shift / 64) + shift mod 64) by lia. rewrite <- window by (done || lia).
    f_equal. replace (i + 1 + shift / 64) with (i + shift / 64 + 1) by lia.
    destruct (Z.ltb_spec shift (448 - 64 * i)); [done|]. cbn [andb].
    rewrite word_bits, (bits_high _ _ _ 512) by (done || lia). rewrite Z.shiftl_0_l. by destruct (negb _).
  - symmetry. apply (bits_high _ _ _ 512); lia.
Qed.

Lemma scalar_mul_shift_var_spec a b shift :
  limbs_ok a -> limbs_ok b -> 256 <= shift < 512 ->
  limbs_ok (secp256k1_scalar_mul_shift_var a b shift) /\
  sval (secp256k1_scalar_mul_shift_var a b shift) = (sval a * sval b + 2 ^ (shift - 1)) / 2 ^ shift.
Proof.
  intros Ha Hb Hs. destruct (mul_512_spec a b Ha Hb) as (Hw & Hl & EL). unfold secp256k1_scalar_mul_shift_var.
  set (l := secp256k1_scalar_mul_512 a b) in *. clearbody l. rewrite <- EL.
  assert (HL : 0 <= words_val l <= (2 ^ 256 - 1) * (2 ^ 256 - 1)).
  { rewrite EL. apply sval_range in Ha, Hb. apply FieldFacts.mul_bound; lia. }
  destruct (shift_index shift ltac:(lia)) as [-> ->]. destruct (shift_index (shift - 1) ltac:(lia)) as [-> ->].
  assert (Hm := Z.mod_pos_bound shift 64 ltac:(lia)). rewrite (wrap_small 32) by lia. cbv zeta.
  assert (E0 := shifted_limb l shift 0 Hw Hl Hs ltac:(lia)). assert (E1 := shifted_limb l shift 1 Hw Hl Hs ltac:(lia)).
  assert (E2 := shifted_limb l shift 2 Hw Hl Hs ltac:(lia)). assert (E3 := shifted_limb l shift 3 Hw Hl Hs ltac:(lia)).
  change (448 - 64 * 3) with 256 in E3. destruct (Z.ltb_spec shift 256) in E3; [lia|]. cbn [andb] in E3.
  rewrite Z.lor_0_r in E3. set (W := words_val l / 2 ^ shift) in *.
  match goal with |- limbs_ok (secp256k1_scalar_cadd_bit ?r _ _) /\ _ =>
    replace r with (mkScalar (bits W 0 64) (bits W 64 64) (bits W 128 64) (bits W 192 64))
      by (f_equal; symmetry; assumption) end.
  assert (Hp : 0 < 2 ^ shift) by (apply Z.pow_pos_nonneg; lia).
  assert (Hp2 : 2 ^ 256 <= 2 ^ shift) by (apply Z.pow_le_mono_r; lia).
  assert (HW : 0 <= W <= 2 ^ 256 - 2).
  { unfold W. split; [apply Z.div_pos; lia|]. assert (words_val l / 2 ^ shift < 2 ^ 256 - 1); [|lia].
    apply Z.div_lt_upper_bound; [lia|]. nia. }
  destruct (four_words W ltac:(lia)) as [Hok Ev]. set (r := mkScalar _ _ _ _) in *. clearbody r.
  set (flag := Z.land _ 1).
  assert (Ef : flag = (words_val l / 2 ^ (shift - 1)) mod 2).
  { unfold flag. assert (Hq : 0 <= (shift - 1) / 64) by (apply Z.div_pos; lia).
    assert (Hm' := Z.mod_pos_bound (shift - 1) 64 ltac:(lia)). rewrite word_bits by done.
    match goal with |- Z.land ?x 1 = _ => change (Z.land x 1) with (Z.land x (Z.ones 1)) end.
    rewrite bits_in_word by lia. rewrite <- Z.div_mod by lia. done. }
  assert (Hf : flag = 0 \/ flag = 1) by (rewrite Ef; pose proof (Z.mod_pos_bound (words_val l / 2 ^ (shift - 1)) 2 ltac:(lia)); lia).
  destruct (scalar_cadd_bit_spec r 0 flag Hok ltac:(lia) Hf) as [H1 H2]; [destruct Hf as [-> | ->]; lia|].
  split; [done|]. rewrite H2, Ev, Ef, Z.mul_1_r. unfold W. apply round_shift; lia.
Qed.

(** ** The claims *)

(** C40: on scalars below the group order, addition, multiplication, squaring,
    negation and conditional negation compute modulo the order, keep the scalar
    below it, and report overflow exactly. The wide products never overflow
    their accumulators. *)
Theorem scalar_arithmetic (a b : secp256k1_scalar) (flag : Z) :
  scalar_ok a -> scalar_ok b ->
  (scalar_ok (fst (secp256k1_scalar_add a b)) /\
   sval (fst (secp256k1_scalar_add a b)) = (sval a + sval b) mod N /\
   snd (secp256k1_scalar_add a b) = b2z (N <=? sval a + sval b)) /\
  (scalar_ok (secp256k1_scalar_mul a b) /\ sval (secp256k1_scalar_mul a b) = (sval a * sval b) mod N) /\
  secp256k1_scalar_sqr a = secp256k1_scalar_mul a a /\
  (scalar_ok (secp256k1_scalar_negate a) /\ sval (secp256k1_scalar_negate a) = (- sval a) mod N) /\
  secp256k1_scalar_cond_negate a flag = (if flag =? 0 then (a, 1) else (secp256k1_scalar_negate a, -1)).
Proof.
  intros Ha Hb. split; [by apply scalar_add_spec|]. destruct Ha as [Ha La].
  split; [by apply scalar_mul_spec; [|apply Hb]|]. split; [|split; [by apply scalar_negate_spec|by apply scalar_cond_negate_spec]].
  destruct (scalar_sqr_spec a Ha) as [[H1 _] E1]. destruct (scalar_mul_spec a a Ha Ha) as [[H2 _] E2].
  apply sval_inj; [done..|]. by rewrite E1, E2.
Qed.

Definition minus_one : secp256k1_scalar :=
  mkScalar (SECP256K1_N_0 - 1) SECP256K1_N_1 SECP256K1_N_2 SECP256K1_N_3.

Lemma minus_one_ok : scalar_ok minus_one.
Proof. split; [|reflexivity]. unfold limbs_ok, is_word. vm_compute. intuition congruence. Qed.

Lemma scalar_arithmetic_witness :
  sval (secp256k1_scalar_mul minus_one minus_one) = 1 /\ snd (secp256k1_scalar_add minus_one minus_one) = 1.
Proof.
  destruct (scalar_arithmetic minus_one minus_one 1 minus_one_ok minus_one_ok) as ((_ & _ & Ha) & (_ & Hm) & _).
  rewrite Hm, Ha. split; reflexivity.
Defined.

(** [set_b32] reads thirty-two big-endian bytes modulo the order and tells
    whether it reduced; [get_b32] writes the bytes of the value, so a scalar
    survives being written and read, and so do bytes below the order. *)
Theorem scalar_b32_roundtrip (b : bytes) (a : secp256k1_scalar) :
  length b = 32%nat -> Forall is_byte b -> scalar_ok a ->
  (scalar_ok (fst (secp256k1_scalar_set_b32 b)) /\
   sval (fst (secp256k1_scalar_set_b32 b)) = be_word b mod N /\
   snd (secp256k1_scalar_set_b32 b) = b2z (N <=? be_word b)) /\
  (be_word b < N -> secp256k1_scalar_get_b32 (fst (secp256k1_scalar_set_b32 b)) = b) /\
  secp256k1_scalar_set_b32 (secp256k1_scalar_get_b32 a) = (a, 0).
Proof.
  intros Hl Hb [Ha La]. assert (Hs := scalar_set_b32_spec b Hl Hb). split; [done|].
  destruct Hs as ([Hok _] & Ev & _). split.
  - intros Hlt. rewrite scalar_get_b32_spec, Ev by done. rewrite Z.mod_small by (split; [by apply be_word_range|done]).
    rewrite <- Hl. by apply be_bytes_word.
  - rewrite scalar_get_b32_spec by done. assert (Hr := sval_range a Ha).
    destruct (scalar_set_b32_spec (be_bytes 32 (sval a))) as ([H1 _] & E1 & E2);
      [apply length_be_bytes|apply be_bytes_range|].
    rewrite be_word_bytes in E1, E2. change (256 ^ Z.of_nat 32) with (2 ^ 256) in E1, E2.
    rewrite (Z.mod_small _ (2 ^ 256)) in E1, E2 by done. rewrite Z.mod_small in E1 by lia.
    destruct (Z.leb_spec N (sval a)); [lia|]. cbn [b2z] in E2.
    rewrite (surjective_pairing (secp256k1_scalar_set_b32 _)), E2. f_equal. by apply sval_inj.
Qed.

Lemma scalar_b32_roundtrip_witness :
  sval (fst (secp256k1_scalar_set_b32 (repeat 255 32))) = 2 ^ 256 - 1 - N /\
  secp256k1_scalar_set_b32 (secp256k1_scalar_get_b32 minus_one) = (minus_one, 0).
Proof.
  destruct (scalar_b32_roundtrip (repeat 255 32) minus_one) as ((_ & E & _) & _ & H);
    [reflexivity|repeat constructor; lia|exact minus_one_ok|]. rewrite E, H. split; reflexivity.
Defined.

(** The windows of bits the multiplication tables are indexed with are the
    bits of the scalar, also when a window crosses two limbs; shifting right
    divides and returns the bits shifted out; the comparisons decide zero, one,
    equality, parity and the upper half. *)
Theorem scalar_observers (a b : secp256k1_scalar) (offset count n : Z) :
  scalar_ok a -> scalar_ok b -> 0 <= offset -> 1 <= count < 32 -> offset + count <= 256 -> 1 <= n <= 15 ->
  secp256k1_scalar_get_bits_var a offset count = (sval a / 2 ^ offset) mod 2 ^ count /\
  ((offset + count - 1) / 64 = offset / 64 ->
   secp256k1_scalar_get_bits a offset count = (sval a / 2 ^ offset) mod 2 ^ count) /\
  (sval (fst (secp256k1_scalar_shr_int a n)) = sval a / 2 ^ n /\
   snd (secp256k1_scalar_shr_int a n) = sval a mod 2 ^ n) /\
  secp256k1_scalar_is_zero a = (sval a =? 0) /\ secp256k1_scalar_is_one a = (sval a =? 1) /\
  secp256k1_scalar_eq a b = (sval a =? sval b) /\ secp256k1_scalar_is_even a = Z.even (sval a) /\
  secp256k1_scalar_is_high a = b2z (N / 2 <? sval a).
Proof.
  intros [Ha _] [Hb _] Ho Hc Hoc Hn. split; [by apply scalar_get_bits_var_spec|].
  split; [intros Hs; apply scalar_get_bits_spec; (done || lia)|]. split; [by apply scalar_shr_int_spec|].
  split; [by apply scalar_is_zero_spec|]. split; [by apply scalar_is_one_spec|]. split; [by apply scalar_eq_spec|].
  split; [apply scalar_is_even_spec|by apply scalar_is_high_spec].
Qed.

Lemma scalar_observers_witness :
  secp256k1_scalar_get_bits_var minus_one 60 8 = 0xBB /\ secp256k1_scalar_is_high minus_one = 1.
Proof.
  destruct (scalar_observers minus_one minus_one 60 8 1) as (E & _ & _ & _ & _ & _ & _ & H);
    [exact minus_one_ok|exact minus_one_ok|lia..|]. rewrite E, H. split; reflexivity.
Defined.

(** The shifted product is the product of the two values divided by the
    power of two, rounded to nearest, for every shift from 256 to 511. *)
Theorem scalar_mul_shift_rounds (a b : secp256k1_scalar) (shift : Z) :
  limbs_ok a -> limbs_ok b -> 256 <= shift < 512 ->
  sval (secp256k1_scalar_mul_shift_var a b shift) = (sval a * sval b + 2 ^ (shift - 1)) / 2 ^ shift.
Proof. intros Ha Hb Hs. by apply scalar_mul_shift_var_spec. Qed.

Lemma scalar_mul_shift_rounds_witness :
  sval (secp256k1_scalar_mul_shift_var minus_one minus_one 511) = 2.
Proof.
  rewrite (scalar_mul_shift_rounds minus_one minus_one 511 (proj1 minus_one_ok) (proj1 minus_one_ok) ltac:(lia)).
  reflexivity.
Defined.

End ScalarOps.
