(* ===== verification/ScalarExp.v ===== *)
(** * Scalar inverses and the endomorphism split
    (libsecp256k1/src/scalar_impl.h)

    The inverse is the power [N - 2], by an addition chain. The split writes a
    scalar as [r1 + lambda * r2] with both parts half as long. *)

From Stdlib Require Import ZArith Lia List ZmodInv.
From stdpp Require Import base list.
From S2P Require Import Prelude Words Primality Field FieldFacts FieldOps FieldExp Scalar ScalarFacts ScalarOps.
Local Open Scope Z_scope.

Module ScalarExp.
Import Field Scalar ScalarFacts ScalarOps.

(** [for (i = 0; i < n; i++) { secp256k1_scalar_sqr(t, t); }] *)
Fixpoint scalar_sqr_times (n : nat) (t : secp256k1_scalar) : secp256k1_scalar :=
  match n with O => t | S n' => scalar_sqr_times n' (secp256k1_scalar_sqr t) end.

Definition secp256k1_scalar_inverse (x : secp256k1_scalar) : secp256k1_scalar :=
  let x2 := secp256k1_scalar_sqr x in
  let x2 := secp256k1_scalar_mul x2 x in
  let x3 := secp256k1_scalar_sqr x2 in
  let x3 := secp256k1_scalar_mul x3 x in
  let x4 := secp256k1_scalar_sqr x3 in
  let x4 := secp256k1_scalar_mul x4 x in
  let x6 := secp256k1_scalar_sqr x4 in
  let x6 := secp256k1_scalar_sqr x6 in
  let x6 := secp256k1_scalar_mul x6 x2 in
  let x7 := secp256k1_scalar_sqr x6 in
  let x7 := secp256k1_scalar_mul x7 x in
  let x8 := secp256k1_scalar_sqr x7 in
  let x8 := secp256k1_scalar_mul x8 x in
  let x15 := scalar_sqr_times 6 (secp256k1_scalar_sqr x8) in
  let x15 := secp256k1_scalar_mul x15 x7 in
  let x30 := scalar_sqr_times 14 (secp256k1_scalar_sqr x15) in
  let x30 := secp256k1_scalar_mul x30 x15 in
  let x60 := scalar_sqr_times 29 (secp256k1_scalar_sqr x30) in
  let x60 := secp256k1_scalar_mul x60 x30 in
  let x120 := scalar_sqr_times 59 (secp256k1_scalar_sqr x60) in
  let x120 := secp256k1_scalar_mul x120 x60 in
  let x127 := scalar_sqr_times 6 (secp256k1_scalar_sqr x120) in
  let x127 := secp256k1_scalar_mul x127 x7 in
  let t := x127 in
  let t := secp256k1_scalar_mul (scalar_sqr_times 2 t) x in
  let t := secp256k1_scalar_mul (scalar_sqr_times 4 t) x3 in
  let t := secp256k1_scalar_mul (scalar_sqr_times 2 t) x in
  let t := secp256k1_scalar_mul (scalar_sqr_times 2 t) x in
  let t := secp256k1_scalar_mul (scalar_sqr_times 2 t) x in
  let t := secp256k1_scalar_mul (scalar_sqr_times 4 t) x3 in
  let t := secp256k1_scalar_mul (scalar_sqr_times 3 t) x2 in
  let t := secp256k1_scalar_mul (scalar_sqr_times 4 t) x3 in
  let t := secp256k1_scalar_mul (scalar_sqr_times 5 t) x3 in
  let t := secp256k1_scalar_mul (scalar_sqr_times 4 t) x2 in
  let t := secp256k1_scalar_mul (scalar_sqr_times 2 t) x in
  let t := secp256k1_scalar_mul (scalar_sqr_times 2 t) x in
  let t := secp256k1_scalar_mul (scalar_sqr_times 5 t) x4 in
  let t := secp256k1_scalar_mul (scalar_sqr_times 2 t) x in
  let t := secp256k1_scalar_mul (scalar_sqr_times 3 t) x in
  let t := secp256k1_scalar_mul (scalar_sqr_times 4 t) x in
  let t := secp256k1_scalar_mul (scalar_sqr_times 2 t) x in
  let t := secp256k1_scalar_mul (scalar_sqr_times 10 t) x3 in
  let t := secp256k1_scalar_mul (scalar_sqr_times 4 t) x3 in
  let t := secp256k1_scalar_mul (scalar_sqr_times 9 t) x8 in
  let t := secp256k1_scalar_mul (scalar_sqr_times 2 t) x in
  let t := secp256k1_scalar_mul (scalar_sqr_times 3 t) x in
  let t := secp256k1_scalar_mul (scalar_sqr_times 3 t) x in
  let t := secp256k1_scalar_mul (scalar_sqr_times 5 t) x4 in
  let t := secp256k1_scalar_mul (scalar_sqr_times 2 t) x in
  let t := secp256k1_scalar_mul (scalar_sqr_times 5 t) x2 in
  let t := secp256k1_scalar_mul (scalar_sqr_times 4 t) x2 in
  let t := secp256k1_scalar_mul (scalar_sqr_times 2 t) x in
  let t := secp256k1_scalar_mul (scalar_sqr_times 8 t) x2 in
  let t := secp256k1_scalar_mul (scalar_sqr_times 3 t) x2 in
  let t := secp256k1_scalar_mul (scalar_sqr_times 3 t) x in
  let t := secp256k1_scalar_mul (scalar_sqr_times 6 t) x in
  secp256k1_scalar_mul (scalar_sqr_times 8 t) x6.

(** With [USE_SCALAR_INV_BUILTIN]. *)
Definition secp256k1_scalar_inverse_var (x : secp256k1_scalar) : secp256k1_scalar :=
  secp256k1_scalar_inverse x.

(** [SECP256K1_SCALAR_CONST] *)
Definition SECP256K1_SCALAR_CONST (d7 d6 d5 d4 d3 d2 d1 d0 : Z) : secp256k1_scalar :=
  mkScalar (Z.lor (Z.shiftl d1 32) d0) (Z.lor (Z.shiftl d3 32) d2)
           (Z.lor (Z.shiftl d5 32) d4) (Z.lor (Z.shiftl d7 32) d6).

Definition minus_lambda : secp256k1_scalar :=
  SECP256K1_SCALAR_CONST 0xAC9C52B3 0x3FA3CF1F 0x5AD9E3FD 0x77ED9BA4 0xA880B9FC 0x8EC739C2 0xE0CFC810 0xB51283CF.
Definition minus_b1 : secp256k1_scalar :=
  SECP256K1_SCALAR_CONST 0 0 0 0 0xE4437ED6 0x010E8828 0x6F547FA9 0x0ABFE4C3.
Definition minus_b2 : secp256k1_scalar :=
  SECP256K1_SCALAR_CONST 0xFFFFFFFF 0xFFFFFFFF 0xFFFFFFFF 0xFFFFFFFE 0x8A280AC5 0x0774346D 0xD765CDA8 0x3DB1562C.
Definition g1 : secp256k1_scalar :=
  SECP256K1_SCALAR_CONST 0 0 0 0x00003086 0xD221A7D4 0x6BCDE86C 0x90E49284 0xEB153DAB.
Definition g2 : secp256k1_scalar :=
  SECP256K1_SCALAR_CONST 0 0 0 0x0000E443 0x7ED6010E 0x88286F54 0x7FA90ABF 0xE4C42212.

(** [r1] and [r2]. *)
Definition secp256k1_scalar_split_lambda (a : secp256k1_scalar) : secp256k1_scalar * secp256k1_scalar :=
  let c1 := secp256k1_scalar_mul_shift_var a g1 272 in
  let c2 := secp256k1_scalar_mul_shift_var a g2 272 in
  let c1 := secp256k1_scalar_mul c1 minus_b1 in
  let c2 := secp256k1_scalar_mul c2 minus_b2 in
  let r2 := fst (secp256k1_scalar_add c1 c2) in
  let r1 := secp256k1_scalar_mul r2 minus_lambda in
  let r1 := fst (secp256k1_scalar_add r1 a) in
  (r1, r2).

(** ** The inverse *)

Lemma prime_N : Z.prime N.
Proof. exact Primality.prime_order. Qed.

Definition is_spow (x e : Z) (r : secp256k1_scalar) : Prop := scalar_ok r /\ sval r = (x ^ e) mod N.

Lemma spow_base a : scalar_ok a -> is_spow (sval a) 1 a.
Proof.
  intros Ha. split; [done|]. rewrite Z.pow_1_r, Z.mod_small; [done|]. destruct Ha as [Ha Hn].
  split; [by apply sval_range|done].
Qed.

Lemma spow_sqr x e a : is_spow x e a -> 0 <= e -> is_spow x (2 * e) (secp256k1_scalar_sqr a).
Proof.
  intros [[Ha _] Ea] He. destruct (scalar_sqr_spec a Ha) as [Hok Ev]. split; [done|].
  rewrite Ev, Ea, <- Z.mul_mod by done. replace (2 * e) with (e + e) by lia. by rewrite Z.pow_add_r by lia.
Qed.

Lemma spow_sqr_times n x e a : is_spow x e a -> 0 <= e -> is_spow x (2 ^ Z.of_nat n * e) (scalar_sqr_times n a).
Proof.
  revert e a. induction n as [|n IH]; intros e a Ha He; [by rewrite Z.mul_1_l|].
  cbn [scalar_sqr_times]. rewrite Nat2Z.inj_succ, Z.pow_succ_r by lia.
  replace (2 * 2 ^ Z.of_nat n * e) with (2 ^ Z.of_nat n * (2 * e)) by ring.
  apply IH; [by apply spow_sqr|lia].
Qed.

Lemma scalar_chain n x e f g a b :
  is_spow x e a -> is_spow x f b -> (0 <=? e) && (0 <=? f) && (g =? 2 ^ Z.of_nat n * e + f) = true ->
  is_spow x g (secp256k1_scalar_mul (scalar_sqr_times n a) b).
Proof.
  rewrite !andb_true_iff, !Z.leb_le, Z.eqb_eq. intros Ha [[Hb _] Eb] [[He Hf] ->].
  destruct (spow_sqr_times n x e a Ha He) as [[Hs _] Es].
  destruct (scalar_mul_spec _ b Hs Hb) as [Hok Ev]. split; [done|].
  rewrite Ev, Es, Eb, <- Z.mul_mod by done. rewrite Z.pow_add_r; [done| |done].
  apply Z.mul_nonneg_nonneg; [apply Z.pow_nonneg; lia|done].
Qed.

(** The next link of the chain, from [Ha] squared [n] times and [Hb]. *)
Ltac slink y H n Ha Hb :=
  match type of Ha with is_spow ?x ?e ?a =>
  match type of Hb with is_spow _ ?f ?b =>
    let g := eval vm_compute in (2 ^ Z.of_nat n * e + f) in
    pose (y := secp256k1_scalar_mul (scalar_sqr_times n a) b);
    assert (H : is_spow x g y) by (apply (scalar_chain n _ _ _ _ _ _ Ha Hb); vm_compute; reflexivity)
  end end.

(** A step of the accumulation: [t] becomes the next link. *)
Ltac accumulate n Ht Hb :=
  let t' := fresh "t" in let H' := fresh "H" in slink t' H' n Ht Hb; clear Ht; rename H' into Ht.

Local Opaque secp256k1_scalar_mul secp256k1_scalar_sqr.

Lemma inverse_pow x : scalar_ok x -> is_spow (sval x) (N - 2) (secp256k1_scalar_inverse x).
Proof.
  intros Hx. assert (H1 := spow_base x Hx).
  slink x2 H2 1%nat H1 H1. slink x3 H3 1%nat H2 H1. slink x4 H4 1%nat H3 H1. slink x6 H6 2%nat H4 H2.
  slink x7 H7 1%nat H6 H1. slink x8 H8 1%nat H7 H1. slink x15 H15 7%nat H8 H7. slink x30 H30 15%nat H15 H15.
  slink x60 H60 30%nat H30 H30. slink x120 H120 60%nat H60 H60. slink x127 Ht 7%nat H120 H7.
  accumulate 2%nat Ht H1. accumulate 4%nat Ht H3. accumulate 2%nat Ht H1. accumulate 2%nat Ht H1.
  accumulate 2%nat Ht H1. accumulate 4%nat Ht H3. accumulate 3%nat Ht H2. accumulate 4%nat Ht H3.
  accumulate 5%nat Ht H3. accumulate 4%nat Ht H2. accumulate 2%nat Ht H1. accumulate 2%nat Ht H1.
  accumulate 5%nat Ht H4. accumulate 2%nat Ht H1. accumulate 3%nat Ht H1. accumulate 4%nat Ht H1.
  accumulate 2%nat Ht H1. accumulate 10%nat Ht H3. accumulate 4%nat Ht H3. accumulate 9%nat Ht H8.
  accumulate 2%nat Ht H1. accumulate 3%nat Ht H1. accumulate 3%nat Ht H1. accumulate 5%nat Ht H4.
  accumulate 2%nat Ht H1. accumulate 5%nat Ht H2. accumulate 4%nat Ht H2. accumulate 2%nat Ht H1.
  accumulate 8%nat Ht H2. accumulate 3%nat Ht H2. accumulate 3%nat Ht H1. accumulate 6%nat Ht H1.
  accumulate 8%nat Ht H6.
  match type of Ht with is_spow _ ?g ?t =>
    replace (N - 2) with g by reflexivity; replace (secp256k1_scalar_inverse x) with t; [exact Ht|] end.
  cbv beta delta [secp256k1_scalar_inverse]. clear.
  repeat match goal with t := _ |- _ => subst t end. cbn [scalar_sqr_times]. reflexivity.
Qed.

Local Transparent secp256k1_scalar_mul secp256k1_scalar_sqr.

Lemma inverse_spec x :
  scalar_ok x ->
  scalar_ok (secp256k1_scalar_inverse x) /\
  (sval x * sval (secp256k1_scalar_inverse x)) mod N = (if decide (sval x = 0) then 0 else 1).
Proof.
  intros Hx. destruct (inverse_pow x Hx) as [Hok E]. split; [done|].
  rewrite E, Z.mul_mod_idemp_r by done.
  rewrite <- (Z.pow_succ_r (sval x) (N - 2)) by (vm_compute; congruence).
  replace (Z.succ (N - 2)) with (N - 1) by lia. case_decide as Hz.
  - rewrite Hz, Z.pow_0_l by reflexivity. reflexivity.
  - apply ZmodInv.Z.fermat_nz; [exact prime_N|]. destruct Hx as [Hx Hn].
    rewrite Z.mod_small; [done|]. split; [by apply sval_range|done].
Qed.

(** ** The split *)

(** The lattice basis of the comment in the source. *)
Definition lambda : Z := 0x5363ad4cc05c30e0a5261c028812645a122e22ea20816678df02967c1b23bd72.
Definition A1 : Z := 0x3086d221a7d46bcde86c90e49284eb15.
Definition B1 : Z := - 0xe4437ed6010e88286f547fa90abfe4c3.
Definition A2 : Z := 0x0114ca50f7a8e2f3f657c1108d9d44cfd8.
Definition B2 : Z := 0x3086d221a7d46bcde86c90e49284eb15.

Lemma split_constants :
  sval minus_lambda = N - lambda /\ sval minus_b1 = - B1 /\ sval minus_b2 = N - B2 /\
  (A1 + B1 * lambda) mod N = 0 /\ (A2 + B2 * lambda) mod N = 0 /\ A1 * B2 - B1 * A2 = N.
Proof. vm_compute. done. Qed.

Definition GG1 : Z := 0x3086D221A7D46BCDE86C90E49284EB153DAB.
Definition GG2 : Z := 0xE4437ED6010E88286F547FA90ABFE4C42212.

(** The rounded quotients leave remainders below [2 ^ 128]. *)
Lemma split_bounds a :
  0 <= a < N ->
  let c1 := (a * GG1 + 2 ^ (272 - 1)) / 2 ^ 272 in
  let c2 := (a * GG2 + 2 ^ (272 - 1)) / 2 ^ 272 in
  Z.abs (a - c1 * A1 - c2 * A2) < 2 ^ 128 /\ Z.abs (- c1 * B1 - c2 * B2) < 2 ^ 128.
Proof.
  intros Ha c1 c2.
  assert (H1 := Z.div_mod (a * GG1 + 2 ^ (272 - 1)) (2 ^ 272) ltac:(lia)).
  assert (R1 := Z.mod_pos_bound (a * GG1 + 2 ^ (272 - 1)) (2 ^ 272) ltac:(lia)).
  assert (H2 := Z.div_mod (a * GG2 + 2 ^ (272 - 1)) (2 ^ 272) ltac:(lia)).
  assert (R2 := Z.mod_pos_bound (a * GG2 + 2 ^ (272 - 1)) (2 ^ 272) ltac:(lia)).
  fold c1 in H1. fold c2 in H2. clearbody c1 c2.
  set (e1 := (a * GG1 + 2 ^ (272 - 1)) mod 2 ^ 272) in *. set (e2 := (a * GG2 + 2 ^ (272 - 1)) mod 2 ^ 272) in *.
  clearbody e1 e2. unfold GG1, GG2, A1, A2, B1, B2, N in *. lia.
Qed.

Lemma split_operands :
  limbs_ok g1 /\ limbs_ok g2 /\ limbs_ok minus_b1 /\ limbs_ok minus_b2 /\ limbs_ok minus_lambda /\
  sval g1 = GG1 /\ sval g2 = GG2.
Proof. unfold limbs_ok, is_word. vm_compute. intuition congruence. Qed.

(** The arithmetic of the split, for any quotients [c1] and [c2]. *)
Lemma split_residues a c1 c2 :
  let k2 := - c1 * B1 - c2 * B2 in
  let k1 := a - c1 * A1 - c2 * A2 in
  ((c1 * sval minus_b1) mod N + (c2 * sval minus_b2) mod N) mod N = k2 mod N /\
  ((k2 mod N * sval minus_lambda) mod N + a) mod N = k1 mod N /\
  (k1 + lambda * k2) mod N = a mod N.
Proof.
  intros k2 k1. destruct split_constants as (-> & -> & -> & Z1 & Z2 & _).
  apply Z.mod_divide in Z1, Z2; [|done..]. destruct Z1 as [y1 Z1], Z2 as [y2 Z2].
  assert (Hk : k1 + lambda * k2 = a + (- c1 * y1 - c2 * y2) * N).
  { unfold k1, k2. transitivity (a - c1 * (y1 * N) - c2 * (y2 * N)); [rewrite <- Z1, <- Z2|]; ring. }
  split; [|split].
  - rewrite <- Z.add_mod by done.
    replace (c1 * - B1 + c2 * (N - B2)) with (k2 + c2 * N) by (unfold k2; ring). by rewrite Z.mod_add by done.
  - rewrite Z.mul_mod_idemp_l, Z.add_mod_idemp_l by done.
    replace (k2 * (N - lambda) + a) with (k1 + (k2 + c1 * y1 + c2 * y2) * N) by lia. by rewrite Z.mod_add by done.
  - rewrite Hk. by rewrite Z.mod_add by done.
Qed.

Lemma split_lambda_spec a :
  scalar_ok a ->
  exists r1 r2 k1 k2, secp256k1_scalar_split_lambda a = (r1, r2) /\ scalar_ok r1 /\ scalar_ok r2 /\
    sval r1 = k1 mod N /\ sval r2 = k2 mod N /\ Z.abs k1 < 2 ^ 128 /\ Z.abs k2 < 2 ^ 128 /\
    (k1 + lambda * k2) mod N = sval a.
Proof.
  intros [Ha Hn]. assert (Hr := sval_range a Ha).
  destruct split_operands as (G1 & G2 & M1 & M2 & Ml & EG1 & EG2).
  destruct (scalar_mul_shift_var_spec a g1 272 Ha G1 ltac:(lia)) as [L1 V1].
  destruct (scalar_mul_shift_var_spec a g2 272 Ha G2 ltac:(lia)) as [L2 V2].
  destruct (split_bounds (sval a) ltac:(lia)) as [K1 K2].
  rewrite EG1 in V1. rewrite EG2 in V2. rewrite <- V1, <- V2 in K1, K2. clear V1 V2.
  unfold secp256k1_scalar_split_lambda.
  remember (secp256k1_scalar_mul_shift_var a g1 272) as q1 eqn:Eq1. clear Eq1.
  remember (secp256k1_scalar_mul_shift_var a g2 272) as q2 eqn:Eq2. clear Eq2.
  destruct (split_residues (sval a) (sval q1) (sval q2)) as (R2 & R1 & R).
  destruct (scalar_mul_spec q1 minus_b1 L1 M1) as [O1 W1]. destruct (scalar_mul_spec q2 minus_b2 L2 M2) as [O2 W2].
  destruct (scalar_add_spec _ _ O1 O2) as (O3 & W3 & _). rewrite W1, W2, R2 in W3.
  destruct (scalar_mul_spec _ minus_lambda (proj1 O3) Ml) as [O4 W4]. rewrite W3 in W4.
  destruct (scalar_add_spec _ a O4 (conj Ha Hn)) as (O5 & W5 & _). rewrite W4, R1 in W5.
  eexists _, _, _, _. split; [reflexivity|]. split; [exact O5|]. split; [exact O3|].
  split; [exact W5|]. split; [exact W3|]. split; [exact K1|]. split; [exact K2|].
  rewrite R. apply Z.mod_small. lia.
Qed.

(** ** The claims *)

(** The inverse of a scalar that is not zero times the scalar is one modulo
    the group order; the inverse of zero is zero. *)
Theorem scalar_inverse_correct (x : secp256k1_scalar) :
  scalar_ok x ->
  secp256k1_scalar_inverse_var x = secp256k1_scalar_inverse x /\
  scalar_ok (secp256k1_scalar_inverse x) /\
  (sval x <> 0 -> (sval x * sval (secp256k1_scalar_inverse x)) mod N = 1) /\
  (sval x = 0 -> sval (secp256k1_scalar_inverse x) = 0).
Proof.
  intros Hx. split; [reflexivity|]. destruct (inverse_spec x Hx) as [Hok E]. split; [done|].
  split; [intros H; by rewrite decide_False in E|]. intros H. destruct (inverse_pow x Hx) as [_ ->].
  by rewrite H, Z.pow_0_l.
Qed.

Lemma scalar_inverse_correct_witness : (sval minus_one * sval (secp256k1_scalar_inverse minus_one)) mod N = 1.
Proof. apply (scalar_inverse_correct minus_one minus_one_ok). vm_compute. congruence. Defined.

(** The endomorphism split writes a scalar as [r1 + lambda * r2] modulo the
    group order, where both parts, read as signed numbers, are below [2 ^ 128]
    in absolute value. *)
Theorem scalar_split_lambda_short (a : secp256k1_scalar) :
  scalar_ok a ->
  exists r1 r2 k1 k2, secp256k1_scalar_split_lambda a = (r1, r2) /\ scalar_ok r1 /\ scalar_ok r2 /\
    sval r1 = k1 mod N /\ sval r2 = k2 mod N /\ Z.abs k1 < 2 ^ 128 /\ Z.abs k2 < 2 ^ 128 /\
    (k1 + lambda * k2) mod N = sval a.
Proof. apply split_lambda_spec. Qed.

Lemma scalar_split_lambda_short_witness :
  exists k1 k2, Z.abs k1 < 2 ^ 128 /\ Z.abs k2 < 2 ^ 128 /\ (k1 + lambda * k2) mod N = N - 1.
Proof.
  destruct (scalar_split_lambda_short minus_one minus_one_ok) as (_ & _ & k1 & k2 & _ & _ & _ & _ & _ & H1 & H2 & H3).
  exists k1, k2. split; [exact H1|]. split; [exact H2|exact H3].
Defined.

End ScalarExp.
