(* ===== verification/Curve.v ===== *)
(** * The curve y^2 = x^3 + 7 over the field of [P] elements

    The textbook definition the point arithmetic of [Group] is measured
    against: the field as the residues modulo the prime [P], points, and
    addition by chords and tangents. *)

From Stdlib Require Import ZArith Lia List Ring Field Zmod.
From stdpp Require Import base list.
From S2P Require Import Primality Field FieldFacts FieldOps FieldExp.
Local Open Scope Z_scope.

Module Curve.
Import Field FieldFacts.

(** ** The field *)

Abbreviation F := (Zmod P).

Declare Scope F_scope.
Delimit Scope F_scope with F.
Bind Scope F_scope with Zmod.

Definition fe (z : Z) : F := Zmod.of_Z P z.

Notation "0" := (fe 0) : F_scope.
Notation "1" := (fe 1) : F_scope.
Infix "+" := (@Zmod.add P) : F_scope.
Infix "-" := (@Zmod.sub P) : F_scope.
Infix "*" := (@Zmod.mul P) : F_scope.
Infix "/" := (@Zmod.mdiv P) : F_scope.
Notation "- x" := (@Zmod.opp P x) : F_scope.

Local Open Scope F_scope.

Lemma F_field : field_theory (fe 0) (fe 1) (@Zmod.add P) (@Zmod.mul P) (@Zmod.sub P) (@Zmod.opp P)
  (@Zmod.mdiv P) (@Zmod.inv P) (@eq F).
Proof. exact (Zmod.field_theory P FieldExp.prime_P). Qed.

Lemma fe_add x y : fe (x + y)%Z = fe x + fe y.
Proof. apply Zmod.of_Z_add. Qed.
Lemma fe_mul x y : fe (x * y)%Z = fe x * fe y.
Proof. apply Zmod.of_Z_mul. Qed.
Lemma fe_sub x y : fe (x - y)%Z = fe x - fe y.
Proof. apply Zmod.of_Z_sub. Qed.
Lemma fe_opp x : fe (- x)%Z = - fe x.
Proof. apply Zmod.of_Z_opp. Qed.

Lemma F_morph : ring_morph (fe 0) (fe 1) (@Zmod.add P) (@Zmod.mul P) (@Zmod.sub P) (@Zmod.opp P) (@eq F)
  0%Z 1%Z Z.add Z.mul Z.sub Z.opp Z.eqb fe.
Proof.
  split; auto using fe_add, fe_mul, fe_sub, fe_opp.
  by intros x y ->%Z.eqb_eq.
Qed.

Ltac F_cst t := match t with fe ?z => match isZcst z with true => z | _ => constr:(NotConstant) end
  | _ => constr:(NotConstant) end.

Add Field F_field : F_field (morphism F_morph, constants [F_cst]).

Lemma fe_eq x y : fe x = fe y <-> x mod P = y mod P.
Proof. split; [intros E|]; [|apply Zmod.of_Z_inj]. by apply Zmod.of_Z_inj in E. Qed.

Lemma mul_zero (x y : F) : x * y = 0 -> x = 0 \/ y = 0.
Proof. apply (proj1 (Zmod.mul_0_iff_prime FieldExp.prime_P x y)). Qed.

#[export] Instance F_eq_dec : EqDecision F.
Proof.
  intros x y. destruct (Zmod.eqb x y) eqn:E; [left; by apply Zmod.eqb_eq|right].
  intros ->. by rewrite Zmod.eqb_refl in E.
Defined.

(** ** Points *)

Inductive point := Infinity | Affine (x y : F).

#[export] Instance point_eq_dec : EqDecision point.
Proof. solve_decision. Defined.

Definition curve (x y : F) : Prop := y * y = x * x * x + fe 7.

Definition on_curve (p : point) : Prop :=
  match p with Infinity => True | Affine x y => curve x y end.

Definition neg (p : point) : point :=
  match p with Infinity => Infinity | Affine x y => Affine x (- y) end.

(** The third point on the line of slope [l] through [(x1, y1)], whose other
    point has the abscissa [x2], mirrored. *)
Definition third (l x1 y1 x2 : F) : point :=
  let x3 := l * l - x1 - x2 in Affine x3 (l * (x1 - x3) - y1).

Definition add (p q : point) : point :=
  match p, q with
  | Infinity, _ => q
  | _, Infinity => p
  | Affine x1 y1, Affine x2 y2 =>
      if decide (x1 = x2) then
        if decide (y1 + y2 = 0) then Infinity
        else third (fe 3 * x1 * x1 / (fe 2 * y1)) x1 y1 x2
      else third ((y2 - y1) / (x2 - x1)) x1 y1 x2
  end.

End Curve.
