(* ===== verification/CurveFacts.v ===== *)
(** * First facts about the curve

    No point has order two, every pair of points that are not opposite has a
    slope with two equations, sums are on the curve, addition commutes. *)

From Stdlib Require Import ZArith Lia List Ring Field Zmod.
From stdpp Require Import base list.
From S2P Require Import Prelude Primality Field FieldFacts FieldExp Curve.
Local Open Scope Z_scope.

Module CurveFacts.
Import FieldFacts FieldExp Curve.
Local Open Scope F_scope.

(** ** Arithmetic *)

Lemma two_nz : fe 2 <> 0.
Proof. intros E. apply fe_eq in E. revert E. vm_compute. congruence. Qed.

Lemma nz_mul (x y : F) : x <> 0 -> y <> 0 -> x * y <> 0.
Proof. intros Hx Hy E. apply mul_zero in E as [?|?]; done. Qed.

Lemma one_nz : fe 1 <> 0.
Proof. intros E. apply fe_eq in E. revert E. vm_compute. congruence. Qed.

Lemma sub_zero (x y : F) : x - y = 0 <-> x = y.
Proof.
  split; [intros E|intros ->; ring]. transitivity (x - y + y); [ring|]. rewrite E. ring.
Qed.

Lemma sub_nz (x y : F) : x <> y -> x - y <> 0.
Proof. by rewrite sub_zero. Qed.

(** ** Points *)

(** -7 is not a cube modulo [P], so no point of the curve has order two. *)
Lemma minus_seven_no_cube (x : Z) : (x * x * x) mod P = (-7) mod P -> False.
Proof.
  intros E. assert (Hx : x mod P <> 0%Z).
  { intros H. rewrite Z.mul_mod, H, Z.mul_0_r in E by done. revert E. vm_compute. congruence. }
  assert (H1 := ZmodInv.Z.fermat_nz P x prime_P Hx).
  replace (P - 1)%Z with (3 * ((P - 1) / 3))%Z in H1 by reflexivity.
  rewrite Z.pow_mul_r in H1 by (vm_compute; congruence).
  replace (x ^ 3)%Z with (x * x * x)%Z in H1 by ring.
  rewrite <- Z.mod_pow_l, E, <- (Primality.power_spec _ P) in H1 by reflexivity.
  revert H1. vm_compute. congruence.
Qed.

Lemma curve_y_nz x y : curve x y -> y <> 0.
Proof.
  unfold curve. intros E Hy. rewrite Hy in E. apply (minus_seven_no_cube (Zmod.to_Z x)).
  apply fe_eq. change (-7)%Z with (Z.opp 7). rewrite !fe_mul, fe_opp. unfold fe at 1 2 3. rewrite !Zmod.of_Z_to_Z.
  transitivity (x * x * x + fe 7 - fe 7); [ring|]. rewrite <- E. ring.
Qed.

(** Two points with one abscissa. *)
Lemma same_x_same_or_opposite x y1 y2 : curve x y1 -> curve x y2 -> y1 = y2 \/ y1 + y2 = 0.
Proof.
  unfold curve. intros H1 H2. assert (E : (y1 - y2) * (y1 + y2) = 0).
  { transitivity (y1 * y1 - y2 * y2); [ring|]. rewrite H1, H2. ring. }
  apply mul_zero in E as [E|E]; [left; by apply sub_zero|by right].
Qed.

Lemma add_opposite x y1 y2 : y1 + y2 = 0 -> add (Affine x y1) (Affine x y2) = Infinity.
Proof. intros E. unfold add. by rewrite decide_True, decide_True. Qed.

(** On the curve the two expressions for the slope agree. *)
Lemma slopes x1 y1 x2 y2 :
  curve x1 y1 -> curve x2 y2 -> (x1 * x1 + x1 * x2 + x2 * x2) * (x1 - x2) = (y1 - y2) * (y1 + y2).
Proof.
  unfold curve. intros H1 H2. transitivity (x1 * x1 * x1 + fe 7 - (x2 * x2 * x2 + fe 7)); [ring|].
  rewrite <- H1, <- H2. ring.
Qed.

(** Two points that are not opposite have a slope, which satisfies both of its
    equations, and their sum is the third point of that line. *)
Lemma add_slope x1 y1 x2 y2 :
  curve x1 y1 -> curve x2 y2 -> ~ (x1 = x2 /\ y1 + y2 = 0) ->
  exists l, l * (x1 - x2) = y1 - y2 /\ l * (y1 + y2) = x1 * x1 + x1 * x2 + x2 * x2 /\
    add (Affine x1 y1) (Affine x2 y2) = third l x1 y1 x2.
Proof.
  intros Hc1 Hc2 Hno. unfold add. assert (H2 := two_nz). case_decide as Hx.
  - subst x2. rewrite decide_False by tauto.
    destruct (same_x_same_or_opposite x1 y1 y2 Hc1 Hc2) as [<-|?]; [|tauto].
    assert (Hy := curve_y_nz _ _ Hc1). eexists. split; [|split; [|reflexivity]]; field; auto.
  - eexists. split; [|split; [|reflexivity]]; [field; auto using sub_nz|].
    transitivity ((y1 - y2) * (y1 + y2) / (x1 - x2)); [field; auto using sub_nz|].
    rewrite <- (slopes x1 y1 x2 y2 Hc1 Hc2). field; auto using sub_nz.
Qed.

Lemma slope_unique l l' x1 y1 x2 y2 :
  ~ (x1 = x2 /\ y1 + y2 = 0) ->
  l * (x1 - x2) = y1 - y2 -> l * (y1 + y2) = x1 * x1 + x1 * x2 + x2 * x2 ->
  l' * (x1 - x2) = y1 - y2 -> l' * (y1 + y2) = x1 * x1 + x1 * x2 + x2 * x2 -> l = l'.
Proof.
  intros Hno E1 E2 E1' E2'. apply sub_zero. destruct (decide (x1 = x2)) as [Hx|Hx].
  - assert (E : (l - l') * (y1 + y2) = 0) by (transitivity (l * (y1 + y2) - l' * (y1 + y2)); [ring|rewrite E2, E2'; ring]).
    apply mul_zero in E as [?|?]; [done|tauto].
  - assert (E : (l - l') * (x1 - x2) = 0) by (transitivity (l * (x1 - x2) - l' * (x1 - x2)); [ring|rewrite E1, E1'; ring]).
    apply mul_zero in E as [?|E]; [done|]. exfalso. by apply Hx, sub_zero.
Qed.

(** The ordinate of the sum is the mean of the two ways to compute it. *)
Lemma add_symmetric l x1 y1 x2 y2 :
  curve x1 y1 -> curve x2 y2 -> ~ (x1 = x2 /\ y1 + y2 = 0) ->
  l * (x1 - x2) = y1 - y2 -> l * (y1 + y2) = x1 * x1 + x1 * x2 + x2 * x2 ->
  let x3 := l * l - (x1 + x2) in
  add (Affine x1 y1) (Affine x2 y2) = Affine x3 ((l * (x1 + x2 - fe 2 * x3) - (y1 + y2)) / fe 2).
Proof.
  intros Hc1 Hc2 Hno El Em x3. assert (H2 := two_nz).
  destruct (add_slope x1 y1 x2 y2 Hc1 Hc2 Hno) as (l' & El' & Em' & ->).
  rewrite (slope_unique l' l x1 y1 x2 y2) by done.
  unfold third. f_equal; [unfold x3; ring|].
  transitivity ((l * (x1 + x2 - fe 2 * x3) - (y1 + y2) + (l * (x1 - x2) - (y1 - y2))) / fe 2).
  - replace (l * l - x1 - x2) with x3 by (unfold x3; ring). field; auto.
  - rewrite El. field; auto.
Qed.

(** The sum of two points is a point of the curve. *)
Lemma third_on_curve l x1 y1 x2 y2 :
  curve x1 y1 -> l * (x1 - x2) = y1 - y2 -> l * (y1 + y2) = x1 * x1 + x1 * x2 + x2 * x2 ->
  on_curve (third l x1 y1 x2).
Proof.
  unfold on_curve, third, curve. intros Hc El Em. set (x3 := l * l - x1 - x2).
  assert (Ey : y2 = y1 - l * (x1 - x2)) by (rewrite El; ring). subst y2.
  apply sub_zero. transitivity ((y1 * y1 - (x1 * x1 * x1 + fe 7)) +
    (l * (y1 + (y1 - l * (x1 - x2))) - (x1 * x1 + x1 * x2 + x2 * x2)) * (x3 - x1)); [unfold x3; ring|].
  rewrite Hc, Em. ring.
Qed.

Lemma add_on_curve p q : on_curve p -> on_curve q -> on_curve (add p q).
Proof.
  destruct p as [|x1 y1], q as [|x2 y2]; try done. intros Hc1 Hc2.
  destruct (decide (x1 = x2 /\ y1 + y2 = 0)) as [[-> Ho]|Hno]; [by rewrite add_opposite|].
  destruct (add_slope x1 y1 x2 y2 Hc1 Hc2 Hno) as (l & El & Em & ->). by eapply third_on_curve.
Qed.

Lemma add_comm p q : on_curve p -> on_curve q -> add p q = add q p.
Proof.
  destruct p as [|x1 y1], q as [|x2 y2]; try done. intros Hc1 Hc2.
  destruct (decide (x1 = x2 /\ y1 + y2 = 0)) as [[-> Ho]|Hno].
  - rewrite !add_opposite; [done|rewrite <- Ho; ring|done].
  - destruct (add_slope x1 y1 x2 y2 Hc1 Hc2 Hno) as (l & El & Em & _).
    rewrite (add_symmetric l x1 y1 x2 y2) by done. symmetry. rewrite (add_symmetric l x2 y2 x1 y1); [|done..| | |].
    + f_equal; [ring|]. assert (H2 := two_nz). field; auto.
    + intros [? ?]. apply Hno. split; [done|]. transitivity (y2 + y1); [ring|done].
    + transitivity (- (l * (x1 - x2))); [ring|rewrite El; ring].
    + transitivity (l * (y1 + y2)); [ring|rewrite Em; ring].
Qed.

End CurveFacts.
