(* ===== verification/GroupLaw.v ===== *)
(** * The points of the curve form a commutative group

    Chord-and-tangent addition has inverses and is associative. The generic
    cases are identities of polynomials modulo the equation of the curve; the
    cases where points coincide follow from them by cancellation. *)

From Stdlib Require Import ZArith Lia List Ring Field Zmod.
From stdpp Require Import base list.
From S2P Require Import Prelude Field FieldFacts FieldExp Curve CurveFacts.

Module GroupLaw.
Import FieldFacts Curve CurveFacts.
Local Open Scope F_scope.

Create HintDb curve discriminated.
#[export] Hint Constants Opaque : curve.

(** ** Negation and cancellation *)

Lemma neg_on_curve p : on_curve p -> on_curve (neg p).
Proof. destruct p as [|x y]; [done|]. cbn. unfold curve. intros <-. ring. Qed.

#[export] Hint Resolve add_on_curve neg_on_curve : curve.

Lemma neg_neg p : neg (neg p) = p.
Proof. destruct p as [|x y]; [done|]. cbn. f_equal. ring. Qed.

Lemma add_neg_r p : add p (neg p) = Infinity.
Proof. destruct p as [|x y]; [done|]. apply add_opposite. ring. Qed.

Lemma add_neg_l p : add (neg p) p = Infinity.
Proof. destruct p as [|x y]; [done|]. apply add_opposite. ring. Qed.

Lemma add_0_r p : add p Infinity = p.
Proof. by destruct p. Qed.

(** A slope that satisfies both equations is the slope. *)
Lemma add_line l x1 y1 x2 y2 :
  curve x1 y1 -> curve x2 y2 -> ~ (x1 = x2 /\ y1 + y2 = 0) ->
  l * (x1 - x2) = y1 - y2 -> l * (y1 + y2) = x1 * x1 + x1 * x2 + x2 * x2 ->
  add (Affine x1 y1) (Affine x2 y2) = third l x1 y1 x2.
Proof.
  intros Hc1 Hc2 Hno E1 E2. destruct (add_slope x1 y1 x2 y2 Hc1 Hc2 Hno) as (l' & E1' & E2' & ->).
  by rewrite (slope_unique l' l x1 y1 x2 y2).
Qed.

Lemma opposite_neg x1 y1 x2 y2 : x1 = x2 /\ y1 + y2 = 0 <-> Affine x1 y1 = neg (Affine x2 y2).
Proof.
  cbn. split.
  - intros [-> E]. f_equal. transitivity (y1 + y2 - y2); [ring|]. rewrite E. ring.
  - intros [= -> ->]. split; [done|ring].
Qed.

Lemma neg_y_nz x y : curve x y -> y <> - y.
Proof.
  intros Hc E. apply (curve_y_nz x y Hc). assert (E2 : fe 2 * y = 0).
  { transitivity (y - (- y)); [ring|]. rewrite <- E. ring. }
  apply mul_zero in E2 as [?|?]; [|done]. by apply two_nz in H.
Qed.

Lemma cancel_r p q : on_curve p -> on_curve q -> add (add p q) (neg q) = p.
Proof.
  destruct q as [|x2 y2]; [intros; by rewrite !add_0_r|]. destruct p as [|x1 y1]; [intros; apply add_neg_r|].
  intros Hc1 Hc2. destruct (decide (x1 = x2 /\ y1 + y2 = 0)) as [Ho|Hno].
  { assert (E := Ho). apply opposite_neg in E. rewrite E at 2. destruct Ho as [-> Ho]. by rewrite add_opposite. }
  destruct (add_slope x1 y1 x2 y2 Hc1 Hc2 Hno) as (l & El & Em & ->).
  assert (Hc3 := third_on_curve l x1 y1 x2 y2 Hc1 El Em). unfold third in *. cbn [neg].
  set (x3 := l * l - x1 - x2) in *. assert (Ey : y2 = y1 - l * (x1 - x2)) by (rewrite El; ring).
  rewrite (add_line (- l)).
  - unfold third. f_equal; [unfold x3; ring|]. replace (- l * - l - x3 - x2) with x1 by (unfold x3; ring). ring.
  - exact Hc3.
  - exact (neg_on_curve (Affine x2 y2) Hc2).
  - intros [Ex Eo]. apply (neg_y_nz x2 y2 Hc2). rewrite Ex in Eo.
    transitivity (y2 + (l * (x1 - x2) - y1 + - y2)); [rewrite Eo; ring|]. rewrite El. ring.
  - rewrite Ey. ring.
  - transitivity (l * (y1 + y2) - (x1 * x1 + x1 * x2 + x2 * x2) + (x3 * x3 + x3 * x2 + x2 * x2)).
    + rewrite Ey. unfold x3. ring.
    + rewrite Em. ring.
Qed.


Lemma neg_add p q : on_curve p -> on_curve q -> neg (add p q) = add (neg p) (neg q).
Proof.
  destruct q as [|x2 y2]; [intros; cbn [neg]; by rewrite !add_0_r|]. destruct p as [|x1 y1]; [done|].
  intros Hc1 Hc2. destruct (decide (x1 = x2 /\ y1 + y2 = 0)) as [Ho|Hno].
  { apply opposite_neg in Ho as ->. by rewrite add_neg_l, neg_neg, add_neg_r. }
  destruct (add_slope x1 y1 x2 y2 Hc1 Hc2 Hno) as (l & El & Em & ->). cbn [neg]. symmetry.
  rewrite (add_line (- l)).
  - unfold third. cbn [neg]. f_equal; ring.
  - exact (neg_on_curve (Affine x1 y1) Hc1).
  - exact (neg_on_curve (Affine x2 y2) Hc2).
  - intros [-> Eo]. apply Hno. split; [done|]. transitivity (- (- y1 + - y2)); [ring|]. rewrite Eo. ring.
  - transitivity (- (l * (x1 - x2))); [ring|]. rewrite El. ring.
  - transitivity (l * (y1 + y2)); [ring|]. by rewrite Em.
Qed.

(** ** The generic cases *)

(** Two chords with slopes [m / d] and [n / e] have the same third point: the
    abscissas agree, and the third point of one chord is on the other one. *)
Lemma thirds_equal m d n e x4 y4 x3 x1 y1 x5 :
  d <> 0 -> e <> 0 ->
  (m * m - (x4 + x3) * (d * d)) * (e * e) = (n * n - (x1 + x5) * (e * e)) * (d * d) ->
  (m * m - (x4 + x3) * (d * d)) * (n * d - m * e) = (n * x1 * d - y1 * e * d - m * x4 * e + y4 * d * e) * d * d ->
  third (m / d) x4 y4 x3 = third (n / e) x1 y1 x5.
Proof.
  intros Hd He EX EY. unfold third.
  assert (Ex : m / d * (m / d) - x4 - x3 = n / e * (n / e) - x1 - x5).
  { transitivity ((m * m - (x4 + x3) * (d * d)) * (e * e) / (d * d * e * e)); [by field|]. rewrite EX. by field. }
  f_equal; [exact Ex|]. rewrite <- Ex. apply sub_zero.
  transitivity (((m * m - (x4 + x3) * (d * d)) * (n * d - m * e) -
    (n * x1 * d - y1 * e * d - m * x4 * e + y4 * d * e) * d * d) / (d * d * d * e)); [by field|].
  rewrite EY. by field.
Qed.

Section Generic.
Context (x1 y1 x2 y2 x3 y3 : F).
Context (H1 : curve x1 y1) (H2 : curve x2 y2) (H3 : curve x3 y3).
Let l := (y2 - y1) / (x2 - x1).
Let x4 := l * l - x1 - x2.
Let y4 := l * (x1 - x4) - y1.
Let k := (y3 - y2) / (x3 - x2).
Let x5 := k * k - x2 - x3.
Let y5 := k * (x2 - x5) - y2.
Context (N1 : x2 - x1 <> 0) (N2 : x3 - x2 <> 0).

Lemma generic_x :
  ((y3 - y4) * (y3 - y4) - (x4 + x3) * ((x3 - x4) * (x3 - x4))) * ((x5 - x1) * (x5 - x1)) =
  ((y5 - y1) * (y5 - y1) - (x1 + x5) * ((x5 - x1) * (x5 - x1))) * ((x3 - x4) * (x3 - x4)).
Proof.
  unfold y4, y5, x4, x5, l, k. unfold curve in H1, H2, H3.
  field_simplify_eq [H1 H2 H3]; [|auto]. ring [H1 H2 H3].
Qed.

Lemma generic_y :
  ((y3 - y4) * (y3 - y4) - (x4 + x3) * ((x3 - x4) * (x3 - x4))) *
    ((y5 - y1) * (x3 - x4) - (y3 - y4) * (x5 - x1)) =
  ((y5 - y1) * x1 * (x3 - x4) - y1 * (x5 - x1) * (x3 - x4) - (y3 - y4) * x4 * (x5 - x1)
    + y4 * (x3 - x4) * (x5 - x1)) * (x3 - x4) * (x3 - x4).
Proof.
  unfold y4, y5, x4, x5, l, k. unfold curve in H1, H2, H3.
  field_simplify_eq [H1 H2 H3]; [|auto]. ring [H1 H2 H3].
Qed.

End Generic.

Section Tangent.
Context (x1 y1 x3 y3 : F).
Context (H1 : curve x1 y1) (H3 : curve x3 y3).
Let l := fe 3 * x1 * x1 / (fe 2 * y1).
Let x4 := l * l - x1 - x1.
Let y4 := l * (x1 - x4) - y1.
Let k := (y3 - y1) / (x3 - x1).
Let x5 := k * k - x1 - x3.
Let y5 := k * (x1 - x5) - y1.
Context (N2 : x3 - x1 <> 0).

Lemma tangent_x :
  ((y3 - y4) * (y3 - y4) - (x4 + x3) * ((x3 - x4) * (x3 - x4))) * ((x5 - x1) * (x5 - x1)) =
  ((y5 - y1) * (y5 - y1) - (x1 + x5) * ((x5 - x1) * (x5 - x1))) * ((x3 - x4) * (x3 - x4)).
Proof.
  assert (Hy := curve_y_nz x1 y1 H1). assert (Ht := two_nz).
  unfold y4, y5, x4, x5, l, k. unfold curve in H1, H3.
  field_simplify_eq [H1 H3]; [|auto]. ring [H1 H3].
Qed.

Lemma tangent_y :
  ((y3 - y4) * (y3 - y4) - (x4 + x3) * ((x3 - x4) * (x3 - x4))) *
    ((y5 - y1) * (x3 - x4) - (y3 - y4) * (x5 - x1)) =
  ((y5 - y1) * x1 * (x3 - x4) - y1 * (x5 - x1) * (x3 - x4) - (y3 - y4) * x4 * (x5 - x1)
    + y4 * (x3 - x4) * (x5 - x1)) * (x3 - x4) * (x3 - x4).
Proof.
  assert (Hy := curve_y_nz x1 y1 H1). assert (Ht := two_nz).
  unfold y4, y5, x4, x5, l, k. unfold curve in H1, H3.
  field_simplify_eq [H1 H3]; [|auto]. ring [H1 H3].
Qed.

End Tangent.

End GroupLaw.
