(* ===== verification/GroupAssoc.v ===== *)
(** * Associativity of the addition of points

    From the generic cases of [GroupLaw]: where two of the points involved
    coincide or are opposite, the equation follows by cancellation from another
    case. *)

From Stdlib Require Import ZArith Lia List Ring Field Zmod.
From stdpp Require Import base list.
From S2P Require Import Prelude Field FieldFacts FieldExp Curve CurveFacts GroupLaw.

Module GroupAssoc.
Import FieldFacts Curve CurveFacts GroupLaw.
Local Open Scope F_scope.

(** ** Coordinates *)

(** Neither equal nor opposite: the abscissas differ. *)
Lemma distinct_x x1 y1 x2 y2 :
  curve x1 y1 -> curve x2 y2 -> Affine x1 y1 <> Affine x2 y2 -> Affine x1 y1 <> neg (Affine x2 y2) -> x1 <> x2.
Proof.
  intros H1 H2 Hne Hno ->. destruct (same_x_same_or_opposite x2 y1 y2 H1 H2) as [->|Ho]; [done|].
  apply Hno. by apply opposite_neg.
Qed.

Lemma add_chord x1 y1 x2 y2 :
  x1 <> x2 -> add (Affine x1 y1) (Affine x2 y2) = third ((y2 - y1) / (x2 - x1)) x1 y1 x2.
Proof. intros Hx. unfold add. by rewrite decide_False. Qed.

Lemma add_tangent x y :
  curve x y -> add (Affine x y) (Affine x y) = third (fe 3 * x * x / (fe 2 * y)) x y x.
Proof.
  intros Hc. unfold add. rewrite decide_True, decide_False; [done| |done].
  intros E. apply (neg_y_nz x y Hc). transitivity (y + y - y); [ring|]. rewrite E. ring.
Qed.

(** ** The equation when no addition is special *)

Lemma assoc_generic x1 y1 x2 y2 x3 y3 x4 y4 x5 y5 :
  curve x1 y1 -> curve x2 y2 -> curve x3 y3 ->
  add (Affine x1 y1) (Affine x2 y2) = Affine x4 y4 -> add (Affine x2 y2) (Affine x3 y3) = Affine x5 y5 ->
  x1 <> x2 -> x2 <> x3 -> x4 <> x3 -> x5 <> x1 ->
  add (Affine x4 y4) (Affine x3 y3) = add (Affine x1 y1) (Affine x5 y5).
Proof.
  intros H1 H2 H3 E4 E5 N1 N2 N3 N4. rewrite (add_chord x1 y1 x2 y2) in E4 by done.
  rewrite (add_chord x2 y2 x3 y3) in E5 by done. rewrite !add_chord by auto.
  assert (G1 := generic_x x1 y1 x2 y2 x3 y3 H1 H2 H3 (sub_nz _ _ (not_eq_sym N1)) (sub_nz _ _ (not_eq_sym N2))).
  assert (G2 := generic_y x1 y1 x2 y2 x3 y3 H1 H2 H3 (sub_nz _ _ (not_eq_sym N1)) (sub_nz _ _ (not_eq_sym N2))).
  unfold third in E4, E5. injection E4 as E4x E4y. injection E5 as E5x E5y.
  rewrite E4x in E4y, G1, G2. rewrite E5x in E5y, G1, G2. rewrite E4y, E5y in G1, G2.
  apply thirds_equal; auto using sub_nz.
Qed.

Lemma assoc_tangent x1 y1 x3 y3 x4 y4 x5 y5 :
  curve x1 y1 -> curve x3 y3 ->
  add (Affine x1 y1) (Affine x1 y1) = Affine x4 y4 -> add (Affine x1 y1) (Affine x3 y3) = Affine x5 y5 ->
  x1 <> x3 -> x4 <> x3 -> x5 <> x1 ->
  add (Affine x4 y4) (Affine x3 y3) = add (Affine x1 y1) (Affine x5 y5).
Proof.
  intros H1 H3 E4 E5 N2 N3 N4. rewrite (add_tangent x1 y1) in E4 by done.
  rewrite (add_chord x1 y1 x3 y3) in E5 by done. rewrite !add_chord by auto.
  assert (G1 := tangent_x x1 y1 x3 y3 H1 H3 (sub_nz _ _ (not_eq_sym N2))).
  assert (G2 := tangent_y x1 y1 x3 y3 H1 H3 (sub_nz _ _ (not_eq_sym N2))).
  unfold third in E4, E5. injection E4 as E4x E4y. injection E5 as E5x E5y.
  rewrite E4x in E4y, G1, G2. rewrite E5x in E5y, G1, G2. rewrite E4y, E5y in G1, G2.
  apply thirds_equal; auto using sub_nz.
Qed.

(** ** Cancellation *)

Lemma cancel_l p q : on_curve p -> on_curve q -> add (neg p) (add p q) = q.
Proof.
  intros Hp Hq. rewrite (add_comm p q), (add_comm (neg p)) by auto with curve. by apply cancel_r.
Qed.

Lemma cancel_neg p q : on_curve p -> on_curve q -> add (add p (neg q)) q = p.
Proof. intros Hp Hq. rewrite <- (neg_neg q) at 2. apply cancel_r; auto with curve. Qed.

(** [p + q = s] exactly when [p = s - q]. *)
Lemma add_sub p q s : on_curve p -> on_curve q -> on_curve s -> add p q = s <-> p = add s (neg q).
Proof.
  intros Hp Hq Hs. split; [intros <-; by rewrite cancel_r|intros ->; by apply cancel_neg].
Qed.

Lemma add_inj p q q' : on_curve p -> on_curve q -> on_curve q' -> add p q = add p q' -> q = q'.
Proof. intros Hp Hq Hq' E. rewrite <- (cancel_l p q), E by done. by apply cancel_l. Qed.

Lemma add_fixed p q : on_curve p -> on_curve q -> add p q = p -> q = Infinity.
Proof. intros Hp Hq E. apply (add_inj p); [done..|]. by rewrite add_0_r. Qed.

Lemma add_zero p q : on_curve p -> on_curve q -> add p q = Infinity -> p = neg q.
Proof. intros Hp Hq E. apply add_sub in E; [|done..]. done. Qed.

Lemma sum_opposite p q r : on_curve p -> on_curve q -> on_curve r -> add p q = neg r -> add q r = neg p.
Proof.
  intros Hp Hq Hr E. apply add_sub in E; [|auto with curve..].
  rewrite E, <- (neg_add r q), neg_neg by auto with curve. by apply add_comm.
Qed.

(** No point doubles to infinity. *)
Lemma double_nz p : on_curve p -> add p p = Infinity -> p = Infinity.
Proof.
  intros Hp E. apply add_zero in E; [|done..]. destruct p as [|x y]; [done|].
  injection E as E. by apply (neg_y_nz x y) in E.
Qed.

(** ** Associativity *)

Section Double.
Context (a c : point) (Ha : on_curve a) (Hc : on_curve c).

Lemma assoc_double_plain :
  c <> add a a -> add (add a a) c = add a (add a c).
Proof using Ha Hc.
  intros N. destruct a as [|x1 y1]; [done|]. destruct c as [|x3 y3]; [by rewrite !add_0_r|].
  destruct (decide (Affine x1 y1 = Affine x3 y3)) as [<-|N1]; [apply add_comm; auto with curve|].
  destruct (decide (Affine x1 y1 = neg (Affine x3 y3))) as [E|N2].
  { rewrite E. rewrite add_neg_l, add_0_r. apply cancel_neg; auto with curve. }
  destruct (add (Affine x1 y1) (Affine x1 y1)) as [|x4 y4] eqn:E4.
  { by apply double_nz in E4. }
  destruct (add (Affine x1 y1) (Affine x3 y3)) as [|x5 y5] eqn:E5.
  { by apply add_zero in E5. }
  assert (C4 : curve x4 y4) by (change (on_curve (Affine x4 y4)); rewrite <- E4; auto with curve).
  assert (C5 : curve x5 y5) by (change (on_curve (Affine x5 y5)); rewrite <- E5; auto with curve).
  destruct (decide (Affine x4 y4 = neg (Affine x3 y3))) as [E|N3].
  { rewrite E, add_neg_l. rewrite E in E4. apply sum_opposite in E4; [|done..].
    rewrite <- E5, E4. by rewrite add_neg_r. }
  destruct (decide (Affine x5 y5 = Affine x1 y1)) as [E|N4].
  { rewrite E in E5. by apply add_fixed in E5. }
  destruct (decide (Affine x5 y5 = neg (Affine x1 y1))) as [E|N5].
  { rewrite E in E5 |- *. rewrite add_neg_r. rewrite add_comm in E5 by done. apply sum_opposite in E5; [|done..].
    rewrite E4 in E5. rewrite E5. by rewrite add_neg_l. }
  eapply assoc_tangent; try eassumption; eapply distinct_x; eauto.
Qed.

End Double.

Lemma assoc_double a c : on_curve a -> on_curve c -> add (add a a) c = add a (add a c).
Proof.
  intros Ha Hc. destruct (decide (c = add a a)) as [->|N]; [|by apply assoc_double_plain].
  set (x := add a a). assert (Hx : on_curve x) by (unfold x; auto with curve).
  assert (Exa : add x (neg a) = a) by (unfold x; by apply cancel_r).
  destruct (decide (neg a = add x x)) as [E|N].
  - rewrite <- E. symmetry in E. apply sum_opposite in E; [|done..].
    rewrite (add_comm a x), E, (add_comm a) by auto with curve.
    rewrite <- (neg_neg a) at 2. by rewrite <- neg_add, Exa by auto with curve.
  - apply assoc_double_plain in N; [|auto with curve..]. rewrite Exa in N.
    apply add_sub in N; [|auto with curve..]. rewrite N, neg_neg, (add_comm x a) by done.
    apply add_comm; auto with curve.
Qed.

(** Addition is associative. *)
Lemma add_assoc p q r :
  on_curve p -> on_curve q -> on_curve r -> add (add p q) r = add p (add q r).
Proof.
  intros Hp Hq Hr. destruct p as [|x1 y1]; [done|]. destruct q as [|x2 y2]; [done|].
  destruct r as [|x3 y3]; [by rewrite !add_0_r|].
  set (p := Affine x1 y1) in *. set (q := Affine x2 y2) in *. set (r := Affine x3 y3) in *.
  destruct (decide (p = q)) as [<-|N1]; [by apply assoc_double|].
  destruct (decide (q = r)) as [<-|N2].
  { rewrite (add_comm (add p q)), (add_comm p q), (add_comm p), assoc_double by auto with curve. done. }
  destruct (decide (p = neg q)) as [E|N3].
  { rewrite E, add_neg_l, cancel_l by done. done. }
  destruct (decide (q = neg r)) as [E|N4].
  { rewrite E, add_neg_l, add_0_r. apply cancel_neg; auto with curve. }
  destruct (add p q) as [|x4 y4] eqn:E4; [by apply add_zero in E4|].
  destruct (add q r) as [|x5 y5] eqn:E5; [by apply add_zero in E5|].
  assert (C4 : on_curve (Affine x4 y4)) by (rewrite <- E4; auto with curve).
  assert (C5 : on_curve (Affine x5 y5)) by (rewrite <- E5; auto with curve).
  destruct (decide (Affine x4 y4 = neg r)) as [E|N5].
  { rewrite E, add_neg_l. rewrite E in E4. apply sum_opposite in E4; [|done..].
    rewrite <- E5, E4. by rewrite add_neg_r. }
  destruct (decide (Affine x5 y5 = neg p)) as [E|N6].
  { rewrite E in E5. apply sum_opposite in E5; [|done..]. apply sum_opposite in E5; [|done..].
    by rewrite E4 in E5. }
  destruct (decide (Affine x4 y4 = r)) as [E|N7].
  { rewrite E, <- E5. rewrite E in E4. rewrite (add_comm p (add q r)) by auto with curve. symmetry.
    apply add_sub; [auto with curve..|]. rewrite assoc_double, <- E4 by auto with curve.
    rewrite (add_comm p q), cancel_r by done. rewrite (add_comm q p), E4 by done. apply add_comm; done. }
  destruct (decide (Affine x5 y5 = p)) as [E|N8].
  { rewrite E, <- E4. rewrite E in E5. apply add_sub; [auto with curve..|].
    rewrite assoc_double by auto with curve. rewrite <- E5 at 3. by rewrite cancel_r. }
  apply (assoc_generic x1 y1 x2 y2 x3 y3); [done..| | | |];
    [apply (distinct_x x1 y1 x2 y2)|apply (distinct_x x2 y2 x3 y3)|apply (distinct_x x4 y4 x3 y3)
    |apply (distinct_x x5 y5 x1 y1)]; done.
Qed.

End GroupAssoc.
