(* ===== verification/PointMul.v ===== *)
(** * Multiples of a point

    [smul k p] adds [p] to itself [k] times, for any integer [k], by doubling
    and adding; the laws of multiples. *)

From Stdlib Require Import ZArith Lia List Ring Field Zmod.
From stdpp Require Import base list.
From S2P Require Import Prelude Field FieldFacts FieldExp Curve CurveFacts GroupLaw GroupAssoc.
Local Open Scope Z_scope.

Module PointMul.
Import FieldFacts Curve CurveFacts GroupLaw GroupAssoc.

Fixpoint pmul (k : positive) (p : point) : point :=
  match k with
  | xH => p
  | xO k => let q := pmul k p in add q q
  | xI k => let q := pmul k p in add p (add q q)
  end.

Definition smul (k : Z) (p : point) : point :=
  match k with
  | Z0 => Infinity
  | Zpos k => pmul k p
  | Zneg k => neg (pmul k p)
  end.

Lemma pmul_on_curve k p : on_curve p -> on_curve (pmul k p).
Proof. intros Hp. induction k; cbn; auto with curve. Qed.

Lemma smul_on_curve k p : on_curve p -> on_curve (smul k p).
Proof. intros Hp. destruct k; cbn; auto using pmul_on_curve with curve. Qed.

#[export] Hint Resolve pmul_on_curve smul_on_curve : curve.

Lemma add_left_comm p q r :
  on_curve p -> on_curve q -> on_curve r -> add p (add q r) = add q (add p r).
Proof. intros. rewrite <- !add_assoc, (add_comm p q) by auto with curve. done. Qed.

Lemma pmul_succ k p : on_curve p -> pmul (Pos.succ k) p = add p (pmul k p).
Proof.
  intros Hp. induction k as [k IH|k IH|]; [|done|done].
  change (Pos.succ k~1) with (xO (Pos.succ k)). cbn [pmul]. rewrite IH.
  rewrite add_assoc by auto with curve. f_equal. apply add_left_comm; auto with curve.
Qed.

Lemma smul_succ k p : on_curve p -> smul (Z.succ k) p = add p (smul k p).
Proof.
  intros Hp. destruct k as [|k|k].
  - cbn. by rewrite add_0_r.
  - replace (Z.succ (Zpos k)) with (Zpos (Pos.succ k)) by lia. by apply pmul_succ.
  - destruct (Pos.succ_pred_or k) as [->|E]; [cbn; by rewrite add_neg_r|].
    rewrite <- E. replace (Z.succ (Zneg (Pos.succ (Pos.pred k)))) with (Zneg (Pos.pred k)) by lia.
    cbn [smul]. rewrite pmul_succ, neg_add, <- add_assoc, add_neg_r by auto with curve. done.
Qed.

(** Induction over the integers in both directions. *)
Lemma Z_both_ways (A : Z -> Prop) : A 0 -> (forall k, A k <-> A (Z.succ k)) -> forall k, A k.
Proof. intros H0 HS. apply Z.bi_induction; [|done|done]. intros x y ->. done. Qed.

Lemma smul_add a b p : on_curve p -> smul (a + b) p = add (smul a p) (smul b p).
Proof.
  intros Hp. revert a. apply Z_both_ways; [done|]. intros k.
  rewrite Z.add_succ_l, !smul_succ, add_assoc by auto with curve. split; [by intros ->|].
  intros E. apply add_inj in E; auto with curve.
Qed.

Lemma smul_opp k p : smul (- k) p = neg (smul k p).
Proof. destruct k; cbn; [done|done|]. by rewrite neg_neg. Qed.

Lemma smul_sub a b p : on_curve p -> smul (a - b) p = add (smul a p) (neg (smul b p)).
Proof. intros Hp. unfold Z.sub. by rewrite smul_add, smul_opp. Qed.

Lemma smul_infinity k : smul k Infinity = Infinity.
Proof. assert (H : forall k, pmul k Infinity = Infinity) by (intros j; by induction j as [j IH|j IH|]; cbn; rewrite ?IH).
  destruct k; cbn; rewrite ?H; done. Qed.

Lemma smul_point k p q : on_curve p -> on_curve q -> smul k (add p q) = add (smul k p) (smul k q).
Proof.
  intros Hp Hq. revert k. apply Z_both_ways; [done|]. intros k.
  rewrite !smul_succ by auto with curve.
  assert (E : add (add p (smul k p)) (add q (smul k q)) = add (add p q) (add (smul k p) (smul k q))).
  { rewrite !add_assoc by auto with curve. f_equal. apply add_left_comm; auto with curve. }
  rewrite E. split; [by intros ->|]. intros E'. apply add_inj in E'; auto with curve.
Qed.

Lemma smul_mul a b p : on_curve p -> smul (a * b) p = smul a (smul b p).
Proof.
  intros Hp. revert a. apply Z_both_ways; [done|]. intros k.
  rewrite Z.mul_succ_l, Z.add_comm, smul_add, smul_succ by auto with curve. split; [by intros ->|].
  intros E. apply add_inj in E; auto with curve.
Qed.

Lemma smul_1 p : smul 1 p = p.
Proof. done. Qed.

Lemma smul_2 p : smul 2 p = add p p.
Proof. done. Qed.

Lemma smul_mod n k p : on_curve p -> n <> 0 -> smul n p = Infinity -> smul (k mod n) p = smul k p.
Proof.
  intros Hp Hn En. rewrite (Z.div_mod k n Hn) at 2.
  rewrite smul_add, Z.mul_comm, smul_mul, En, smul_infinity by done. done.
Qed.

End PointMul.
