(* ===== verification/PointOrder.v ===== *)
(** * The order of the generator, and of every point

    The multiples of the generator are computed in Jacobian coordinates over
    [BigZ] numbers: [N] times the generator is infinity and [lambda] times it
    is its image under the endomorphism. Counting then shows that the curve has
    no other points. *)

From Stdlib Require Import ZArith Lia List Ring Field Zmod.
From Bignums Require Import BigZ.BigZ.
From stdpp Require Import base list.
From S2P Require Import Prelude Field FieldFacts FieldExp ScalarFacts ScalarExp Curve CurveFacts GroupLaw GroupAssoc PointMul.
Local Open Scope Z_scope.

Module PointOrder.
Import FieldFacts Curve CurveFacts GroupLaw GroupAssoc PointMul.

Definition Gx : Z := 0x79BE667EF9DCBBAC55A06295CE870B07029BFCDB2DCE28D959F2815B16F81798.
Definition Gy : Z := 0x483ADA7726A3C4655DA4FBFC0E1108A8FD17B448A68554199C47D08FFB10D4B8.

(** The generator of SEC 2. *)
Definition G : point := Affine (fe Gx) (fe Gy).

Lemma G_on_curve : on_curve G.
Proof. unfold on_curve, G, curve. rewrite <- !fe_mul, <- fe_add. apply fe_eq. reflexivity. Qed.

#[export] Hint Resolve G_on_curve : curve.

(** ** Multiples in Jacobian coordinates *)

Record jac := mkJac { bX : BigZ.t; bY : BigZ.t; bZ : BigZ.t }.

Definition bP : BigZ.t := Eval vm_compute in BigZ.of_Z P.
Definition bGx : BigZ.t := Eval vm_compute in BigZ.of_Z Gx.
Definition bGy : BigZ.t := Eval vm_compute in BigZ.of_Z Gy.

Definition jdouble (a : jac) : jac :=
  let yy := BigZ.modulo (bY a * bY a) bP in
  let s := BigZ.modulo (4 * bX a * yy) bP in
  let m := BigZ.modulo (3 * bX a * bX a) bP in
  let x := BigZ.modulo (m * m - 2 * s) bP in
  mkJac x (BigZ.modulo (m * (s - x) - 8 * yy * yy) bP) (BigZ.modulo (2 * bY a * bZ a) bP).

(** The sum with the generator, for different abscissas. *)
Definition jh (a : jac) : BigZ.t := BigZ.modulo (bGx * BigZ.modulo (bZ a * bZ a) bP - bX a) bP.

Definition jsum (a : jac) : jac :=
  let h := jh a in
  let r := BigZ.modulo (BigZ.modulo (bGy * BigZ.modulo (bZ a * bZ a) bP) bP * bZ a - bY a) bP in
  let hh := BigZ.modulo (h * h) bP in
  let hhh := BigZ.modulo (h * hh) bP in
  let v := BigZ.modulo (bX a * hh) bP in
  let x := BigZ.modulo (r * r - hhh - 2 * v) bP in
  mkJac x (BigZ.modulo (r * (v - x) - bY a * hhh) bP) (BigZ.modulo (bZ a * h) bP).

Definition jadd (a : jac) : option jac := if BigZ.eqb (jh a) 0 then None else Some (jsum a).

Fixpoint jmul (k : positive) : option jac :=
  match k with
  | xH => Some (mkJac bGx bGy 1)
  | xO k => option_map jdouble (jmul k)
  | xI k => match jmul k with Some a => jadd (jdouble a) | None => None end
  end.

(** The element a number stands for. *)
Definition bfe (a : BigZ.t) : F := fe (BigZ.to_Z a).

Definition jrep (a : jac) (p : point) : Prop :=
  exists x y, p = Affine x y /\ bfe (bZ a) <> fe 0 /\
    bfe (bX a) = (x * bfe (bZ a) * bfe (bZ a))%F /\ bfe (bY a) = (y * bfe (bZ a) * bfe (bZ a) * bfe (bZ a))%F.

Local Open Scope F_scope.

Lemma bfe_mul a b : bfe (a * b)%bigZ = bfe a * bfe b.
Proof. unfold bfe. by rewrite BigZ.spec_mul, fe_mul. Qed.
Lemma bfe_sub a b : bfe (a - b)%bigZ = bfe a - bfe b.
Proof. unfold bfe. by rewrite BigZ.spec_sub, fe_sub. Qed.
Lemma bfe_mod a : bfe (BigZ.modulo a bP) = bfe a.
Proof. unfold bfe. rewrite BigZ.spec_modulo. apply fe_eq. change (BigZ.to_Z bP) with P. by rewrite Z.mod_mod. Qed.

Ltac bfe_push := repeat rewrite ?bfe_mod, ?bfe_mul, ?bfe_sub;
  change (bfe 3) with (fe 3); change (bfe 2) with (fe 2); change (bfe 4) with (fe 4); change (bfe 8) with (fe 8);
  change (bfe bGx) with (fe Gx); change (bfe bGy) with (fe Gy).

Lemma jdouble_rep a p : on_curve p -> jrep a p -> jrep (jdouble a) (add p p).
Proof.
  intros Hc (x & y & -> & Hz & Hx & Hy). assert (Hy0 := curve_y_nz x y Hc). assert (H2 := two_nz).
  rewrite add_tangent by done. unfold jdouble, jrep. cbv zeta. cbn [bX bY bZ].
  eexists _, _. split; [reflexivity|].
  assert (Ez : bfe (BigZ.modulo (2 * bY a * bZ a) bP) = fe 2 * (y * bfe (bZ a) * bfe (bZ a) * bfe (bZ a)) * bfe (bZ a)).
  { rewrite bfe_mod, !bfe_mul, Hy. done. }
  rewrite !Ez. split; [auto 12 using nz_mul|].
  bfe_push. rewrite Hx, Hy. split; field; auto.
Qed.

Lemma beqb_zero a : BigZ.eqb (BigZ.modulo a bP) 0 = false -> bfe a <> 0.
Proof.
  rewrite BigZ.spec_eqb, BigZ.spec_modulo. change (BigZ.to_Z bP) with P. change (BigZ.to_Z 0%bigZ) with 0%Z.
  intros E%Z.eqb_neq H. apply E. apply fe_eq in H. by rewrite H.
Qed.

Lemma jadd_rep a b p : on_curve p -> jrep a p -> jadd a = Some b -> jrep b (add G p).
Proof.
  intros Hc (x & y & -> & Hz & Hx & Hy). unfold jadd.
  destruct (BigZ.eqb (jh a) 0) eqn:Eh; [intros E; discriminate E|]. intros E.
  apply (f_equal (default b)) in E. cbn [default from_option id] in E. subst b. apply beqb_zero in Eh.
  revert Eh. bfe_push. rewrite Hx. intros Eh.
  assert (Hxg : fe Gx <> x) by (intros <-; apply Eh; ring).
  rewrite add_comm by auto with curve. unfold G. rewrite add_chord by auto.
  unfold jrep, jsum, jh. cbv zeta. cbn [bX bY bZ]. eexists _, _. split; [reflexivity|].
  bfe_push. rewrite Hx, Hy. split; [by apply nz_mul|].
  assert (Hd := sub_nz _ _ Hxg). split; field; auto.
Qed.

Lemma jmul_rep k a : jmul k = Some a -> jrep a (pmul k G).
Proof.
  revert a. induction k as [k IH|k IH|]; intros a; cbn [jmul pmul].
  - destruct (jmul k) as [b|]; [|done]. intros E. cbv zeta.
    apply (jadd_rep (jdouble b)); [auto with curve|apply jdouble_rep; auto with curve|done].
  - destruct (jmul k) as [b|]; [|done]. intros [= <-]. apply jdouble_rep; auto with curve.
  - intros [= <-]. exists (fe Gx), (fe Gy). cbn [bX bY bZ]. change (bfe bGx) with (fe Gx).
    change (bfe bGy) with (fe Gy). change (bfe 1) with (fe 1).
    split; [done|]. split; [apply one_nz|]. split; ring.
Qed.

(** The affine coordinates of a multiple, checked without division. *)
Definition jcheck (k : positive) (x y : Z) : bool :=
  match jmul k with
  | None => false
  | Some a =>
      let zz := BigZ.modulo (bZ a * bZ a)%bigZ bP in
      BigZ.eqb (BigZ.modulo (BigZ.of_Z x * zz - bX a)%bigZ bP) 0 &&
      BigZ.eqb (BigZ.modulo (BigZ.of_Z y * zz * bZ a - bY a)%bigZ bP) 0
  end.

Lemma bmod_zero a : BigZ.eqb (BigZ.modulo a bP) 0 = true -> bfe a = 0.
Proof.
  rewrite BigZ.spec_eqb, BigZ.spec_modulo. change (BigZ.to_Z bP) with P. change (BigZ.to_Z 0%bigZ) with 0%Z.
  intros E%Z.eqb_eq. by apply fe_eq.
Qed.

Lemma jcheck_spec k x y : jcheck k x y = true -> pmul k G = Affine (fe x) (fe y).
Proof.
  unfold jcheck. destruct (jmul k) as [a|] eqn:E; [|done]. cbv zeta.
  intros [Ex%bmod_zero Ey%bmod_zero]%andb_prop. revert Ex Ey. bfe_push.
  destruct (jmul_rep k a E) as (px & py & -> & Hz & Hx & Hy). rewrite Hx, Hy.
  assert (Ho : forall z, bfe (BigZ.of_Z z) = fe z) by (intros z; unfold bfe; by rewrite BigZ.spec_of_Z).
  rewrite !Ho. intros Ex Ey. f_equal; symmetry; apply sub_zero.
  - assert (E2 : (fe x - px) * (bfe (bZ a) * bfe (bZ a)) = 0) by (rewrite <- Ex; ring).
    apply mul_zero in E2 as [?|E2]; [done|]. apply mul_zero in E2 as [?|?]; done.
  - assert (E2 : (fe y - py) * (bfe (bZ a) * bfe (bZ a) * bfe (bZ a)) = 0) by (rewrite <- Ey; ring).
    apply mul_zero in E2 as [?|E2]; [done|]. apply mul_zero in E2 as [E2|?]; [|done]. apply mul_zero in E2 as [?|?]; done.
Qed.

(** ** The order of the generator *)

Lemma G_minus_one : smul (ScalarFacts.N - 1) G = neg G.
Proof.
  change (ScalarFacts.N - 1)%Z with (Zpos (Z.to_pos (ScalarFacts.N - 1))). cbn [smul].
  rewrite (jcheck_spec _ Gx (P - Gy)); [|vm_compute; reflexivity].
  cbn [neg G]. f_equal.
Qed.

Lemma G_order : smul ScalarFacts.N G = Infinity.
Proof.
  replace ScalarFacts.N with (Z.succ (ScalarFacts.N - 1)) by done.
  rewrite smul_succ, G_minus_one by auto with curve. apply add_neg_r.
Qed.

Definition beta_Z : Z := 0x7ae96a2b657c07106e64479eac3434e99cf0497512f58995c1396c28719501ee.

Lemma G_lambda : smul ScalarExp.lambda G = Affine (fe beta_Z * fe Gx) (fe Gy).
Proof.
  change ScalarExp.lambda with (Zpos (Z.to_pos ScalarExp.lambda)). cbn [smul].
  rewrite <- fe_mul, (jcheck_spec _ ((beta_Z * Gx) mod P) Gy); [|vm_compute; reflexivity].
  f_equal.
Qed.

(** ** Every point is a multiple of the generator *)

(** Points as numbers: at most two for every abscissa, and infinity. *)
Definition point_code (p : point) : Z :=
  match p with
  | Infinity => 0
  | Affine x y => 1 + 2 * Zmod.to_Z x + Zmod.to_Z y mod 2
  end.

Lemma to_Z_bound (x : F) : (0 <= Zmod.to_Z x < P)%Z.
Proof. by apply Zmod.unsigned_pos_bound. Qed.

Lemma point_code_bound p : (0 <= point_code p < 2 * P + 1)%Z.
Proof.
  destruct p as [|x y]; [vm_compute; intuition congruence|]. cbn [point_code]. assert (Hx := to_Z_bound x).
  assert (Hy := Z.mod_pos_bound (Zmod.to_Z y) 2 eq_refl). lia.
Qed.

(** Opposite ordinates have different parities. *)
Lemma opposite_parity x y : curve x y -> (Zmod.to_Z y mod 2 <> Zmod.to_Z (- y) mod 2)%Z.
Proof.
  intros Hc. assert (Hy := curve_y_nz x y Hc). assert (Hb := to_Z_bound y).
  assert (Hnz : (Zmod.to_Z y <> 0)%Z).
  { intros E. apply Hy. rewrite <- (Zmod.of_Z_to_Z y), E. done. }
  rewrite Zmod.to_Z_opp, Z.mod_opp_l_nz; [|done|by rewrite Z.mod_small]. rewrite (Z.mod_small _ P) by done.
  assert (HP : (P mod 2 = 1)%Z) by done. intros E. revert HP.
  replace P with (Zmod.to_Z y + (P - Zmod.to_Z y))%Z by lia. rewrite Z.add_mod, <- E by done.
  destruct (Z.mod_pos_bound (Zmod.to_Z y) 2 eq_refl) as [? ?].
  assert ((Zmod.to_Z y mod 2 = 0 \/ Zmod.to_Z y mod 2 = 1)%Z) as [-> | ->] by lia; done.
Qed.

Lemma point_code_inj p q : on_curve p -> on_curve q -> point_code p = point_code q -> p = q.
Proof.
  assert (Hb : forall z : F, (0 <= Zmod.to_Z z mod 2 < 2)%Z) by (intros z; by apply Z.mod_pos_bound).
  destruct p as [|x1 y1], q as [|x2 y2]; cbn [point_code]; intros H1 H2 E.
  - done.
  - assert (Hx := to_Z_bound x2). specialize (Hb y2). lia.
  - assert (Hx := to_Z_bound x1). specialize (Hb y1). lia.
  - assert (Ex : x1 = x2) by (apply Zmod.to_Z_inj; assert (B1 := Hb y1); assert (B2 := Hb y2); lia). subst x2.
    destruct (same_x_same_or_opposite x1 y1 y2 H1 H2) as [->|Ho]; [done|]. exfalso.
    assert (Ey : y2 = - y1) by (transitivity (y1 + y2 - y1); [ring|rewrite Ho; ring]). subst y2.
    apply (opposite_parity x1 y1 H1). lia.
Qed.

Lemma pigeonhole (f : Z -> Z) (n m : Z) :
  (0 <= n)%Z -> (0 <= m)%Z ->
  (forall i, 0 <= i < n -> 0 <= f i < m)%Z ->
  (forall i j, 0 <= i < n -> 0 <= j < n -> f i = f j -> i = j)%Z -> (n <= m)%Z.
Proof.
  intros Hn Hm Hf Hi. set (g := fun i => Z.to_nat (f (Z.of_nat i))).
  assert (H : (length (List.map g (List.seq 0 (Z.to_nat n))) <= length (List.seq 0 (Z.to_nat m)))%nat).
  { apply NoDup_incl_length.
    - apply NoDup_map_NoDup_ForallPairs; [|apply seq_NoDup]. intros i j Hi' Hj' E%Z2Nat.inj; cycle 1.
      + apply Hf. apply in_seq in Hi'. lia.
      + apply Hf. apply in_seq in Hj'. lia.
      + apply Nat2Z.inj, Hi; [apply in_seq in Hi'; lia|apply in_seq in Hj'; lia|done].
    - intros k Hk. apply in_map_iff in Hk as (i & <- & Hin). apply in_seq in Hin. apply in_seq.
      specialize (Hf (Z.of_nat i)). unfold g. lia. }
  rewrite length_map, !length_seq in H. lia.
Qed.

(** The order of the generator is exactly [N]. *)
Lemma G_multiple_zero k : smul k G = Infinity -> (k mod ScalarFacts.N = 0)%Z.
Proof.
  intros E. destruct (Z.eq_dec (k mod ScalarFacts.N) 0%Z) as [?|Hk]; [done|exfalso].
  assert (Hg : Z.gcd k ScalarFacts.N = 1%Z).
  { rewrite Z.gcd_comm. apply (Z.coprime_prime_l _ _ ScalarExp.prime_N). intros [c ->]. apply Hk. apply Z.mod_mul. done. }
  destruct (Z.gcd_bezout k ScalarFacts.N 1 Hg) as (u & v & Huv).
  assert (HG : smul (u * k + v * ScalarFacts.N) G = Infinity).
  { rewrite smul_add, !smul_mul, E, G_order, !smul_infinity by auto with curve. done. }
  rewrite Huv in HG. discriminate HG.
Qed.

(** Half of a multiple of the generator: the order is odd. *)
Lemma half_multiple p k : on_curve p -> add p p = smul k G -> exists j, p = smul j G.
Proof.
  intros Hp E. assert (Hj : exists j, smul k G = smul (j + j) G).
  { destruct (Z.Even_or_Odd k) as [[j ->]|[j ->]].
    - exists j. f_equal. lia.
    - exists (j + (ScalarFacts.N + 1) / 2)%Z.
      replace (j + (ScalarFacts.N + 1) / 2 + (j + (ScalarFacts.N + 1) / 2))%Z with (2 * j + 1 + ScalarFacts.N)%Z;
        [|change ((ScalarFacts.N + 1) / 2 + (ScalarFacts.N + 1) / 2)%Z with (ScalarFacts.N + 1)%Z;
          assert (2 * ((ScalarFacts.N + 1) / 2) = ScalarFacts.N + 1)%Z by done; lia].
      rewrite (smul_add _ ScalarFacts.N), G_order, add_0_r by auto with curve. done. }
  destruct Hj as [j Ej]. exists j. rewrite Ej, smul_add in E by auto with curve.
  rewrite <- (cancel_neg p (smul j G)) by auto with curve.
  rewrite (double_nz (add p (neg (smul j G)))); [done|auto with curve|].
  rewrite add_assoc, (add_left_comm (neg (smul j G))), <- (add_assoc p) by auto with curve.
  rewrite E, <- neg_add, add_neg_r by auto with curve. done.
Qed.

(** A point outside the multiples of [G] would give three cosets of them, which
    are more points than the curve can have. *)
Lemma coset_difference a b i j p :
  on_curve p -> add (smul a p) (smul i G) = add (smul b p) (smul j G) -> smul (a - b) p = smul (j - i) G.
Proof.
  intros Hp E. rewrite !smul_sub by auto with curve. apply add_sub in E; [|auto with curve..].
  rewrite E at 1. rewrite !add_assoc, (add_comm (smul b p)), !add_assoc, add_neg_l, add_0_r by auto with curve. done.
Qed.

Definition generated (p : point) : Prop := exists k, p = smul k G.

Lemma generated_small p c k :
  on_curve p -> (1 <= c <= 2)%Z -> smul c p = smul k G -> generated p.
Proof.
  intros Hp Hc E. assert (c = 1 \/ c = 2)%Z as [-> | ->] by lia; [by exists k|by apply (half_multiple p k)].
Qed.

Lemma all_generated p : on_curve p -> ~ generated p -> False.
Proof.
  intros Hp Hn.
  assert (H : (3 * ScalarFacts.N <= 2 * P + 1)%Z); [|by vm_compute in H].
  apply (pigeonhole (fun i => point_code (add (smul (i / ScalarFacts.N) p) (smul (i mod ScalarFacts.N) G))));
    [done|done|intros; apply point_code_bound|].
  intros i j Hi Hj E. apply point_code_inj in E; [|auto with curve..]. apply coset_difference in E; [|done].
  assert (Hci : (0 <= i / ScalarFacts.N < 3)%Z) by (split; [apply Z.div_pos; lia || done|apply Z.div_lt_upper_bound; lia || done]).
  assert (Hcj : (0 <= j / ScalarFacts.N < 3)%Z) by (split; [apply Z.div_pos; lia || done|apply Z.div_lt_upper_bound; lia || done]).
  assert (Hd : (i / ScalarFacts.N = j / ScalarFacts.N)%Z).
  { destruct (Z.lt_total (i / ScalarFacts.N) (j / ScalarFacts.N)) as [Hl|[?|Hl]]; [exfalso|done|exfalso]; apply Hn.
    - apply (generated_small p (j / ScalarFacts.N - i / ScalarFacts.N) (i mod ScalarFacts.N - j mod ScalarFacts.N)); [done|lia|].
      rewrite <- (Z.opp_involutive (j / ScalarFacts.N - _)), Z.opp_sub_distr, Z.add_opp_l, smul_opp, E, <- smul_opp.
      f_equal. lia.
    - by eapply generated_small; [| |exact E]; [|lia]. }
  rewrite Hd, Z.sub_diag in E. symmetry in E. apply G_multiple_zero in E.
  assert (Hm : (j mod ScalarFacts.N = i mod ScalarFacts.N)%Z).
  { rewrite <- (Z.mod_mod j), <- (Z.mod_mod i) by done. apply Z.mod_divide in E as [c Ec]; [|done].
    replace (j mod ScalarFacts.N)%Z with (i mod ScalarFacts.N + c * ScalarFacts.N)%Z by lia. by rewrite Z.mod_add. }
  rewrite (Z.div_mod i ScalarFacts.N), (Z.div_mod j ScalarFacts.N), Hd, Hm by done. done.
Qed.

Lemma search (A : nat -> Prop) (HA : forall k, A k \/ ~ A k) n : (exists k, A k) \/ forall k, (k < n)%nat -> ~ A k.
Proof.
  induction n as [|n [?|IH]]; [right; lia|by left|]. destruct (HA n) as [?|Hn]; [left; by exists n|].
  right. intros k Hk. destruct (Nat.eq_dec k n) as [->|?]; [done|]. apply IH. lia.
Qed.

(** Every point of the curve is a multiple of the generator. *)
Lemma generated_point p : on_curve p -> exists k, p = smul k G.
Proof.
  intros Hp. destruct (search (fun k => p = smul (Z.of_nat k) G)) with (n := Z.to_nat ScalarFacts.N) as [[k Hk]|Hno].
  - intros k. destruct (decide (p = smul (Z.of_nat k) G)); auto.
  - by exists (Z.of_nat k).
  - exfalso. apply (all_generated p Hp). intros [k ->].
    assert (Hk := Z.mod_pos_bound k ScalarFacts.N eq_refl).
    apply (Hno (Z.to_nat (k mod ScalarFacts.N))); [lia|]. rewrite Z2Nat.id by lia.
    symmetry. apply smul_mod; auto using G_order with curve.
Qed.

Lemma point_order p : on_curve p -> smul ScalarFacts.N p = Infinity.
Proof.
  intros Hp. destruct (generated_point p Hp) as [k ->].
  rewrite <- smul_mul, Z.mul_comm, smul_mul, G_order, smul_infinity by auto with curve. done.
Qed.

(** ** The endomorphism *)

Definition endo (p : point) : point :=
  match p with Infinity => Infinity | Affine x y => Affine (fe beta_Z * x) y end.

Lemma beta_cube : fe beta_Z * fe beta_Z * fe beta_Z = 1.
Proof. rewrite <- !fe_mul. apply fe_eq. done. Qed.

Lemma endo_on_curve p : on_curve p -> on_curve (endo p).
Proof.
  destruct p as [|x y]; [done|]. cbn. unfold curve. intros ->.
  transitivity (fe beta_Z * fe beta_Z * fe beta_Z * (x * x * x) + fe 7); [rewrite beta_cube|]; ring.
Qed.

#[export] Hint Resolve endo_on_curve : curve.

Lemma beta_inj x y : fe beta_Z * x = fe beta_Z * y -> x = y.
Proof.
  intros E. transitivity (fe beta_Z * fe beta_Z * (fe beta_Z * x)).
  - transitivity (fe beta_Z * fe beta_Z * fe beta_Z * x); [rewrite beta_cube|]; ring.
  - rewrite E. transitivity (fe beta_Z * fe beta_Z * fe beta_Z * y); [|rewrite beta_cube]; ring.
Qed.

Lemma endo_add p q : on_curve p -> on_curve q -> endo (add p q) = add (endo p) (endo q).
Proof.
  destruct p as [|x1 y1], q as [|x2 y2]; try done. intros Hc1 Hc2.
  destruct (decide (x1 = x2 /\ y1 + y2 = 0)) as [[-> Ho]|Hno].
  { cbn [endo]. by rewrite !add_opposite. }
  destruct (add_slope x1 y1 x2 y2 Hc1 Hc2 Hno) as (l & El & Em & ->).
  assert (Hb := beta_cube). cbn [endo]. rewrite (add_line (fe beta_Z * fe beta_Z * l)).
  - unfold third. cbn [endo]. set (b := fe beta_Z) in *. f_equal.
    + transitivity (b * b * b * b * (l * l) - b * x1 - b * x2); [rewrite Hb|]; ring.
    + transitivity (b * b * b * l * (x1 - (b * b * b * (l * l) - x1 - x2)) - y1); [rewrite Hb|]; ring.
  - by apply (endo_on_curve (Affine x1 y1)).
  - by apply (endo_on_curve (Affine x2 y2)).
  - intros [Hx Hy]. apply Hno. split; [by apply beta_inj|done].
  - transitivity (fe beta_Z * fe beta_Z * fe beta_Z * (l * (x1 - x2))); [ring|]. rewrite Hb, El. ring.
  - transitivity (fe beta_Z * fe beta_Z * (l * (y1 + y2))); [ring|]. rewrite Em. ring.
Qed.

Lemma endo_smul k p : on_curve p -> endo (smul k p) = smul k (endo p).
Proof.
  intros Hp. revert k. apply Z_both_ways; [done|]. intros k.
  rewrite !smul_succ, endo_add by auto with curve. split; [by intros ->|].
  intros E. apply add_inj in E; auto with curve.
Qed.

Lemma endo_lambda p : on_curve p -> endo p = smul ScalarExp.lambda p.
Proof.
  intros Hp. destruct (generated_point p Hp) as [k ->]. rewrite endo_smul by auto with curve.
  change (endo G) with (Affine (fe beta_Z * fe Gx) (fe Gy)). rewrite <- G_lambda.
  rewrite <- !smul_mul by auto with curve. f_equal. apply Z.mul_comm.
Qed.

End PointOrder.
