(* ===== verification/Group.v ===== *)
(** * Points of the curve (libsecp256k1/src/group.h, group_impl.h)

    Affine points and points in Jacobian coordinates over the field elements of
    [Field], every function of the file in the configuration the build selects
    (with the endomorphism). A pointer parameter the function writes through is
    an argument with its old contents and a result: where the C code returns
    without writing a coordinate, it keeps what it held. A pointer that may be
    NULL is an [option]. [VERIFY_CHECK] is not compiled. *)

From Stdlib Require Import ZArith List.
From stdpp Require Import base list.
From S2P Require Import Prelude Words Field FieldExp.
Local Open Scope Z_scope.

Module Group.
Import Field FieldExp.

Record secp256k1_ge := mkGe { gx : secp256k1_fe; gy : secp256k1_fe; ge_infinity : Z }.

Record secp256k1_gej := mkGej {
  jx : secp256k1_fe; jy : secp256k1_fe; jz : secp256k1_fe; infinity : Z }.

Record secp256k1_ge_storage := mkGeStorage { gsx : secp256k1_fe_storage; gsy : secp256k1_fe_storage }.

(** [SECP256K1_FE_CONST]: eight 32-bit words, the most significant first. *)
Definition SECP256K1_FE_CONST (d7 d6 d5 d4 d3 d2 d1 d0 : Z) : secp256k1_fe :=
  mkFe (Z.lor d0 (Z.shiftl (Z.land d1 0xFFFFF) 32))
       (Z.lor (Z.lor (Z.shiftr d1 20) (Z.shiftl d2 12)) (Z.shiftl (Z.land d3 0xFF) 44))
       (Z.lor (Z.shiftr d3 8) (Z.shiftl (Z.land d4 0xFFFFFFF) 24))
       (Z.lor (Z.lor (Z.shiftr d4 28) (Z.shiftl d5 4)) (Z.shiftl (Z.land d6 0xFFFF) 36))
       (Z.lor (Z.shiftr d6 16) (Z.shiftl d7 16)).

Definition secp256k1_ge_const_g : secp256k1_ge := mkGe
  (SECP256K1_FE_CONST 0x79BE667E 0xF9DCBBAC 0x55A06295 0xCE870B07 0x029BFCDB 0x2DCE28D9 0x59F2815B 0x16F81798)
  (SECP256K1_FE_CONST 0x483ADA77 0x26A3C465 0x5DA4FBFC 0x0E1108A8 0xFD17B448 0xA6855419 0x9C47D08F 0xFB10D4B8) 0.

Definition CURVE_B : Z := 7.

(** ** Conversions *)

Definition secp256k1_ge_set_gej_zinv (a : secp256k1_gej) (zi : secp256k1_fe) : secp256k1_ge :=
  let zi2 := secp256k1_fe_sqr zi in
  let zi3 := secp256k1_fe_mul zi2 zi in
  mkGe (secp256k1_fe_mul (jx a) zi2) (secp256k1_fe_mul (jy a) zi3) (infinity a).

Definition secp256k1_ge_set_xy (x y : secp256k1_fe) : secp256k1_ge := mkGe x y 0.

Definition secp256k1_ge_is_infinity (a : secp256k1_ge) : Z := ge_infinity a.

Definition secp256k1_ge_neg (a : secp256k1_ge) : secp256k1_ge :=
  mkGe (gx a) (secp256k1_fe_negate (secp256k1_fe_normalize_weak (gy a)) 1) (ge_infinity a).

(** Also normalises [a], which it writes to. *)
Definition secp256k1_ge_set_gej (a : secp256k1_gej) : secp256k1_ge * secp256k1_gej :=
  let z := secp256k1_fe_inv (jz a) in
  let z2 := secp256k1_fe_sqr z in
  let z3 := secp256k1_fe_mul z z2 in
  let x := secp256k1_fe_mul (jx a) z2 in
  let y := secp256k1_fe_mul (jy a) z3 in
  (mkGe x y (infinity a), mkGej x y (secp256k1_fe_set_int 1) (infinity a)).

Definition secp256k1_ge_set_gej_var (r : secp256k1_ge) (a : secp256k1_gej) : secp256k1_ge * secp256k1_gej :=
  if negb (infinity a =? 0) then (mkGe (gx r) (gy r) (infinity a), a)
  else
    let z := secp256k1_fe_inv_var (jz a) in
    let z2 := secp256k1_fe_sqr z in
    let z3 := secp256k1_fe_mul z z2 in
    let x := secp256k1_fe_mul (jx a) z2 in
    let y := secp256k1_fe_mul (jy a) z3 in
    (mkGe x y (infinity a), mkGej x y (secp256k1_fe_set_int 1) (infinity a)).

(** The z coordinates of the points that are not infinity. *)
Definition finite_z (a : list secp256k1_gej) : list secp256k1_fe :=
  map jz (filter (fun p => infinity p = 0) a).

(** The second loop: [azi] from [count] on. *)
Fixpoint spread_inverses (r : list secp256k1_ge) (a : list secp256k1_gej) (azi : list secp256k1_fe)
    : list secp256k1_ge :=
  match r, a with
  | ri :: r', ai :: a' =>
      if negb (infinity ai =? 0) then
        mkGe (gx ri) (gy ri) (infinity ai) :: spread_inverses r' a' azi
      else match azi with
      | zi :: azi' => secp256k1_ge_set_gej_zinv ai zi :: spread_inverses r' a' azi'
      | [] => r
      end
  | _, _ => r
  end.

Definition secp256k1_ge_set_all_gej_var (r : list secp256k1_ge) (a : list secp256k1_gej) : list secp256k1_ge :=
  spread_inverses r a (secp256k1_fe_inv_all_var (finite_z a)).

(** The loop that walks backwards from index [len - 1], over the reversed
    arrays: the inverse of the point at hand, its z ratio and the points left. *)
Fixpoint table_back (zi : secp256k1_fe) (zr : list secp256k1_fe) (a : list secp256k1_gej) : list secp256k1_ge :=
  match zr, a with
  | z :: zr', p :: a' =>
      let zi := secp256k1_fe_mul zi z in
      secp256k1_ge_set_gej_zinv p zi :: table_back zi zr' a'
  | _, _ => []
  end.

Definition secp256k1_ge_set_table_gej_var (a : list secp256k1_gej) (zr : list secp256k1_fe) : list secp256k1_ge :=
  match rev a with
  | [] => []
  | p :: a' =>
      let zi := secp256k1_fe_inv (jz p) in
      rev (secp256k1_ge_set_gej_zinv p zi :: table_back zi (rev zr) a')
  end.

(** [zs] is [zr[len - 1]] for the second to last point and is multiplied by the
    ratio at hand from there on. *)
Definition secp256k1_ge_globalz_set_table_gej (globalz : secp256k1_fe) (a : list secp256k1_gej)
    (zr : list secp256k1_fe) : list secp256k1_ge * secp256k1_fe :=
  match rev a, rev zr with
  | p :: a', zs :: zr' =>
      let last := mkGe (jx p) (jy p) 0 in
      (rev (last :: match a' with
                    | [] => []
                    | q :: a'' => secp256k1_ge_set_gej_zinv q zs :: table_back zs zr' a''
                    end), jz p)
  | _, _ => ([], globalz)
  end.

Definition secp256k1_gej_set_infinity : secp256k1_gej :=
  mkGej secp256k1_fe_clear secp256k1_fe_clear secp256k1_fe_clear 1.

Definition secp256k1_gej_clear : secp256k1_gej :=
  mkGej secp256k1_fe_clear secp256k1_fe_clear secp256k1_fe_clear 0.

Definition secp256k1_ge_clear : secp256k1_ge := mkGe secp256k1_fe_clear secp256k1_fe_clear 0.

Definition secp256k1_ge_set_xquad (x : secp256k1_fe) : secp256k1_ge * bool :=
  let x2 := secp256k1_fe_sqr x in
  let x3 := secp256k1_fe_mul x x2 in
  let c := secp256k1_fe_set_int CURVE_B in
  let c := secp256k1_fe_add c x3 in
  let '(y, ok) := secp256k1_fe_sqrt c in
  (mkGe x y 0, ok).

Definition secp256k1_ge_set_xo_var (x : secp256k1_fe) (odd : Z) : secp256k1_ge * bool :=
  let '(r, ok) := secp256k1_ge_set_xquad x in
  if negb ok then (r, false)
  else
    let y := secp256k1_fe_normalize_var (gy r) in
    let y := if negb (secp256k1_fe_is_odd y =? odd) then secp256k1_fe_negate y 1 else y in
    (mkGe (gx r) y (ge_infinity r), true).

Definition secp256k1_gej_set_ge (a : secp256k1_ge) : secp256k1_gej :=
  mkGej (gx a) (gy a) (secp256k1_fe_set_int 1) (ge_infinity a).

Definition secp256k1_gej_eq_x_var (x : secp256k1_fe) (a : secp256k1_gej) : bool :=
  let r := secp256k1_fe_sqr (jz a) in
  let r := secp256k1_fe_mul r x in
  let r2 := secp256k1_fe_normalize_weak (jx a) in
  secp256k1_fe_equal_var r r2.

Definition secp256k1_gej_neg (a : secp256k1_gej) : secp256k1_gej :=
  mkGej (jx a) (secp256k1_fe_negate (secp256k1_fe_normalize_weak (jy a)) 1) (jz a) (infinity a).

Definition secp256k1_gej_is_infinity (a : secp256k1_gej) : Z := infinity a.

Definition secp256k1_gej_is_valid_var (a : secp256k1_gej) : bool :=
  if negb (infinity a =? 0) then false
  else
    let y2 := secp256k1_fe_sqr (jy a) in
    let x3 := secp256k1_fe_sqr (jx a) in
    let x3 := secp256k1_fe_mul x3 (jx a) in
    let z2 := secp256k1_fe_sqr (jz a) in
    let z6 := secp256k1_fe_sqr z2 in
    let z6 := secp256k1_fe_mul z6 z2 in
    let z6 := secp256k1_fe_mul_int z6 CURVE_B in
    let x3 := secp256k1_fe_add x3 z6 in
    let x3 := secp256k1_fe_normalize_weak x3 in
    secp256k1_fe_equal_var y2 x3.

Definition secp256k1_ge_is_valid_var (a : secp256k1_ge) : bool :=
  if negb (ge_infinity a =? 0) then false
  else
    let y2 := secp256k1_fe_sqr (gy a) in
    let x3 := secp256k1_fe_sqr (gx a) in
    let x3 := secp256k1_fe_mul x3 (gx a) in
    let c := secp256k1_fe_set_int CURVE_B in
    let x3 := secp256k1_fe_add x3 c in
    let x3 := secp256k1_fe_normalize_weak x3 in
    secp256k1_fe_equal_var y2 x3.

(** ** Doubling and addition *)

(** [if (rzr != NULL) *rzr = v;] *)
Definition put_rzr (rzr : option secp256k1_fe) (v : secp256k1_fe) : option secp256k1_fe :=
  option_map (fun _ => v) rzr.

Definition secp256k1_gej_double_var (r a : secp256k1_gej) (rzr : option secp256k1_fe)
    : secp256k1_gej * option secp256k1_fe :=
  if negb (infinity a =? 0) then
    (mkGej (jx r) (jy r) (jz r) (infinity a), put_rzr rzr (secp256k1_fe_set_int 1))
  else
    let rzr := put_rzr rzr (secp256k1_fe_mul_int (secp256k1_fe_normalize_weak (jy a)) 2) in
    let z := secp256k1_fe_mul (jz a) (jy a) in
    let z := secp256k1_fe_mul_int z 2 in
    let t1 := secp256k1_fe_sqr (jx a) in
    let t1 := secp256k1_fe_mul_int t1 3 in
    let t2 := secp256k1_fe_sqr t1 in
    let t3 := secp256k1_fe_sqr (jy a) in
    let t3 := secp256k1_fe_mul_int t3 2 in
    let t4 := secp256k1_fe_sqr t3 in
    let t4 := secp256k1_fe_mul_int t4 2 in
    let t3 := secp256k1_fe_mul t3 (jx a) in
    let x := t3 in
    let x := secp256k1_fe_mul_int x 4 in
    let x := secp256k1_fe_negate x 4 in
    let x := secp256k1_fe_add x t2 in
    let t2 := secp256k1_fe_negate t2 1 in
    let t3 := secp256k1_fe_mul_int t3 6 in
    let t3 := secp256k1_fe_add t3 t2 in
    let y := secp256k1_fe_mul t1 t3 in
    let t2 := secp256k1_fe_negate t4 2 in
    let y := secp256k1_fe_add y t2 in
    (mkGej x y z (infinity a), rzr).

Definition secp256k1_gej_double_nonzero (r a : secp256k1_gej) (rzr : option secp256k1_fe)
    : secp256k1_gej * option secp256k1_fe := secp256k1_gej_double_var r a rzr.

Definition secp256k1_gej_add_var (r a b : secp256k1_gej) (rzr : option secp256k1_fe)
    : secp256k1_gej * option secp256k1_fe :=
  if negb (infinity a =? 0) then (b, rzr)
  else if negb (infinity b =? 0) then (a, put_rzr rzr (secp256k1_fe_set_int 1))
  else
    let z22 := secp256k1_fe_sqr (jz b) in
    let z12 := secp256k1_fe_sqr (jz a) in
    let u1 := secp256k1_fe_mul (jx a) z22 in
    let u2 := secp256k1_fe_mul (jx b) z12 in
    let s1 := secp256k1_fe_mul (jy a) z22 in
    let s1 := secp256k1_fe_mul s1 (jz b) in
    let s2 := secp256k1_fe_mul (jy b) z12 in
    let s2 := secp256k1_fe_mul s2 (jz a) in
    let h := secp256k1_fe_negate u1 1 in
    let h := secp256k1_fe_add h u2 in
    let i := secp256k1_fe_negate s1 1 in
    let i := secp256k1_fe_add i s2 in
    if secp256k1_fe_normalizes_to_zero_var h then
      if secp256k1_fe_normalizes_to_zero_var i then
        secp256k1_gej_double_var (mkGej (jx r) (jy r) (jz r) 0) a rzr
      else (mkGej (jx r) (jy r) (jz r) 1, put_rzr rzr (secp256k1_fe_set_int 0))
    else
      let i2 := secp256k1_fe_sqr i in
      let h2 := secp256k1_fe_sqr h in
      let h3 := secp256k1_fe_mul h h2 in
      let h := secp256k1_fe_mul h (jz b) in
      let rzr := put_rzr rzr h in
      let z := secp256k1_fe_mul (jz a) h in
      let t := secp256k1_fe_mul u1 h2 in
      let x := t in
      let x := secp256k1_fe_mul_int x 2 in
      let x := secp256k1_fe_add x h3 in
      let x := secp256k1_fe_negate x 3 in
      let x := secp256k1_fe_add x i2 in
      let y := secp256k1_fe_negate x 5 in
      let y := secp256k1_fe_add y t in
      let y := secp256k1_fe_mul y i in
      let h3 := secp256k1_fe_mul h3 s1 in
      let h3 := secp256k1_fe_negate h3 1 in
      let y := secp256k1_fe_add y h3 in
      (mkGej x y z 0, rzr).

Definition secp256k1_gej_add_ge_var (r a : secp256k1_gej) (b : secp256k1_ge) (rzr : option secp256k1_fe)
    : secp256k1_gej * option secp256k1_fe :=
  if negb (infinity a =? 0) then (secp256k1_gej_set_ge b, rzr)
  else if negb (ge_infinity b =? 0) then (a, put_rzr rzr (secp256k1_fe_set_int 1))
  else
    let z12 := secp256k1_fe_sqr (jz a) in
    let u1 := secp256k1_fe_normalize_weak (jx a) in
    let u2 := secp256k1_fe_mul (gx b) z12 in
    let s1 := secp256k1_fe_normalize_weak (jy a) in
    let s2 := secp256k1_fe_mul (gy b) z12 in
    let s2 := secp256k1_fe_mul s2 (jz a) in
    let h := secp256k1_fe_negate u1 1 in
    let h := secp256k1_fe_add h u2 in
    let i := secp256k1_fe_negate s1 1 in
    let i := secp256k1_fe_add i s2 in
    if secp256k1_fe_normalizes_to_zero_var h then
      if secp256k1_fe_normalizes_to_zero_var i then
        secp256k1_gej_double_var (mkGej (jx r) (jy r) (jz r) 0) a rzr
      else (mkGej (jx r) (jy r) (jz r) 1, put_rzr rzr (secp256k1_fe_set_int 0))
    else
      let i2 := secp256k1_fe_sqr i in
      let h2 := secp256k1_fe_sqr h in
      let h3 := secp256k1_fe_mul h h2 in
      let rzr := put_rzr rzr h in
      let z := secp256k1_fe_mul (jz a) h in
      let t := secp256k1_fe_mul u1 h2 in
      let x := t in
      let x := secp256k1_fe_mul_int x 2 in
      let x := secp256k1_fe_add x h3 in
      let x := secp256k1_fe_negate x 3 in
      let x := secp256k1_fe_add x i2 in
      let y := secp256k1_fe_negate x 5 in
      let y := secp256k1_fe_add y t in
      let y := secp256k1_fe_mul y i in
      let h3 := secp256k1_fe_mul h3 s1 in
      let h3 := secp256k1_fe_negate h3 1 in
      let y := secp256k1_fe_add y h3 in
      (mkGej x y z 0, rzr).

Definition secp256k1_gej_add_zinv_var (r a : secp256k1_gej) (b : secp256k1_ge) (bzinv : secp256k1_fe)
    : secp256k1_gej :=
  if negb (ge_infinity b =? 0) then a
  else if negb (infinity a =? 0) then
    let bzinv2 := secp256k1_fe_sqr bzinv in
    let bzinv3 := secp256k1_fe_mul bzinv2 bzinv in
    mkGej (secp256k1_fe_mul (gx b) bzinv2) (secp256k1_fe_mul (gy b) bzinv3)
          (secp256k1_fe_set_int 1) (ge_infinity b)
  else
    let az := secp256k1_fe_mul (jz a) bzinv in
    let z12 := secp256k1_fe_sqr az in
    let u1 := secp256k1_fe_normalize_weak (jx a) in
    let u2 := secp256k1_fe_mul (gx b) z12 in
    let s1 := secp256k1_fe_normalize_weak (jy a) in
    let s2 := secp256k1_fe_mul (gy b) z12 in
    let s2 := secp256k1_fe_mul s2 az in
    let h := secp256k1_fe_negate u1 1 in
    let h := secp256k1_fe_add h u2 in
    let i := secp256k1_fe_negate s1 1 in
    let i := secp256k1_fe_add i s2 in
    if secp256k1_fe_normalizes_to_zero_var h then
      if secp256k1_fe_normalizes_to_zero_var i then
        fst (secp256k1_gej_double_var (mkGej (jx r) (jy r) (jz r) 0) a None)
      else mkGej (jx r) (jy r) (jz r) 1
    else
      let i2 := secp256k1_fe_sqr i in
      let h2 := secp256k1_fe_sqr h in
      let h3 := secp256k1_fe_mul h h2 in
      let z := jz a in
      let z := secp256k1_fe_mul z h in
      let t := secp256k1_fe_mul u1 h2 in
      let x := t in
      let x := secp256k1_fe_mul_int x 2 in
      let x := secp256k1_fe_add x h3 in
      let x := secp256k1_fe_negate x 3 in
      let x := secp256k1_fe_add x i2 in
      let y := secp256k1_fe_negate x 5 in
      let y := secp256k1_fe_add y t in
      let y := secp256k1_fe_mul y i in
      let h3 := secp256k1_fe_mul h3 s1 in
      let h3 := secp256k1_fe_negate h3 1 in
      let y := secp256k1_fe_add y h3 in
      mkGej x y z 0.

Definition fe_1 : secp256k1_fe := SECP256K1_FE_CONST 0 0 0 0 0 0 0 1.

Definition secp256k1_gej_add_ge (a : secp256k1_gej) (b : secp256k1_ge) : secp256k1_gej :=
  let zz := secp256k1_fe_sqr (jz a) in
  let u1 := secp256k1_fe_normalize_weak (jx a) in
  let u2 := secp256k1_fe_mul (gx b) zz in
  let s1 := secp256k1_fe_normalize_weak (jy a) in
  let s2 := secp256k1_fe_mul (gy b) zz in
  let s2 := secp256k1_fe_mul s2 (jz a) in
  let t := secp256k1_fe_add u1 u2 in
  let m := secp256k1_fe_add s1 s2 in
  let rr := secp256k1_fe_sqr t in
  let m_alt := secp256k1_fe_negate u2 1 in
  let tt := secp256k1_fe_mul u1 m_alt in
  let rr := secp256k1_fe_add rr tt in
  let degenerate := Z.land (b2z (secp256k1_fe_normalizes_to_zero m)) (b2z (secp256k1_fe_normalizes_to_zero rr)) in
  let rr_alt := s1 in
  let rr_alt := secp256k1_fe_mul_int rr_alt 2 in
  let m_alt := secp256k1_fe_add m_alt u1 in
  let rr_alt := secp256k1_fe_cmov rr_alt rr (b2z (degenerate =? 0)) in
  let m_alt := secp256k1_fe_cmov m_alt m (b2z (degenerate =? 0)) in
  let n := secp256k1_fe_sqr m_alt in
  let q := secp256k1_fe_mul n t in
  let n := secp256k1_fe_sqr n in
  let n := secp256k1_fe_cmov n m degenerate in
  let t := secp256k1_fe_sqr rr_alt in
  let z := secp256k1_fe_mul (jz a) m_alt in
  let infinity' := b2z (secp256k1_fe_normalizes_to_zero z) * (1 - infinity a) in
  let z := secp256k1_fe_mul_int z 2 in
  let q := secp256k1_fe_negate q 1 in
  let t := secp256k1_fe_add t q in
  let t := secp256k1_fe_normalize_weak t in
  let x := t in
  let t := secp256k1_fe_mul_int t 2 in
  let t := secp256k1_fe_add t q in
  let t := secp256k1_fe_mul t rr_alt in
  let t := secp256k1_fe_add t n in
  let y := secp256k1_fe_negate t 3 in
  let y := secp256k1_fe_normalize_weak y in
  let x := secp256k1_fe_mul_int x 4 in
  let y := secp256k1_fe_mul_int y 4 in
  let x := secp256k1_fe_cmov x (gx b) (infinity a) in
  let y := secp256k1_fe_cmov y (gy b) (infinity a) in
  let z := secp256k1_fe_cmov z fe_1 (infinity a) in
  mkGej x y z infinity'.

Definition secp256k1_gej_rescale (r : secp256k1_gej) (s : secp256k1_fe) : secp256k1_gej :=
  let zz := secp256k1_fe_sqr s in
  let x := secp256k1_fe_mul (jx r) zz in
  let y := secp256k1_fe_mul (jy r) zz in
  let y := secp256k1_fe_mul y s in
  let z := secp256k1_fe_mul (jz r) s in
  mkGej x y z (infinity r).

(** ** Storage, the endomorphism and quadratic residues *)

Definition secp256k1_ge_to_storage (a : secp256k1_ge) : secp256k1_ge_storage :=
  let x := secp256k1_fe_normalize (gx a) in
  let y := secp256k1_fe_normalize (gy a) in
  mkGeStorage (secp256k1_fe_to_storage x) (secp256k1_fe_to_storage y).

Definition secp256k1_ge_from_storage (a : secp256k1_ge_storage) : secp256k1_ge :=
  mkGe (secp256k1_fe_from_storage (gsx a)) (secp256k1_fe_from_storage (gsy a)) 0.

Definition secp256k1_ge_storage_cmov (r a : secp256k1_ge_storage) (flag : Z) : secp256k1_ge_storage :=
  mkGeStorage (secp256k1_fe_storage_cmov (gsx r) (gsx a) flag) (secp256k1_fe_storage_cmov (gsy r) (gsy a) flag).

Definition beta : secp256k1_fe :=
  SECP256K1_FE_CONST 0x7ae96a2b 0x657c0710 0x6e64479e 0xac3434e9 0x9cf04975 0x12f58995 0xc1396c28 0x719501ee.

Definition secp256k1_ge_mul_lambda (a : secp256k1_ge) : secp256k1_ge :=
  mkGe (secp256k1_fe_mul (gx a) beta) (gy a) (ge_infinity a).

Definition secp256k1_gej_has_quad_y_var (a : secp256k1_gej) : bool :=
  if negb (infinity a =? 0) then false
  else secp256k1_fe_is_quad_var (secp256k1_fe_mul (jy a) (jz a)).

End Group.
