(* ===== verification/GroupFacts.v ===== *)
(** * The value of a field element, step by step

    [has m v a]: the element [a] has magnitude at most [m] and the value [v] of
    the field. Every operation of [Field] gets one rule for [has]; the tactics
    [fe_step] and [fe_run] apply them to the straight-line code of [Group],
    statement by statement. *)

From Stdlib Require Import ZArith Lia List Ring Field Zmod.
From stdpp Require Import base list.
From S2P Require Import Prelude Words Field FieldFacts FieldOps FieldExp Curve Group.
Local Open Scope Z_scope.

Module GroupFacts.
Import Field FieldFacts FieldOps FieldExp Curve Group.
Local Open Scope F_scope.

Definition ev (a : secp256k1_fe) : F := fe (val a).

Definition has (m : Z) (v : F) (a : secp256k1_fe) : Prop := magnitude m a /\ ev a = v.

Lemma has_mono m k v a : has m v a -> (m <= k)%Z -> has k v a.
Proof. intros [Hm Hv] Hk. split; [by eapply magnitude_mono|done]. Qed.

Lemma has_mul m k x y a b : has m x a -> has k y b -> (m <= 8)%Z -> (k <= 8)%Z -> has 1 (x * y) (secp256k1_fe_mul a b).
Proof.
  intros [Ha <-] [Hb <-] Hm Hk.
  destruct (fe_mul_spec a b (magnitude_mono _ _ _ Ha Hm) (magnitude_mono _ _ _ Hb Hk)) as [Hr E].
  split; [done|]. unfold ev. rewrite <- fe_mul. by apply fe_eq.
Qed.

Lemma has_sqr m x a : has m x a -> (m <= 8)%Z -> has 1 (x * x) (secp256k1_fe_sqr a).
Proof.
  intros [Ha <-] Hm. destruct (sqr_inner_spec a (magnitude_mono _ _ _ Ha Hm)) as [Hr E].
  split; [done|]. unfold ev. rewrite <- fe_mul. by apply fe_eq.
Qed.

Lemma has_add m k x y a b : has m x a -> has k y b -> (m + k <= 2048)%Z -> has (m + k) (x + y) (secp256k1_fe_add a b).
Proof.
  intros [Ha <-] [Hb <-] Hm. destruct (add_spec m k a b Ha Hb Hm) as [Hr E].
  split; [done|]. unfold ev. by rewrite E, fe_add.
Qed.

Lemma fe_P : fe P = 0.
Proof. by apply fe_eq. Qed.

Lemma has_negate m k x a : has m x a -> (m <= k)%Z -> (0 <= k <= 2047)%Z -> has (k + 1) (- x) (secp256k1_fe_negate a k).
Proof.
  intros [Ha <-] Hm Hk. destruct (negate_spec k a (magnitude_mono _ _ _ Ha Hm) Hk) as [Hr E].
  split; [done|]. unfold ev. rewrite E, fe_sub, fe_mul, fe_P. ring.
Qed.

Lemma has_mul_int m k x a :
  has m x a -> (0 <= m)%Z -> (0 <= k)%Z -> (m * k <= 2048)%Z -> has (m * k) (fe k * x) (secp256k1_fe_mul_int a k).
Proof.
  intros [Ha <-] Hm Hk Hmk. destruct (mul_int_spec m k a Ha Hm Hk Hmk) as [Hr E].
  split; [done|]. unfold ev. rewrite E, fe_mul. ring.
Qed.

Lemma reduced_magnitude r : reduced r -> magnitude 1 r.
Proof. unfold reduced, magnitude, M52, M48. lia. Qed.

Lemma has_weak m x a : has m x a -> (0 <= m <= 2047)%Z -> has 1 x (secp256k1_fe_normalize_weak a).
Proof.
  intros [Ha <-] Hm. destruct (normalize_weak_spec m a Ha Hm) as [Hr E].
  split; [by apply reduced_magnitude|]. unfold ev. rewrite E, fe_sub, fe_mul, fe_P. ring.
Qed.

Lemma normalized_magnitude r : normalized r -> magnitude 1 r.
Proof. unfold normalized, magnitude, M52, M48. lia. Qed.

Lemma has_set_int k : (0 <= k < 2 ^ 31)%Z -> has 1 (fe k) (secp256k1_fe_set_int k).
Proof.
  intros Hk. destruct (set_int_spec k Hk) as [Hn E].
  split; [by apply normalized_magnitude|]. unfold ev. by rewrite E.
Qed.

Lemma has_inv m x a : has m x a -> (m <= 8)%Z -> x <> 0 -> has 1 (1 / x) (secp256k1_fe_inv a).
Proof.
  intros [Ha <-] Hm Hx. destruct (inv_spec a (magnitude_mono _ _ _ Ha Hm)) as [Hr E]. split; [done|].
  rewrite decide_False in E by (intros H; apply Hx; unfold ev; by apply fe_eq).
  change 1%Z with (1 mod P)%Z in E. apply fe_eq in E. rewrite fe_mul in E.
  fold (ev a) (ev (secp256k1_fe_inv a)) in E. rewrite <- E. by field.
Qed.

(** The zero tests. *)
Lemma zero_iff m x a :
  has m x a -> (0 <= m <= 2047)%Z -> secp256k1_fe_normalizes_to_zero a = true <-> x = 0.
Proof.
  intros [Ha <-] Hm. rewrite (to_zero_spec m a Ha Hm). unfold ev.
  rewrite (fe_eq (val a) 0), (Z.mod_0_l P) by done. done.
Qed.

Lemma zero_decide m x a :
  has m x a -> (0 <= m <= 2047)%Z -> secp256k1_fe_normalizes_to_zero a = bool_decide (x = 0).
Proof.
  intros Ha Hm. apply eq_bool_prop_intro. rewrite !Is_true_true, bool_decide_eq_true.
  by eapply zero_iff.
Qed.

Lemma zero_true m x a :
  has m x a -> (0 <= m <= 2047)%Z -> x = 0 -> secp256k1_fe_normalizes_to_zero a = true.
Proof. intros Ha Hm Hx. by apply (zero_iff m x). Qed.

Lemma zero_false m x a :
  has m x a -> (0 <= m <= 2047)%Z -> x <> 0 -> secp256k1_fe_normalizes_to_zero a = false.
Proof.
  intros Ha Hm Hx. rewrite (zero_decide m x) by done. by apply bool_decide_eq_false_2.
Qed.

Lemma zero_var_decide m x a :
  has m x a -> (0 <= m <= 2047)%Z -> secp256k1_fe_normalizes_to_zero_var a = bool_decide (x = 0).
Proof.
  intros Ha Hm. rewrite (zero_var_same m a) by (apply Ha || lia). by eapply zero_decide.
Qed.

Lemma equal_var_decide m x y a b :
  has 1 x a -> has m y b -> (0 <= m <= 2045)%Z -> secp256k1_fe_equal_var a b = bool_decide (x = y).
Proof.
  intros [Ha <-] [Hb <-] Hm. destruct (equal_spec m a b Ha Hb Hm) as [He ->].
  apply eq_bool_prop_intro. rewrite !Is_true_true, bool_decide_eq_true, He. unfold ev. by rewrite fe_eq.
Qed.

(** Conditional moves. *)
Lemma cmov_keep m k r a :
  magnitude m r -> magnitude k a -> (m <= 2048)%Z -> (k <= 2048)%Z -> secp256k1_fe_cmov r a 0 = r.
Proof. intros. rewrite (cmov_spec m k) by auto. done. Qed.

Lemma cmov_take k r a : magnitude k a -> (k <= 2048)%Z -> secp256k1_fe_cmov r a 1 = a.
Proof.
  intros Ha Hk. transitivity (secp256k1_fe_cmov a a 1); [|rewrite (cmov_spec k k) by auto; done].
  unfold secp256k1_fe_cmov, cmov64. change (wrap 64 (1 + (2 ^ 64 - 1))) with 0%Z.
  by rewrite !Z.land_0_r.
Qed.

Lemma has_cmov_keep m k v w r a :
  has m v r -> has k w a -> (m <= 2048)%Z -> (k <= 2048)%Z -> has m v (secp256k1_fe_cmov r a 0).
Proof. intros Hr Ha Hm Hk. rewrite (cmov_keep m k) by (apply Hr || apply Ha || done). done. Qed.

Lemma has_cmov_take k w r a : has k w a -> (k <= 2048)%Z -> has k w (secp256k1_fe_cmov r a 1).
Proof. intros Ha Hk. rewrite (cmov_take k) by (apply Ha || done). done. Qed.

(** ** Walking through the code *)

Ltac fe_side := cbn; lia.

Ltac fe_rule :=
  lazymatch goal with
  | |- has _ _ (secp256k1_fe_mul _ _) => eapply has_mul; [fe_rule|fe_rule|fe_side|fe_side]
  | |- has _ _ (secp256k1_fe_sqr _) => eapply has_sqr; [fe_rule|fe_side]
  | |- has _ _ (secp256k1_fe_add _ _) => eapply has_add; [fe_rule|fe_rule|fe_side]
  | |- has _ _ (secp256k1_fe_negate _ _) => eapply has_negate; [fe_rule|fe_side|fe_side]
  | |- has _ _ (secp256k1_fe_mul_int _ _) => eapply has_mul_int; [fe_rule|fe_side|fe_side|fe_side]
  | |- has _ _ (secp256k1_fe_normalize_weak _) => eapply has_weak; [fe_rule|fe_side]
  | |- has _ _ (secp256k1_fe_set_int _) => eapply has_set_int; fe_side
  | |- has _ _ (secp256k1_fe_inv _) => eapply has_inv; [fe_rule|fe_side|eassumption]
  | |- has _ _ (secp256k1_fe_cmov ?r ?a ?f) =>
      let f' := eval vm_compute in f in change f with f';
      lazymatch f' with
      | 0%Z => eapply has_cmov_keep; [fe_rule|fe_rule|fe_side|fe_side]
      | 1%Z => eapply has_cmov_take; [fe_rule|fe_side]
      end
  | |- has _ _ _ => eassumption
  end.

(** One statement: the fact about the variable it assigns; a variable of another
    type keeps its equation. *)
Ltac fe_step :=
  lazymatch goal with
  | |- ensures (let x := ?e in @?R x) ?Q =>
      apply (ensures_let e R Q); let y := fresh x in let Ey := fresh "E" y in intros y Ey; cbv beta;
      lazymatch type of e with
      | secp256k1_fe =>
          let H := fresh "I" y in eassert (H : has _ _ y) by (rewrite Ey; fe_rule);
          lazymatch type of H with has ?m ?v ?a =>
            let m' := eval vm_compute in m in change (has m' v a) in H end;
          clear Ey
      | _ => idtac
      end
  end.

Ltac fe_run := repeat fe_step.

End GroupFacts.
