(* ===== verification/GroupOps.v ===== *)
(** * Correctness of the point arithmetic

    A point in Jacobian coordinates represents a point of the curve; doubling
    and the four additions of [Group] compute the chord-and-tangent addition of
    [Curve] on what their arguments represent, in every case. *)

From Stdlib Require Import ZArith Lia List Ring Field Zmod.
From stdpp Require Import base list.
From S2P Require Import Prelude Words Field FieldFacts FieldOps FieldExp Curve CurveFacts Group GroupFacts.
Local Open Scope Z_scope.

Module GroupOps.
Import Field FieldFacts FieldOps FieldExp Curve CurveFacts Group GroupFacts.
Local Open Scope F_scope.

(** ** What a point in memory stands for *)

(** Coordinates have magnitude at most 8; the coordinates of a point whose
    infinity flag is set do not matter. *)
Definition represents (a : secp256k1_gej) (p : point) : Prop :=
  match p with
  | Infinity => infinity a = 1%Z
  | Affine x y => infinity a = 0%Z /\ exists z, z <> 0 /\
      has 8 (x * z * z) (jx a) /\ has 8 (y * z * z * z) (jy a) /\ has 8 z (jz a)
  end.

(** The same on an isomorphic curve: all z coordinates are divided by [u]. *)
Definition represents_at (u : F) (a : secp256k1_gej) (p : point) : Prop :=
  match p with
  | Infinity => infinity a = 1%Z
  | Affine x y => infinity a = 0%Z /\ exists z, z <> 0 /\
      has 8 (x * (z * u) * (z * u)) (jx a) /\ has 8 (y * (z * u) * (z * u) * (z * u)) (jy a) /\ has 8 z (jz a)
  end.

Definition represents_ge_at (u : F) (a : secp256k1_ge) (p : point) : Prop :=
  match p with
  | Infinity => ge_infinity a = 1%Z
  | Affine x y => ge_infinity a = 0%Z /\ has 8 (x * u * u) (gx a) /\ has 8 (y * u * u * u) (gy a)
  end.

Definition represents_ge (a : secp256k1_ge) (p : point) : Prop :=
  match p with
  | Infinity => ge_infinity a = 1%Z
  | Affine x y => ge_infinity a = 0%Z /\ has 8 x (gx a) /\ has 8 y (gy a)
  end.

Lemma has_eq m v w a : has m v a -> (m <= 8)%Z -> v = w -> has 8 w a.
Proof. intros H Hm <-. by eapply has_mono. Qed.

Lemma represents_one a p : represents_at 1 a p <-> represents a p.
Proof.
  destruct p as [|x y]; [done|]. split; intros (Hi & z & Hz & Hx & Hy & Hjz);
    (split; [done|]; exists z; split_and!; [done| | |done]; (eapply has_eq; [eassumption|lia|ring])).
Qed.

Lemma represents_ge_one a p : represents_ge_at 1 a p <-> represents_ge a p.
Proof.
  destruct p as [|x y]; [done|]. split; intros (Hi & Hx & Hy);
    (split; [done|]; split; (eapply has_eq; [eassumption|lia|ring])).
Qed.


(** ** Doubling *)

(** The z coordinate of the result is that of [a] times the ratio. *)
Definition ratio (a r : secp256k1_gej) (rzr : option secp256k1_fe) : Prop :=
  match rzr with
  | None => True
  | Some q => magnitude 8 q /\ ev (jz r) = ev (jz a) * ev q
  end.

Lemma ratio_put (a r : secp256k1_gej) rzr q m x y z :
  has m x q -> (m <= 8)%Z -> ev (jz a) = y -> ev (jz r) = z -> z = y * x -> ratio a r (put_rzr rzr q).
Proof.
  intros [Hq <-] Hm <- <- E. destruct rzr; [|done]. split; [by eapply magnitude_mono|done].
Qed.

Lemma double_affine u r a x y rzr :
  u <> 0 -> represents_at u a (Affine x y) -> curve x y ->
  ensures (secp256k1_gej_double_var r a rzr) (fun res =>
    represents_at u (fst res) (add (Affine x y) (Affine x y)) /\ ratio a (fst res) (snd res)).
Proof.
  intros Hu. destruct a as [ax ay az ai]. intros (Hi & z & Hz & Hx & Hy & Hjz) Hc. cbn [jx jy jz infinity] in *. subst ai.
  assert (Hy0 := curve_y_nz x y Hc). assert (H2 := two_nz).
  assert (Hyy : y + y <> 0).
  { intros E. assert (E' : fe 2 * y = 0) by (rewrite <- E; ring). apply mul_zero in E' as [?|?]; done. }
  cbv beta iota delta [secp256k1_gej_double_var negb Z.eqb infinity jx jy jz].
  fe_run. unfold ensures, add. cbn [fst snd]. rewrite decide_True by done. rewrite decide_False by done.
  split.
  - split; [done|]. exists (fe 2 * (z * (y * (z * u) * (z * u) * (z * u)))). cbn [jx jy jz]. split_and!.
    + auto 12 using nz_mul.
    + eapply has_eq; [eassumption|lia|]. field. done.
    + eapply has_eq; [eassumption|lia|]. field. done.
    + eapply has_eq; [eassumption|lia|done].
  - subst rzr0. eapply ratio_put; [fe_rule|lia|apply Hjz|apply Iz1|]. ring.
Qed.

(** ** Addition *)

(** A difference of coordinates brought to a common denominator vanishes with
    the difference of the coordinates. *)
Lemma scaled_zero (d x y c : F) : d = (y - x) * c -> c <> 0 -> d = 0 <-> x = y.
Proof.
  intros -> Hc. split; [|intros ->; ring]. intros [E|?]%mul_zero; [|done]. symmetry. by apply sub_zero.
Qed.

(** A test in the code against the test on the curve. *)
Ltac fe_test I E :=
  lazymatch type of I with has _ ?v ?h =>
    rewrite (zero_var_decide _ _ _ I) by lia; destruct (bool_decide_reflect (v = 0)) as [E|E]
  end.

Ltac has_ring := eapply has_eq; [eassumption|lia|first [done|ring]].
Ltac has_field := eapply has_eq; [eassumption|lia|field; auto using sub_nz].

Lemma add_finite r a b x1 y1 x2 y2 rzr :
  represents a (Affine x1 y1) -> represents b (Affine x2 y2) -> curve x1 y1 -> curve x2 y2 ->
  ensures (secp256k1_gej_add_var r a b rzr) (fun res =>
    represents (fst res) (add (Affine x1 y1) (Affine x2 y2)) /\
    (infinity (fst res) = 0%Z -> ratio a (fst res) (snd res))).
Proof.
  intros Ha Hb Hc1 Hc2. assert (Hd := fun r => double_affine 1 r a x1 y1 rzr one_nz (proj2 (represents_one _ _) Ha) Hc1).
  destruct a as [ax ay az ai], b as [bx b_y bz bi].
  destruct Ha as (Hi1 & z1 & Hz1 & Hx1 & Hy1 & Hjz1), Hb as (Hi2 & z2 & Hz2 & Hx2 & Hy2 & Hjz2).
  cbn [jx jy jz infinity] in *. subst ai bi.
  cbv beta iota delta [secp256k1_gej_add_var negb Z.eqb infinity jx jy jz].
  fe_run. fe_test Ih0 Eh.
  - eapply (scaled_zero _ x1 x2 (z1 * z1 * z2 * z2)) in Eh as ->; [|ring|auto using nz_mul].
    fe_test Ii0 Ei.
    + eapply (scaled_zero _ y1 y2 (z1 * z1 * z1 * z2 * z2 * z2)) in Ei as ->; [|ring|auto 8 using nz_mul].
      destruct (Hd (mkGej (jx r) (jy r) (jz r) 0)) as [H1 H2]. split; [by apply represents_one|done].
    + destruct (same_x_same_or_opposite x2 y1 y2 Hc1 Hc2) as [->|Ho]; [exfalso; apply Ei; ring|].
      unfold ensures. rewrite add_opposite by done. split; [reflexivity|]. cbn. lia.
  - assert (Hx : x1 <> x2) by (intros ->; apply Eh; ring). assert (Hx' := not_eq_sym Hx).
    fe_run. unfold ensures, add. cbn [fst snd]. rewrite decide_False by done. split.
    + split; [done|]. exists (z1 * ((x2 - x1) * z1 * z1 * z2 * z2 * z2)). cbn [jx jy jz]. split_and!.
      * auto 9 using nz_mul, sub_nz.
      * has_field.
      * has_field.
      * has_ring.
    + intros _. subst rzr0. eapply ratio_put; [eassumption|lia|apply Hjz1|apply Iz|]. ring.
Qed.

Lemma add_ge_finite u r a b x1 y1 x2 y2 rzr :
  u <> 0 -> represents_at u a (Affine x1 y1) -> represents_ge_at u b (Affine x2 y2) -> curve x1 y1 -> curve x2 y2 ->
  ensures (secp256k1_gej_add_ge_var r a b rzr) (fun res =>
    represents_at u (fst res) (add (Affine x1 y1) (Affine x2 y2)) /\
    (infinity (fst res) = 0%Z -> ratio a (fst res) (snd res))).
Proof.
  intros Hu Ha Hb Hc1 Hc2. assert (Hd := fun r => double_affine u r a x1 y1 rzr Hu Ha Hc1).
  destruct a as [ax ay az ai], b as [bx b_y bi].
  destruct Ha as (Hi1 & z1 & Hz1 & Hx1 & Hy1 & Hjz1), Hb as (Hi2 & Hx2 & Hy2).
  cbn [jx jy jz infinity gx gy ge_infinity] in *. subst ai bi.
  cbv beta iota delta [secp256k1_gej_add_ge_var negb Z.eqb infinity jx jy jz gx gy ge_infinity].
  fe_run. fe_test Ih0 Eh.
  - eapply (scaled_zero _ x1 x2 (z1 * z1 * u * u)) in Eh as ->; [|ring|auto using nz_mul].
    fe_test Ii0 Ei.
    + eapply (scaled_zero _ y1 y2 (z1 * z1 * z1 * u * u * u)) in Ei as ->; [|ring|auto 8 using nz_mul].
      destruct (Hd (mkGej (jx r) (jy r) (jz r) 0)) as [H1 H2]. split; [exact H1|done].
    + destruct (same_x_same_or_opposite x2 y1 y2 Hc1 Hc2) as [->|Ho]; [exfalso; apply Ei; ring|].
      unfold ensures. rewrite add_opposite by done. split; [reflexivity|]. cbn. lia.
  - assert (Hx : x1 <> x2) by (intros ->; apply Eh; ring). assert (Hx' := not_eq_sym Hx).
    fe_run. unfold ensures, add. cbn [fst snd]. rewrite decide_False by done. split.
    + split; [done|]. exists (z1 * ((x2 - x1) * z1 * z1 * u * u)). cbn [jx jy jz]. split_and!.
      * auto 9 using nz_mul, sub_nz.
      * has_field.
      * has_field.
      * has_ring.
    + intros _. subst rzr0. eapply ratio_put; [exact Ih0|lia|apply Hjz1|apply Iz|]. ring.
Qed.

(** [b] with the z coordinate [1 / bzinv]. *)
Definition represents_zinv (u : F) (b : secp256k1_ge) (bzinv : secp256k1_fe) (q : point) : Prop :=
  match q with
  | Infinity => ge_infinity b = 1%Z
  | Affine x y => ge_infinity b = 0%Z /\ exists w, w <> 0 /\ has 8 w bzinv /\
      has 8 (x * (u / w) * (u / w)) (gx b) /\ has 8 (y * (u / w) * (u / w) * (u / w)) (gy b)
  end.

Lemma add_zinv_finite u r a b bzinv x1 y1 x2 y2 :
  u <> 0 -> represents_at u a (Affine x1 y1) -> represents_zinv u b bzinv (Affine x2 y2) ->
  curve x1 y1 -> curve x2 y2 ->
  ensures (secp256k1_gej_add_zinv_var r a b bzinv) (fun res =>
    represents_at u res (add (Affine x1 y1) (Affine x2 y2))).
Proof.
  intros Hu Ha Hb Hc1 Hc2. assert (Hd := fun r => double_affine u r a x1 y1 None Hu Ha Hc1).
  destruct a as [ax ay az ai], b as [bx b_y bi].
  destruct Ha as (Hi1 & z1 & Hz1 & Hx1 & Hy1 & Hjz1), Hb as (Hi2 & w & Hw & Hwi & Hx2 & Hy2).
  cbn [jx jy jz infinity gx gy ge_infinity] in *. subst ai bi.
  cbv beta iota delta [secp256k1_gej_add_zinv_var negb Z.eqb infinity jx jy jz gx gy ge_infinity].
  fe_run. fe_test Ih0 Eh.
  - eapply (scaled_zero _ x1 x2 (z1 * z1 * u * u)) in Eh as ->; [|by field|auto using nz_mul].
    fe_test Ii0 Ei.
    + eapply (scaled_zero _ y1 y2 (z1 * z1 * z1 * u * u * u)) in Ei as ->; [|by field|auto 8 using nz_mul].
      destruct (Hd (mkGej (jx r) (jy r) (jz r) 0)) as [H1 _]. exact H1.
    + destruct (same_x_same_or_opposite x2 y1 y2 Hc1 Hc2) as [->|Ho]; [exfalso; apply Ei; by field|].
      unfold ensures. rewrite add_opposite by done. reflexivity.
  - assert (Hx : x1 <> x2) by (intros ->; apply Eh; by field). assert (Hx' := not_eq_sym Hx).
    fe_run. unfold ensures, add. rewrite decide_False by done.
    split; [done|]. exists (z1 * ((x2 - x1) * z1 * z1 * u * u)). cbn [jx jy jz]. split_and!.
    + auto 9 using nz_mul, sub_nz.
    + has_field.
    + has_field.
    + has_field.
Qed.

(** ** The unified formula *)

(** What the second half of the code computes from numerator [n] and
    denominator [d] of the slope. *)
Lemma unified_result z1 n d x1 y1 x2 y2 :
  curve x1 y1 -> curve x2 y2 -> z1 <> 0 -> d <> 0 -> ~ (x1 = x2 /\ y1 + y2 = 0) ->
  n * (x1 - x2) = (y1 - y2) * d -> n * (y1 + y2) = (x1 * x1 + x1 * x2 + x2 * x2) * d ->
  let D := d * (z1 * z1 * z1) in let N := n * (z1 * z1 * z1 * z1) in
  let t := (x1 + x2) * (z1 * z1) in let Z := fe 2 * (z1 * D) in
  let X := N * N - D * D * t in
  exists x3 y3, add (Affine x1 y1) (Affine x2 y2) = Affine x3 y3 /\ Z <> 0 /\
    fe 4 * X = x3 * Z * Z /\
    fe 4 * - ((fe 2 * X - D * D * t) * N + (y1 + y2) * (z1 * z1 * z1) * D * D * D) = y3 * Z * Z * Z.
Proof.
  intros Hc1 Hc2 Hz Hd Hno E1 E2 D N t Z X. assert (H2 := two_nz).
  eexists _, _. split; [apply (add_symmetric (n / d)); try done|].
  - transitivity (n * (x1 - x2) / d); [by field|]. rewrite E1. by field.
  - transitivity (n * (y1 + y2) / d); [by field|]. rewrite E2. by field.
  - split; [unfold Z, D; auto 9 using nz_mul|]. unfold X, Z, N, D, t. split; by field.
Qed.

Lemma unified_at (u v : F) : u <> 0 -> v <> 0 -> v / u <> 0.
Proof. intros Hu Hv E. apply Hv. transitivity (v / u * u); [by field|rewrite E; ring]. Qed.

Lemma quotient_times (u v : F) : u <> 0 -> v / u * u = v.
Proof. intros Hu. by field. Qed.

Lemma flag_land b c : Z.land (b2z b) (b2z c) = b2z (b && c).
Proof. by destruct b, c. Qed.

Lemma factor_zero (v d c : F) : v = d * c -> c <> 0 -> v = 0 -> d = 0.
Proof. intros -> Hc [?|?]%mul_zero; done. Qed.

Lemma unified_finite u a b x1 y1 x2 y2 :
  u <> 0 -> represents_at u a (Affine x1 y1) -> represents_ge_at u b (Affine x2 y2) -> curve x1 y1 -> curve x2 y2 ->
  ensures (secp256k1_gej_add_ge a b) (fun res => represents_at u res (add (Affine x1 y1) (Affine x2 y2))).
Proof.
  intros Hu Ha Hb Hc1 Hc2.
  destruct a as [ax ay az ai], b as [bx b_y bi].
  destruct Ha as (Hi1 & z1 & Hz1 & Hx1 & Hy1 & Hjz1), Hb as (Hi2 & Hx2 & Hy2).
  cbn [jx jy jz infinity gx gy ge_infinity] in *. subst ai bi.
  assert (Hs := slopes x1 y1 x2 y2 Hc1 Hc2). assert (Hw : z1 * u <> 0) by auto using nz_mul.
  assert (If1 : has 1 1 fe_1) by (split; [unfold magnitude; vm_compute; intuition congruence|by apply fe_eq]).
  cbv beta iota delta [secp256k1_gej_add_ge infinity jx jy jz gx gy].
  fe_run. rewrite flag_land, (zero_decide _ _ _ Im), (zero_decide _ _ _ Irr0) in Edegenerate by lia.
  rewrite <- bool_decide_and in Edegenerate.
  lazymatch type of Im with has _ ?v _ => set (M := v) in * end.
  assert (EM : M = (y1 + y2) * (z1 * u * (z1 * u) * (z1 * u))) by (unfold M; ring).
  lazymatch type of Irr0 with has _ ?v _ => set (RR := v) in * end.
  assert (ER : RR = (x1 * x1 + x1 * x2 + x2 * x2) * (z1 * u * (z1 * u) * (z1 * u) * (z1 * u))) by (unfold RR; ring).
  destruct (bool_decide_reflect (M = 0 /\ RR = 0)) as [[HM HR]|Hnd];
    cbn [b2z] in Edegenerate; subst degenerate; fe_run; unfold ensures.
  - apply (factor_zero _ _ _ EM) in HM as Ey; [|auto using nz_mul].
    apply (factor_zero _ _ _ ER) in HR as Ex; [|auto using nz_mul].
    destruct (decide (x1 = x2)) as [->|Hx].
    + rewrite add_opposite by done. rewrite (zero_true _ _ _ Iz) in Einfinity' by (lia || ring). done.
    + destruct (unified_result (z1 * u) (fe 2 * y1 / (z1 * u)) ((x1 - x2) / (z1 * u)) x1 y1 x2 y2) as (x' & y' & -> & Hz & EX & EY);
        [exact Hc1|exact Hc2|exact Hw|..].
      * intros E. apply Hx, sub_zero. transitivity ((x1 - x2) / (z1 * u) * (z1 * u)); [by field|rewrite E; ring].
      * tauto.
      * transitivity ((y1 - y2 + (y1 + y2)) * ((x1 - x2) / (z1 * u))); [by field|rewrite Ey; by field].
      * rewrite Ey, Ex. by field.
      * apply (unified_at u) in Hz; [|done]. split.
        -- cbn [infinity]. rewrite (zero_false _ _ _ Iz) in Einfinity'; [done|lia|].
           intros E. apply Hz. transitivity (fe 2 * (z1 * (- (x2 * u * u * (z1 * z1)) + x1 * (z1 * u) * (z1 * u)))); [by field|].
           rewrite E. ring.
        -- eexists. split; [exact Hz|]. cbn [jx jy jz]. rewrite !quotient_times by done. split_and!.
           ++ eapply has_eq; [exact Ix3|lia|]. rewrite <- EX. by field.
           ++ eapply has_eq; [exact Iy4|lia|]. rewrite <- EY, HM, Ey. by field.
           ++ eapply has_eq; [exact Iz2|lia|]. by field.
  - destruct (decide (y1 + y2 = 0)) as [Ey|Ey].
    + assert (x1 = x2) as ->.
      { apply sub_zero. rewrite Ey in Hs. assert (Hs' : (x1 * x1 + x1 * x2 + x2 * x2) * (x1 - x2) = 0) by (rewrite Hs; ring).
        apply mul_zero in Hs' as [E|E]; [|done]. exfalso. apply Hnd. split; [rewrite EM, Ey|rewrite ER, E]; ring. }
      rewrite add_opposite by done.
      rewrite (zero_true _ _ _ Iz) in Einfinity'; [done|lia|]. rewrite EM, Ey. ring.
    + destruct (unified_result (z1 * u) (x1 * x1 + x1 * x2 + x2 * x2) (y1 + y2) x1 y1 x2 y2)
        as (x' & y' & -> & Hz & EX & EY); [exact Hc1|exact Hc2|exact Hw|exact Ey|tauto|exact Hs|reflexivity|].
      apply (unified_at u) in Hz; [|done]. split.
      * cbn [infinity]. rewrite (zero_false _ _ _ Iz) in Einfinity'; [done|lia|].
        intros E. apply Hz. transitivity (fe 2 * (z1 * M)); [rewrite EM; by field|rewrite E; ring].
      * eexists. split; [exact Hz|]. cbn [jx jy jz]. rewrite !quotient_times by done. split_and!.
        -- eapply has_eq; [exact Ix3|lia|]. rewrite <- EX, ER, EM. ring.
        -- eapply has_eq; [exact Iy4|lia|]. rewrite <- EY, ER, EM. ring.
        -- eapply has_eq; [exact Iz2|lia|]. rewrite EM. by field.
Qed.

End GroupOps.
