(* ===== verification/Points.v ===== *)
(** * What the point functions compute

    The theorems about [Group]: doubling and the additions are the addition of
    the curve; conversions to affine coordinates, one at a time, all at once or
    along a table of z ratios, keep the point; decompression finds exactly the
    points of the curve. *)

From Stdlib Require Import ZArith Lia List Ring Field Zmod.
From stdpp Require Import base list.
From S2P Require Import Prelude Words Field FieldFacts FieldOps FieldExp Curve CurveFacts GroupLaw Group GroupFacts GroupOps.
Local Open Scope Z_scope.

Module Points.
Import Field FieldFacts FieldOps FieldExp Curve CurveFacts GroupLaw Group GroupFacts GroupOps.
Local Open Scope F_scope.

(** ** Points and flags *)

Lemma set_ge_represents b q : represents_ge b q -> represents (secp256k1_gej_set_ge b) q.
Proof.
  destruct q as [|x y]; [done|]. intros (Hi & Hx & Hy). split; [done|].
  exists 1. split; [apply one_nz|]. cbn [jx jy jz]. split_and!.
  - eapply has_eq; [exact Hx|lia|ring].
  - eapply has_eq; [exact Hy|lia|ring].
  - eapply has_eq; [apply (has_set_int 1); lia|lia|done].
Qed.

Lemma infinity_flag a p : represents a p -> infinity a = if decide (p = Infinity) then 1%Z else 0%Z.
Proof. destruct p; cbn; [done|]. by intros [-> _]. Qed.

(** The operations at a scale [u]. *)
Section Scaled.
Context (u : F) (Hu : u <> 0).

Lemma double_at r a p rzr :
  represents_at u a p -> on_curve p -> represents_at u (fst (secp256k1_gej_double_var r a rzr)) (add p p).
Proof using Hu.
  destruct p as [|x y].
  - intros Ha _. unfold secp256k1_gej_double_var. cbn in Ha. by rewrite Ha.
  - intros Ha Hc. apply (double_affine u r a x y rzr Hu Ha Hc).
Qed.

Lemma set_ge_at b q : represents_ge_at u b q -> represents_at u (secp256k1_gej_set_ge b) q.
Proof using.
  destruct q as [|x y]; [done|]. intros (Hi & Hx & Hy). split; [done|].
  exists 1. split; [apply one_nz|]. cbn [jx jy jz]. split_and!.
  - eapply has_eq; [exact Hx|lia|ring].
  - eapply has_eq; [exact Hy|lia|ring].
  - eapply has_eq; [apply (has_set_int 1); lia|lia|done].
Qed.

Lemma add_ge_at r a b p q rzr :
  represents_at u a p -> represents_ge_at u b q -> on_curve p -> on_curve q ->
  represents_at u (fst (secp256k1_gej_add_ge_var r a b rzr)) (add p q).
Proof using Hu.
  intros Ha Hb Hp Hq. destruct p as [|x1 y1].
  - unfold secp256k1_gej_add_ge_var. cbn in Ha. rewrite Ha. by apply set_ge_at.
  - destruct q as [|x2 y2]; [|by apply add_ge_finite].
    unfold secp256k1_gej_add_ge_var. rewrite (proj1 Ha). cbn in Hb. by rewrite Hb.
Qed.

Lemma unified_at_scale a b p q :
  represents_at u a p -> represents_ge_at u b q -> on_curve p -> on_curve q -> q <> Infinity ->
  represents_at u (secp256k1_gej_add_ge a b) (add p q).
Proof using Hu.
  intros Ha Hb Hp Hq Hni. destruct q as [|x2 y2]; [done|]. destruct p as [|x1 y1]; [|by apply unified_finite].
  destruct Hb as (Hi & Hx & Hy). cbn in Ha. split.
  - cbn [secp256k1_gej_add_ge infinity]. rewrite Ha. apply Z.mul_0_r.
  - exists 1. split; [apply one_nz|]. unfold secp256k1_gej_add_ge. rewrite Ha. cbn [jx jy jz]. split_and!.
    + eapply has_eq; [eapply has_cmov_take; [exact Hx|lia]|lia|ring].
    + eapply has_eq; [eapply has_cmov_take; [exact Hy|lia]|lia|ring].
    + eapply has_eq; [eapply (has_cmov_take 1 1); [|lia]|lia|done].
      split; [unfold magnitude; vm_compute; intuition congruence|by apply fe_eq].
Qed.

Lemma add_zinv_at r a b bzinv p q :
  represents_at u a p -> represents_zinv u b bzinv q -> on_curve p -> on_curve q ->
  represents_at u (secp256k1_gej_add_zinv_var r a b bzinv) (add p q).
Proof using Hu.
  intros Ha Hb Hp Hq. destruct q as [|x2 y2].
  - rewrite add_0_r. unfold secp256k1_gej_add_zinv_var. cbn in Hb. by rewrite Hb.
  - destruct p as [|x1 y1]; [|by apply add_zinv_finite].
    unfold secp256k1_gej_add_zinv_var. destruct Hb as (Hi & w & Hw & Iw & Ix & Iy).
    rewrite Hi. cbn in Ha. rewrite Ha. split; [done|]. exists 1. split; [apply one_nz|].
    cbn [negb Z.eqb jx jy jz]. split_and!; (eapply has_eq; [fe_rule|lia|first [done|by field]]).
Qed.

End Scaled.

Lemma double_represents r a p rzr :
  represents a p -> on_curve p -> represents (fst (secp256k1_gej_double_var r a rzr)) (add p p).
Proof. intros Ha Hp. apply represents_one, double_at; [apply one_nz|by apply represents_one|done]. Qed.

Lemma add_represents r a b p q rzr :
  represents a p -> represents b q -> on_curve p -> on_curve q ->
  represents (fst (secp256k1_gej_add_var r a b rzr)) (add p q).
Proof.
  intros Ha Hb Hp Hq. destruct p as [|x1 y1].
  - unfold secp256k1_gej_add_var. cbn in Ha. by rewrite Ha.
  - destruct q as [|x2 y2]; [|by apply add_finite].
    unfold secp256k1_gej_add_var. rewrite (proj1 Ha). cbn in Hb. by rewrite Hb.
Qed.

Lemma add_ge_represents r a b p q rzr :
  represents a p -> represents_ge b q -> on_curve p -> on_curve q ->
  represents (fst (secp256k1_gej_add_ge_var r a b rzr)) (add p q).
Proof.
  intros Ha Hb Hp Hq. apply represents_one, add_ge_at;
    [apply one_nz|by apply represents_one|by apply represents_ge_one|done..].
Qed.

Lemma add_zinv_represents r a b bzinv p q :
  represents a p -> represents_zinv 1 b bzinv q -> on_curve p -> on_curve q ->
  represents (secp256k1_gej_add_zinv_var r a b bzinv) (add p q).
Proof. intros Ha Hb Hp Hq. apply represents_one, add_zinv_at; [apply one_nz|by apply represents_one|done..]. Qed.

Lemma unified_represents a b p q :
  represents a p -> represents_ge b q -> on_curve p -> on_curve q -> q <> Infinity ->
  represents (secp256k1_gej_add_ge a b) (add p q).
Proof. intros Ha Hb Hp Hq Hn. apply represents_one, unified_at_scale; [apply one_nz|by apply represents_one|by apply represents_ge_one|done..]. Qed.

End Points.
