(* ===== verification/PointConv.v ===== *)
(** * Converting, testing and storing points

    Conversions to affine coordinates, one at a time, all at once or along a
    table of z ratios, keep the point; negation, validity, comparison of
    abscissas, storage and decompression do what their names say. *)

From Stdlib Require Import ZArith Lia List Ring Field Zmod.
From stdpp Require Import base list.
From S2P Require Import Prelude Words Field FieldFacts FieldOps FieldExp Curve CurveFacts GroupLaw GroupAssoc.
From S2P Require Import PointMul PointOrder Group GroupFacts GroupOps Points.
Local Open Scope Z_scope.

Module PointConv.
Import Field FieldFacts FieldOps FieldExp Curve CurveFacts GroupLaw GroupAssoc PointOrder.
Import Group GroupFacts GroupOps Points.
Local Open Scope F_scope.

(** ** Exact field elements *)

(** [a] is the canonical form of [v]. *)
Definition exact (v : F) (a : secp256k1_fe) : Prop := normalized a /\ val a = Zmod.to_Z v.

Lemma fe_to_Z (v : F) : fe (Zmod.to_Z v) = v.
Proof. apply Zmod.of_Z_to_Z. Qed.

Lemma to_Z_fe z : Zmod.to_Z (fe z) = (z mod P)%Z.
Proof. apply Zmod.unsigned_of_Z. Qed.

Lemma exact_has v a : exact v a -> has 1 v a.
Proof. intros [Hn Hv]. split; [by apply normalized_magnitude|]. unfold ev. by rewrite Hv, fe_to_Z. Qed.

Lemma normalize_exact m v a : has m v a -> (0 <= m <= 2047)%Z -> exact v (secp256k1_fe_normalize a).
Proof.
  intros [Ha <-] Hm. destruct (normalize_ensures m a Ha Hm) as [Hn Hv]. split; [done|].
  unfold ev. by rewrite Hv, to_Z_fe.
Qed.

Lemma normalize_var_exact m v a : has m v a -> (0 <= m <= 2047)%Z -> exact v (secp256k1_fe_normalize_var a).
Proof. intros Ha Hm. rewrite (normalize_var_same m) by (apply Ha || done). by eapply normalize_exact. Qed.

Lemma exact_odd v a : exact v a -> secp256k1_fe_is_odd a = (Zmod.to_Z v mod 2)%Z.
Proof. intros [Hn <-]. by apply is_odd_spec. Qed.

Lemma exact_inj v a b : exact v a -> exact v b -> a = b.
Proof. intros [Ha Ea] [Hb Eb]. apply normalized_inj; [done..|]. by rewrite Ea, Eb. Qed.

(** ** One point *)

(** Coordinates at the effective scale [t]. *)
Definition at_scale (t : F) (a : secp256k1_gej) (x y : F) : Prop :=
  infinity a = 0%Z /\ has 8 (x * t * t) (jx a) /\ has 8 (y * t * t * t) (jy a).

Lemma zinv_scale t w a zi x y m :
  at_scale t a x y -> has m w zi -> (m <= 8)%Z ->
  represents_ge_at (t * w) (secp256k1_ge_set_gej_zinv a zi) (Affine x y).
Proof.
  intros (Hi & Hx & Hy) Hw Hm. split; [done|]. cbn [secp256k1_ge_set_gej_zinv gx gy].
  split; (eapply has_eq; [fe_rule|lia|ring]).
Qed.

Lemma represents_scale a x y :
  represents a (Affine x y) -> exists z, z <> 0 /\ at_scale z a x y /\ has 8 z (jz a).
Proof. intros (Hi & z & Hz & Hx & Hy & Hjz). by exists z. Qed.

Lemma set_gej_represents a p :
  represents a p -> represents_ge (fst (secp256k1_ge_set_gej a)) p /\ represents (snd (secp256k1_ge_set_gej a)) p.
Proof.
  destruct p as [|x y]; [done|]. intros (z & Hz & (Hi & Hx & Hy) & Hjz)%represents_scale.
  cbn [secp256k1_ge_set_gej fst snd].
  assert (Hzi : has 1 (1 / z) (secp256k1_fe_inv (jz a))) by (eapply has_inv; [exact Hjz|lia|done]).
  split.
  - split; [done|]. cbn [gx gy]. split; (eapply has_eq; [fe_rule|lia|by field]).
  - split; [done|]. exists 1. split; [apply one_nz|]. cbn [jx jy jz].
    split; [|split]; (eapply has_eq; [fe_rule|lia|by field]).
Qed.

Lemma set_gej_var_represents r a p :
  represents a p ->
  represents_ge (fst (secp256k1_ge_set_gej_var r a)) p /\ represents (snd (secp256k1_ge_set_gej_var r a)) p.
Proof.
  intros Ha. assert (Hf := infinity_flag a p Ha). case_decide as Hp.
  - subst p. unfold secp256k1_ge_set_gej_var. rewrite Hf. split; done.
  - replace (secp256k1_ge_set_gej_var r a) with (secp256k1_ge_set_gej a); [by apply set_gej_represents|].
    unfold secp256k1_ge_set_gej_var. by destruct (infinity a =? 0)%Z eqn:E; [|rewrite Hf in E].
Qed.

Lemma ge_neg_represents_at u a p : represents_ge_at u a p -> represents_ge_at u (secp256k1_ge_neg a) (neg p).
Proof.
  destruct p as [|x y]; [done|]. intros (Hi & Hx & Hy). split; [done|]. cbn [secp256k1_ge_neg gx gy].
  split; [done|]. eapply has_eq; [fe_rule|lia|ring].
Qed.

Lemma ge_neg_represents a p : represents_ge a p -> represents_ge (secp256k1_ge_neg a) (neg p).
Proof. intros Ha. by apply represents_ge_one, ge_neg_represents_at, represents_ge_one. Qed.

Lemma gej_neg_represents a p : represents a p -> represents (secp256k1_gej_neg a) (neg p).
Proof.
  destruct p as [|x y]; [done|]. intros (Hi & z & Hz & Hx & Hy & Hjz). split; [done|].
  exists z. split; [done|]. cbn [secp256k1_gej_neg jx jy jz]. split; [done|].
  split; [eapply has_eq; [fe_rule|lia|ring]|done].
Qed.

Lemma rescale_represents a s p w :
  represents a p -> has 8 w s -> w <> 0 -> represents (secp256k1_gej_rescale a s) p.
Proof.
  destruct p as [|x y]; [done|]. intros (Hi & z & Hz & Hx & Hy & Hjz) Hs Hw. split; [done|].
  exists (z * w). split; [by apply nz_mul|]. cbn [secp256k1_gej_rescale jx jy jz].
  split; [|split]; (eapply has_eq; [fe_rule|lia|ring]).
Qed.

Lemma mul_lambda_represents_at u a p :
  represents_ge_at u a p -> represents_ge_at u (secp256k1_ge_mul_lambda a) (endo p).
Proof.
  destruct p as [|x y]; [done|]. intros (Hi & Hx & Hy). split; [done|].
  assert (Hb : has 1 (fe beta_Z) beta).
  { split; [unfold magnitude; vm_compute; intuition congruence|by apply fe_eq]. }
  cbn [secp256k1_ge_mul_lambda gx gy endo]. split; [|done]. eapply has_eq; [fe_rule|lia|ring].
Qed.

(** ** Tests *)

#[export] Instance curve_dec x y : Decision (curve x y).
Proof. unfold curve. apply _. Defined.

Lemma ge_is_valid_spec a x y m :
  has m x (gx a) -> has m y (gy a) -> (0 <= m <= 8)%Z -> ge_infinity a = 0%Z ->
  secp256k1_ge_is_valid_var a = bool_decide (curve x y).
Proof.
  intros Hx Hy Hm Hi. unfold secp256k1_ge_is_valid_var, CURVE_B. rewrite Hi. cbn [negb Z.eqb]. cbv zeta.
  erewrite equal_var_decide; [reflexivity|fe_rule|fe_rule|lia].
Qed.

Lemma gej_is_valid_spec a x y z :
  z <> 0 -> infinity a = 0%Z -> has 8 (x * z * z) (jx a) -> has 8 (y * z * z * z) (jy a) -> has 8 z (jz a) ->
  secp256k1_gej_is_valid_var a = bool_decide (curve x y).
Proof.
  intros Hz Hi Hx Hy Hjz. unfold secp256k1_gej_is_valid_var, CURVE_B. rewrite Hi. cbn [negb Z.eqb]. cbv zeta.
  erewrite equal_var_decide; [|fe_rule|fe_rule|lia].
  apply bool_decide_ext. unfold curve.
  transitivity ((y * y - (x * x * x + fe 7)) * (z * z * z * z * z * z) = 0).
  - rewrite <- sub_zero. split; intros E; rewrite <- E; ring.
  - split; [|intros E; rewrite E; ring]. intros [E|E]%mul_zero; [by apply sub_zero|].
    by apply (nz_mul (z * z * z * z * z) z) in E; auto 9 using nz_mul.
Qed.

Lemma eq_x_spec x' m v a x y :
  has m v x' -> (m <= 8)%Z -> represents a (Affine x y) -> secp256k1_gej_eq_x_var x' a = bool_decide (v = x).
Proof.
  intros Hv Hm (z & Hz & (Hi & Hx & Hy) & Hjz)%represents_scale. unfold secp256k1_gej_eq_x_var. cbv zeta.
  erewrite equal_var_decide; [|fe_rule|fe_rule|lia].
  apply bool_decide_ext. transitivity ((v - x) * (z * z) = 0).
  - rewrite <- sub_zero. split; intros E; rewrite <- E; ring.
  - split; [|intros ->; ring]. intros [E|E]%mul_zero; [by apply sub_zero|]. by apply nz_mul in E.
Qed.

(** ** Decompression *)

Lemma has_sqrt m v a :
  has m v a -> (m <= 8)%Z ->
  exists r ok y, secp256k1_fe_sqrt a = (r, ok) /\ has 1 y r /\ (exists s, y = s * s) /\
    (ok = true -> y * y = v) /\ (ok = false -> forall y', y' * y' <> v).
Proof.
  intros [Ha <-] Hm. destruct (sqrt_spec a (magnitude_mono _ _ _ Ha Hm)) as (r & ok & E & Hr & Hok & Hv & s & Hs).
  exists r, ok, (ev r). split; [done|]. split; [done|]. split; [|split].
  - exists (fe s). unfold ev. rewrite <- fe_mul. by apply fe_eq.
  - intros H. unfold ev. rewrite <- fe_mul. by apply fe_eq, Hv.
  - intros -> y' Hy. assert (false = true) as H; [|discriminate H]. apply Hok. exists (Zmod.to_Z y').
    apply fe_eq. by rewrite fe_mul, fe_to_Z.
Qed.

Lemma set_xquad_spec a m x :
  has m x a -> (m <= 8)%Z ->
  let '(r, ok) := secp256k1_ge_set_xquad a in
  gx r = a /\ ge_infinity r = 0%Z /\ exists y, has 1 y (gy r) /\ (exists s, y = s * s) /\
    (ok = true -> curve x y) /\ (ok = false -> forall y', ~ curve x y').
Proof.
  intros Ha Hm. unfold secp256k1_ge_set_xquad, CURVE_B. cbv zeta.
  edestruct has_sqrt as (r & ok & y & -> & Hr & Hs & Ht & Hf); [fe_rule|lia|].
  split; [done|]. split; [done|]. exists y. split; [done|]. split; [done|]. unfold curve. split.
  - intros H. rewrite (Ht H). ring.
  - intros H y' E. apply (Hf H y'). rewrite E. ring.
Qed.

Lemma set_xo_spec a m x odd :
  has m x a -> (m <= 8)%Z -> odd = 0%Z \/ odd = 1%Z ->
  let '(r, ok) := secp256k1_ge_set_xo_var a odd in
  (ok = true -> exists y, curve x y /\ (Zmod.to_Z y mod 2)%Z = odd /\ gx r = a /\ represents_ge r (Affine x y)) /\
  (ok = false -> forall y, ~ curve x y).
Proof.
  intros Ha Hm Hodd. unfold secp256k1_ge_set_xo_var. assert (Hq := set_xquad_spec a m x Ha Hm).
  destruct (secp256k1_ge_set_xquad a) as [r ok]. destruct Hq as (Hgx & Hi & y & Hy & _ & Ht & Hf).
  destruct ok; cbn [negb]; (split; [|done || by intros _; apply Hf]); [|done]. intros _. specialize (Ht eq_refl).
  assert (Hn := normalize_var_exact 1 y _ Hy ltac:(lia)). rewrite (exact_odd y _ Hn). cbv zeta. cbn [gx gy ge_infinity].
  assert (Hx8 : has 8 x (gx r)) by (rewrite Hgx; by eapply has_mono).
  destruct (Z.eqb_spec (Zmod.to_Z y mod 2) odd) as [He|He]; cbn [negb].
  - exists y. split; [done|]. split; [done|]. split; [done|]. split; [done|]. cbn [gx gy]. split; [done|].
    eapply has_mono; [by apply exact_has|lia].
  - exists (- y). split; [unfold curve in *; rewrite <- Ht; ring|]. split.
    { assert (Hp := opposite_parity x y Ht). assert (H1 := Z.mod_pos_bound (Zmod.to_Z y) 2 eq_refl).
      assert (H2 := Z.mod_pos_bound (Zmod.to_Z (- y)) 2 eq_refl). lia. }
    split; [done|]. split; [done|]. cbn [gx gy]. split; [done|]. apply exact_has in Hn.
    eapply has_eq; [fe_rule|lia|done].
Qed.

Lemma has_quad_spec a x y :
  represents a (Affine x y) -> secp256k1_gej_has_quad_y_var a = true <-> exists s, y = s * s.
Proof.
  intros (z & Hz & (Hi & Hx & Hy) & Hjz)%represents_scale. unfold secp256k1_gej_has_quad_y_var. rewrite Hi.
  cbn [negb Z.eqb]. unfold secp256k1_fe_is_quad_var.
  edestruct has_sqrt as (r & ok & w & -> & Hr & _ & Ht & Hf); [fe_rule|lia|]. cbn [snd]. destruct ok.
  - split; [intros _|done]. exists (w / (z * z)). transitivity (w * w / (z * z * z * z)); [|by field].
    rewrite (Ht eq_refl). by field.
  - split; [done|]. intros [s ->]. exfalso. apply (Hf eq_refl (s * z * z)). ring.
Qed.

(** ** Storage *)

(** A stored point: the canonical words of its affine coordinates. *)
Definition stored (s : secp256k1_ge_storage) (p : point) : Prop :=
  match p with
  | Infinity => False
  | Affine x y => exists a b, exact x a /\ exact y b /\
      s = mkGeStorage (secp256k1_fe_to_storage a) (secp256k1_fe_to_storage b)
  end.

Lemma to_storage_stored a p : represents_ge a p -> p <> Infinity -> stored (secp256k1_ge_to_storage a) p.
Proof.
  destruct p as [|x y]; [done|]. intros (Hi & Hx & Hy) _. cbn [stored].
  eexists _, _. split; [eapply normalize_exact; [exact Hx|lia]|]. split; [eapply normalize_exact; [exact Hy|lia]|done].
Qed.

Lemma from_storage_represents s p : stored s p -> represents_ge (secp256k1_ge_from_storage s) p.
Proof.
  destruct p as [|x y]; [done|]. intros (a & b & Ha & Hb & ->). split; [done|].
  cbn [secp256k1_ge_from_storage gsx gsy gx gy]. rewrite !storage_roundtrip by (apply Ha || apply Hb).
  split; (eapply has_mono; [by apply exact_has|lia]).
Qed.

Definition storage_fits (s : secp256k1_ge_storage) : Prop := storage_ok (gsx s) /\ storage_ok (gsy s).

Lemma stored_fits s p : stored s p -> storage_fits s.
Proof.
  destruct p as [|x y]; [done|]. intros (a & b & Ha & Hb & ->).
  split; apply to_storage_spec; [apply Ha|apply Hb].
Qed.

Lemma storage_cmov_select s t flag :
  storage_fits s -> storage_fits t -> flag = 0%Z \/ flag = 1%Z ->
  secp256k1_ge_storage_cmov s t flag = if (flag =? 1)%Z then t else s.
Proof.
  destruct s, t. intros [Hs1 Hs2] [Ht1 Ht2] Hf. unfold secp256k1_ge_storage_cmov. cbn [gsx gsy] in *.
  rewrite !storage_cmov_spec by done. by destruct (flag =? 1)%Z.
Qed.

End PointConv.
