(* ===== verification/Tables.v ===== *)
(** * Tables of points

    Conversion of a whole table to affine coordinates: with one inversion
    ([secp256k1_ge_set_all_gej_var]), along the ratios of the z coordinates
    ([secp256k1_ge_set_table_gej_var]), or to one common denominator
    ([secp256k1_ge_globalz_set_table_gej]). *)

From Stdlib Require Import ZArith Lia List Ring Field Zmod.
From stdpp Require Import base list.
From S2P Require Import Prelude Words Field FieldFacts FieldOps FieldExp Curve CurveFacts GroupLaw.
From S2P Require Import Group GroupFacts GroupOps Points PointConv.
Local Open Scope Z_scope.

Module Tables.
Import Field FieldFacts FieldOps FieldExp Curve CurveFacts GroupLaw Group GroupFacts GroupOps Points PointConv.
Local Open Scope F_scope.

(** ** All at once *)

Definition inverse_of (zi z : secp256k1_fe) : Prop := exists v, v <> 0 /\ has 8 v z /\ has 1 (1 / v) zi.

Lemma inv_all_inverse_of a :
  Forall (fun z => exists v, v <> 0 /\ has 8 v z) a -> Forall2 inverse_of (secp256k1_fe_inv_all_var a) a.
Proof.
  intros Ha. assert (Hu : Forall unit8 a).
  { eapply Forall_impl; [exact Ha|]. intros z (v & Hv & Hm & <-). split; [done|].
    intros E. apply Hv. unfold ev. by apply fe_eq. }
  apply inv_all_spec in Hu. unfold inverses in Hu. revert Ha. induction Hu as [|zi z li l [Hm E] Hu IH]; intros Ha; [constructor|].
  inversion Ha as [|?? (v & Hv & Hz) Ha']; subst. constructor; [|by apply IH]. exists v. split; [done|]. split; [done|].
  split; [done|]. destruct Hz as [_ <-]. change 1%Z with (1 mod P)%Z in E. apply fe_eq in E. rewrite fe_mul in E.
  fold (ev zi) (ev z) in E. rewrite <- E. by field.
Qed.

Lemma spread_inverses_spec r a ps zi :
  length r = length a -> Forall2 represents a ps ->
  Forall2 inverse_of zi (finite_z a) -> Forall2 represents_ge (spread_inverses r a zi) ps.
Proof.
  revert r ps zi. induction a as [|q a IH]; intros [|r0 r] ps zi Hl Ha Hz; try done.
  - inversion Ha; subst. constructor.
  - injection Hl as Hl. inversion Ha as [|? p ? ps' Hq Ha']; subst. cbn [spread_inverses].
    assert (Hf := infinity_flag q p Hq). unfold finite_z in Hz. rewrite filter_cons in Hz.
    case_decide as Hp.
    + subst p. rewrite Hf in Hz |- *. rewrite decide_False in Hz by done. constructor; [done|]. by apply IH.
    + rewrite Hf in Hz. rewrite decide_True in Hz by done. rewrite Hf. cbn [negb Z.eqb].
      cbn [map] in Hz. inversion Hz as [|zi0 z0 zi' ? (v & Hv & Hvz & Hvi) Hz']; subst.
      constructor; [|by apply IH]. destruct p as [|x y]; [done|].
      destruct Hq as (Hi & z & Hzz & Hx & Hy & Hjz).
      assert (v = z) as -> by (destruct Hvz as [_ <-], Hjz as [_ <-]; done).
      split; [done|]. cbn [secp256k1_ge_set_gej_zinv gx gy]. split; (eapply has_eq; [fe_rule|lia|by field]).
Qed.

(** Points of the array that are infinity are skipped; the others share one
    inversion. *)
Lemma set_all_represents r a ps :
  length r = length a -> Forall2 represents a ps ->
  Forall2 represents_ge (secp256k1_ge_set_all_gej_var r a) ps.
Proof.
  intros Hl Ha. unfold secp256k1_ge_set_all_gej_var. apply spread_inverses_spec; [done..|].
  apply inv_all_inverse_of. unfold finite_z. apply Forall_map, Forall_forall. intros q Hq.
  apply list_elem_of_filter in Hq as [Hi Hq]. apply list_elem_of_lookup in Hq as [i Hq].
  destruct (Forall2_lookup_l _ _ _ _ _ Ha Hq) as (p & _ & Hp).
  destruct p as [|x y]; [cbn in Hp; rewrite Hp in Hi; done|]. destruct Hp as (_ & z & Hz & _ & _ & Hjz). by exists z.
Qed.

(** ** Along the ratios *)

Definition scaled (t : F) (a : secp256k1_gej) (p : point) : Prop :=
  match p with Infinity => False | Affine x y => at_scale t a x y end.

Lemma zinv_scaled t w a zi p m :
  scaled t a p -> has m w zi -> (m <= 8)%Z -> represents_ge_at (t * w) (secp256k1_ge_set_gej_zinv a zi) p.
Proof. destruct p as [|x y]; [done|]. apply zinv_scale. Qed.

(** The points before one at scale [t], nearest first, with the ratios to their
    successors. *)
Fixpoint behind (t : F) (zr : list secp256k1_fe) (a : list secp256k1_gej) (ps : list point) {struct a} : Prop :=
  match a, ps with
  | [], [] => True
  | q :: a', p :: ps' =>
      match zr with
      | z :: zr' => exists t' w, t = t' * w /\ has 8 w z /\ scaled t' q p /\ behind t' zr' a' ps'
      | [] => False
      end
  | _, _ => False
  end.

(** The points after one at scale [t], with the ratios to their predecessors. *)
Fixpoint ahead (t : F) (zr : list secp256k1_fe) (a : list secp256k1_gej) (ps : list point) : Prop :=
  match zr, a, ps with
  | [], [], [] => True
  | z :: zr', q :: a', p :: ps' => exists w, has 8 w z /\ scaled (t * w) q p /\ ahead (t * w) zr' a' ps'
  | _, _, _ => False
  end.

Lemma table_back_spec t zi zr a ps m w :
  behind t zr a ps -> has m w zi -> (m <= 8)%Z ->
  Forall2 (represents_ge_at (t * w)) (table_back zi zr a) ps.
Proof.
  revert t zi zr ps m w. induction a as [|q a IH]; intros t zi zr ps m w; destruct ps as [|p ps]; try done.
  - destruct zr; constructor.
  - destruct zr as [|z zr]; [done|]. intros (t' & v & -> & Hz & Hq & Hb) Hw Hm. cbn [table_back behind].
    assert (Hwz : has 1 (w * v) (secp256k1_fe_mul zi z)) by fe_rule.
    replace (t' * v * w) with (t' * (w * v)) by ring.
    constructor; [eapply zinv_scaled; [done|exact Hwz|lia]|eapply IH; [done|exact Hwz|lia]].
Qed.

(** The scale of the last point. *)
Definition final_scale (t : F) (zr : list secp256k1_fe) : F := fold_left (fun t z => t * ev z) zr t.

(** Turning a table round: from the walk that built it to the walk back. *)
Lemma ahead_behind t zr a ps zr0 q0 a0 p0 ps0 :
  scaled t q0 p0 -> behind t zr0 a0 ps0 -> ahead t zr a ps ->
  exists ql al pl psl, rev a ++ q0 :: a0 = ql :: al /\ rev ps ++ p0 :: ps0 = pl :: psl /\
    scaled (final_scale t zr) ql pl /\ behind (final_scale t zr) (rev zr ++ zr0) al psl.
Proof.
  revert t zr ps zr0 q0 a0 p0 ps0. induction a as [|q a IH]; intros t zr ps zr0 q0 a0 p0 ps0 H0 Hb;
    destruct zr as [|z zr], ps as [|p ps]; try done.
  - intros _. exists q0, a0, p0, ps0. done.
  - intros (w & Hw & Hq & Ha). cbn [rev]. rewrite <- !app_assoc. cbn [app].
    assert (w = ev z) as -> by (by destruct Hw). change (final_scale t (z :: zr)) with (final_scale (t * ev z) zr).
    apply (IH (t * ev z) zr ps (z :: zr0) q (q0 :: a0) p (p0 :: ps0)); [done| |done]. exists t, (ev z). done.
Qed.

Section Filled.
Context (t : F) (q0 : secp256k1_gej) (p0 : point) (a : list secp256k1_gej) (ps : list point).
Context (zr0 : secp256k1_fe) (zr : list secp256k1_fe).
Context (H0 : scaled t q0 p0) (Ha : ahead t zr a ps).

Lemma turned :
  exists ql al pl psl, rev (q0 :: a) = ql :: al /\ p0 :: ps = rev (pl :: psl) /\
    scaled (final_scale t zr) ql pl /\ behind (final_scale t zr) (rev (zr0 :: zr)) al psl.
Proof using H0 Ha.
  destruct (ahead_behind t zr a ps [zr0] q0 [] p0 [] H0) as (ql & al & pl & psl & E1 & E2 & Hs & Hb); [done..|].
  exists ql, al, pl, psl. split; [done|]. split; [|done]. rewrite <- E2. by rewrite rev_app_distr, rev_involutive.
Qed.

Lemma Forall2_rev {A B} (R : A -> B -> Prop) l k : Forall2 R l k -> Forall2 R (rev l) (rev k).
Proof. induction 1; cbn; [done|]. apply Forall2_app; [done|]. by repeat constructor. Qed.

(** The table in affine coordinates, when the z coordinate of the last entry is
    its scale. *)
Lemma set_table_represents :
  final_scale t zr <> 0 -> (forall ql al, rev (q0 :: a) = ql :: al -> has 8 (final_scale t zr) (jz ql)) ->
  Forall2 represents_ge (secp256k1_ge_set_table_gej_var (q0 :: a) (zr0 :: zr)) (p0 :: ps).
Proof using H0 Ha.
  intros HT Hz. destruct turned as (ql & al & pl & psl & E1 & -> & Hs & Hb).
  unfold secp256k1_ge_set_table_gej_var. specialize (Hz ql al E1). rewrite E1. apply Forall2_rev.
  assert (Hi : has 1 (1 / final_scale t zr) (secp256k1_fe_inv (jz ql))) by (eapply has_inv; [exact Hz|lia|done]).
  assert (E : final_scale t zr * (1 / final_scale t zr) = 1) by (by field).
  constructor.
  - apply represents_ge_one. rewrite <- E. by eapply zinv_scaled; [|exact Hi|].
  - eapply Forall2_impl; [|intros ??; apply represents_ge_one]. rewrite <- E. by eapply table_back_spec; [|exact Hi|].
Qed.

(** The table at the scale of its last entry. *)
Lemma globalz_represents gz :
  (forall ql al, rev (q0 :: a) = ql :: al -> has 8 (final_scale t zr) (jz ql)) ->
  let '(pre, Z) := secp256k1_ge_globalz_set_table_gej gz (q0 :: a) (zr0 :: zr) in
  Forall2 (represents_ge_at (final_scale t zr)) pre (p0 :: ps) /\ has 8 (final_scale t zr) Z.
Proof using H0 Ha.
  intros Hz. destruct turned as (ql & al & pl & psl & E1 & E2 & Hs & Hb).
  unfold secp256k1_ge_globalz_set_table_gej. specialize (Hz ql al E1).
  assert (Hne : exists zs zr', rev (zr0 :: zr) = zs :: zr').
  { destruct (rev (zr0 :: zr)) as [|zs zr'] eqn:E; [|by exists zs, zr']. apply (f_equal length) in E.
    rewrite length_rev in E. done. }
  destruct Hne as (zs & zr' & Ez). rewrite E1, Ez, E2. rewrite Ez in Hb. split; [|done].
  apply Forall2_rev. constructor.
  - destruct pl as [|x y]; [done|]. destruct Hs as (Hi & Hx & Hy). done.
  - destruct al as [|q al], psl as [|p psl]; try done. destruct Hb as (t' & w & Et & Hw & Hq & Hb). rewrite Et.
    constructor; [by eapply zinv_scaled; [|exact Hw|]|by eapply table_back_spec; [|exact Hw|]].
Qed.

End Filled.

(** ** Into storage *)

Lemma stored_all l ps :
  Forall2 represents_ge l ps -> Forall (fun p => p <> Infinity) ps -> Forall2 stored (map secp256k1_ge_to_storage l) ps.
Proof.
  induction 1 as [|b q la lp Hb _ IH]; intros Hf; [constructor|]. inversion Hf; subst. cbn [map].
  constructor; [by apply to_storage_stored|by apply IH].
Qed.

End Tables.
