(* ===== verification/Ecmult.v ===== *)
(** * Double multiplication (libsecp256k1/src/ecmult.h, ecmult_impl.h)

    [secp256k1_ecmult] computes [na * A + ng * G] by interleaving four signed
    window expansions, over tables of odd multiples of [A], of its image under
    the endomorphism, of the generator and of [2 ^ 128] times the generator.

    A read outside an array is [None]. The allocations of [checked_malloc]
    succeed. A local variable or an array that the code does not initialise
    holds zeros here; on the points the functions are called with, the code
    writes all of them before it reads them. *)

From Stdlib Require Import ZArith Lia List.
From stdpp Require Import base list option.
From S2P Require Import Prelude Words Field FieldExp Scalar ScalarExp Group.
Local Open Scope Z_scope.

Module Ecmult.
Import Field FieldExp Scalar ScalarExp Group.

Definition WINDOW_A : Z := 5.
Definition WINDOW_G : Z := 15.

Definition ECMULT_TABLE_SIZE (w : Z) : nat := Z.to_nat (Z.shiftl 1 (w - 2)).

(** ** Tables of odd multiples *)

(** The loop from index 1: [prev] is [prej[i - 1]]. *)
Fixpoint odd_multiples_loop (n : nat) (prev : secp256k1_gej) (d_ge : secp256k1_ge)
    : list secp256k1_gej * list secp256k1_fe :=
  match n with
  | O => ([], [])
  | S n' =>
      let '(p, z) := secp256k1_gej_add_ge_var secp256k1_gej_clear prev d_ge (Some secp256k1_fe_clear) in
      let '(ps, zs) := odd_multiples_loop n' p d_ge in
      (p :: ps, default secp256k1_fe_clear z :: zs)
  end.

(** [secp256k1_fe_mul(&prej[n-1].z, &prej[n-1].z, &d.z)] *)
Definition mul_last_z (prej : list secp256k1_gej) (z : secp256k1_fe) : list secp256k1_gej :=
  alter (fun p => mkGej (jx p) (jy p) (secp256k1_fe_mul (jz p) z) (infinity p)) (length prej - 1)%nat prej.

Definition secp256k1_ecmult_odd_multiples_table (n : nat) (a : secp256k1_gej)
    : list secp256k1_gej * list secp256k1_fe :=
  let d := fst (secp256k1_gej_double_var secp256k1_gej_clear a None) in
  let d_ge := mkGe (jx d) (jy d) 0 in
  let a_ge := secp256k1_ge_set_gej_zinv a (jz d) in
  let prej0 := mkGej (gx a_ge) (gy a_ge) (jz a) 0 in
  let '(ps, zs) := odd_multiples_loop (n - 1) prej0 d_ge in
  (mul_last_z (prej0 :: ps) (jz d), jz d :: zs).

(** The table and the common z coordinate. *)
Definition secp256k1_ecmult_odd_multiples_table_globalz_windowa (a : secp256k1_gej)
    : list secp256k1_ge * secp256k1_fe :=
  let '(prej, zr) := secp256k1_ecmult_odd_multiples_table (ECMULT_TABLE_SIZE WINDOW_A) a in
  secp256k1_ge_globalz_set_table_gej secp256k1_fe_clear prej zr.

Definition secp256k1_ecmult_odd_multiples_table_storage_var (n : nat) (a : secp256k1_gej)
    : list secp256k1_ge_storage :=
  let '(prej, zr) := secp256k1_ecmult_odd_multiples_table n a in
  let prea := secp256k1_ge_set_table_gej_var prej zr in
  map secp256k1_ge_to_storage prea.

(** [pre[i]] for an index computed as an [int]. *)
Definition at_index {A} (l : list A) (i : Z) : option A := if i <? 0 then None else l !! Z.to_nat i.

(** The division of C truncates; both dividends are at least zero. *)
Definition ECMULT_TABLE_GET_GE (pre : list secp256k1_ge) (n : Z) : option secp256k1_ge :=
  if n >? 0 then at_index pre (Z.quot (n - 1) 2)
  else r ← at_index pre (Z.quot (- n - 1) 2); Some (secp256k1_ge_neg r).

Definition ECMULT_TABLE_GET_GE_STORAGE (pre : list secp256k1_ge_storage) (n : Z) : option secp256k1_ge :=
  if n >? 0 then s ← at_index pre (Z.quot (n - 1) 2); Some (secp256k1_ge_from_storage s)
  else s ← at_index pre (Z.quot (- n - 1) 2); Some (secp256k1_ge_neg (secp256k1_ge_from_storage s)).

(** ** The context *)

Record secp256k1_ecmult_context := mkEcmultContext {
  pre_g : option (list secp256k1_ge_storage);
  pre_g_128 : option (list secp256k1_ge_storage) }.

Definition secp256k1_ecmult_context_init : secp256k1_ecmult_context := mkEcmultContext None None.

(** [for (i = 0; i < n; i++) secp256k1_gej_double_var(&r, &r, NULL)] *)
Fixpoint double_times (n : nat) (r : secp256k1_gej) : secp256k1_gej :=
  match n with O => r | S n' => double_times n' (fst (secp256k1_gej_double_var r r None)) end.

Definition secp256k1_ecmult_context_build (ctx : secp256k1_ecmult_context) : secp256k1_ecmult_context :=
  match pre_g ctx with
  | Some _ => ctx
  | None =>
      let gj := secp256k1_gej_set_ge secp256k1_ge_const_g in
      let pre := secp256k1_ecmult_odd_multiples_table_storage_var (ECMULT_TABLE_SIZE WINDOW_G) gj in
      let g_128j := double_times 128 gj in
      let pre128 := secp256k1_ecmult_odd_multiples_table_storage_var (ECMULT_TABLE_SIZE WINDOW_G) g_128j in
      mkEcmultContext (Some pre) (Some pre128)
  end.

(** The tables are copied; the copy has the same contents. *)
Definition secp256k1_ecmult_context_clone (src : secp256k1_ecmult_context) : secp256k1_ecmult_context :=
  mkEcmultContext (match pre_g src with None => None | Some t => Some (take (ECMULT_TABLE_SIZE WINDOW_G) t) end)
                  (match pre_g_128 src with None => None | Some t => Some (take (ECMULT_TABLE_SIZE WINDOW_G) t) end).

Definition secp256k1_ecmult_context_is_built (ctx : secp256k1_ecmult_context) : bool :=
  match pre_g ctx with Some _ => true | None => false end.

Definition secp256k1_ecmult_context_clear (ctx : secp256k1_ecmult_context) : secp256k1_ecmult_context :=
  secp256k1_ecmult_context_init.

(** ** Signed windows *)

(** The [while] loop; [None] when the fuel runs out. *)
Fixpoint wnaf_loop (fuel : nat) (s : secp256k1_scalar) (sign w len : Z)
    (wnaf : list Z) (last_set_bit bit carry : Z) : option (list Z * Z) :=
  match fuel with
  | O => None
  | S fuel' =>
      if bit <? len then
        if secp256k1_scalar_get_bits s bit 1 =? carry then
          wnaf_loop fuel' s sign w len wnaf last_set_bit (bit + 1) carry
        else
          let now := w in
          let now := if now >? len - bit then len - bit else now in
          let word := secp256k1_scalar_get_bits_var s bit now + carry in
          let carry := Z.land (Z.shiftr word (w - 1)) 1 in
          let word := word - Z.shiftl carry w in
          wnaf_loop fuel' s sign w len (<[Z.to_nat bit := sign * word]> wnaf) bit (bit + now) carry
      else Some (wnaf, last_set_bit)
  end.

(** The digits and the number of digits up to the last one set. Every round
    advances [bit]. *)
Definition secp256k1_ecmult_wnaf (len : Z) (a : secp256k1_scalar) (w : Z) : option (list Z * Z) :=
  let wnaf := replicate (Z.to_nat len) 0 in
  let '(s, sign) :=
    if negb (secp256k1_scalar_get_bits a 255 1 =? 0) then (secp256k1_scalar_negate a, -1) else (a, 1) in
  '(wnaf, last_set_bit) ← wnaf_loop (S (Z.to_nat len)) s sign w len wnaf (-1) 0 0;
  Some (wnaf, last_set_bit + 1).

(** ** Multiplication *)

(** [if (i < bits && (n = wnaf[i])) { ECMULT_TABLE_GET_GE(...); secp256k1_gej_add_ge_var(...); }] *)
Definition add_digit (pre : list secp256k1_ge) (wnaf : list Z) (bits i : Z) (r : secp256k1_gej)
    : option secp256k1_gej :=
  if i <? bits then
    n ← at_index wnaf i;
    if n =? 0 then Some r
    else tmpa ← ECMULT_TABLE_GET_GE pre n; Some (fst (secp256k1_gej_add_ge_var r r tmpa None))
  else Some r.

(** The same with a table of the generator, which the pointer of the context
    must lead to, and [secp256k1_gej_add_zinv_var]. *)
Definition add_digit_storage (pre : option (list secp256k1_ge_storage)) (wnaf : list Z) (bits i : Z) (globalz : secp256k1_fe)
    (r : secp256k1_gej) : option secp256k1_gej :=
  if i <? bits then
    n ← at_index wnaf i;
    if n =? 0 then Some r
    else
      pre ← pre;
      tmpa ← ECMULT_TABLE_GET_GE_STORAGE pre n; Some (secp256k1_gej_add_zinv_var r r tmpa globalz)
  else Some r.

(** The main loop, from bit [i - 1] down to 0: the body of one round is [round]. *)
Fixpoint ecmult_loop (round : Z -> secp256k1_gej -> option secp256k1_gej) (i : nat) (r : secp256k1_gej)
    : option secp256k1_gej :=
  match i with
  | O => Some r
  | S i' => r ← round (Z.of_nat i') r; ecmult_loop round i' r
  end.

Definition secp256k1_ecmult (ctx : secp256k1_ecmult_context) (a : secp256k1_gej) (na ng : secp256k1_scalar)
    : option secp256k1_gej :=
  let '(na_1, na_lam) := secp256k1_scalar_split_lambda na in
  '(wnaf_na_1, bits_na_1) ← secp256k1_ecmult_wnaf 130 na_1 WINDOW_A;
  '(wnaf_na_lam, bits_na_lam) ← secp256k1_ecmult_wnaf 130 na_lam WINDOW_A;
  let bits := bits_na_1 in
  let bits := if bits_na_lam >? bits then bits_na_lam else bits in
  let '(pre_a, globalz) := secp256k1_ecmult_odd_multiples_table_globalz_windowa a in
  let pre_a_lam := map secp256k1_ge_mul_lambda pre_a in
  let '(ng_1, ng_128) := secp256k1_scalar_split_128 ng in
  '(wnaf_ng_1, bits_ng_1) ← secp256k1_ecmult_wnaf 129 ng_1 WINDOW_G;
  '(wnaf_ng_128, bits_ng_128) ← secp256k1_ecmult_wnaf 129 ng_128 WINDOW_G;
  let bits := if bits_ng_1 >? bits then bits_ng_1 else bits in
  let bits := if bits_ng_128 >? bits then bits_ng_128 else bits in
  let round i r :=
    let r := fst (secp256k1_gej_double_var r r None) in
    r ← add_digit pre_a wnaf_na_1 bits_na_1 i r;
    r ← add_digit pre_a_lam wnaf_na_lam bits_na_lam i r;
    r ← add_digit_storage (pre_g ctx) wnaf_ng_1 bits_ng_1 i globalz r;
    add_digit_storage (pre_g_128 ctx) wnaf_ng_128 bits_ng_128 i globalz r in
  r ← ecmult_loop round (Z.to_nat bits) secp256k1_gej_set_infinity;
  Some (if infinity r =? 0 then mkGej (jx r) (jy r) (secp256k1_fe_mul (jz r) globalz) (infinity r) else r).

End Ecmult.
