(* ===== verification/Wnaf.v ===== *)
(** * Signed window expansions

    [secp256k1_ecmult_wnaf] terminates and writes a short number as a sum of
    powers of two with digits that are zero or odd and small, at least a window
    apart. *)

From Stdlib Require Import ZArith Lia List.
From stdpp Require Import base list option.
From S2P Require Import Prelude Words Field Scalar ScalarFacts ScalarOps Group Ecmult.
Local Open Scope Z_scope.

Module Wnaf.
Import Scalar ScalarFacts ScalarOps Ecmult.

(** The number the digits stand for, the least significant first. *)
Definition digits_value (l : list Z) : Z := foldr (fun d v => d + 2 * v) 0 l.

Lemma value_insert l i d v :
  l !! i = Some d -> digits_value (<[i := v]> l) = digits_value l + (v - d) * 2 ^ Z.of_nat i.
Proof.
  revert i. induction l as [|e l IH]; intros [|i] H; try done.
  - cbn in H. injection H as ->. cbn. lia.
  - change (digits_value (<[S i := v]> (e :: l))) with (e + 2 * digits_value (<[i := v]> l)).
    change (digits_value (e :: l)) with (e + 2 * digits_value l).
    rewrite (IH i H), Nat2Z.inj_succ, Z.pow_succ_r by lia. lia.
Qed.

Lemma value_zeros n : digits_value (replicate n 0) = 0.
Proof. induction n as [|n IH]; [done|]. change (0 + 2 * digits_value (replicate n 0) = 0). lia. Qed.

(** A digit of width [w]. *)
Definition digit_ok (w d : Z) : Prop := d = 0 \/ (d mod 2 = 1 /\ Z.abs d <= 2 ^ (w - 1) - 1).

(** ** The loop *)

Section Loop.
Context (s : secp256k1_scalar) (sign w len : Z).
Context (Hs : scalar_ok s) (Hsign : sign = 1 \/ sign = -1) (Hw : 2 <= w <= 20) (Hlen : 1 <= len <= 200).

Record inv (wnaf : list Z) (last bit carry : Z) : Prop := mkInv {
  inv_length : length wnaf = Z.to_nat len;
  inv_bit : 0 <= bit <= len;
  inv_last : -1 <= last < bit;
  inv_next : 0 <= last -> bit = len \/ last + w <= bit;
  inv_carry : carry = 0 \/ (carry = 1 /\ 1 <= bit /\ Z.testbit (sval s) (bit - 1) = true);
  inv_zero : forall j, last < Z.of_nat j -> (j < Z.to_nat len)%nat -> wnaf !! j = Some 0;
  inv_digits : Forall (digit_ok w) wnaf;
  inv_apart : forall i j di dj, wnaf !! i = Some di -> wnaf !! j = Some dj -> di <> 0 -> dj <> 0 ->
    (i < j)%nat -> Z.of_nat i + w <= Z.of_nat j;
  inv_value : digits_value wnaf = sign * (sval s mod 2 ^ bit - carry * 2 ^ bit) }.

Lemma mod_more b n : 0 <= b -> 0 <= n ->
  sval s mod 2 ^ (b + n) = sval s mod 2 ^ b + bits (sval s) b n * 2 ^ b.
Proof using.
  intros Hb Hn. unfold bits. rewrite Z.pow_add_r by done.
  rewrite Z.rem_mul_r by (apply Z.pow_nonzero || apply Z.pow_pos_nonneg; lia). lia.
Qed.

Lemma bits_one b : 0 <= b -> bits (sval s) b 1 = Z.b2z (Z.testbit (sval s) b).
Proof using. intros Hb. unfold bits. change (2 ^ 1) with 2. by rewrite Z.testbit_spec'. Qed.

Lemma skip_step wnaf last bit carry :
  inv wnaf last bit carry -> bit < len -> bits (sval s) bit 1 = carry -> inv wnaf last (bit + 1) carry.
Proof using Hlen.
  intros [Hl Hb Hla Hn Hc Hz Hd Ha Hv] Hlt E. split; [done|lia|lia|lia| |done|done|done|].
  - destruct Hc as [->|(-> & _ & _)]; [by left|]. right. split; [done|]. split; [lia|].
    rewrite bits_one in E by lia. replace (bit + 1 - 1) with bit by lia. by destruct (Z.testbit (sval s) bit).
  - rewrite Hv, mod_more, E, Z.pow_add_r by lia. lia.
Qed.

(** A window that starts at a bit that differs from the carry. *)
Lemma window_word bit n carry :
  0 <= bit -> 1 <= n -> carry = 0 \/ carry = 1 -> bits (sval s) bit 1 <> carry ->
  let word := bits (sval s) bit n + carry in
  word mod 2 = 1 /\ 1 <= word < 2 ^ n /\ (2 <= n -> word / 2 ^ (n - 1) = Z.b2z (Z.testbit (sval s) (bit + n - 1))).
Proof using.
  intros Hb Hn Hc Hne. cbv zeta.
  assert (Hp : 2 ^ n = 2 * 2 ^ (n - 1)) by (rewrite <- Z.pow_succ_r by lia; f_equal; lia).
  assert (Hlow : bits (sval s) bit n mod 2 = bits (sval s) bit 1).
  { unfold bits. change (2 ^ 1) with 2. apply Z.mod_mod_divide. exists (2 ^ (n - 1)). lia. }
  assert (Hr := bits_range (sval s) bit n ltac:(lia)).
  assert (Hr1 := bits_range (sval s) bit 1 ltac:(lia)). change (2 ^ 1) with 2 in Hr1.
  assert (Hpos : 0 < 2 ^ (n - 1)) by (apply Z.pow_pos_nonneg; lia).
  assert (E := Z.div_mod (bits (sval s) bit n) 2 ltac:(lia)).
  assert (Hodd : (bits (sval s) bit n + carry) mod 2 = 1).
  { rewrite Z.add_mod, Hlow by lia. destruct Hc as [->| ->].
    - replace (bits (sval s) bit 1) with 1 by lia. done.
    - replace (bits (sval s) bit 1) with 0 by lia. done. }
  split; [done|]. split.
  - rewrite Hlow in E. assert (Hq : 0 <= bits (sval s) bit n / 2) by (apply Z.div_pos; lia). lia.
  - intros Hn2. transitivity (bits (sval s) bit n / 2 ^ (n - 1)).
    + destruct Hc as [->| ->]; [f_equal; lia|]. replace (bits (sval s) bit 1) with 0 in Hlow by lia.
      assert (Hh : 2 ^ (n - 1) = 2 * 2 ^ (n - 2)) by (rewrite <- Z.pow_succ_r by lia; f_equal; lia).
      rewrite Hh, <- !Z.div_div by (lia || apply Z.pow_pos_nonneg; lia). f_equal.
      clear - Hlow. set (x := bits (sval s) bit n) in *. Z.div_mod_to_equations. lia.
    + unfold bits. rewrite Z.testbit_spec' by lia. replace (bit + n - 1) with (bit + (n - 1)) by lia.
      rewrite Z.pow_add_r, <- Z.div_div by (lia || apply Z.pow_pos_nonneg; lia).
      set (x := sval s / 2 ^ bit). rewrite Hp. rewrite (Z.mul_comm 2), Z.rem_mul_r by lia.
      rewrite Z.add_comm, Z.mul_comm, Z.div_add_l by lia. rewrite (Z.div_small (x mod _)); [lia|].
      by apply Z.mod_pos_bound.
Qed.

Lemma carry_bit word : 0 <= word < 2 ^ w -> Z.land (Z.shiftr word (w - 1)) 1 = word / 2 ^ (w - 1).
Proof using Hw.
  intros H. rewrite Z.shiftr_div_pow2 by lia. change 1 with (Z.ones 1) at 2. rewrite Z.land_ones by lia.
  apply Z.mod_small. change (2 ^ 1) with 2. split; [apply Z.div_pos; [lia|apply Z.pow_pos_nonneg; lia]|].
  apply Z.div_lt_upper_bound; [apply Z.pow_pos_nonneg; lia|].
  replace (2 ^ (w - 1) * 2) with (2 ^ w); [lia|]. rewrite Z.mul_comm, <- Z.pow_succ_r by lia. f_equal. lia.
Qed.

(** The digit of a window of [n] bits: the whole window, or what is left. *)
Lemma window_digit bit n carry :
  0 <= bit -> 1 <= n <= w -> n = w \/ bit + n = len -> carry = 0 \/ carry = 1 -> bits (sval s) bit 1 <> carry ->
  let word := bits (sval s) bit n + carry in
  let c := Z.land (Z.shiftr word (w - 1)) 1 in
  digit_ok w (word - Z.shiftl c w) /\ word - Z.shiftl c w <> 0 /\
  (word - Z.shiftl c w) * 2 ^ bit = (bits (sval s) bit n + carry) * 2 ^ bit - c * 2 ^ (bit + n) /\
  (c = 0 \/ (c = 1 /\ Z.testbit (sval s) (bit + n - 1) = true)).
Proof using Hw.
  intros Hb Hn Hend Hc Hne word c. destruct (window_word bit n carry Hb ltac:(lia) Hc Hne) as (Ho & Hr & Ht).
  fold word in Ho, Hr, Ht.
  assert (Hp : 2 ^ w = 2 * 2 ^ (w - 1)) by (rewrite <- Z.pow_succ_r by lia; f_equal; lia).
  assert (Hnw : 2 ^ n <= 2 ^ w) by (apply Z.pow_le_mono_r; lia).
  assert (Hcb : c = word / 2 ^ (w - 1)) by (apply carry_bit; lia).
  rewrite Z.shiftl_mul_pow2 by lia. assert (Hpos : 0 < 2 ^ (w - 1)) by (apply Z.pow_pos_nonneg; lia).
  assert (He := Z.div_mod word (2 ^ (w - 1)) ltac:(lia)).
  assert (Hm := Z.mod_pos_bound word (2 ^ (w - 1)) ltac:(lia)). rewrite <- Hcb in He.
  assert (Hc01 : c = 0 \/ c = 1).
  { rewrite Hcb. assert (0 <= word / 2 ^ (w - 1)) by (apply Z.div_pos; lia).
    assert (word / 2 ^ (w - 1) < 2) by (apply Z.div_lt_upper_bound; lia). lia. }
  assert (Heven : 2 ^ w mod 2 = 0) by (rewrite Hp, Z.mul_comm; apply Z.mod_mul; lia).
  assert (Hodd : (word - c * 2 ^ w) mod 2 = 1) by (rewrite Zminus_mod, Z.mul_mod, Heven, Z.mul_0_r by lia; by rewrite Ho).
  destruct (Z.eq_dec n w) as [->|Hnw'].
  - specialize (Ht ltac:(lia)). rewrite <- Hcb in Ht. split; [right; split; [done|]|].
    { assert (Hh : 2 ^ (w - 1) = 2 * 2 ^ (w - 2)) by (rewrite <- Z.pow_succ_r by lia; f_equal; lia).
      assert (Hne' : word <> 2 ^ (w - 1)) by (intros E; rewrite E, Hh, Z.mul_comm, Z.mod_mul in Ho by lia; lia).
      destruct Hc01 as [E1|E1]; rewrite E1 in *; lia. }
    split; [intros E; rewrite E in Hodd; done|]. split; [rewrite Z.pow_add_r by lia; unfold word; lia|].
    destruct Hc01 as [->|E1]; [by left|right]. rewrite E1 in Ht |- *. split; [done|]. by destruct (Z.testbit _ _).
  - assert (Hsmall : 2 ^ n <= 2 ^ (w - 1)) by (apply Z.pow_le_mono_r; lia).
    assert (Ec : c = 0) by (rewrite Hcb; apply Z.div_small; lia). rewrite Ec in Hodd |- *. split; [right; split; [done|]; lia|].
    split; [intros E; rewrite E in Hodd; done|]. split; [unfold word; lia|by left].
Qed.

Lemma window_step wnaf last bit carry n :
  inv wnaf last bit carry -> bit < len -> bits (sval s) bit 1 <> carry ->
  n = (if w >? len - bit then len - bit else w) ->
  let word := bits (sval s) bit n + carry in
  let c := Z.land (Z.shiftr word (w - 1)) 1 in
  inv (<[Z.to_nat bit := sign * (word - Z.shiftl c w)]> wnaf) bit (bit + n) c.
Proof using Hw Hlen Hsign.
  intros [Hl Hb Hla Hnx Hc Hz Hd Ha Hv] Hlt Hne En word c.
  assert (Hn : 1 <= n <= w /\ bit + n <= len /\ (n = w \/ bit + n = len)).
  { subst n. destruct (Z.gtb_spec w (len - bit)); lia. }
  assert (Hc' : carry = 0 \/ carry = 1) by tauto.
  destruct (window_digit bit n carry ltac:(lia) ltac:(lia) ltac:(lia) Hc' Hne) as (Hok & Hnz & Hval & Hcc).
  fold word c in Hok, Hnz, Hval, Hcc. set (dg := word - Z.shiftl c w) in *.
  assert (Hat : wnaf !! Z.to_nat bit = Some 0) by (apply Hz; lia). split.
  - by rewrite length_insert.
  - lia.
  - lia.
  - intros _. lia.
  - destruct Hcc as [->|[-> Ht]]; [by left|right]. split; [done|]. split; [lia|done].
  - intros j Hj Hjl. rewrite list_lookup_insert_ne by lia. apply Hz; lia.
  - apply Forall_insert; [done|]. destruct Hok as [->|[Ho Hr]]; [left; lia|right]. split; [|destruct Hsign; subst sign; lia].
    clearbody dg. destruct Hsign as [->| ->]; Z.div_mod_to_equations; lia.
  - intros i j di dj Hi Hj Hdi Hdj Hij.
    destruct (decide (j = Z.to_nat bit)) as [->|Hjb].
    + rewrite list_lookup_insert_ne in Hi by lia. destruct (Z_lt_le_dec last (Z.of_nat i)) as [Hli|Hli].
      * rewrite Hz in Hi by lia. injection Hi as <-. done.
      * specialize (Hnx ltac:(lia)). lia.
    + rewrite list_lookup_insert_ne in Hj by lia. destruct (decide (i = Z.to_nat bit)) as [->|Hib].
      * assert (Hjl := lookup_lt_Some _ _ _ Hj). rewrite Hz in Hj by lia. injection Hj as <-. done.
      * rewrite list_lookup_insert_ne in Hi by lia. by eapply Ha.
  - rewrite (value_insert _ _ 0) by done. rewrite Hv, Z2Nat.id, mod_more, Z.sub_0_r by lia.
    transitivity (sign * (sval s mod 2 ^ bit - carry * 2 ^ bit + dg * 2 ^ bit)); [lia|]. rewrite Hval. unfold word. lia.
Qed.

Lemma bit_spec bit : 0 <= bit < len -> secp256k1_scalar_get_bits s bit 1 = bits (sval s) bit 1.
Proof using Hs Hlen.
  intros Hb. apply scalar_get_bits_spec; [apply Hs|lia..|]. f_equal. lia.
Qed.

Lemma loop_spec fuel wnaf last bit carry :
  inv wnaf last bit carry -> (Z.to_nat (len - bit) < fuel)%nat ->
  exists wnaf' last' carry', wnaf_loop fuel s sign w len wnaf last bit carry = Some (wnaf', last') /\
    inv wnaf' last' len carry'.
Proof using Hs Hw Hlen Hsign.
  revert wnaf last bit carry. induction fuel as [|fuel IH]; intros wnaf last bit carry Hi Hf; [lia|].
  cbn [wnaf_loop]. assert (Hb := inv_bit _ _ _ _ Hi). destruct (Z.ltb_spec bit len) as [Hlt|Hge].
  - rewrite bit_spec by lia. destruct (Z.eqb_spec (bits (sval s) bit 1) carry) as [E|Hne].
    + apply IH; [by apply skip_step|lia].
    + cbv zeta. rewrite scalar_get_bits_var_spec;
        [|apply Hs|lia|destruct (Z.gtb_spec w (len - bit)); lia|destruct (Z.gtb_spec w (len - bit)); lia].
      apply IH; [by eapply window_step|]. destruct (Z.gtb_spec w (len - bit)); lia.
  - exists wnaf, last, carry. split; [done|]. by replace len with bit by lia.
Qed.

Lemma start : inv (replicate (Z.to_nat len) 0) (-1) 0 0.
Proof using Hlen.
  split; [apply length_replicate|lia|lia|lia|by left| | | |].
  - intros j _ Hj. by apply lookup_replicate_2.
  - apply Forall_replicate. by left.
  - intros i j di dj Hi _ Hdi. apply lookup_replicate in Hi as [-> _]. done.
  - rewrite value_zeros, Z.mod_1_r. lia.
Qed.

End Loop.

(** ** The expansion *)

Definition sparse (w : Z) (l : list Z) : Prop :=
  forall i j di dj, l !! i = Some di -> l !! j = Some dj -> di <> 0 -> dj <> 0 -> (i < j)%nat ->
    Z.of_nat i + w <= Z.of_nat j.

Lemma wnaf_spec len a w k :
  1 <= len <= 200 -> 2 <= w <= 20 -> scalar_ok a -> sval a = k mod N -> Z.abs k < 2 ^ (len - 1) ->
  exists l bits, secp256k1_ecmult_wnaf len a w = Some (l, bits) /\ length l = Z.to_nat len /\ 0 <= bits <= len /\
    digits_value l = k /\ Forall (digit_ok w) l /\ sparse w l /\
    (forall j, bits <= Z.of_nat j -> (j < Z.to_nat len)%nat -> l !! j = Some 0).
Proof.
  intros Hlen Hw Ha Hk Hsmall. assert (Hp : 2 ^ (len - 1) <= 2 ^ 199) by (apply Z.pow_le_mono_r; lia).
  unfold secp256k1_ecmult_wnaf. rewrite scalar_get_bits_spec by (apply Ha || lia || done).
  assert (Hcase : exists s sign, (if negb (bits (sval a) 255 1 =? 0) then (secp256k1_scalar_negate a, -1) else (a, 1))
    = (s, sign) /\ scalar_ok s /\ (sign = 1 \/ sign = -1) /\ k = sign * sval s /\ 0 <= sval s < 2 ^ (len - 1)).
  { assert (Hr := sval_range a (proj1 Ha)). destruct Ha as [Hl Hn]. unfold bits.
    destruct (Z_le_gt_dec 0 k) as [Hk0|Hk0].
    - rewrite Z.mod_small in Hk by (unfold N; lia). rewrite Hk, Z.div_small by lia. cbn [Z.modulo]. 
      exists a, 1. split; [done|]. split; [done|]. lia.
    - assert (Ea : sval a = k + N).
      { rewrite Hk. symmetry. apply (Z.mod_unique _ _ (-1)); [unfold N in *; lia|lia]. }
      assert (E1 : sval a / 2 ^ 255 = 1) by (symmetry; apply (Z.div_unique _ _ _ (sval a - 2 ^ 255)); unfold N in *; lia).
      rewrite E1. cbn [negb]. destruct (scalar_negate_spec a) as [Hok E2]; [done|].
      exists (secp256k1_scalar_negate a), (-1). split; [done|]. split; [done|]. split; [by right|].
      replace (- sval a) with (- k + (-1) * N) in E2 by lia. rewrite Z.mod_add, Z.mod_small in E2 by (unfold N; lia). lia. }
  destruct Hcase as (s & sign & -> & Hs & Hsg & Ek & Hr).
  destruct (loop_spec s sign w len Hs Hsg Hw Hlen (S (Z.to_nat len)) _ _ _ _ (start s sign w len Hlen))
    as (l & last & carry & -> & [Hl Hb Hla Hnx Hc Hz Hd Hap Hv]); [lia|].
  cbn [mbind option_bind]. exists l, (last + 1). split; [done|]. split; [done|]. split; [lia|].
  assert (Hlow : sval s < 2 ^ len).
  { assert (2 ^ (len - 1) <= 2 ^ len) by (apply Z.pow_le_mono_r; lia). lia. }
  destruct Hc as [->|(_ & _ & Ht)].
  - split; [rewrite Hv, Z.mod_small by lia; lia|]. split; [done|]. split; [done|]. intros j Hj. apply Hz. lia.
  - exfalso. rewrite (high_bit (len - 1)) in Ht by lia. done.
Qed.

End Wnaf.
