(* ===== verification/EcmultFacts.v ===== *)
(** * Double multiplication is [na * A + ng * G]

    The tables hold the odd multiples of their point, a digit of a window
    expansion selects an entry of its table, and the main loop adds up the four
    expansions; no read leaves an array. *)

From Stdlib Require Import ZArith Lia Ring Field Zmod.
From stdpp Require Import base option list.
From S2P Require Import Prelude Words Field FieldFacts FieldExp Scalar ScalarFacts ScalarOps ScalarExp.
From S2P Require Import Curve CurveFacts GroupLaw GroupAssoc PointMul PointOrder.
From S2P Require Import Group GroupFacts GroupOps Points PointConv Tables Ecmult Wnaf.
Local Open Scope Z_scope.

Module EcmultFacts.
Import Field FieldFacts Scalar ScalarFacts ScalarOps ScalarExp.
Import Curve CurveFacts GroupLaw GroupAssoc PointMul PointOrder.
Import Group GroupFacts GroupOps Points PointConv Tables Ecmult Wnaf.
Local Open Scope F_scope.

(** ** Tables of odd multiples *)

Lemma multiple_zero p k : on_curve p -> p <> Infinity -> smul k p = Infinity -> (k mod N = 0)%Z.
Proof.
  intros Hp Hne E. destruct (Z.eq_dec (k mod N) 0%Z) as [?|Hk]; [done|exfalso]. apply Hne.
  assert (Hg : Z.gcd k N = 1%Z).
  { rewrite Z.gcd_comm. apply (Z.coprime_prime_l _ _ prime_N). intros [c ->]. apply Hk. by apply Z.mod_mul. }
  destruct (Z.gcd_bezout k N 1 Hg) as (u & v & Huv).
  rewrite <- (smul_1 p), <- Huv, smul_add, !smul_mul, E, point_order, !smul_infinity by done. done.
Qed.

Lemma add_ge_rzr r a b z : exists q, snd (secp256k1_gej_add_ge_var r a b (Some z)) = Some q.
Proof.
  unfold secp256k1_gej_add_ge_var. destruct (negb _); [by eexists|]. destruct (negb _); [by eexists|]. cbv zeta.
  destruct (secp256k1_fe_normalizes_to_zero_var _); [|by eexists].
  destruct (secp256k1_fe_normalizes_to_zero_var _); [|by eexists].
  unfold secp256k1_gej_double_var. destruct (negb _); by eexists.
Qed.

(** [p + d, p + 2 d, ...] *)
Fixpoint progression (n : nat) (p d : point) : list point :=
  match n with O => [] | S n' => add p d :: progression n' (add p d) d end.

Lemma progression_lookup n p d i :
  on_curve p -> on_curve d -> (i < n)%nat ->
  progression n p d !! i = Some (add p (smul (Z.of_nat i + 1) d)).
Proof.
  intros Hp Hd. revert p Hp i. induction n as [|n IH]; intros p Hp i Hi; [lia|]. destruct i as [|i]; [done|].
  cbn [progression lookup list_lookup]. rewrite IH by (auto with curve || lia). f_equal.
  rewrite add_assoc by auto with curve. f_equal. rewrite <- smul_succ by done. f_equal. lia.
Qed.

Lemma progression_length n p d : length (progression n p d) = n.
Proof. revert p. induction n as [|n IH]; intros p; [done|]. cbn. by rewrite IH. Qed.

Section Odd.
Context (u : F) (Hu : u <> 0) (d : point) (d_ge : secp256k1_ge).
Context (Hd : on_curve d) (Hdn : d <> Infinity) (Hdg : represents_ge_at u d_ge d).

Lemma odd_step prev p z :
  represents_at u prev p -> on_curve p -> p <> Infinity -> has 8 z (jz prev) -> z <> 0 -> add p d <> Infinity ->
  exists q w v, secp256k1_gej_add_ge_var secp256k1_gej_clear prev d_ge (Some secp256k1_fe_clear) = (q, Some w) /\
    has 8 v w /\ represents_at u q (add p d) /\ has 8 (z * v) (jz q) /\ z * v <> 0.
Proof using Hu Hd Hdn Hdg.
  intros Hr Hp Hpn Hz Hznz Hn. destruct p as [|x1 y1]; [done|]. destruct d as [|x2 y2] eqn:Ed; [done|].
  assert (Hs := add_ge_finite u secp256k1_gej_clear prev d_ge x1 y1 x2 y2 (Some secp256k1_fe_clear) Hu Hr Hdg Hp Hd).
  destruct (add_ge_rzr secp256k1_gej_clear prev d_ge secp256k1_fe_clear) as [w Hw].
  destruct (secp256k1_gej_add_ge_var _ _ _ _) as [q rz]. cbn [snd] in Hw. subst rz. destruct Hs as [Hq Hrat].
  cbn [fst snd] in Hq, Hrat. destruct (add (Affine x1 y1) (Affine x2 y2)) as [|x3 y3]; [done|].
  assert (Hq' := Hq). destruct Hq as (Hi & z' & Hz' & Hx & Hy & Hjz). specialize (Hrat Hi) as [Hm Hev].
  exists q, w, (ev w). split; [done|]. split; [done|]. split; [done|].
  destruct Hjz as [Hjm Hje], Hz as [Hzm Hze]. rewrite Hje, Hze in Hev. rewrite <- Hev. done.
Qed.

Lemma odd_loop_spec n prev p z :
  represents_at u prev p -> on_curve p -> p <> Infinity -> has 8 z (jz prev) -> z <> 0 ->
  Forall (fun q => q <> Infinity) (progression n p d) ->
  let '(a, zr) := odd_multiples_loop n prev d_ge in
  length a = n /\ ahead (z * u) zr a (progression n p d) /\
  exists zl, zl <> 0 /\ final_scale (z * u) zr = zl * u /\ has 8 zl (jz (default prev (last a))).
Proof using Hu Hd Hdn Hdg.
  revert prev p z. induction n as [|n IH]; intros prev p z Hr Hp Hpn Hz Hznz Hn.
  { cbn. split; [done|]. split; [done|]. by exists z. }
  cbn [progression] in Hn. inversion Hn as [|?? Hn1 Hn2]; subst.
  destruct (odd_step prev p z Hr Hp Hpn Hz Hznz Hn1) as (q & w & v & E & Hv & Hq & Hqz & Hnz).
  cbn [odd_multiples_loop progression]. rewrite E. cbn [default from_option id].
  specialize (IH q (add p d) (z * v) Hq ltac:(auto with curve) Hn1 Hqz Hnz Hn2).
  destruct (odd_multiples_loop n q d_ge) as [a zr]. destruct IH as (Hl & Ha & zl & Hzl & Hfs & Hlast).
  split; [cbn; by rewrite Hl|]. assert (Ev : ev w = v) by apply Hv.
  replace (z * v * u) with (z * u * v) in Ha, Hfs by ring. split.
  - exists v. split; [done|]. split; [|done]. destruct (add p d) as [|x y]; [done|].
    destruct Hq as (Hi & z' & Hz' & Hx & Hy & Hjz).
    assert (z' = z * v) as -> by (destruct Hjz as [_ <-], Hqz as [_ <-]; done).
    split; [done|]. split; (eapply has_eq; [eassumption|lia|ring]).
  - exists zl. split; [done|]. split; [cbn [final_scale fold_left]; by rewrite Ev|].
    destruct a as [|q' a]; [done|]. change (last (q :: q' :: a)) with (last (q' :: a)).
    destruct (last (q' :: a)) eqn:El; [done|]. by apply last_None in El.
Qed.

End Odd.

(** ** The last entry *)

Lemma exists_last_or_nil {A} (l : list A) : l = [] \/ exists l' x, l = l' ++ [x].
Proof. destruct l using rev_ind; [by left|right; by eauto]. Qed.

Definition put_z (z : secp256k1_fe) (p : secp256k1_gej) : secp256k1_gej :=
  mkGej (jx p) (jy p) (secp256k1_fe_mul (jz p) z) (infinity p).

Lemma alter_last {A} (f : A -> A) l x : alter f (length (l ++ [x]) - 1)%nat (l ++ [x]) = l ++ [f x].
Proof.
  rewrite length_app. cbn [length]. replace (length l + 1 - 1)%nat with (length l + 0)%nat by lia.
  by rewrite alter_app_r.
Qed.

Lemma mul_last_snoc l q z : mul_last_z (l ++ [q]) z = l ++ [put_z z q].
Proof. apply (alter_last (put_z z)). Qed.

Lemma scaled_put_z t z q p : scaled t (put_z z q) p <-> scaled t q p.
Proof. by destruct p. Qed.

Lemma ahead_snoc t zr a q z ps : ahead t zr (a ++ [q]) ps -> ahead t zr (a ++ [put_z z q]) ps.
Proof.
  revert t zr ps. induction a as [|q' a IH]; intros t [|z' zr] [|p ps]; try done; cbn [app ahead].
  intros (w & Hw & Hs & Ha). exists w. split; [done|]. split; [done|by apply IH].
Qed.

(** The table the code builds, in terms of the walks of [Tables]. *)
Definition table_ok (prej : list secp256k1_gej) (zr : list secp256k1_fe) (ps : list point) : Prop :=
  exists t q0 a p0 ps' zr0 zr', prej = q0 :: a /\ zr = zr0 :: zr' /\ ps = p0 :: ps' /\
    scaled t q0 p0 /\ ahead t zr' a ps' /\ final_scale t zr' <> 0 /\
    (forall ql al, rev (q0 :: a) = ql :: al -> has 8 (final_scale t zr') (jz ql)).

Lemma last_jz (q0 : secp256k1_gej) a z v w :
  has 8 v (jz (default q0 (last a))) -> has 8 w z ->
  exists q0' a', mul_last_z (q0 :: a) z = q0' :: a' /\ (forall t p, scaled t q0 p -> scaled t q0' p) /\
    (forall t zr ps, ahead t zr a ps -> ahead t zr a' ps) /\
    (forall ql al, rev (q0' :: a') = ql :: al -> has 8 (v * w) (jz ql)).
Proof.
  intros Hv Hw. assert (Hp : forall q, has 8 v (jz q) -> has 8 (v * w) (jz (put_z z q))).
  { intros q Hq. cbn [put_z jz]. eapply has_mono; [fe_rule|lia]. }
  destruct (exists_last_or_nil a) as [->|(l & q & ->)].
  - exists (put_z z q0), []. split; [apply (mul_last_snoc [] q0 z)|]. split; [intros t p; by apply scaled_put_z|].
    split; [done|]. intros ql al [= <- <-]. by apply Hp.
  - rewrite last_snoc in Hv. exists q0, (l ++ [put_z z q]). split; [apply (mul_last_snoc (q0 :: l) q z)|].
    split; [done|]. split; [intros; by apply ahead_snoc|]. intros ql al E.
    change (q0 :: l ++ [put_z z q]) with ((q0 :: l) ++ [put_z z q]) in E. rewrite rev_app_distr in E.
    injection E as <- _. by apply Hp.
Qed.

Definition odds (n : nat) (p : point) : list point := p :: progression (n - 1) p (add p p).

Lemma odds_lookup n p i : on_curve p -> (i < n)%nat -> odds n p !! i = Some (smul (2 * Z.of_nat i + 1) p).
Proof.
  intros Hp Hi. destruct i as [|i]; [done|]. unfold odds. cbn [lookup list_lookup].
  rewrite progression_lookup by (auto with curve || lia). f_equal. rewrite <- smul_2, <- smul_mul by done.
  rewrite <- (smul_1 p) at 1. rewrite <- smul_add by done. f_equal. lia.
Qed.

Lemma odds_length n p : (1 <= n)%nat -> length (odds n p) = n.
Proof. intros Hn. cbn. rewrite progression_length. lia. Qed.

Section Built.
Context (n : nat) (a : secp256k1_gej) (p : point).
Context (Hn : (1 <= Z.of_nat n <= 10000)%Z) (Ha : represents a p) (Hp : on_curve p) (Hpn : p <> Infinity).

Lemma odds_finite : Forall (fun q => q <> Infinity) (odds n p).
Proof using Hn Hp Hpn.
  apply Forall_lookup. intros i q Hq. assert (Hi := lookup_lt_Some _ _ _ Hq). rewrite odds_length in Hi by lia.
  rewrite odds_lookup in Hq by done. injection Hq as <-. intros E%multiple_zero; [|done..].
  rewrite Z.mod_small in E; [lia|]. unfold N. lia.
Qed.

Lemma odd_table_spec :
  let '(prej, zr) := secp256k1_ecmult_odd_multiples_table n a in table_ok prej zr (odds n p).
Proof using Hn Ha Hp Hpn.
  assert (Hf := odds_finite). unfold secp256k1_ecmult_odd_multiples_table. cbv zeta.
  assert (Hd := double_represents secp256k1_gej_clear a p None Ha Hp).
  assert (Hdn : add p p <> Infinity) by (intros E; by apply Hpn, double_nz).
  set (d := fst (secp256k1_gej_double_var secp256k1_gej_clear a None)) in *.
  assert (Hdc : on_curve (add p p)) by auto with curve.
  destruct (add p p) as [|xd yd] eqn:Ed; [done|]. destruct Hd as (Hdi & u & Hu & Hdx & Hdy & Hdz).
  destruct p as [|x y] eqn:Ep; [done|]. destruct Ha as (Hi & z & Hz & Hx & Hy & Hjz).
  destruct (zinv_scale z u a (jz d) x y 8) as (Hai & Hax & Hay); [done..|].
  assert (H0 : represents_at u (mkGej (gx (secp256k1_ge_set_gej_zinv a (jz d))) (gy (secp256k1_ge_set_gej_zinv a (jz d)))
    (jz a) 0) (Affine x y)) by (split; [done|]; by exists z).
  unfold odds in Hf. rewrite Ed in Hf. inversion Hf as [|?? _ Hf']; subst.
  assert (Hl := odd_loop_spec u Hu (Affine xd yd) (mkGe (jx d) (jy d) 0) Hdc Hdn ltac:(done) (n - 1) _ _ z
    H0 Hp Hpn Hjz Hz Hf').
  destruct (odd_multiples_loop _ _ _) as [l zr]. destruct Hl as (Hll & Hah & zl & Hzl & Hfs & Hlast).
  destruct (last_jz _ l (jz d) zl u Hlast Hdz) as (q0' & a' & -> & Hsc & Hah' & Hrev).
  unfold odds. rewrite Ed. exists (z * u), q0', a', (Affine x y), (progression (n - 1) (Affine x y) (Affine xd yd)), (jz d), zr.
  rewrite Hfs. split; [done|]. split; [done|]. split; [done|]. split; [apply Hsc; done|].
  split; [by apply Hah'|]. split; [by apply nz_mul|done].
Qed.

(** The table in storage. *)
Lemma storage_table_spec : Forall2 stored (secp256k1_ecmult_odd_multiples_table_storage_var n a) (odds n p).
Proof using Hn Ha Hp Hpn.
  unfold secp256k1_ecmult_odd_multiples_table_storage_var. assert (Ht := odd_table_spec). assert (Hf := odds_finite).
  destruct (secp256k1_ecmult_odd_multiples_table n a) as [prej zr].
  destruct Ht as (t & q0 & l & p0 & ps & zr0 & zr' & -> & -> & Eo & H0 & Hl & Hfs & Hjz). rewrite Eo in *.
  assert (Hs := set_table_represents t q0 p0 l ps zr0 zr' H0 Hl Hfs Hjz). by apply stored_all.
Qed.

End Built.

(** The table of [secp256k1_ecmult], at the scale of the common z coordinate. *)
Lemma globalz_table_spec a p :
  represents a p -> on_curve p -> p <> Infinity ->
  let '(pre, globalz) := secp256k1_ecmult_odd_multiples_table_globalz_windowa a in
  exists u, u <> 0 /\ has 8 u globalz /\ Forall2 (represents_ge_at u) pre (odds (ECMULT_TABLE_SIZE WINDOW_A) p).
Proof.
  intros Ha Hp Hpn. unfold secp256k1_ecmult_odd_multiples_table_globalz_windowa.
  assert (Ht := odd_table_spec (ECMULT_TABLE_SIZE WINDOW_A) a p ltac:(done) Ha Hp Hpn).
  destruct (secp256k1_ecmult_odd_multiples_table _ a) as [prej zr].
  destruct Ht as (t & q0 & l & p0 & ps & zr0 & zr' & -> & -> & -> & H0 & Hl & Hfs & Hjz).
  assert (Hs := globalz_represents t q0 p0 l ps zr0 zr' H0 Hl secp256k1_fe_clear Hjz).
  destruct (secp256k1_ge_globalz_set_table_gej _ _ _) as [pre gz]. destruct Hs as [Hs Hz].
  by exists (final_scale t zr').
Qed.

(** ** The context *)

(** A table in storage holds the odd multiples of a point. *)
Definition good_table (t : option (list secp256k1_ge_storage)) (p : point) : Prop :=
  exists l, t = Some l /\ length l = ECMULT_TABLE_SIZE WINDOW_G /\
    forall i s, l !! i = Some s -> stored s (smul (2 * Z.of_nat i + 1) p).

Definition good_context (ctx : secp256k1_ecmult_context) : Prop :=
  good_table (pre_g ctx) G /\ good_table (pre_g_128 ctx) (smul (2 ^ 128) G).

Lemma table_size_G : Z.of_nat (ECMULT_TABLE_SIZE WINDOW_G) = 8192%Z.
Proof. unfold ECMULT_TABLE_SIZE. by rewrite Z2Nat.id. Qed.

Lemma storage_good a p :
  represents a p -> on_curve p -> p <> Infinity ->
  good_table (Some (secp256k1_ecmult_odd_multiples_table_storage_var (ECMULT_TABLE_SIZE WINDOW_G) a)) p.
Proof.
  intros Ha Hp Hpn. assert (Hsz := table_size_G).
  assert (Ht := storage_table_spec (ECMULT_TABLE_SIZE WINDOW_G) a p ltac:(lia) Ha Hp Hpn).
  eexists. split; [reflexivity|]. assert (Hl := Forall2_length _ _ _ Ht). rewrite odds_length in Hl by lia.
  split; [done|]. intros i s Hs. destruct (Forall2_lookup_l _ _ _ _ _ Ht Hs) as (q & Hq & Hst).
  rewrite odds_lookup in Hq; [by injection Hq as <-|done|]. rewrite <- Hl. by eapply lookup_lt_Some.
Qed.

Lemma G_represents : represents_ge secp256k1_ge_const_g G.
Proof.
  split; [done|]. split; (split; [unfold magnitude; vm_compute; intuition congruence|by apply fe_eq]).
Qed.

Lemma double_times_represents n a p :
  represents a p -> on_curve p -> represents (double_times n a) (smul (2 ^ Z.of_nat n) p).
Proof.
  revert a p. induction n as [|n IH]; intros a p Ha Hp; [done|]. cbn [double_times].
  rewrite Nat2Z.inj_succ, Z.pow_succ_r, Z.mul_comm, smul_mul, smul_2 by (lia || done).
  apply IH; [by apply double_represents|auto with curve].
Qed.

Lemma build_good ctx :
  good_context ctx \/ pre_g ctx = None -> good_context (secp256k1_ecmult_context_build ctx).
Proof.
  unfold secp256k1_ecmult_context_build. intros [[(l & E & H) H2]|E].
  - rewrite E. split; [|done]. exists l. done.
  - rewrite E. assert (HG : represents (secp256k1_gej_set_ge secp256k1_ge_const_g) G) by apply set_ge_represents, G_represents.
    split; [apply storage_good; [exact HG|apply G_on_curve|discriminate]|].
    apply storage_good; [exact (double_times_represents 128 _ G HG G_on_curve)|apply smul_on_curve, G_on_curve|].
    intros E2. apply multiple_zero in E2; [|apply G_on_curve|discriminate]. by vm_compute in E2.
Qed.

Lemma clone_good ctx : good_context ctx -> secp256k1_ecmult_context_clone ctx = ctx.
Proof.
  destruct ctx as [t t128]. intros [(l & E & Hl & _) (l' & E' & Hl' & _)]. cbn [pre_g pre_g_128] in E, E'. subst t t128.
  unfold secp256k1_ecmult_context_clone. cbn [pre_g pre_g_128]. by rewrite !firstn_all2 by lia.
Qed.

End EcmultFacts.
