(* ===== verification/DoubleMul.v ===== *)
(** * The main loop of the double multiplication

    Every point of the curve is a multiple of the generator, so the loop is
    followed on multiples: a round doubles the multiple and adds the four
    digits at its position. *)

From Stdlib Require Import ZArith Lia Ring Field Zmod.
From stdpp Require Import base option list.
From S2P Require Import Prelude Words Field FieldFacts FieldExp Scalar ScalarFacts ScalarOps ScalarExp.
From S2P Require Import Curve CurveFacts GroupLaw GroupAssoc PointMul PointOrder.
From S2P Require Import Group GroupFacts GroupOps Points PointConv Tables Ecmult Wnaf EcmultFacts.
Local Open Scope Z_scope.

Module DoubleMul.
Import Field FieldFacts Scalar ScalarFacts ScalarOps ScalarExp.
Import Curve CurveFacts GroupLaw GroupAssoc PointMul PointOrder.
Import Group GroupFacts GroupOps Points PointConv Tables Ecmult Wnaf EcmultFacts.

(** ** Digits *)

(** A window expansion of [k] in an array, with [bits] digits that matter. *)
Record expands (w k : Z) (l : list Z) (bits : Z) : Prop := mkExpands {
  exp_bits : 0 <= bits <= Z.of_nat (length l);
  exp_value : digits_value l = k;
  exp_digits : Forall (digit_ok w) l;
  exp_zeros : forall j, bits <= Z.of_nat j -> (j < length l)%nat -> l !! j = Some 0 }.

Definition digit (l : list Z) (i : nat) : Z := default 0 (l !! i).

(** The number the digits from [i] on stand for. *)
Definition rest (l : list Z) (i : nat) : Z := digits_value (drop i l).

Lemma rest_step l i : rest l i = digit l i + 2 * rest l (S i).
Proof.
  unfold rest, digit. revert i. induction l as [|d l IH]; intros [|i]; try done.
  cbn [drop lookup list_lookup]. apply IH.
Qed.

Lemma zeros_value l : (forall j, (j < length l)%nat -> l !! j = Some 0) -> digits_value l = 0.
Proof.
  induction l as [|d l IH]; intros H; [done|]. change (d + 2 * digits_value l = 0). rewrite IH.
  - specialize (H 0%nat ltac:(cbn; lia)). cbn in H. injection H as ->. done.
  - intros j Hj. apply (H (S j)). cbn. lia.
Qed.

Lemma rest_above w k l bits i : expands w k l bits -> bits <= Z.of_nat i -> rest l i = 0.
Proof.
  intros [Hb _ _ Hz] Hi. apply zeros_value. intros j Hj. rewrite length_drop in Hj.
  rewrite lookup_drop. apply Hz; lia.
Qed.

(** ** Reading the tables *)

(** Index [(|n| - 1) / 2] of a table that is large enough for the window. *)
Lemma digit_index w n (sz : nat) :
  2 <= w -> Z.of_nat sz = 2 ^ (w - 2) -> digit_ok w n -> n <> 0 ->
  exists i, (i < sz)%nat /\ Z.abs n = 2 * Z.of_nat i + 1 /\ Z.quot (Z.abs n - 1) 2 = Z.of_nat i.
Proof.
  intros Hw Hsz [?|[Ho Hr]] Hn; [done|].
  assert (Hp : 2 ^ (w - 1) = 2 * 2 ^ (w - 2)) by (rewrite <- Z.pow_succ_r by lia; f_equal; lia).
  exists (Z.to_nat ((Z.abs n - 1) / 2)). rewrite Z.quot_div_nonneg by lia.
  assert (Hq : Z.abs n = 2 * ((Z.abs n - 1) / 2) + 1) by (Z.div_mod_to_equations; lia).
  assert (0 <= (Z.abs n - 1) / 2) by (apply Z.div_pos; lia). lia.
Qed.

Lemma at_index_nat {A} (l : list A) (i : nat) : at_index l (Z.of_nat i) = l !! i.
Proof. unfold at_index. destruct (Z.ltb_spec (Z.of_nat i) 0); [lia|]. by rewrite Nat2Z.id. Qed.

Definition table_at (u : F) (sz : nat) (pre : list secp256k1_ge) (p : point) : Prop :=
  length pre = sz /\ forall i b, pre !! i = Some b -> represents_ge_at u b (smul (2 * Z.of_nat i + 1) p).

Lemma smul_signed n k p : 0 < n \/ n < 0 -> Z.abs n = k ->
  smul n p = if n >? 0 then smul k p else neg (smul k p).
Proof.
  intros Hn <-. destruct (Z.gtb_spec n 0); [by rewrite Z.abs_eq by lia|].
  rewrite Z.abs_neq, smul_opp, neg_neg by lia. done.
Qed.

Lemma get_ge_spec u w sz pre p n :
  table_at u sz pre p -> 2 <= w -> Z.of_nat sz = 2 ^ (w - 2) -> digit_ok w n -> n <> 0 ->
  exists b, ECMULT_TABLE_GET_GE pre n = Some b /\ represents_ge_at u b (smul n p).
Proof.
  intros [Hl Ht] Hw Hsz Hd Hn. destruct (digit_index w n sz Hw Hsz Hd Hn) as (i & Hi & Ha & Hq).
  rewrite <- Hl in Hi. apply lookup_lt_is_Some_2 in Hi as [b Hb]. specialize (Ht i b Hb).
  rewrite (smul_signed n _ p ltac:(lia) Ha). unfold ECMULT_TABLE_GET_GE. destruct (Z.gtb_spec n 0).
  - rewrite Z.abs_eq in Hq by lia. rewrite Hq, at_index_nat. by exists b.
  - rewrite Z.abs_neq in Hq by lia. rewrite Hq, at_index_nat, Hb. eexists. split; [done|].
    by apply ge_neg_represents_at.
Qed.

Lemma get_storage_spec t p n l :
  t = Some l -> good_table t p -> digit_ok WINDOW_G n -> n <> 0 ->
  exists b, ECMULT_TABLE_GET_GE_STORAGE l n = Some b /\ represents_ge b (smul n p).
Proof.
  intros Et (l' & E' & Hl & Ht) Hd Hn. rewrite Et in E'. injection E' as <-.
  destruct (digit_index WINDOW_G n _ ltac:(done) table_size_G Hd Hn) as (i & Hi & Ha & Hq).
  rewrite <- Hl in Hi. apply lookup_lt_is_Some_2 in Hi as [s Hs]. specialize (Ht i s Hs).
  apply from_storage_represents in Ht.
  rewrite (smul_signed n _ p ltac:(lia) Ha). unfold ECMULT_TABLE_GET_GE_STORAGE. destruct (Z.gtb_spec n 0).
  - rewrite Z.abs_eq in Hq by lia. rewrite Hq, at_index_nat, Hs. by eexists.
  - rewrite Z.abs_neq in Hq by lia. rewrite Hq, at_index_nat, Hs. eexists. split; [done|]. by apply ge_neg_represents.
Qed.

(** ** One digit *)

(** A statement of the loop that adds digit [i] of [l] times [p], on multiples
    of the generator. *)
Definition adds (u : F) (f : Z -> secp256k1_gej -> option secp256k1_gej) (l : list Z) (g : Z) : Prop :=
  forall i r e, represents_at u r (smul e G) ->
    exists r', f (Z.of_nat i) r = Some r' /\ represents_at u r' (smul (e + digit l i * g) G).

Lemma add_multiple e d g : add (smul e G) (smul d (smul g G)) = smul (e + d * g) G.
Proof. by rewrite <- smul_mul, <- smul_add by auto with curve. Qed.

Lemma digit_zero w k l bits i : expands w k l bits -> bits <= Z.of_nat i -> digit l i = 0.
Proof.
  intros [Hb _ _ Hz] Hi. unfold digit. destruct (decide (i < length l)%nat) as [Hl|Hl]; [by rewrite Hz|].
  by rewrite (lookup_ge_None_2 l i) by lia.
Qed.

Lemma digit_lookup w k l bits i :
  expands w k l bits -> Z.of_nat i < bits -> l !! i = Some (digit l i) /\ digit_ok w (digit l i).
Proof.
  intros [Hb _ Hd _] Hi. destruct (lookup_lt_is_Some_2 l i) as [d Hl]; [lia|]. unfold digit. rewrite Hl. split; [done|].
  rewrite Forall_lookup in Hd. by apply (Hd i).
Qed.

Lemma add_digit_adds u w sz pre g k l bits :
  u <> fe 0 -> table_at u sz pre (smul g G) -> 2 <= w -> Z.of_nat sz = 2 ^ (w - 2) -> expands w k l bits ->
  adds u (add_digit pre l bits) l g.
Proof.
  intros Hu Ht Hw Hsz He i r e Hr. unfold add_digit. destruct (Z.ltb_spec (Z.of_nat i) bits) as [Hi|Hi].
  - destruct (digit_lookup w k l bits i He Hi) as [Hl Hd]. rewrite at_index_nat, Hl. cbn [mbind option_bind].
    destruct (Z.eqb_spec (digit l i) 0) as [E|E].
    + exists r. split; [done|]. by rewrite E, Z.add_0_r.
    + destruct (get_ge_spec u w sz pre (smul g G) (digit l i)) as (b & -> & Hb); [done..|].
      eexists. split; [done|]. rewrite <- add_multiple. apply add_ge_at; auto with curve.
  - exists r. split; [done|]. by rewrite (digit_zero w k l bits), Z.add_0_r.
Qed.

Lemma zinv_same u b z p : u <> fe 0 -> has 8 u z -> represents_ge b p -> represents_zinv u b z p.
Proof.
  intros Hu Hz. destruct p as [|x y]; [done|]. intros (Hi & Hx & Hy). split; [done|]. exists u. split; [done|].
  split; [done|]. split; (eapply has_eq; [eassumption|lia|by field]).
Qed.

Lemma add_storage_adds u z t g k l bits :
  u <> fe 0 -> has 8 u z -> good_table t (smul g G) -> expands WINDOW_G k l bits ->
  adds u (fun i => add_digit_storage t l bits i z) l g.
Proof.
  intros Hu Hz Ht He i r e Hr. unfold add_digit_storage. destruct (Z.ltb_spec (Z.of_nat i) bits) as [Hi|Hi].
  - destruct (digit_lookup WINDOW_G k l bits i He Hi) as [Hl Hd]. rewrite at_index_nat, Hl. cbn [mbind option_bind].
    destruct (Z.eqb_spec (digit l i) 0) as [E|E].
    + exists r. split; [done|]. by rewrite E, Z.add_0_r.
    + assert (Ht' := Ht). destruct Ht' as (tl & Etl & _).
      destruct (get_storage_spec t (smul g G) (digit l i) tl) as (b & Eb & Hb); [done..|].
      rewrite Etl. cbn [mbind option_bind]. rewrite Eb. eexists. split; [done|]. rewrite <- add_multiple.
      apply add_zinv_at; auto using zinv_same with curve.
  - exists r. split; [done|]. by rewrite (digit_zero WINDOW_G k l bits), Z.add_0_r.
Qed.

(** ** The loop *)

Section Rounds.
Context (u : F) (Hu : u <> fe 0).
Context (f1 f2 f3 f4 : Z -> secp256k1_gej -> option secp256k1_gej).
Context (l1 l2 l3 l4 : list Z) (g1 g2 g3 g4 : Z).
Context (H1 : adds u f1 l1 g1) (H2 : adds u f2 l2 g2) (H3 : adds u f3 l3 g3) (H4 : adds u f4 l4 g4).

Definition round (i : Z) (r : secp256k1_gej) : option secp256k1_gej :=
  let r := fst (secp256k1_gej_double_var r r None) in
  r ← f1 i r; r ← f2 i r; r ← f3 i r; f4 i r.

Definition exponent (i : nat) : Z := rest l1 i * g1 + rest l2 i * g2 + rest l3 i * g3 + rest l4 i * g4.

Lemma round_spec i r :
  represents_at u r (smul (exponent (S i)) G) ->
  exists r', round (Z.of_nat i) r = Some r' /\ represents_at u r' (smul (exponent i) G).
Proof using Hu H1 H2 H3 H4.
  intros Hr. apply (double_at u Hu r r _ None) in Hr; [|auto with curve].
  rewrite <- smul_add in Hr by auto with curve. unfold round. cbv zeta.
  destruct (H1 i _ _ Hr) as (r1 & -> & Hr1). cbn [mbind option_bind].
  destruct (H2 i _ _ Hr1) as (r2 & -> & Hr2). cbn [mbind option_bind].
  destruct (H3 i _ _ Hr2) as (r3 & -> & Hr3). cbn [mbind option_bind].
  destruct (H4 i _ _ Hr3) as (r4 & -> & Hr4). exists r4. split; [done|].
  replace (exponent i) with (exponent (S i) + exponent (S i) + digit l1 i * g1 + digit l2 i * g2 +
    digit l3 i * g3 + digit l4 i * g4); [done|].
  unfold exponent. rewrite (rest_step l1 i), (rest_step l2 i), (rest_step l3 i), (rest_step l4 i). ring.
Qed.

Lemma rounds_spec i r :
  represents_at u r (smul (exponent i) G) ->
  exists r', ecmult_loop round i r = Some r' /\ represents_at u r' (smul (exponent 0) G).
Proof using Hu H1 H2 H3 H4.
  revert r. induction i as [|i IH]; intros r Hr; [by exists r|]. cbn [ecmult_loop].
  destruct (round_spec i r Hr) as (r' & -> & Hr'). by apply IH.
Qed.

End Rounds.

Lemma table_lambda u sz pre p :
  on_curve p -> table_at u sz pre p -> table_at u sz (map secp256k1_ge_mul_lambda pre) (endo p).
Proof.
  intros Hp [Hl Ht]. split; [by rewrite length_map|]. intros i b Hb. rewrite list_lookup_fmap in Hb.
  destruct (pre !! i) as [c|] eqn:E; [|done]. injection Hb as <-. rewrite <- endo_smul by done.
  by apply mul_lambda_represents_at, Ht.
Qed.

Lemma odds_table u n pre p :
  on_curve p -> (1 <= n)%nat -> Forall2 (represents_ge_at u) pre (odds n p) -> table_at u n pre p.
Proof.
  intros Hp Hn Hf. assert (Hl := Forall2_length _ _ _ Hf). rewrite odds_length in Hl by done. split; [done|].
  intros i b Hb. destruct (Forall2_lookup_l _ _ _ _ _ Hf Hb) as (q & Hq & Hr).
  rewrite odds_lookup in Hq; [by injection Hq as <-|done|]. rewrite <- Hl. by eapply lookup_lt_Some.
Qed.

Lemma expansion_of len a w k :
  1 <= len <= 200 -> 2 <= w <= 20 -> scalar_ok a -> sval a = k mod N -> Z.abs k < 2 ^ (len - 1) ->
  exists l bits, secp256k1_ecmult_wnaf len a w = Some (l, bits) /\ expands w k l bits.
Proof.
  intros Hlen Hw Ha Hk Hs. destruct (wnaf_spec len a w k Hlen Hw Ha Hk Hs) as (l & bits & E & Hl & Hb & Hv & Hd & _ & Hz).
  exists l, bits. split; [done|]. split; [lia|done|done|]. intros j Hj Hjl. apply Hz; lia.
Qed.

Lemma split_128_spec a :
  scalar_ok a ->
  let '(r1, r2) := secp256k1_scalar_split_128 a in
  scalar_ok r1 /\ scalar_ok r2 /\ sval r1 < 2 ^ 128 /\ sval r2 < 2 ^ 128 /\ sval a = sval r1 + sval r2 * 2 ^ 128.
Proof.
  intros [(H0 & H1 & H2 & H3) Hn]. unfold secp256k1_scalar_split_128, scalar_ok, limbs_ok, sval, is_word, N in *.
  cbn [d0 d1 d2 d3] in *. lia.
Qed.

(** The scale is the common z coordinate: multiplying by it at the end gives
    the point. *)
Lemma final_z u r z p :
  u <> fe 0 -> has 8 u z -> represents_at u r p ->
  represents (if infinity r =? 0 then mkGej (jx r) (jy r) (secp256k1_fe_mul (jz r) z) (infinity r) else r) p.
Proof.
  intros Hu Hz. destruct p as [|x y]; [intros E; cbn in E; by rewrite E|]. intros (Hi & zz & Hzz & Hx & Hy & Hjz).
  rewrite Hi. split; [done|]. exists (zz * u)%F. split; [by apply nz_mul|]. split; [done|]. split; [done|].
  cbn [Z.eqb jz]. eapply has_eq; [fe_rule|lia|done].
Qed.

Lemma max_bits a b : (if a >? b then a else b) = Z.max b a.
Proof. destruct (Z.gtb_spec a b); lia. Qed.

Lemma ecmult_spec ctx a p na ng :
  good_context ctx -> represents a p -> on_curve p -> p <> Infinity -> scalar_ok na -> scalar_ok ng ->
  exists r, secp256k1_ecmult ctx a na ng = Some r /\
    represents r (add (smul (sval na) p) (smul (sval ng) G)).
Proof.
  intros [Hg Hg128] Ha Hp Hpn Hna Hng. unfold secp256k1_ecmult.
  destruct (split_lambda_spec na Hna) as (a1 & a2 & k1 & k2 & -> & Hok1 & Hok2 & E1 & E2 & B1 & B2 & Ek).
  destruct (expansion_of 130 a1 WINDOW_A k1) as (l1 & b1 & -> & X1); [done|done|done|done|lia|].
  destruct (expansion_of 130 a2 WINDOW_A k2) as (l2 & b2 & -> & X2); [done|done|done|done|lia|].
  cbn [mbind option_bind].
  assert (Ht := globalz_table_spec a p Ha Hp Hpn).
  destruct (secp256k1_ecmult_odd_multiples_table_globalz_windowa a) as [pre gz].
  destruct Ht as (u & Hu & Hz & Ht). apply odds_table in Ht; [|done|vm_compute; lia].
  assert (Hs := split_128_spec ng Hng). destruct (secp256k1_scalar_split_128 ng) as [n1 n2].
  destruct Hs as (O3 & O4 & B3 & B4 & En). assert (R3 := sval_range n1 (proj1 O3)). assert (R4 := sval_range n2 (proj1 O4)).
  destruct (expansion_of 129 n1 WINDOW_G (sval n1)) as (l3 & b3 & -> & X3);
    [done|done|done|symmetry; apply Z.mod_small; unfold N; lia|lia|].
  cbn [mbind option_bind].
  destruct (expansion_of 129 n2 WINDOW_G (sval n2)) as (l4 & b4 & -> & X4);
    [done|done|done|symmetry; apply Z.mod_small; unfold N; lia|lia|].
  cbn [mbind option_bind]. rewrite !max_bits.
  destruct (generated_point p Hp) as [g Eg].
  assert (A1 : adds u (add_digit pre l1 b1) l1 g) by (rewrite Eg in Ht; by apply (add_digit_adds u WINDOW_A (ECMULT_TABLE_SIZE WINDOW_A) pre g k1)).
  assert (A2 : adds u (add_digit (map secp256k1_ge_mul_lambda pre) l2 b2) l2 (lambda * g)).
  { apply table_lambda in Ht; [|done]. rewrite endo_lambda, Eg, <- smul_mul in Ht by auto with curve.
    by apply (add_digit_adds u WINDOW_A (ECMULT_TABLE_SIZE WINDOW_A) _ (lambda * g) k2). }
  assert (A3 : adds u (fun i => add_digit_storage (pre_g ctx) l3 b3 i gz) l3 1).
  { apply (add_storage_adds u gz (pre_g ctx) 1 (sval n1)); [exact Hu|exact Hz|rewrite smul_1; exact Hg|exact X3]. }
  assert (A4 : adds u (fun i => add_digit_storage (pre_g_128 ctx) l4 b4 i gz) l4 (2 ^ 128)).
  { apply (add_storage_adds u gz (pre_g_128 ctx) (2 ^ 128) (sval n2)); [exact Hu|exact Hz|exact Hg128|exact X4]. }
  set (bits := Z.max (Z.max (Z.max b1 b2) b3) b4).
  destruct (rounds_spec u Hu _ _ _ _ l1 l2 l3 l4 _ _ _ _ A1 A2 A3 A4 (Z.to_nat bits) secp256k1_gej_set_infinity)
    as (r & Er & Hr).
  - assert (Hb1 := exp_bits _ _ _ _ X1). unfold exponent.
    rewrite (rest_above _ _ _ _ _ X1), (rest_above _ _ _ _ _ X2), (rest_above _ _ _ _ _ X3), (rest_above _ _ _ _ _ X4) by lia.
    done.
  - unfold round in Er. rewrite Er. eexists. split; [done|]. apply (final_z u); [done..|].
    enough (E : smul (exponent l1 l2 l3 l4 g (lambda * g) 1 (2 ^ 128) 0) G = add (smul (sval na) p) (smul (sval ng) G))
      by (by rewrite <- E).
    unfold exponent, rest. rewrite !skipn_O. rewrite (exp_value _ _ _ _ X1), (exp_value _ _ _ _ X2), (exp_value _ _ _ _ X3),
      (exp_value _ _ _ _ X4), Eg, <- smul_mul, <- smul_add by auto with curve.
    rewrite <- Ek, En. rewrite <- (smul_mod N _ G), <- (smul_mod N (_ mod N * _ + _) G)
      by (auto using point_order with curve || done). f_equal.
    rewrite <- (Z.add_mod_idemp_l (_ mod N * g)), Z.mul_mod_idemp_l, Z.add_mod_idemp_l by done. f_equal. ring.
Qed.

End DoubleMul.
