(* ===== verification/EcmultGen.v ===== *)
(** * Multiplication of the generator
    (libsecp256k1/src/ecmult_gen.h, ecmult_gen_impl.h)

    [secp256k1_ecmult_gen] adds one entry of a precomputed table for every four
    bits of a blinded scalar, selected by conditional moves over all sixteen
    entries. The table is computed when the context is built
    ([USE_ECMULT_STATIC_PRECOMPUTATION] is not defined).

    [None] is a use of a table that is not there, a read outside an array, or a
    retry loop that has not ended within the fuel. [junk] is the uninitialised
    block buffer of the hash. Uninitialised arrays of points hold zeros; the
    code writes them before it reads them. The clearing of secrets in dead
    local variables is not modelled. *)

From Stdlib Require Import ZArith Lia.
From stdpp Require Import base option list.
From S2P Require Import Prelude Words Sha256 Field FieldExp Scalar ScalarExp Group Ecmult.
Local Open Scope Z_scope.

Module EcmultGen.
Import Sha256 Field FieldExp Scalar ScalarExp Group Ecmult.

Record secp256k1_ecmult_gen_context := mkGenContext {
  prec : option (list (list secp256k1_ge_storage));
  blind : secp256k1_scalar;
  initial : secp256k1_gej }.

Definition secp256k1_ecmult_gen_context_init (ctx : secp256k1_ecmult_gen_context) : secp256k1_ecmult_gen_context :=
  mkGenContext None (blind ctx) (initial ctx).

(** ** Multiplication *)

(** [for (i = 0; i < 16; i++) secp256k1_ge_storage_cmov(&adds, &prec[j][i], i == bits)] *)
Fixpoint select_entry (adds : secp256k1_ge_storage) (row : list secp256k1_ge_storage) (i bits : Z)
    : secp256k1_ge_storage :=
  match row with
  | [] => adds
  | s :: row' => select_entry (secp256k1_ge_storage_cmov adds s (b2z (i =? bits))) row' (i + 1) bits
  end.

Definition zero_storage : secp256k1_ge_storage := mkGeStorage (mkStorage 0 0 0 0) (mkStorage 0 0 0 0).

(** The loop over [j], for the rows that are left. *)
Fixpoint gen_loop (rows : list (list secp256k1_ge_storage)) (j : Z) (gnb : secp256k1_scalar)
    (adds : secp256k1_ge_storage) (r : secp256k1_gej) : secp256k1_gej :=
  match rows with
  | [] => r
  | row :: rows' =>
      let bits := secp256k1_scalar_get_bits gnb (j * 4) 4 in
      let adds := select_entry adds row 0 bits in
      let add := secp256k1_ge_from_storage adds in
      gen_loop rows' (j + 1) gnb adds (secp256k1_gej_add_ge r add)
  end.

Definition secp256k1_ecmult_gen (ctx : secp256k1_ecmult_gen_context) (gn : secp256k1_scalar) : option secp256k1_gej :=
  let gnb := fst (secp256k1_scalar_add gn (blind ctx)) in
  rows ← prec ctx;
  Some (gen_loop rows 0 gnb zero_storage (initial ctx)).

(** ** Blinding *)

(** The first [do ... while (retry)] loop: a field element that is not zero. *)
Fixpoint random_fe (fuel : nat) (junk : bytes) (rng : secp256k1_rfc6979_hmac_sha256_t)
    : option (secp256k1_rfc6979_hmac_sha256_t * secp256k1_fe) :=
  match fuel with
  | O => None
  | S fuel' =>
      let '(rng, nonce32) := secp256k1_rfc6979_hmac_sha256_generate junk rng 32 in
      let '(s, ok) := secp256k1_fe_set_b32 nonce32 in
      let retry := Z.lor (b2z (ok =? 0)) (b2z (secp256k1_fe_is_zero s)) in
      if negb (retry =? 0) then random_fe fuel' junk rng else Some (rng, s)
  end.

(** The second one: a scalar that is not zero and was not reduced. *)
Fixpoint random_scalar (fuel : nat) (junk : bytes) (rng : secp256k1_rfc6979_hmac_sha256_t)
    : option (secp256k1_rfc6979_hmac_sha256_t * secp256k1_scalar) :=
  match fuel with
  | O => None
  | S fuel' =>
      let '(rng, nonce32) := secp256k1_rfc6979_hmac_sha256_generate junk rng 32 in
      let '(b, retry) := secp256k1_scalar_set_b32 nonce32 in
      let retry := Z.lor retry (b2z (secp256k1_scalar_is_zero b)) in
      if negb (retry =? 0) then random_scalar fuel' junk rng else Some (rng, b)
  end.

(** [seed32] is a pointer that may be NULL. *)
Definition secp256k1_ecmult_gen_blind (fuel : nat) (junk : bytes) (ctx : secp256k1_ecmult_gen_context)
    (seed32 : option bytes) : option secp256k1_ecmult_gen_context :=
  let ctx :=
    match seed32 with
    | None => mkGenContext (prec ctx) (secp256k1_scalar_set_int 1)
                (secp256k1_gej_neg (secp256k1_gej_set_ge secp256k1_ge_const_g))
    | Some _ => ctx
    end in
  let nonce32 := secp256k1_scalar_get_b32 (blind ctx) in
  let keydata := match seed32 with None => nonce32 | Some seed => nonce32 ++ take 32 seed end in
  let rng := secp256k1_rfc6979_hmac_sha256_initialize junk keydata in
  '(rng, s) ← random_fe fuel junk rng;
  let ctx := mkGenContext (prec ctx) (blind ctx) (secp256k1_gej_rescale (initial ctx) s) in
  '(rng, b) ← random_scalar fuel junk rng;
  gb ← secp256k1_ecmult_gen ctx b;
  Some (mkGenContext (prec ctx) (secp256k1_scalar_negate b) gb).

(** ** The table *)

(** ["The scalar for this x is unknown"] *)
Definition nums_b32 : bytes :=
  [0x54; 0x68; 0x65; 0x20; 0x73; 0x63; 0x61; 0x6c; 0x61; 0x72; 0x20; 0x66; 0x6f; 0x72; 0x20; 0x74;
   0x68; 0x69; 0x73; 0x20; 0x78; 0x20; 0x69; 0x73; 0x20; 0x75; 0x6e; 0x6b; 0x6e; 0x6f; 0x77; 0x6e].

Definition nums_gej : secp256k1_gej :=
  let nums_x := fst (secp256k1_fe_set_b32 nums_b32) in
  let nums_ge := fst (secp256k1_ge_set_xo_var nums_x 0) in
  let r := secp256k1_gej_set_ge nums_ge in
  fst (secp256k1_gej_add_ge_var r r secp256k1_ge_const_g None).

(** [prev] and the [n] entries after it. *)
Fixpoint prec_row (n : nat) (prev gbase : secp256k1_gej) : list secp256k1_gej :=
  prev :: match n with
          | O => []
          | S n' => prec_row n' (fst (secp256k1_gej_add_var secp256k1_gej_clear prev gbase None)) gbase
          end.

(** The loop over [j], for [n] more rows. *)
Fixpoint prec_rows (n : nat) (j : Z) (gbase numsbase : secp256k1_gej) : list secp256k1_gej :=
  match n with
  | O => []
  | S n' =>
      let row := prec_row 15 numsbase gbase in
      let gbase := double_times 4 gbase in
      let numsbase := fst (secp256k1_gej_double_var numsbase numsbase None) in
      let numsbase :=
        if j =? 62 then
          let numsbase := secp256k1_gej_neg numsbase in
          fst (secp256k1_gej_add_var numsbase numsbase nums_gej None)
        else numsbase in
      row ++ prec_rows n' (j + 1) gbase numsbase
  end.

(** The array of 1024 points as 64 rows of 16. *)
Fixpoint rows_of (n : nat) (l : list secp256k1_ge_storage) : list (list secp256k1_ge_storage) :=
  match n with O => [] | S n' => take 16 l :: rows_of n' (drop 16 l) end.

Definition gen_table : list (list secp256k1_ge_storage) :=
  let gj := secp256k1_gej_set_ge secp256k1_ge_const_g in
  let precj := prec_rows 64 0 gj nums_gej in
  let prec := secp256k1_ge_set_all_gej_var (replicate 1024 secp256k1_ge_clear) precj in
  rows_of 64 (map secp256k1_ge_to_storage prec).

Definition secp256k1_ecmult_gen_context_build (fuel : nat) (junk : bytes) (ctx : secp256k1_ecmult_gen_context)
    : option secp256k1_ecmult_gen_context :=
  match prec ctx with
  | Some _ => Some ctx
  | None => secp256k1_ecmult_gen_blind fuel junk (mkGenContext (Some gen_table) (blind ctx) (initial ctx)) None
  end.

Definition secp256k1_ecmult_gen_context_is_built (ctx : secp256k1_ecmult_gen_context) : bool :=
  match prec ctx with Some _ => true | None => false end.

(** [dst] is the old contents of the copy. *)
Definition secp256k1_ecmult_gen_context_clone (dst src : secp256k1_ecmult_gen_context) : secp256k1_ecmult_gen_context :=
  match prec src with
  | None => mkGenContext None (blind dst) (initial dst)
  | Some t => mkGenContext (Some t) (blind src) (initial src)
  end.

Definition secp256k1_ecmult_gen_context_clear (ctx : secp256k1_ecmult_gen_context) : secp256k1_ecmult_gen_context :=
  mkGenContext None secp256k1_scalar_clear secp256k1_gej_clear.

End EcmultGen.
