(* ===== verification/GenTable.v ===== *)
(** * The table of the generator multiplication

    Entry [i] of row [j] is [c j * U + i * 16 ^ j * G], where the factors [c] of
    the point [U] add up to zero. None of the 1024 entries is infinity, which
    storage could not hold; this is computed. *)

From Stdlib Require Import ZArith Lia Ring Field Zmod.
From Bignums Require Import BigZ.BigZ.
From stdpp Require Import base option list.
From S2P Require Import Prelude Words Field FieldFacts FieldOps FieldExp ScalarFacts.
From S2P Require Import Curve CurveFacts GroupLaw GroupAssoc PointMul PointOrder.
From S2P Require Import Group GroupFacts GroupOps Points PointConv Tables Ecmult EcmultFacts EcmultGen.
Local Open Scope Z_scope.

Module GenTable.
Import Field FieldFacts FieldOps FieldExp Curve CurveFacts GroupLaw GroupAssoc PointMul PointOrder.
Import Group GroupFacts GroupOps Points PointConv Tables Ecmult EcmultFacts EcmultGen.

(** ** The point with no known scalar *)

Definition nums_x : Z := 0x546865207363616c617220666f722074686973207820697320756e6b6e6f776e.
Definition nums_y : Z := 0x28ebb7e4e1f6a12e1c0faaf47e09c33305d50890856930e67e5299348ff7f20e.

Definition nums : point := Affine (fe nums_x) (fe nums_y).

(** The point [U] of the comment in the source. *)
Definition U : point := add nums G.

Lemma nums_on_curve : on_curve nums.
Proof. unfold on_curve, nums, curve. rewrite <- !fe_mul, <- fe_add. by apply fe_eq. Qed.

Lemma U_on_curve : on_curve U.
Proof. apply add_on_curve; [apply nums_on_curve|apply G_on_curve]. Qed.

Lemma even_root x y y' : curve x y -> curve x y' -> Zmod.to_Z y mod 2 = 0 -> Zmod.to_Z y' mod 2 = 0 -> y = y'.
Proof.
  intros Hy Hy' E E'. destruct (same_x_same_or_opposite x y y' Hy Hy') as [?|Ho]; [done|exfalso].
  assert (y' = - y)%F as -> by (transitivity (y + y' - y)%F; [ring|rewrite Ho; ring]).
  apply (opposite_parity x y Hy). by rewrite E, E'.
Qed.

Lemma nums_gej_represents : represents nums_gej U.
Proof.
  unfold nums_gej. cbv zeta.
  assert (Hx : has 1 (fe nums_x) (fst (secp256k1_fe_set_b32 nums_b32))).
  { split; [unfold magnitude; vm_compute; intuition congruence|by apply fe_eq]. }
  assert (Hs := set_xo_spec _ 1 _ 0 Hx ltac:(lia) ltac:(by left)).
  destruct (secp256k1_ge_set_xo_var _ 0) as [r ok]. destruct Hs as [Ht Hf]. destruct ok.
  - destruct (Ht eq_refl) as (y & Hc & Hodd & _ & Hr). rewrite (even_root _ y (fe nums_y) Hc nums_on_curve Hodd) in Hr by done.
    apply add_ge_represents; [by apply set_ge_represents|apply G_represents|apply nums_on_curve|apply G_on_curve].
  - exfalso. apply (Hf eq_refl (fe nums_y)). apply nums_on_curve.
Qed.

Lemma U_sum : U = add G nums.
Proof. apply add_comm; [apply nums_on_curve|apply G_on_curve]. Qed.

#[global] Opaque U.

#[export] Hint Resolve U_on_curve : curve.

(** ** What the table holds *)

Definition factor (j : nat) : Z := if (j =? 63)%nat then 1 - 2 ^ 63 else 2 ^ Z.of_nat j.

Definition entry (j i : nat) : point := add (smul (factor j) U) (smul (Z.of_nat i * 16 ^ Z.of_nat j) G).

Lemma entry_on_curve j i : on_curve (entry j i).
Proof. unfold entry. auto with curve. Qed.

Definition row_points (j : nat) : list point := map (entry j) (seq 0 16).

Lemma prec_row_spec n prev gbase p g :
  represents prev p -> represents gbase g -> on_curve p -> on_curve g ->
  Forall2 represents (prec_row n prev gbase) (map (fun i => add p (smul (Z.of_nat i) g)) (seq 0 (S n))).
Proof.
  revert prev p. induction n as [|n IH]; intros prev p Hp Hg Cp Cg.
  - cbn. rewrite add_0_r. by repeat constructor.
  - cbn [prec_row]. change (seq 0 (S (S n))) with (0%nat :: seq 1 (S n)). cbn [map]. constructor.
    + by rewrite add_0_r.
    + rewrite <- seq_shift, map_map.
      erewrite map_ext; [apply IH; [apply add_represents; [exact Hp|exact Hg|done..]|done|auto with curve|done]|].
      intros i. cbv beta. by rewrite add_assoc, <- smul_succ, Nat2Z.inj_succ by auto with curve.
Qed.

Lemma smul_one_minus k p : on_curve p -> smul (1 - k) p = add (neg (smul k p)) p.
Proof.
  intros Hp. rewrite <- smul_opp. rewrite <- (smul_1 p) at 3. rewrite <- smul_add by done. f_equal. lia.
Qed.

Lemma prec_rows_spec n (j : nat) gbase numsbase :
  (j + n = 64)%nat -> represents gbase (smul (16 ^ Z.of_nat j) G) ->
  represents numsbase (smul (factor j) U) ->
  Forall2 represents (prec_rows n (Z.of_nat j) gbase numsbase) (concat (map row_points (seq j n))).
Proof.
  revert j gbase numsbase. induction n as [|n IH]; intros j gbase numsbase Hj Hg Hn; [constructor|].
  cbn [prec_rows seq map concat]. cbv zeta. apply Forall2_app.
  - unfold row_points. erewrite map_ext; [apply (prec_row_spec 15); [exact Hn|exact Hg|auto with curve..]|].
    intros i. unfold entry. by rewrite smul_mul by auto with curve.
  - destruct n as [|n]; [constructor|].
    replace (Z.of_nat j + 1) with (Z.of_nat (S j)) by lia. apply IH; [lia| |].
    + apply (double_times_represents 4) in Hg; [|auto with curve]. rewrite <- smul_mul in Hg by auto with curve.
      rewrite Nat2Z.inj_succ, Z.pow_succ_r by lia. done.
    + assert (Hd := double_represents numsbase numsbase _ None Hn ltac:(auto with curve)).
      rewrite <- smul_add in Hd by auto with curve.
      assert (Ej : factor j = 2 ^ Z.of_nat j) by (unfold factor; destruct (Nat.eqb_spec j 63); [lia|done]).
      replace (factor j + factor j) with (2 ^ Z.of_nat (S j)) in Hd
        by (rewrite Ej, Nat2Z.inj_succ, Z.pow_succ_r by lia; lia).
      destruct (Z.eqb_spec (Z.of_nat j) 62) as [E|E].
      * assert (Ef : factor (S j) = 1 - 2 ^ Z.of_nat (S j))
          by (unfold factor; destruct (Nat.eqb_spec (S j) 63) as [->|]; [done|lia]).
        rewrite Ef, smul_one_minus by auto with curve.
        apply add_represents; [by apply gej_neg_represents|apply nums_gej_represents|auto with curve..].
      * assert (Ef : factor (S j) = 2 ^ Z.of_nat (S j))
          by (unfold factor; destruct (Nat.eqb_spec (S j) 63) as [|]; [lia|done]).
        by rewrite Ef.
Qed.

(** ** No entry is infinity *)

Definition jdiff (a b : jac) : BigZ.t :=
  BigZ.modulo (bX b * BigZ.modulo (bZ a * bZ a)%bigZ bP - bX a * BigZ.modulo (bZ b * bZ b)%bigZ bP)%bigZ bP.

(** The sum of two points with different abscissas. *)
Definition jplus (a b : jac) : jac :=
  let za := BigZ.modulo (bZ a * bZ a)%bigZ bP in
  let zb := BigZ.modulo (bZ b * bZ b)%bigZ bP in
  let u := BigZ.modulo (bX a * zb)%bigZ bP in
  let s := BigZ.modulo (BigZ.modulo (bY a * zb)%bigZ bP * bZ b)%bigZ bP in
  let h := jdiff a b in
  let r := BigZ.modulo (BigZ.modulo (bY b * za)%bigZ bP * bZ a - s)%bigZ bP in
  let hh := BigZ.modulo (h * h)%bigZ bP in
  let hhh := BigZ.modulo (h * hh)%bigZ bP in
  let v := BigZ.modulo (u * hh)%bigZ bP in
  let x := BigZ.modulo (r * r - hhh - 2 * v)%bigZ bP in
  mkJac x (BigZ.modulo (r * (v - x) - s * hhh)%bigZ bP) (BigZ.modulo (BigZ.modulo (bZ a * bZ b)%bigZ bP * h)%bigZ bP).

Definition jneg (a : jac) : jac := mkJac (bX a) (BigZ.modulo (- bY a)%bigZ bP) (bZ a).

(** [p], [p + g], ..., [p + n g], when all abscissas differ from that of [g]. *)
Fixpoint jrow (n : nat) (p g : jac) : bool :=
  match n with
  | O => true
  | S n' => negb (BigZ.eqb (jdiff p g) 0) && jrow n' (jplus p g) g
  end.

(** Rows [j], ..., [62] and the last one. *)
Fixpoint jrows (n : nat) (g u u0 : jac) : bool :=
  match n with
  | O => let u := jneg u in negb (BigZ.eqb (jdiff u u0) 0) && jrow 15 (jplus u u0) g
  | S n' => jrow 15 u g && jrows n' (jdouble (jdouble (jdouble (jdouble g)))) (jdouble u) u0
  end.

Lemma jplus_rep a b p q :
  on_curve p -> on_curve q -> jrep a p -> jrep b q -> negb (BigZ.eqb (jdiff a b) 0) = true ->
  jrep (jplus a b) (add p q).
Proof.
  intros Hp Hq (x1 & y1 & -> & Hz1 & Hx1 & Hy1) (x2 & y2 & -> & Hz2 & Hx2 & Hy2) Eh%negb_true_iff.
  apply beqb_zero in Eh. revert Eh. bfe_push. rewrite Hx1, Hx2. intros Eh.
  assert (Hx : x1 <> x2) by (intros <-; apply Eh; ring).
  rewrite add_chord by done. unfold jrep, jplus, jdiff. cbv zeta. cbn [bX bY bZ]. eexists _, _. split; [reflexivity|].
  bfe_push. rewrite Hx1, Hy1, Hx2, Hy2. split; [apply nz_mul; [by apply nz_mul|done]|].
  assert (Hd := sub_nz _ _ (not_eq_sym Hx)). split; field; auto.
Qed.

Lemma bfe_opp a : bfe (- a)%bigZ = (- bfe a)%F.
Proof. unfold bfe. by rewrite BigZ.spec_opp, fe_opp. Qed.

Lemma jneg_rep a p : jrep a p -> jrep (jneg a) (neg p).
Proof.
  intros (x & y & -> & Hz & Hx & Hy). exists x, (- y)%F. split; [done|]. cbn [jneg bX bY bZ]. split; [done|].
  split; [done|]. rewrite bfe_mod, bfe_opp, Hy. ring.
Qed.

Lemma jrep_finite a p : jrep a p -> p <> Infinity.
Proof. by intros (x & y & -> & _). Qed.

Lemma jrow_finite n a b p g i :
  on_curve p -> on_curve g -> jrep a p -> jrep b g -> jrow n a b = true -> (i <= n)%nat ->
  add p (smul (Z.of_nat i) g) <> Infinity.
Proof.
  intros Hp Hg Ha Hb. revert a p i Hp Ha. induction n as [|n IH]; intros a p i Hp Ha Hr Hi.
  - assert (i = 0%nat) as -> by lia. cbn [Z.of_nat smul]. rewrite add_0_r. by eapply jrep_finite.
  - destruct i as [|i]; [cbn [Z.of_nat smul]; rewrite add_0_r; by eapply jrep_finite|].
    cbn [jrow] in Hr. apply andb_prop in Hr as [Hd Hr].
    rewrite Nat2Z.inj_succ, smul_succ, <- add_assoc by auto with curve.
    eapply (IH (jplus a b)); [auto with curve|by apply jplus_rep|done|lia].
Qed.

Lemma jrows_finite n (j : nat) a b u i k :
  (j + n = 63)%nat -> jrep a (smul (16 ^ Z.of_nat j) G) -> jrep b (smul (2 ^ Z.of_nat j) U) -> jrep u U ->
  jrows n a b u = true -> (i <= 15)%nat -> (j <= k <= 63)%nat -> entry k i <> Infinity.
Proof.
  revert j a b. induction n as [|n IH]; intros j a b Hj Ha Hb Hu Hr Hi Hk; cbn [jrows] in Hr.
  - assert (k = j) as -> by lia. apply andb_prop in Hr as [Hd Hr].
    unfold entry. rewrite smul_mul by auto with curve.
    assert (Ef : factor j = 1 - 2 ^ Z.of_nat j) by (unfold factor; destruct (Nat.eqb_spec j 63) as [->|]; [done|lia]).
    rewrite Ef, smul_one_minus by auto with curve.
    eapply (jrow_finite 15); [auto with curve|auto with curve| |exact Ha|exact Hr|exact Hi].
    apply jplus_rep; [auto with curve|auto with curve|exact (jneg_rep _ _ Hb)|exact Hu|exact Hd].
  - apply andb_prop in Hr as [Hr Hrs]. destruct (decide (k = j)) as [->|Hne].
    + unfold entry. rewrite smul_mul by auto with curve.
      assert (Ef : factor j = 2 ^ Z.of_nat j) by (unfold factor; destruct (Nat.eqb_spec j 63); [lia|done]).
      rewrite Ef. eapply (jrow_finite 15); [auto with curve|auto with curve|exact Hb|exact Ha|exact Hr|exact Hi].
    + eapply (IH (S j)); [lia| | |exact Hu|exact Hrs|exact Hi|lia].
      * rewrite Nat2Z.inj_succ, Z.pow_succ_r by lia. replace 16 with (2 * (2 * (2 * 2))) at 1 by done.
        rewrite <- !Z.mul_assoc, !(smul_mul 2), !smul_2 by auto with curve.
        do 4 (apply jdouble_rep; [auto with curve|]). exact Ha.
      * rewrite Nat2Z.inj_succ, Z.pow_succ_r, smul_mul, smul_2 by (lia || auto with curve).
        apply jdouble_rep; [auto with curve|exact Hb].
Qed.

Definition jG : jac := mkJac bGx bGy 1.
Definition jnums : jac := Eval vm_compute in mkJac (BigZ.of_Z nums_x) (BigZ.of_Z nums_y) 1.

Definition jU : jac := Eval vm_compute in default jG (jadd jnums).

Lemma jU_sum : jadd jnums = Some jU.
Proof. vm_compute. reflexivity. Qed.

(** 1023 additions and 315 doublings. *)
Lemma jU_rows : jrows 63 jG jU jU = true.
Proof. vm_compute. reflexivity. Qed.

Lemma jaffine_rep x y (a b : BigZ.t) : bfe a = x -> bfe b = y -> jrep (mkJac a b 1) (Affine x y).
Proof.
  intros <- <-. exists (bfe a), (bfe b). split; [done|]. cbn [bX bY bZ]. change (bfe 1) with (fe 1).
  split; [apply one_nz|]. split; ring.
Qed.

Lemma jG_rep : jrep jG G.
Proof. apply jaffine_rep; apply fe_eq; vm_compute; reflexivity. Qed.

Lemma jnums_rep : jrep jnums nums.
Proof. apply jaffine_rep; apply fe_eq; vm_compute; reflexivity. Qed.

Lemma entry_finite j i : (j < 64)%nat -> (i < 16)%nat -> entry j i <> Infinity.
Proof.
  intros Hj Hi. assert (Hu : jrep jU U).
  { rewrite U_sum. apply (jadd_rep jnums jU nums); [apply nums_on_curve|apply jnums_rep|apply jU_sum]. }
  apply (jrows_finite 63 0 jG jU jU i j); [done| | |exact Hu|apply jU_rows|lia|lia].
  - rewrite Z.pow_0_r, smul_1. apply jG_rep.
  - rewrite Z.pow_0_r, smul_1. exact Hu.
Qed.

(** ** The table *)

Definition good_rows (rows : list (list secp256k1_ge_storage)) : Prop :=
  Forall2 (fun row j => Forall2 stored row (row_points j)) rows (seq 0 64).

Lemma rows_of_spec l n j :
  Forall2 stored l (concat (map row_points (seq j n))) ->
  Forall2 (fun row j => Forall2 stored row (row_points j)) (rows_of n l) (seq j n).
Proof.
  revert l j. induction n as [|n IH]; intros l j Hl; [constructor|]. cbn [seq map concat rows_of] in *.
  apply Forall2_app_inv_r in Hl as (l1 & l2 & H1 & H2 & ->).
  assert (E : length l1 = 16%nat) by (rewrite (Forall2_length _ _ _ H1); done).
  rewrite take_app_length', drop_app_length' by done. constructor; [done|by apply IH].
Qed.

Lemma gen_table_good : good_rows gen_table.
Proof.
  unfold gen_table, good_rows. cbv zeta. apply rows_of_spec, stored_all.
  - assert (Hp : Forall2 represents (prec_rows 64 0 (secp256k1_gej_set_ge secp256k1_ge_const_g) nums_gej)
      (concat (map row_points (seq 0 64)))).
    { apply (prec_rows_spec 64 0); [done| |].
      - change (16 ^ Z.of_nat 0) with 1. rewrite smul_1. apply set_ge_represents, G_represents.
      - change (factor 0) with 1. rewrite smul_1. apply nums_gej_represents. }
    apply set_all_represents; [|exact Hp]. rewrite (Forall2_length _ _ _ Hp). reflexivity.
  - apply Forall_concat, Forall_map, Forall_forall. intros j Hj%elem_of_seq. unfold row_points.
    apply Forall_map, Forall_forall. intros i Hi%elem_of_seq. apply entry_finite; lia.
Qed.

End GenTable.
