(* ===== verification/GenFacts.v ===== *)
(** * Multiplication of the generator is multiplication

    For a context whose table and blinding are those the code makes,
    [secp256k1_ecmult_gen] represents [gn * G]; building and re-blinding a
    context make such a context. *)

From Stdlib Require Import ZArith Lia Ring Field Zmod.
From stdpp Require Import base option list.
From S2P Require Import Prelude Words Fips Sha256 Sha256Facts Field FieldFacts FieldOps FieldExp Scalar ScalarFacts ScalarOps ScalarExp.
From S2P Require Import Curve CurveFacts GroupLaw GroupAssoc PointMul PointOrder.
From S2P Require Import Group GroupFacts GroupOps Points PointConv Tables Ecmult Wnaf EcmultFacts EcmultGen GenTable.
Local Open Scope Z_scope.

Module GenFacts.
Import Sha256 Sha256Facts.
Import Field FieldFacts FieldOps FieldExp Scalar ScalarFacts ScalarOps ScalarExp.
Import Curve CurveFacts GroupLaw GroupAssoc PointMul PointOrder.
Import Group GroupFacts GroupOps Points PointConv Tables Ecmult Wnaf EcmultFacts EcmultGen GenTable.

(** ** One entry *)

Lemma select_skip adds row i bits :
  storage_fits adds -> Forall storage_fits row -> bits < i \/ i + Z.of_nat (length row) <= bits ->
  select_entry adds row i bits = adds.
Proof.
  revert adds i. induction row as [|s row IH]; intros adds i Ha Hr Hb; [done|]. inversion Hr; subst.
  cbn [select_entry length] in *. rewrite storage_cmov_select; [|done|done|by destruct (i =? bits); [right|left]].
  destruct (Z.eqb_spec i bits); [lia|]. cbn. apply IH; [done|done|lia].
Qed.

Lemma select_spec adds row i (n : nat) s :
  storage_fits adds -> Forall storage_fits row -> row !! n = Some s ->
  select_entry adds row i (i + Z.of_nat n) = s.
Proof.
  revert adds i n. induction row as [|t row IH]; intros adds i n Ha Hr Hn; [done|]. inversion Hr; subst.
  cbn [select_entry]. rewrite storage_cmov_select; [|done|done|by destruct (i =? _); [right|left]].
  destruct n as [|n].
  - injection Hn as <-. rewrite Z.add_0_r, Z.eqb_refl. cbn. apply select_skip; [done|done|left; lia].
  - destruct (Z.eqb_spec i (i + Z.of_nat (S n))); [lia|]. cbn [b2z Z.eqb].
    replace (i + Z.of_nat (S n)) with (i + 1 + Z.of_nat n) by lia. by apply IH.
Qed.

(** ** The sum of the rows *)

Definition factors (j n : nat) : Z := foldr (fun i z => factor i + z) 0 (seq j n).

Lemma factors_cancel : factors 0 64 = 0.
Proof. vm_compute. reflexivity. Qed.

Lemma row_lookup row j (i : nat) :
  Forall2 stored row (row_points j) -> (i < 16)%nat -> exists s, row !! i = Some s /\ stored s (entry j i).
Proof.
  intros Hr Hi. assert (Hp : row_points j !! i = Some (entry j i)).
  { unfold row_points. rewrite list_lookup_fmap, lookup_seq_lt by done. done. }
  destruct (Forall2_lookup_r _ _ _ _ _ Hr Hp) as (s & Hs & Hst). by exists s.
Qed.

Lemma row_fits row ps : Forall2 stored row ps -> Forall storage_fits row.
Proof. induction 1; constructor; [by eapply stored_fits|done]. Qed.

Lemma nibbles_left V j n : 0 <= V ->
  (V / 16 ^ Z.of_nat j) mod 16 ^ Z.of_nat (S n) * 16 ^ Z.of_nat j =
  (V / 16 ^ Z.of_nat j) mod 16 * 16 ^ Z.of_nat j + (V / 16 ^ Z.of_nat (S j)) mod 16 ^ Z.of_nat n * 16 ^ Z.of_nat (S j).
Proof.
  intros HV. rewrite !Nat2Z.inj_succ, !Z.pow_succ_r by lia.
  assert (0 < 16 ^ Z.of_nat j) by (apply Z.pow_pos_nonneg; lia). assert (0 < 16 ^ Z.of_nat n) by (apply Z.pow_pos_nonneg; lia).
  rewrite (Z.mul_comm 16 (16 ^ Z.of_nat j)), <- Z.div_div, Z.rem_mul_r by lia. ring.
Qed.

Lemma entry_multiple u j i : U = smul u G -> entry j i = smul (factor j * u + Z.of_nat i * 16 ^ Z.of_nat j) G.
Proof. intros Hu. unfold entry. by rewrite Hu, <- smul_mul, <- smul_add by auto with curve. Qed.

Lemma nibble_bits a (j : nat) :
  scalar_ok a -> (j < 64)%nat ->
  secp256k1_scalar_get_bits a (Z.of_nat j * 4) 4 = (sval a / 16 ^ Z.of_nat j) mod 16.
Proof.
  intros [Ha _] Hj. rewrite scalar_get_bits_spec; [|done|lia..|].
  - unfold bits. change 16 with (2 ^ 4) at 1. rewrite <- Z.pow_mul_r, (Z.mul_comm 4) by lia. done.
  - Z.div_mod_to_equations. lia.
Qed.

Lemma gen_loop_spec u n (j : nat) rows gnb adds r e :
  U = smul u G -> (j + n <= 64)%nat -> scalar_ok gnb -> storage_fits adds ->
  Forall2 (fun row j => Forall2 stored row (row_points j)) rows (seq j n) -> represents r (smul e G) ->
  represents (gen_loop rows (Z.of_nat j) gnb adds r)
    (smul (e + (sval gnb / 16 ^ Z.of_nat j) mod 16 ^ Z.of_nat n * 16 ^ Z.of_nat j + factors j n * u) G).
Proof.
  intros Hu. revert j rows adds r e. induction n as [|n IH]; intros j rows adds r e Hj Hg Ha Hr He.
  - inversion Hr; subst. cbn [gen_loop]. rewrite Z.mod_1_r. by replace (e + 0 * _ + factors j 0 * u) with e by (cbn; lia).
  - cbn [seq] in Hr. inversion Hr as [|row ? rows' ? Hrow Hrows]; subst. cbn [gen_loop]. cbv zeta.
    rewrite nibble_bits by (exact Hg || lia). set (dg := (sval gnb / 16 ^ Z.of_nat j) mod 16).
    assert (Hd : 0 <= dg < 16) by (by apply Z.mod_pos_bound).
    destruct (row_lookup row j (Z.to_nat dg) Hrow ltac:(lia)) as (s & Hs & Hst).
    assert (Es := select_spec adds row 0 (Z.to_nat dg) s Ha (row_fits _ _ Hrow) Hs).
    rewrite Z2Nat.id, Z.add_0_l in Es by lia. rewrite Es.
    assert (Hne : entry j (Z.to_nat dg) <> Infinity) by (intros E; rewrite E in Hst; done).
    assert (Hadd := unified_represents r _ _ _ He (from_storage_represents _ _ Hst) ltac:(auto with curve)
      (entry_on_curve _ _) Hne).
    rewrite (entry_multiple u), <- smul_add in Hadd by (done || auto with curve).
    specialize (IH (S j) rows' s _ _ ltac:(lia) Hg (stored_fits _ _ Hst) Hrows Hadd).
    replace (Z.of_nat j + 1) with (Z.of_nat (S j)) by lia.
    assert (HV : 0 <= sval gnb) by (apply sval_range; apply Hg).
    rewrite nibbles_left by done. fold dg.
    change (factors j (S n)) with (factor j + factors (S j) n). rewrite Z2Nat.id in IH by lia.
    lazymatch type of IH with represents _ (smul ?x G) =>
      lazymatch goal with |- represents _ (smul ?y G) => replace y with x by ring end end. exact IH.
Qed.

(** ** Multiplication *)

(** The blinding: [initial] is [- blind] times the generator. *)
Definition good_gen (ctx : secp256k1_ecmult_gen_context) : Prop :=
  (exists rows, prec ctx = Some rows /\ good_rows rows) /\ scalar_ok (blind ctx) /\
  represents (initial ctx) (smul (- sval (blind ctx)) G).

Lemma zero_fits : storage_fits zero_storage.
Proof. split; unfold storage_ok; cbn; lia. Qed.

Lemma ecmult_gen_spec ctx gn :
  good_gen ctx -> scalar_ok gn ->
  exists r, secp256k1_ecmult_gen ctx gn = Some r /\ represents r (smul (sval gn) G).
Proof.
  intros [(rows & Er & Hr) [Hb Hi]] Hg. unfold secp256k1_ecmult_gen. cbv zeta.
  destruct (scalar_add_spec gn (blind ctx) Hg Hb) as (Hs & Es & _).
  rewrite Er. cbn [mbind option_bind]. eexists. split; [done|].
  destruct (generated_point U U_on_curve) as [u Hu].
  assert (Hl := gen_loop_spec u 64 0 rows _ zero_storage (initial ctx) _ Hu ltac:(lia) Hs zero_fits Hr Hi).
  rewrite factors_cancel in Hl. change (16 ^ Z.of_nat 0) with 1 in Hl. change (Z.of_nat 0) with 0 in Hl.
  assert (Hsr := sval_range _ (proj1 Hs)). rewrite Z.div_1_r, (Z.mod_small (sval _)) in Hl by (change (16 ^ Z.of_nat 64) with (2 ^ 256); lia).
  rewrite Es in Hl. rewrite Z.mul_1_r, Z.mul_0_l, Z.add_0_r in Hl.
  rewrite <- (smul_mod N (sval gn) G), <- (Z.add_0_l (sval gn)) by (auto using point_order with curve || done).
  rewrite <- (smul_mod N _ G) in Hl by (auto using point_order with curve || done).
  rewrite Z.add_mod_idemp_r in Hl by done.
  replace (- sval (blind ctx) + (sval gn + sval (blind ctx))) with (0 + sval gn) in Hl by lia. exact Hl.
Qed.

(** ** Blinding *)

Lemma generate_32 junk rng :
  buffer junk -> rng_ok rng ->
  exists rng' out, secp256k1_rfc6979_hmac_sha256_generate junk rng 32 = (rng', out) /\ rng_ok rng' /\ word32 out.
Proof.
  intros Hj Hr. assert (Hg := rng_generate_spec junk rng 32 Hj Hr).
  destruct (if Sha256.retry rng =? 0 then _ else _) as [K V] eqn:E. rewrite Hg. eexists _, _. split; [done|].
  change ((32 + 31) / 32)%nat with 1%nat. cbn [Fips.V_after Fips.V_stream].
  assert (HK : word32 K).
  { destruct (Sha256.retry rng =? 0); [injection E as <- _; apply Hr|]. unfold Fips.rfc6979_next in E. cbv zeta in E.
    injection E as <- _. apply word32_hmac. }
  split; [split; [apply word32_hmac|exact HK]|]. rewrite app_nil_r, take_ge by (rewrite hmac_length; done). apply word32_hmac.
Qed.

Lemma fe_bytes_range out : word32 out -> 0 <= be_word out < 2 ^ 256.
Proof. intros [Hl Hb]. assert (H := be_word_range out Hb). by rewrite Hl in H. Qed.

Lemma random_fe_spec fuel junk rng rng' s :
  buffer junk -> rng_ok rng -> random_fe fuel junk rng = Some (rng', s) ->
  rng_ok rng' /\ exists w, w <> fe 0 /\ has 8 w s.
Proof.
  intros Hj. revert rng. induction fuel as [|fuel IH]; intros rng Hr; [done|]. cbn [random_fe].
  destruct (generate_32 junk rng Hj Hr) as (rng1 & out & -> & Hr1 & Ho). rewrite set_b32_spec by apply Ho.
  destruct (fe_of_val (be_word out) (fe_bytes_range out Ho)) as [Ev Hn].
  destruct (Z.ltb_spec (be_word out) P) as [Hlt|Hge];
    destruct (secp256k1_fe_is_zero (fe_of (be_word out))) eqn:Ez; cbn [b2z Z.eqb negb Z.lor]; try (by apply IH).
  specialize (Hn Hlt).
  intros [= <- <-]. split; [done|]. exists (ev (fe_of (be_word out))). split.
  - intros E. apply (proj1 (fe_eq _ _)) in E. rewrite Z.mod_small, Z.mod_0_l in E by (apply normalized_range, Hn || done).
    apply (is_zero_spec _ Hn) in E. by rewrite E in Ez.
  - split; [eapply magnitude_mono; [by apply normalized_magnitude|lia]|done].
Qed.

Lemma random_scalar_spec fuel junk rng rng' b :
  buffer junk -> rng_ok rng -> random_scalar fuel junk rng = Some (rng', b) -> rng_ok rng' /\ scalar_ok b /\ sval b <> 0.
Proof.
  intros Hj. revert rng. induction fuel as [|fuel IH]; intros rng Hr; [done|]. cbn [random_scalar].
  destruct (generate_32 junk rng Hj Hr) as (rng1 & out & -> & Hr1 & Ho).
  destruct (scalar_set_b32_spec out) as (Hok & Ev & Eo); [apply Ho..|].
  destruct (secp256k1_scalar_set_b32 out) as [b0 ov]. cbn [fst snd] in *.
  rewrite scalar_is_zero_spec by apply Hok.
  destruct (negb _) eqn:E; [by apply IH|]. intros [= <- <-]. split; [done|]. split; [done|].
  intros Hz. rewrite Hz in E. cbn in E. rewrite Eo in E. by destruct (N <=? be_word out).
Qed.

Lemma blind_spec fuel junk ctx seed ctx' :
  buffer junk -> (exists rows, prec ctx = Some rows /\ good_rows rows) ->
  match seed with None => True | Some l => good_gen ctx /\ Forall is_byte l end ->
  secp256k1_ecmult_gen_blind fuel junk ctx seed = Some ctx' -> good_gen ctx' /\ prec ctx' = prec ctx.
Proof.
  intros Hj Hrows Hseed. unfold secp256k1_ecmult_gen_blind. cbv zeta.
  set (ctx0 := match seed with None => _ | Some _ => ctx end).
  assert (H0 : good_gen ctx0 /\ prec ctx0 = prec ctx).
  { unfold ctx0. destruct seed as [l|]; [by split; [apply Hseed|]|]. split; [|done]. split; [exact Hrows|].
    cbn [blind initial]. split; [split; [unfold limbs_ok, is_word; cbn; lia|done]|].
    apply gej_neg_represents, set_ge_represents. exact G_represents. }
  destruct H0 as [[(rows & Er & Hr) [Hb Hi]] Ep].
  assert (Hk : Forall is_byte (match seed with None => secp256k1_scalar_get_b32 (blind ctx0)
    | Some sd => secp256k1_scalar_get_b32 (blind ctx0) ++ take 32 sd end) /\
    (length (match seed with None => secp256k1_scalar_get_b32 (blind ctx0)
    | Some sd => secp256k1_scalar_get_b32 (blind ctx0) ++ take 32 sd end) <= 64)%nat).
  { rewrite scalar_get_b32_spec by apply Hb. destruct seed as [sd|].
    - split; [apply Forall_app; split; [apply be_bytes_range|by apply Forall_take, Hseed]|].
      rewrite length_app, length_be_bytes, length_take. lia.
    - split; [apply be_bytes_range|rewrite length_be_bytes; lia]. }
  destruct Hk as [Hkb Hkl]. destruct (rng_seed_spec junk _ Hj Hkb ltac:(lia)) as (Hrng & _ & _). cbv zeta in Hrng.
  revert Hrng. generalize (secp256k1_rfc6979_hmac_sha256_initialize junk
    match seed with None => secp256k1_scalar_get_b32 (blind ctx0)
    | Some sd => secp256k1_scalar_get_b32 (blind ctx0) ++ take 32 sd end). intros rng Hrng.
  destruct (random_fe fuel junk rng) as [[rng1 s]|] eqn:E1; [|done]. cbn [mbind option_bind].
  destruct (random_fe_spec fuel junk rng rng1 s Hj Hrng E1) as (Hrng1 & w & Hw & Hs).
  destruct (random_scalar fuel junk rng1) as [[rng2 b]|] eqn:E2; [|done]. cbn [mbind option_bind].
  destruct (random_scalar_spec fuel junk rng1 rng2 b Hj Hrng1 E2) as (_ & Hbk & _).
  destruct (ecmult_gen_spec (mkGenContext (prec ctx0) (blind ctx0) (secp256k1_gej_rescale (initial ctx0) s)) b)
    as (gb & -> & Hgb); [|done|].
  { split; [by exists rows|]. split; [exact Hb|]. by apply (rescale_represents _ _ _ w). }
  intros [= <-]. cbn [prec]. split; [|exact Ep]. split; [by exists rows|]. destruct (scalar_negate_spec b Hbk) as [Hn En].
  split; [exact Hn|]. cbn [blind initial]. rewrite En.
  rewrite <- (smul_mod N (- _) G) by (auto using point_order with curve || done).
  rewrite <- (smul_mod N (sval b) G) in Hgb by (auto using point_order with curve || done).
  replace (- (- sval b mod N) mod N) with (sval b mod N); [exact Hgb|].
  rewrite <- (Z.sub_0_l (_ mod N)), Zminus_mod_idemp_r. f_equal. lia.
Qed.

(** ** Building a context *)

Lemma generate_first junk V K :
  buffer junk -> word32 V -> word32 K ->
  secp256k1_rfc6979_hmac_sha256_generate junk (mkRng V K 0) 32 = (mkRng (Fips.HMAC K V) K 1, Fips.HMAC K V).
Proof.
  intros Hj HV HK. assert (Hg := rng_generate_spec junk (mkRng V K 0) 32 Hj (conj HV HK)).
  cbn [Sha256.retry Z.eqb k v] in Hg. rewrite Hg. change ((32 + 31) / 32)%nat with 1%nat.
  cbn [Fips.V_after Fips.V_stream]. by rewrite app_nil_r, take_ge by (rewrite hmac_length; done).
Qed.

Lemma generate_next junk V K :
  buffer junk -> word32 V -> word32 K ->
  let '(K', V') := Fips.rfc6979_next (K, V) in
  secp256k1_rfc6979_hmac_sha256_generate junk (mkRng V K 1) 32 = (mkRng (Fips.HMAC K' V') K' 1, Fips.HMAC K' V').
Proof.
  intros Hj HV HK. assert (Hg := rng_generate_spec junk (mkRng V K 1) 32 Hj (conj HV HK)).
  cbn [Sha256.retry Z.eqb k v] in Hg. unfold Fips.rfc6979_next in *. cbn [fst snd] in *. rewrite Hg.
  change ((32 + 31) / 32)%nat with 1%nat. cbn [Fips.V_after Fips.V_stream].
  by rewrite app_nil_r, take_ge by (rewrite hmac_length; done).
Qed.

(** The outputs a new context starts from: both are accepted at once. *)
Definition first_out : bytes := Eval vm_compute in
  let '(K, V) := Fips.rfc6979_seed (be_bytes 32 1) in Fips.HMAC K V.
Definition second_out : bytes := Eval vm_compute in
  let '(K, V) := Fips.rfc6979_seed (be_bytes 32 1) in
  let '(K, V) := Fips.rfc6979_next (K, Fips.HMAC K V) in Fips.HMAC K V.

Lemma default_outputs junk :
  buffer junk ->
  exists rng1 rng2,
    secp256k1_rfc6979_hmac_sha256_generate junk (secp256k1_rfc6979_hmac_sha256_initialize junk (be_bytes 32 1)) 32 =
      (rng1, first_out) /\
    secp256k1_rfc6979_hmac_sha256_generate junk rng1 32 = (rng2, second_out).
Proof.
  intros Hj. destruct (rng_seed_spec junk (be_bytes 32 1) Hj (be_bytes_range _ _)) as ([HV HK] & E & E0);
    [rewrite length_be_bytes; lia|].
  destruct (secp256k1_rfc6979_hmac_sha256_initialize junk (be_bytes 32 1)) as [V K rt]. cbn [k v Sha256.retry] in *. subst rt.
  rewrite generate_first by done.
  assert (Hn := generate_next junk (Fips.HMAC K V) K Hj (word32_hmac _ _) HK).
  destruct (Fips.rfc6979_next (K, Fips.HMAC K V)) as [K' V'] eqn:E'. eexists _, _. split; [|rewrite Hn].
  - f_equal. transitivity (let '(K, V) := Fips.rfc6979_seed (be_bytes 32 1) in Fips.HMAC K V); [by rewrite <- E|].
    vm_compute. reflexivity.
  - f_equal. transitivity (let '(K, V) := Fips.rfc6979_seed (be_bytes 32 1) in
      let '(K, V) := Fips.rfc6979_next (K, Fips.HMAC K V) in Fips.HMAC K V); [by rewrite <- E, E'|].
    vm_compute. reflexivity.
Qed.

Lemma build_spec fuel junk ctx :
  buffer junk -> prec ctx = None ->
  exists ctx', secp256k1_ecmult_gen_context_build (S fuel) junk ctx = Some ctx' /\ good_gen ctx'.
Proof.
  intros Hj Hp. unfold secp256k1_ecmult_gen_context_build. rewrite Hp.
  set (ctx0 := mkGenContext (Some gen_table) (blind ctx) (initial ctx)).
  assert (Hrows : exists rows, prec ctx0 = Some rows /\ good_rows rows) by (exists gen_table; split; [exact eq_refl|exact gen_table_good]).
  destruct (secp256k1_ecmult_gen_blind (S fuel) junk ctx0 None) as [ctx'|] eqn:E.
  - exists ctx'. split; [exact eq_refl|]. apply (blind_spec (S fuel) junk ctx0 None ctx' Hj Hrows I E).
  - exfalso. revert E. unfold secp256k1_ecmult_gen_blind. cbv zeta. cbn [blind initial prec].
    assert (E1 : secp256k1_scalar_get_b32 (secp256k1_scalar_set_int 1) = be_bytes 32 1) by (vm_compute; reflexivity).
    rewrite E1. destruct (default_outputs junk Hj) as (rng1 & rng2 & G1 & G2).
    cbn [random_fe]. rewrite G1.
    destruct (secp256k1_fe_set_b32 first_out) as [s ok] eqn:Es. vm_compute in Es. injection Es as <- <-.
    match goal with |- context [negb ?t] => let t' := eval vm_compute in (negb t) in change (negb t) with t' end. cbv iota.
    cbn [mbind option_bind random_scalar]. rewrite G2.
    destruct (secp256k1_scalar_set_b32 second_out) as [b ov] eqn:Eb. vm_compute in Eb. injection Eb as <- <-.
    match goal with |- context [negb ?t] => let t' := eval vm_compute in (negb t) in change (negb t) with t' end. cbv iota.
    cbn [mbind option_bind]. unfold secp256k1_ecmult_gen. cbn [prec ctx0 mbind option_bind]. discriminate.
Qed.

End GenFacts.
