(* ===== verification/CurveProps.v ===== *)
(** * Properties of points and multiplication

    What the group operations and the multiplications of the library compute,
    on the curve of [Curve]. *)

From Stdlib Require Import ZArith Lia List Ring Field Zmod.
From stdpp Require Import base option list.
From S2P Require Import Prelude Words Sha256Facts Field FieldFacts FieldOps FieldExp Scalar ScalarFacts ScalarOps ScalarExp.
From S2P Require Import Curve CurveFacts GroupLaw GroupAssoc PointMul PointOrder Group GroupFacts GroupOps Points PointConv.
From S2P Require Import Ecmult Wnaf EcmultFacts DoubleMul EcmultGen GenFacts.
Local Open Scope Z_scope.

Module CurveProps.
Import Sha256Facts Field FieldFacts FieldOps FieldExp Scalar ScalarFacts ScalarOps ScalarExp.
Import Curve CurveFacts GroupLaw GroupAssoc PointMul PointOrder Group GroupFacts GroupOps Points PointConv.
Import Ecmult Wnaf EcmultFacts DoubleMul EcmultGen GenFacts.

(** C15: Whatever field representations the points come in, doubling, the three
    variable-time additions, negation and the conversions to affine coordinates
    compute the chord-and-tangent operations of the curve in every case:
    infinity, equal and opposite points included. The constant-time addition
    does for a second operand that is not infinity, which the code requires of
    its callers; its first operand can be any point. *)
Theorem group_operations (r a b : secp256k1_gej) (g c e : secp256k1_ge) (zi : secp256k1_fe) (rzr : option secp256k1_fe) (p q : point) :
  represents a p -> represents b q -> represents_ge c q -> represents_zinv (fe 1) e zi q -> on_curve p -> on_curve q ->
  represents (fst (secp256k1_gej_double_var r a rzr)) (add p p) /\
  represents (fst (secp256k1_gej_add_var r a b rzr)) (add p q) /\
  represents (fst (secp256k1_gej_add_ge_var r a c rzr)) (add p q) /\
  represents (secp256k1_gej_add_zinv_var r a e zi) (add p q) /\
  (q <> Infinity -> represents (secp256k1_gej_add_ge a c) (add p q)) /\
  represents (secp256k1_gej_neg a) (neg p) /\ represents_ge (secp256k1_ge_neg c) (neg q) /\
  represents_ge (fst (secp256k1_ge_set_gej a)) p /\ represents_ge (fst (secp256k1_ge_set_gej_var g a)) p.
Proof.
  intros Ha Hb Hc He Hp Hq. split; [by apply double_represents|]. split; [by apply add_represents|].
  split; [by apply add_ge_represents|]. split; [by apply add_zinv_represents|].
  split; [intros; by apply unified_represents|]. split; [by apply gej_neg_represents|]. split; [by apply ge_neg_represents|].
  split; [by apply set_gej_represents|by apply set_gej_var_represents].
Qed.

Lemma G_zinv : represents_zinv (fe 1) secp256k1_ge_const_g (secp256k1_fe_set_int 1) G.
Proof.
  assert (HG := G_represents). destruct HG as (Hi & Hx & Hy). assert (H1 : fe 1 <> fe 0) by (intros E%fe_eq; vm_compute in E; discriminate).
  split; [exact Hi|]. exists (fe 1). split; [exact H1|]. split; [eapply has_mono; [by apply has_set_int|lia]|].
  split; (eapply has_eq; [eassumption|lia|field; exact H1]).
Qed.

Lemma gj_represents : represents (secp256k1_gej_set_ge secp256k1_ge_const_g) G.
Proof. apply set_ge_represents, G_represents. Qed.

Lemma group_operations_witness :
  represents (fst (secp256k1_gej_add_var secp256k1_gej_clear (secp256k1_gej_set_ge secp256k1_ge_const_g)
    (secp256k1_gej_set_ge secp256k1_ge_const_g) None)) (smul 2 G).
Proof.
  rewrite smul_2. exact (proj1 (proj2 (group_operations secp256k1_gej_clear _ _ secp256k1_ge_const_g _ _ _ None G G
    gj_represents gj_represents G_represents G_zinv G_on_curve G_on_curve))).
Defined.

(** C30: The points of the curve form the cyclic group of prime order [N] that
    the constant [secp256k1_ge_const_g] generates: addition is associative and
    commutative with inverses, every point is exactly one of the multiples 0
    to [N - 1] of the generator, and multiplication by the constant [beta] in
    [secp256k1_ge_mul_lambda] is multiplication by [lambda]. *)
Theorem generator_generates (p q r : point) (a : secp256k1_ge) :
  on_curve p -> on_curve q -> on_curve r -> represents_ge a p ->
  add (add p q) r = add p (add q r) /\ add p q = add q p /\ add p Infinity = p /\ add p (neg p) = Infinity /\
  represents_ge secp256k1_ge_const_g G /\
  (exists k, 0 <= k < N /\ p = smul k G /\ forall j, 0 <= j < N -> p = smul j G -> j = k) /\
  represents_ge (secp256k1_ge_mul_lambda a) (smul lambda p).
Proof.
  intros Hp Hq Hr Ha. split; [by rewrite add_assoc|]. split; [by apply add_comm|]. split; [by apply add_0_r|].
  split; [by apply add_neg_r|]. split; [exact G_represents|]. split.
  - destruct (generated_point p Hp) as [k Hk]. assert (HN : 0 < N) by done. exists (k mod N).
    split; [by apply Z.mod_pos_bound|]. split; [rewrite smul_mod; [exact Hk|apply G_on_curve|lia|apply point_order, G_on_curve]|].
    intros j Hj Ej. assert (E : smul (j - k) G = Infinity) by (rewrite smul_sub, <- Ej, <- Hk by apply G_on_curve; apply add_neg_r).
    apply G_multiple_zero in E. rewrite <- (Z.mod_small j N Hj). apply Z.mod_divide in E as [c E]; [|lia].
    replace j with (k + c * N) by lia. by rewrite Z.mod_add by lia.
  - rewrite <- endo_lambda by done. by apply represents_ge_one, mul_lambda_represents_at, represents_ge_one.
Qed.

Lemma generator_generates_witness : represents_ge (secp256k1_ge_mul_lambda secp256k1_ge_const_g) (smul lambda G).
Proof.
  destruct (generator_generates G G G secp256k1_ge_const_g G_on_curve G_on_curve G_on_curve G_represents) as (_ & _ & _ & _ & _ & _ & H).
  exact H.
Defined.

(** C31: For every number below [2 ^ (len - 1)] in absolute value, given modulo
    the order, the signed window expansion ends, its digits are zero or odd and
    below [2 ^ (w - 1)], at least [w] positions apart, zero from the returned
    length on, and stand for exactly this number. *)
Theorem wnaf_expands (len w k : Z) (a : secp256k1_scalar) :
  1 <= len <= 200 -> 2 <= w <= 20 -> scalar_ok a -> sval a = k mod N -> Z.abs k < 2 ^ (len - 1) ->
  exists l bits, secp256k1_ecmult_wnaf len a w = Some (l, bits) /\ length l = Z.to_nat len /\ 0 <= bits <= len /\
    digits_value l = k /\ Forall (digit_ok w) l /\ sparse w l /\
    (forall j, bits <= Z.of_nat j -> (j < Z.to_nat len)%nat -> l !! j = Some 0).
Proof. exact (wnaf_spec len a w k). Qed.

Lemma wnaf_expands_witness :
  exists l bits, secp256k1_ecmult_wnaf 129 minus_one WINDOW_A = Some (l, bits) /\ digits_value l = -1.
Proof.
  destruct (wnaf_expands 129 WINDOW_A (-1) minus_one) as (l & bits & E & _ & _ & V & _);
    [lia|vm_compute; intuition congruence|exact minus_one_ok|vm_compute; reflexivity|reflexivity|].
  exists l, bits. split; [exact E|exact V].
Defined.

(** C13: Building the tables ends in a good context and on a good context the
    double multiplication of any finite point of the curve, through the
    endomorphism split, four signed window expansions and the tables of odd
    multiples, never reads outside its tables and returns
    [na * A + ng * G]. *)
Theorem ecmult_multiplies (a : secp256k1_gej) (p : point) (na ng : secp256k1_scalar) (ctx : secp256k1_ecmult_context) :
  represents a p -> on_curve p -> p <> Infinity -> scalar_ok na -> scalar_ok ng -> good_context ctx ->
  good_context (secp256k1_ecmult_context_build secp256k1_ecmult_context_init) /\
  secp256k1_ecmult_context_clone ctx = ctx /\
  exists r, secp256k1_ecmult ctx a na ng = Some r /\ represents r (add (smul (sval na) p) (smul (sval ng) G)).
Proof.
  intros Ha Hp Hn Hna Hng Hc. split; [apply build_good; by right|]. split; [by apply clone_good|by apply ecmult_spec].
Qed.

Lemma ecmult_multiplies_witness :
  exists r, secp256k1_ecmult (secp256k1_ecmult_context_build secp256k1_ecmult_context_init)
    (secp256k1_gej_set_ge secp256k1_ge_const_g) minus_one minus_one = Some r /\ represents r (add (smul (N - 1) G) (smul (N - 1) G)).
Proof.
  assert (Hc : good_context (secp256k1_ecmult_context_build secp256k1_ecmult_context_init)) by (apply build_good; by right).
  destruct (ecmult_multiplies (secp256k1_gej_set_ge secp256k1_ge_const_g) G minus_one minus_one _
    gj_represents G_on_curve ltac:(discriminate) minus_one_ok minus_one_ok Hc) as (_ & _ & H).
  assert (E : sval minus_one = N - 1) by (vm_compute; reflexivity). rewrite E in H. exact H.
Defined.

(** C14: Building the context of the generator ends at the first attempt of each
    of its retry loops, blinding with any seed keeps the context good and its
    table as it is, and on a good context, whatever its blinding value, the
    constant-time multiplication returns the multiple of the generator. *)
Theorem ecmult_gen_multiplies (junk : bytes) (ctx ctx0 : secp256k1_ecmult_gen_context) (gn : secp256k1_scalar) :
  buffer junk -> prec ctx0 = None -> good_gen ctx -> scalar_ok gn ->
  (forall fuel, exists c, secp256k1_ecmult_gen_context_build (S fuel) junk ctx0 = Some c /\ good_gen c) /\
  (forall fuel seed c, Forall is_byte seed -> secp256k1_ecmult_gen_blind fuel junk ctx (Some seed) = Some c -> good_gen c /\ prec c = prec ctx) /\
  exists r, secp256k1_ecmult_gen ctx gn = Some r /\ represents r (smul (sval gn) G).
Proof.
  intros Hj H0 Hc Hg. split; [intros fuel; by apply build_spec|]. split; [|by apply ecmult_gen_spec].
  intros fuel seed c Hs E. eapply (blind_spec fuel junk ctx (Some seed)); [done|apply Hc| |exact E]. by split.
Qed.

Lemma ecmult_gen_multiplies_witness :
  exists ctx r, secp256k1_ecmult_gen ctx minus_one = Some r /\ represents r (smul (sval minus_one) G).
Proof.
  assert (Hj : buffer (repeat 0 64)) by (split; [reflexivity|repeat constructor; (vm_compute; congruence)]).
  set (c0 := mkGenContext None (secp256k1_scalar_set_int 0) secp256k1_gej_clear).
  destruct (build_spec 0 (repeat 0 64) c0 Hj eq_refl) as (ctx & _ & Hc). exists ctx.
  destruct (ecmult_gen_multiplies (repeat 0 64) ctx c0 minus_one Hj eq_refl Hc minus_one_ok) as (_ & _ & H). exact H.
Defined.

End CurveProps.
