(* ===== verification/Ecdsa.v ===== *)
(** * Signatures (libsecp256k1/src/ecdsa_impl.h,
      libsecp256k1/src/modules/recovery/main_impl.h)

    Verification, signing with a given nonce and recovery of the public key, on
    scalars and points. [None] is what [Ecmult] and [EcmultGen] make [None]. *)

From Stdlib Require Import ZArith Lia.
From stdpp Require Import base option list.
From S2P Require Import Prelude Words Field FieldOps FieldExp Scalar ScalarExp Group Ecmult EcmultGen.
Local Open Scope Z_scope.

Module Ecdsa.
Import Field FieldOps FieldExp Scalar ScalarExp Group Ecmult EcmultGen.

Definition secp256k1_ecdsa_const_order_as_fe : secp256k1_fe :=
  SECP256K1_FE_CONST 0xFFFFFFFF 0xFFFFFFFF 0xFFFFFFFF 0xFFFFFFFE 0xBAAEDCE6 0xAF48A03B 0xBFD25E8C 0xD0364141.

Definition secp256k1_ecdsa_const_p_minus_order : secp256k1_fe :=
  SECP256K1_FE_CONST 0 0 0 1 0x45512319 0x50B75FC4 0x402DA172 0x2FC9BAEE.

Definition secp256k1_ecdsa_sig_verify (ctx : secp256k1_ecmult_context) (sigr sigs : secp256k1_scalar)
    (pubkey : secp256k1_ge) (message : secp256k1_scalar) : option bool :=
  if secp256k1_scalar_is_zero sigr || secp256k1_scalar_is_zero sigs then Some false
  else
    let sn := secp256k1_scalar_inverse_var sigs in
    let u1 := secp256k1_scalar_mul sn message in
    let u2 := secp256k1_scalar_mul sn sigr in
    let pubkeyj := secp256k1_gej_set_ge pubkey in
    pr ← secp256k1_ecmult ctx pubkeyj u2 u1;
    if negb (secp256k1_gej_is_infinity pr =? 0) then Some false
    else
      let c := secp256k1_scalar_get_b32 sigr in
      let xr := fst (secp256k1_fe_set_b32 c) in
      if secp256k1_gej_eq_x_var xr pr then Some true
      else if secp256k1_fe_cmp_var xr secp256k1_ecdsa_const_p_minus_order >=? 0 then Some false
      else
        let xr := secp256k1_fe_add xr secp256k1_ecdsa_const_order_as_fe in
        Some (secp256k1_gej_eq_x_var xr pr).

(** What the function leaves in [sigr], [sigs] and [recid], which it also writes
    when it fails; [recid] is a pointer that may be NULL. *)
Record signed := mkSigned { ret : bool; sigr : secp256k1_scalar; sigs : secp256k1_scalar; recid : option Z }.

Definition secp256k1_ecdsa_sig_sign (ctx : secp256k1_ecmult_gen_context) (seckey message nonce : secp256k1_scalar)
    (recid : option Z) : option signed :=
  rp ← secp256k1_ecmult_gen ctx nonce;
  let r := fst (secp256k1_ge_set_gej rp) in
  let rx := secp256k1_fe_normalize (gx r) in
  let ry := secp256k1_fe_normalize (gy r) in
  let b := secp256k1_fe_get_b32 rx in
  let '(sigr, overflow) := secp256k1_scalar_set_b32 b in
  let recid := option_map (fun _ =>
    Z.lor (if negb (overflow =? 0) then 2 else 0) (if negb (secp256k1_fe_is_odd ry =? 0) then 1 else 0)) recid in
  let n := secp256k1_scalar_mul sigr seckey in
  let n := fst (secp256k1_scalar_add n message) in
  let sigs := secp256k1_scalar_inverse nonce in
  let sigs := secp256k1_scalar_mul sigs n in
  if secp256k1_scalar_is_zero sigs then Some (mkSigned false sigr sigs recid)
  else if negb (secp256k1_scalar_is_high sigs =? 0) then
    Some (mkSigned true sigr (secp256k1_scalar_negate sigs) (option_map (fun i => Z.lxor i 1) recid))
  else Some (mkSigned true sigr sigs recid).

(** The result and the point left in [pubkey]. *)
Definition secp256k1_ecdsa_sig_recover (ctx : secp256k1_ecmult_context) (sigr sigs : secp256k1_scalar)
    (pubkey : secp256k1_ge) (message : secp256k1_scalar) (recid : Z) : option (bool * secp256k1_ge) :=
  if secp256k1_scalar_is_zero sigr || secp256k1_scalar_is_zero sigs then Some (false, pubkey)
  else
    let brx := secp256k1_scalar_get_b32 sigr in
    let fx := fst (secp256k1_fe_set_b32 brx) in
    if negb (Z.land recid 2 =? 0) && (secp256k1_fe_cmp_var fx secp256k1_ecdsa_const_p_minus_order >=? 0)
    then Some (false, pubkey)
    else
      let fx := if negb (Z.land recid 2 =? 0) then secp256k1_fe_add fx secp256k1_ecdsa_const_order_as_fe else fx in
      let '(x, ok) := secp256k1_ge_set_xo_var fx (Z.land recid 1) in
      if negb ok then Some (false, pubkey)
      else
        let xj := secp256k1_gej_set_ge x in
        let rn := secp256k1_scalar_inverse_var sigr in
        let u1 := secp256k1_scalar_mul rn message in
        let u1 := secp256k1_scalar_negate u1 in
        let u2 := secp256k1_scalar_mul rn sigs in
        qj ← secp256k1_ecmult ctx xj u2 u1;
        let '(q, qj) := secp256k1_ge_set_gej_var pubkey qj in
        Some (secp256k1_gej_is_infinity qj =? 0, q).

End Ecdsa.
