(* ===== verification/EcdsaFacts.v ===== *)
(** * ECDSA

    The textbook definition of a valid signature over the curve, and that the
    code implements it: verification decides validity, a signature the code
    makes is valid, recovery finds the key. *)

From Stdlib Require Import ZArith Lia Ring Field Zmod Zcong.
From stdpp Require Import base option list.
From S2P Require Import Prelude Words Field FieldFacts FieldOps FieldExp Scalar ScalarFacts ScalarOps ScalarExp.
From S2P Require Import Curve CurveFacts GroupLaw GroupAssoc PointMul PointOrder.
From S2P Require Import Group GroupFacts GroupOps Points PointConv Tables Ecmult EcmultFacts DoubleMul EcmultGen GenTable GenFacts Ecdsa.
Local Open Scope Z_scope.

Module EcdsaFacts.
Import Field FieldFacts FieldOps FieldExp Scalar ScalarFacts ScalarOps ScalarExp.
Import Curve CurveFacts GroupLaw GroupAssoc PointMul PointOrder.
Import Group GroupFacts GroupOps Points PointConv Tables Ecmult EcmultFacts DoubleMul EcmultGen GenTable GenFacts Ecdsa.

(** ** Arithmetic modulo the order *)

#[local] Abbreviation S := (Zmod N).

Definition sc (z : Z) : S := Zmod.of_Z N z.

Infix "+s" := (@Zmod.add N) (at level 50, left associativity).
Infix "-s" := (@Zmod.sub N) (at level 50, left associativity).
Infix "*s" := (@Zmod.mul N) (at level 40, left associativity).

Lemma S_ring : ring_theory (sc 0) (sc 1) (@Zmod.add N) (@Zmod.mul N) (@Zmod.sub N) (@Zmod.opp N) (@eq S).
Proof. exact (Zmod.ring_theory N). Qed.

Add Ring S_ring : S_ring.

Lemma sc_eq x y : sc x = sc y <-> x mod N = y mod N.
Proof. split; [intros E; by apply Zmod.of_Z_inj in E|apply Zmod.of_Z_inj]. Qed.

Lemma sc_add x y : sc (x + y) = sc x +s sc y.
Proof. apply Zmod.of_Z_add. Qed.
Lemma sc_mul x y : sc (x * y) = sc x *s sc y.
Proof. apply Zmod.of_Z_mul. Qed.
Lemma sc_opp x : sc (- x) = Zmod.opp (sc x).
Proof. apply Zmod.of_Z_opp. Qed.
Lemma sc_mod x : sc (x mod N) = sc x.
Proof. apply sc_eq. by rewrite Z.mod_mod. Qed.

(** A multiple depends on the residue only. *)
Lemma smul_sc a b p : on_curve p -> sc a = sc b -> smul a p = smul b p.
Proof.
  intros Hp E%sc_eq. rewrite <- (smul_mod N a), <- (smul_mod N b) by (auto using point_order || done). by rewrite E.
Qed.

Lemma sc_zero z : 0 <= z < N -> sc z = sc 0 -> z = 0.
Proof. intros Hz E%sc_eq. by rewrite !Z.mod_small in E by lia. Qed.

(** ** Valid signatures *)

(** The signature [(r, s)] of the message hash [m] under the key [q]. *)
Definition ecdsa_valid (q : point) (m r s : Z) : bool :=
  if (r =? 0) || (s =? 0) then false
  else
    let w := Z.invmod s N in
    match add (smul (r * w) q) (smul (m * w) G) with
    | Infinity => false
    | Affine x _ => Zmod.to_Z x mod N =? r
    end.

Lemma scalar_range a : scalar_ok a -> 0 <= sval a < N.
Proof. intros [Ha Hn]. split; [by apply sval_range|done]. Qed.

Lemma invmod_sc s : 0 <= s < N -> s <> 0 -> sc s *s sc (Z.invmod s N) = sc 1.
Proof.
  intros Hs Hn. rewrite <- sc_mul. apply sc_eq. rewrite Z.mul_comm, Z.invmod_coprime; [done|done|].
  symmetry. apply Z.coprime_prime_small; [apply prime_N|lia].
Qed.

Lemma inverse_sc a : scalar_ok a -> sval a <> 0 ->
  scalar_ok (secp256k1_scalar_inverse_var a) /\ sc (sval (secp256k1_scalar_inverse_var a)) = sc (Z.invmod (sval a) N).
Proof.
  intros Ha Hn. destruct (inverse_spec a Ha) as [Hok E]. split; [exact Hok|].
  change (secp256k1_scalar_inverse_var a) with (secp256k1_scalar_inverse a).
  rewrite decide_False in E by done.
  assert (E1 : sc (sval a) *s sc (sval (secp256k1_scalar_inverse a)) = sc 1) by (rewrite <- sc_mul; apply sc_eq; by rewrite E).
  assert (E2 := invmod_sc (sval a) (scalar_range a Ha) Hn).
  transitivity (sc (sval (secp256k1_scalar_inverse a)) *s (sc (sval a) *s sc (Z.invmod (sval a) N))); [rewrite E2; ring|].
  transitivity (sc (sval a) *s sc (sval (secp256k1_scalar_inverse a)) *s sc (Z.invmod (sval a) N)); [ring|].
  rewrite E1. ring.
Qed.

(** ** Verification *)

(** The 32 bytes of a scalar as a field element. *)
Lemma scalar_as_fe a :
  scalar_ok a ->
  let x := fst (secp256k1_fe_set_b32 (secp256k1_scalar_get_b32 a)) in
  normalized x /\ val x = sval a /\ exact (fe (sval a)) x.
Proof.
  intros Ha. cbv zeta. assert (Hr := scalar_range a Ha). rewrite scalar_get_b32_spec by apply Ha.
  rewrite set_b32_spec by (apply be_bytes_range || apply length_be_bytes). cbn [fst].
  rewrite be_word_bytes, Z.mod_small by (change (256 ^ Z.of_nat 32) with (2 ^ 256); unfold N in Hr; lia).
  assert (HP : sval a < P) by (unfold N in Hr; unfold P; lia).
  destruct (fe_of_val (sval a)) as [Ev Hn]; [unfold P in HP; lia|]. specialize (Hn HP).
  split; [done|]. split; [done|]. split; [done|]. rewrite Ev, to_Z_fe, Z.mod_small by lia. done.
Qed.

Lemma order_as_fe_has : has 1 (fe N) secp256k1_ecdsa_const_order_as_fe.
Proof. split; [unfold magnitude; vm_compute; intuition congruence|by apply fe_eq]. Qed.

Lemma p_minus_order_spec :
  normalized secp256k1_ecdsa_const_p_minus_order /\ val secp256k1_ecdsa_const_p_minus_order = P - N.
Proof. split; [unfold normalized; vm_compute; intuition congruence|vm_compute; reflexivity]. Qed.

Lemma above_p_minus_order a :
  scalar_ok a ->
  (secp256k1_fe_cmp_var (fst (secp256k1_fe_set_b32 (secp256k1_scalar_get_b32 a))) secp256k1_ecdsa_const_p_minus_order >=? 0)
  = (P - N <=? sval a).
Proof.
  intros Ha. destruct (scalar_as_fe a Ha) as (Hn & Hv & _). destruct p_minus_order_spec as [Hp Ep].
  rewrite cmp_var_spec by done. rewrite Hv, Ep.
  destruct (Z.compare_spec (sval a) (P - N)); destruct (Z.leb_spec (P - N) (sval a)); lia || done.
Qed.

(** An abscissa reduced modulo the order is [r] in one of two ways. *)
Lemma residue_cases (x : F) r :
  0 <= r < N ->
  (Zmod.to_Z x mod N =? r) = (bool_decide (fe r = x) || (negb (P - N <=? r) && bool_decide (fe (r + N) = x))).
Proof.
  intros Hr. assert (Hx := to_Z_bound x).
  assert (HPN : N < P < 2 * N) by (unfold N, P; lia).
  assert (E1 : fe r = x <-> Zmod.to_Z x = r).
  { split; [intros <-; rewrite to_Z_fe, Z.mod_small; lia|intros <-; apply fe_to_Z]. }
  assert (E2 : r + N < P -> fe (r + N) = x <-> Zmod.to_Z x = r + N).
  { intros Hl. split; [intros <-; rewrite to_Z_fe, Z.mod_small; lia|intros <-; apply fe_to_Z]. }
  apply eq_bool_prop_intro. rewrite !Is_true_true, orb_true_iff, andb_true_iff, !bool_decide_eq_true, negb_true_iff, Z.leb_gt, Z.eqb_eq, E1.
  split.
  - intros Em. destruct (Z_lt_le_dec (Zmod.to_Z x) N) as [Hl|Hl]; [left; rewrite Z.mod_small in Em by lia; exact Em|right].
    assert (Ex : Zmod.to_Z x mod N = Zmod.to_Z x - N) by (symmetry; apply (Z.mod_unique _ _ 1); lia).
    rewrite E2 by lia. lia.
  - intros [E|[Hl E]]; [rewrite E; by apply Z.mod_small|]. apply E2 in E; [|lia]. rewrite E.
    symmetry. apply (Z.mod_unique _ _ 1); lia.
Qed.

Lemma verify_spec ctx sigr sigs pubkey q message :
  good_context ctx -> scalar_ok sigr -> scalar_ok sigs -> scalar_ok message ->
  represents_ge pubkey q -> on_curve q -> q <> Infinity ->
  secp256k1_ecdsa_sig_verify ctx sigr sigs pubkey message =
  Some (ecdsa_valid q (sval message) (sval sigr) (sval sigs)).
Proof.
  intros Hc Hr Hs Hm Hq Cq Nq. unfold secp256k1_ecdsa_sig_verify, ecdsa_valid.
  rewrite !scalar_is_zero_spec by (apply Hr || apply Hs).
  destruct (Z.eqb_spec (sval sigr) 0) as [|Hrn]; [done|]. destruct (Z.eqb_spec (sval sigs) 0) as [|Hsn]; [done|].
  cbn [orb]. cbv zeta. destruct (inverse_sc sigs Hs Hsn) as [Hi Ei].
  destruct (scalar_mul_spec (secp256k1_scalar_inverse_var sigs) message (proj1 Hi) (proj1 Hm)) as [O1 V1].
  destruct (scalar_mul_spec (secp256k1_scalar_inverse_var sigs) sigr (proj1 Hi) (proj1 Hr)) as [O2 V2].
  destruct (ecmult_spec ctx (secp256k1_gej_set_ge pubkey) q _ _ Hc (set_ge_represents _ _ Hq) Cq Nq O2 O1) as (pr & -> & Hpr).
  cbn [mbind option_bind]. rewrite V1, V2 in Hpr.
  assert (Ep : add (smul ((sval (secp256k1_scalar_inverse_var sigs) * sval sigr) mod N) q)
      (smul ((sval (secp256k1_scalar_inverse_var sigs) * sval message) mod N) G) =
    add (smul (sval sigr * Z.invmod (sval sigs) N) q) (smul (sval message * Z.invmod (sval sigs) N) G)).
  { apply (f_equal2 add); (apply smul_sc; [assumption || apply G_on_curve|rewrite sc_mod, !sc_mul, Ei; ring]). }
  rewrite Ep in Hpr. clear Ep V1 V2 O1 O2. set (pt := add _ _) in *.
  unfold secp256k1_gej_is_infinity. destruct pt as [|x y]; [cbn in Hpr; rewrite Hpr; done|].
  rewrite (proj1 Hpr). cbn [negb Z.eqb]. destruct (scalar_as_fe sigr Hr) as (_ & _ & Hx). apply exact_has in Hx.
  rewrite (eq_x_spec _ _ _ pr x y Hx ltac:(lia) Hpr), above_p_minus_order by done.
  assert (Hx2 := has_add 1 1 _ _ _ _ Hx order_as_fe_has ltac:(lia)). rewrite <- fe_add in Hx2.
  rewrite (eq_x_spec _ _ _ pr x y Hx2 ltac:(lia) Hpr), residue_cases by (by apply scalar_range).
  destruct (bool_decide (fe (sval sigr) = x)); [done|]. by destruct (P - N <=? sval sigr).
Qed.

(** ** Signing *)

(** The signature of the hash [m] with the key [d] and the nonce [k]: [r], [s]
    in the lower half, and the recovery number. *)
Definition ecdsa_sign (d m k : Z) : option (Z * Z * Z) :=
  match smul k G with
  | Infinity => None
  | Affine x y =>
      let r := Zmod.to_Z x mod N in
      let s := (Z.invmod k N * (r * d + m)) mod N in
      let v := 2 * b2z (N <=? Zmod.to_Z x) + Zmod.to_Z y mod 2 in
      if s =? 0 then None
      else if N / 2 <? s then Some (r, N - s, Z.lxor v 1) else Some (r, s, v)
  end.

(** The code's result and the specification's. *)
Definition signed_as (res : signed) (recid0 : option Z) (spec : option (Z * Z * Z)) : Prop :=
  match spec with
  | None => ret res = false
  | Some (r, s, v) => ret res = true /\ scalar_ok (sigr res) /\ scalar_ok (sigs res) /\
      sval (sigr res) = r /\ sval (sigs res) = s /\ recid res = option_map (fun _ => v) recid0
  end.

Lemma recid_bits b y : y = 0 \/ y = 1 ->
  Z.lor (if negb (b2z b =? 0) then 2 else 0) (if negb (y =? 0) then 1 else 0) = 2 * b2z b + y.
Proof. by intros [->| ->]; destruct b. Qed.

Lemma mod2_cases z : z mod 2 = 0 \/ z mod 2 = 1.
Proof. assert (H := Z.mod_pos_bound z 2 eq_refl). lia. Qed.

Lemma negated_value a : scalar_ok a -> sval a <> 0 -> sval (secp256k1_scalar_negate a) = N - sval a.
Proof.
  intros Ha Hn. destruct (scalar_negate_spec a Ha) as [_ ->]. assert (Hr := scalar_range a Ha).
  symmetry. apply (Z.mod_unique _ _ (-1)); lia.
Qed.

Lemma nonce_point k : scalar_ok k -> sval k <> 0 -> exists x y, smul (sval k) G = Affine x y /\ curve x y.
Proof.
  intros Hk Hn. assert (Hc := smul_on_curve (sval k) G G_on_curve).
  destruct (smul (sval k) G) as [|x y] eqn:E; [exfalso|by exists x, y].
  apply G_multiple_zero in E. rewrite Z.mod_small in E by (by apply scalar_range). done.
Qed.

Lemma sign_spec ctx d m k recid :
  good_gen ctx -> scalar_ok d -> scalar_ok m -> scalar_ok k -> sval k <> 0 ->
  exists res, secp256k1_ecdsa_sig_sign ctx d m k recid = Some res /\
    signed_as res recid (ecdsa_sign (sval d) (sval m) (sval k)).
Proof.
  intros Hc Hd Hm Hk Hkn. unfold secp256k1_ecdsa_sig_sign, ecdsa_sign.
  destruct (ecmult_gen_spec ctx k Hc Hk) as (rp & -> & Hrp). cbn [mbind option_bind].
  destruct (nonce_point k Hk Hkn) as (x & y & Exy & Hxy). rewrite Exy in Hrp |- *.
  destruct (set_gej_represents rp _ Hrp) as [(Hi & Hx & Hy) _].
  apply (normalize_exact 8) in Hx, Hy; [|lia..]. cbv zeta.
  rewrite (get_b32_spec _ (proj1 Hx)), (proj2 Hx), (exact_odd _ _ Hy).
  assert (Hb := to_Z_bound x). assert (Hw : be_word (be_bytes 32 (Zmod.to_Z x)) = Zmod.to_Z x).
  { rewrite be_word_bytes, Z.mod_small; [done|]. change (256 ^ Z.of_nat 32) with (2 ^ 256).
    assert (P < 2 ^ 256) by done. lia. }
  destruct (scalar_set_b32_spec (be_bytes 32 (Zmod.to_Z x))) as (Or & Vr & Ov); [apply length_be_bytes|apply be_bytes_range|].
  rewrite Hw in Vr, Ov. destruct (secp256k1_scalar_set_b32 _) as [sr ov]. cbn [fst snd] in Or, Vr, Ov. subst ov.
  rewrite recid_bits by apply mod2_cases. rewrite <- Vr.
  destruct (scalar_mul_spec sr d (proj1 Or) (proj1 Hd)) as [O1 V1].
  destruct (scalar_add_spec _ m O1 Hm) as (O2 & V2 & _). rewrite V1 in V2.
  destruct (inverse_sc k Hk Hkn) as [O3 V3]. change (secp256k1_scalar_inverse_var k) with (secp256k1_scalar_inverse k) in O3, V3.
  destruct (scalar_mul_spec _ _ (proj1 O3) (proj1 O2)) as [O4 V4]. rewrite V2 in V4.
  assert (E4 : sval (secp256k1_scalar_mul (secp256k1_scalar_inverse k)
      (fst (secp256k1_scalar_add (secp256k1_scalar_mul sr d) m))) = (Z.invmod (sval k) N * (sval sr * sval d + sval m)) mod N).
  { rewrite V4. apply sc_eq. rewrite !sc_mul, sc_mod, V3, sc_add, sc_mod, sc_mul, sc_add, sc_mul. ring. }
  rewrite scalar_is_zero_spec, E4 by apply O4. rewrite scalar_is_high_spec, E4 by apply O4. rewrite <- E4.
  set (ss := secp256k1_scalar_mul (secp256k1_scalar_inverse k) _) in *. clearbody ss. clear V4 E4 V2 O2 V3 O3.
  destruct (Z.eqb_spec (sval ss) 0) as [|Hsn]; [eexists; split; reflexivity|].
  destruct (N / 2 <? sval ss) eqn:Eh; cbn [b2z Z.eqb negb]; (eexists; split; [reflexivity|]); cbn [signed_as ret Ecdsa.sigr Ecdsa.sigs Ecdsa.recid].
  - split; [done|]. split; [done|]. split; [by apply scalar_negate_spec|]. split; [done|].
    split; [by apply negated_value|]. by destruct recid.
  - split_and!; by try destruct recid.
Qed.

(** ** A signature is valid *)

Lemma sc_sub x y : sc (x - y) = sc x -s sc y.
Proof. apply Zmod.of_Z_sub. Qed.

Lemma sc_N : sc N = sc 0.
Proof. apply sc_eq. vm_compute. reflexivity. Qed.

(** A number and its negative, both ways at once. *)
Definition signed_by (neg : bool) (a : S) : S := if neg then Zmod.opp a else a.

Lemma signed_twice b a c : signed_by b a *s signed_by b c = a *s c.
Proof. destruct b; cbn; ring. Qed.

Lemma signed_point b e k x y :
  smul k G = Affine x y -> sc e = signed_by b (sc k) -> smul e G = Affine x (if b then - y else y)%F.
Proof.
  intros Ek Ee. destruct b; cbn [signed_by] in Ee.
  - rewrite (smul_sc e (- k)) by (apply G_on_curve || by rewrite sc_opp). by rewrite smul_opp, Ek.
  - rewrite (smul_sc e k) by (apply G_on_curve || done). exact Ek.
Qed.

(** What the specification of signing returns, with the sign of the nonce. *)
Lemma sign_inv d m k r s v :
  0 < k < N -> ecdsa_sign d m k = Some (r, s, v) ->
  exists b x y, smul k G = Affine x y /\ curve x y /\ r = Zmod.to_Z x mod N /\ 0 < s < N /\ s <= N / 2 /\
    sc s *s signed_by b (sc k) = sc r *s sc d +s sc m /\
    v = Z.lxor (2 * b2z (N <=? Zmod.to_Z x) + Zmod.to_Z y mod 2) (b2z b).
Proof.
  intros Hk. unfold ecdsa_sign. assert (Hc := smul_on_curve k G G_on_curve).
  destruct (smul k G) as [|x y] eqn:Ek; [discriminate|]. cbv zeta.
  set (r' := Zmod.to_Z x mod N). set (s' := (Z.invmod k N * (r' * d + m)) mod N).
  assert (Hs : 0 <= s' < N) by (apply Z.mod_pos_bound; done). assert (Hik := invmod_sc k ltac:(lia) ltac:(lia)).
  assert (Es : sc s' *s sc k = sc r' *s sc d +s sc m).
  { unfold s'. rewrite sc_mod, sc_mul, sc_add, sc_mul.
    transitivity (sc k *s sc (Z.invmod k N) *s (sc r' *s sc d +s sc m)); [ring|]. rewrite Hik. ring. }
  assert (Hh : 2 * (N / 2) + 1 = N) by (vm_compute; reflexivity).
  destruct (Z.eqb_spec s' 0); [discriminate|]. destruct (Z.ltb_spec (N / 2) s'); intros E; injection E as <- <- <-.
  - exists true, x, y. split_and!; [done|done|done|lia|lia|lia| |done]. cbn [signed_by].
    rewrite <- Es, sc_sub, sc_N. ring.
  - exists false, x, y. split_and!; [done|done|done|lia|lia|lia|done|]. cbn [b2z]. by rewrite Z.lxor_0_r.
Qed.

Lemma sign_valid d m k r s v :
  0 < k < N -> ecdsa_sign d m k = Some (r, s, v) -> r <> 0 -> ecdsa_valid (smul d G) m r s = true.
Proof.
  intros Hk Hs Hr. destruct (sign_inv d m k r s v Hk Hs) as (b & x & y & Ek & Hc & Er & Hsr & _ & Es & _).
  unfold ecdsa_valid. destruct (Z.eqb_spec r 0); [done|]. destruct (Z.eqb_spec s 0); [lia|]. cbn [orb]. cbv zeta.
  rewrite <- smul_mul, <- smul_add by (apply G_on_curve).
  assert (Hw := invmod_sc s ltac:(lia) ltac:(lia)).
  rewrite (signed_point b _ k x y Ek); [by apply Z.eqb_eq|].
  rewrite sc_add, !sc_mul. transitivity (sc (Z.invmod s N) *s (sc r *s sc d +s sc m)); [ring|]. rewrite <- Es.
  transitivity (sc s *s sc (Z.invmod s N) *s signed_by b (sc k)); [ring|]. rewrite Hw. ring.
Qed.

(** Negating the second number keeps a signature valid. *)
Lemma invmod_negated s : 0 < s < N -> sc (Z.invmod (N - s) N) = sc (- Z.invmod s N).
Proof.
  intros Hs. assert (E1 := invmod_sc s ltac:(lia) ltac:(lia)). assert (E2 := invmod_sc (N - s) ltac:(lia) ltac:(lia)).
  rewrite sc_opp. rewrite sc_sub, sc_N in E2. set (w := sc (Z.invmod s N)) in *. set (w' := sc (Z.invmod (N - s) N)) in *.
  transitivity (sc s *s w *s w'); [rewrite E1; ring|]. transitivity (Zmod.opp ((sc 0 -s sc s) *s w' *s w)); [ring|].
  rewrite E2. ring.
Qed.

Lemma valid_negated q m r s : on_curve q -> 0 < s < N -> ecdsa_valid q m r (N - s) = ecdsa_valid q m r s.
Proof.
  intros Hq Hs. unfold ecdsa_valid. destruct (Z.eqb_spec (N - s) 0); [lia|]. destruct (Z.eqb_spec s 0); [lia|].
  destruct (r =? 0); [done|]. cbn [orb]. cbv zeta. assert (Ei := invmod_negated s Hs).
  rewrite (smul_sc (r * Z.invmod (N - s) N) (- (r * Z.invmod s N))) by (done || rewrite sc_opp, !sc_mul, Ei, sc_opp; ring).
  rewrite (smul_sc (m * Z.invmod (N - s) N) (- (m * Z.invmod s N))) by (apply G_on_curve || (rewrite sc_opp, !sc_mul, Ei, sc_opp; ring)).
  rewrite !smul_opp, <- neg_add by (apply smul_on_curve; assumption || apply G_on_curve).
  by destruct (add _ _).
Qed.

(** ** Recovery *)

(** [q] is the key the signature [(r, s)] of [m] with the recovery number [v]
    leads to: [v] says which point has the abscissa [r]. *)
Definition recovers (q : point) (m r s v : Z) : Prop :=
  r <> 0 /\ s <> 0 /\ (Z.testbit v 1 = true -> r < P - N) /\ q <> Infinity /\
  exists y, let p := Affine (fe (if Z.testbit v 1 then r + N else r)) y in
    on_curve p /\ Zmod.to_Z y mod 2 = b2z (Z.testbit v 0) /\
    q = add (smul (s * Z.invmod r N) p) (smul (- (m * Z.invmod r N)) G).

Lemma root_by_parity x y y' : curve x y -> curve x y' -> Zmod.to_Z y mod 2 = Zmod.to_Z y' mod 2 -> y = y'.
Proof.
  intros Hy Hy' E. destruct (same_x_same_or_opposite x y y' Hy Hy') as [?|Ho]; [done|exfalso].
  assert (y' = - y)%F as -> by (transitivity (y + y' - y)%F; [ring|rewrite Ho; ring]).
  by apply (opposite_parity x y Hy).
Qed.

Lemma recovers_unique q q' m r s v : recovers q m r s v -> recovers q' m r s v -> q = q'.
Proof.
  intros (_ & _ & _ & _ & y & Hc & Hy & ->) (_ & _ & _ & _ & y' & Hc' & Hy' & ->).
  by rewrite (root_by_parity _ y y' Hc Hc') by (by rewrite Hy, Hy').
Qed.

Lemma recovers_on_curve q m r s v : recovers q m r s v -> on_curve q.
Proof.
  intros (_ & _ & _ & _ & y & Hc & _ & ->). apply add_on_curve; apply smul_on_curve; [done|apply G_on_curve].
Qed.

(** The signature is valid under the key it recovers. *)
Lemma recovers_valid q m r s v : 0 <= r < N -> 0 <= s < N -> recovers q m r s v -> ecdsa_valid q m r s = true.
Proof.
  intros Hr Hs (Hrn & Hsn & Hv & _ & y & Hc & _ & ->). set (p := Affine _ y) in *.
  destruct (generated_point p Hc) as [e Ee].
  unfold ecdsa_valid. destruct (Z.eqb_spec r 0); [done|]. destruct (Z.eqb_spec s 0); [done|]. cbn [orb]. cbv zeta.
  assert (Hwr := invmod_sc r Hr Hrn). assert (Hws := invmod_sc s Hs Hsn).
  rewrite Ee, <- smul_mul, <- smul_add, <- smul_mul, <- smul_add by apply G_on_curve.
  rewrite (smul_sc _ e); [|apply G_on_curve|].
  - rewrite <- Ee. unfold p. apply Z.eqb_eq. rewrite to_Z_fe. assert (HPN : N < P) by done.
    destruct (Z.testbit v 1).
    + specialize (Hv eq_refl). rewrite (Z.mod_small _ P) by lia. symmetry. apply (Z.mod_unique _ _ 1); lia.
    + rewrite (Z.mod_small _ P), Z.mod_small by lia. done.
  - rewrite ?sc_add, ?sc_mul, ?sc_add, ?sc_mul, ?sc_opp, ?sc_mul.
    set (wr := sc (Z.invmod r N)) in *. set (ws := sc (Z.invmod s N)) in *.
    transitivity (sc r *s wr *s (sc s *s ws) *s sc e +s (sc m *s ws -s sc r *s wr *s (sc m *s ws))); [ring|].
    rewrite Hwr, Hws. ring.
Qed.

(** The key that made a signature is the one it recovers. *)
Lemma sign_recovers d m k r s v :
  0 < k < N -> sc d <> sc 0 -> ecdsa_sign d m k = Some (r, s, v) -> r <> 0 -> recovers (smul d G) m r s v.
Proof.
  intros Hk Hd Hs Hr. destruct (sign_inv d m k r s v Hk Hs) as (b & x & y & Ek & Hc & Er & Hsr & _ & Es & Ev).
  assert (Hx := to_Z_bound x). assert (HPN : N < P < 2 * N) by (unfold N, P; lia).
  assert (Hbits : Z.testbit v 1 = (N <=? Zmod.to_Z x) /\
    b2z (Z.testbit v 0) = Zmod.to_Z (if b then - y else y)%F mod 2).
  { rewrite Ev. assert (Hp := opposite_parity x y Hc). revert Hp.
    destruct b, (N <=? Zmod.to_Z x), (mod2_cases (Zmod.to_Z y)) as [->| ->], (mod2_cases (Zmod.to_Z (- y)%F)) as [->| ->];
      cbn; split; done || lia. }
  destruct Hbits as [B1 B0]. assert (Exr : fe (if Z.testbit v 1 then r + N else r) = x).
  { rewrite B1, Er. destruct (Z.leb_spec N (Zmod.to_Z x)).
    - assert (E : Zmod.to_Z x mod N = Zmod.to_Z x - N) by (symmetry; apply (Z.mod_unique _ _ 1); lia).
      rewrite E. replace (Zmod.to_Z x - N + N) with (Zmod.to_Z x) by lia. apply fe_to_Z.
    - rewrite Z.mod_small by lia. apply fe_to_Z. }
  assert (Hrr : 0 <= r < N) by (rewrite Er; by apply Z.mod_pos_bound).
  split; [done|]. split; [lia|]. split.
  { rewrite B1. intros Hl%Z.leb_le. assert (E : Zmod.to_Z x mod N = Zmod.to_Z x - N) by (symmetry; apply (Z.mod_unique _ _ 1); lia).
    rewrite Er, E. lia. }
  split. { intros E%G_multiple_zero. apply Hd, sc_eq. by rewrite E. }
  exists (if b then - y else y)%F. cbv zeta. rewrite Exr. split.
  { unfold on_curve, curve in *. destruct b; rewrite <- Hc; ring. }
  split; [done|]. assert (Hw := invmod_sc r Hrr Hr).
  rewrite <- (signed_point b (if b then - k else k) k x y Ek), <- smul_mul, <- smul_add
    by (apply G_on_curve || by destruct b; rewrite ?sc_opp).
  apply smul_sc; [apply G_on_curve|]. rewrite sc_add, !sc_mul, sc_opp, sc_mul.
  assert (Eb : sc (if b then - k else k) = signed_by b (sc k)) by (by destruct b; rewrite ?sc_opp). rewrite Eb.
  set (w := sc (Z.invmod r N)) in *. transitivity (sc s *s signed_by b (sc k) *s w -s sc m *s w); [|ring].
  rewrite Es. transitivity (sc r *s w *s sc d); [rewrite Hw; ring|ring].
Qed.

Lemma land_bits v : Z.land v 1 = b2z (Z.testbit v 0) /\ negb (Z.land v 2 =? 0) = Z.testbit v 1.
Proof.
  split.
  - change 1 with (Z.ones 1). rewrite Z.land_ones by lia. rewrite <- Z.bit0_mod. by destruct (Z.testbit v 0).
  - change 2 with (2 ^ 1). destruct (Z.testbit v 1) eqn:E.
    + destruct (Z.eqb_spec (Z.land v (2 ^ 1)) 0) as [E0|]; [|done].
      assert (H := f_equal (fun z => Z.testbit z 1) E0). cbv beta in H. rewrite Z.land_spec, E in H. discriminate H.
    + replace (Z.land v (2 ^ 1)) with 0; [done|]. symmetry. apply Z.bits_inj'. intros n Hn.
      rewrite Z.land_spec, Z.pow2_bits_eqb, Z.bits_0 by lia. destruct (Z.eqb_spec 1 n) as [<-|]; [by rewrite E|apply andb_false_r].
Qed.

Lemma recover_spec ctx r s pk m v :
  good_context ctx -> scalar_ok r -> scalar_ok s -> scalar_ok m ->
  exists ok q', secp256k1_ecdsa_sig_recover ctx r s pk m v = Some (ok, q') /\
    (ok = true -> exists q, represents_ge q' q /\ recovers q (sval m) (sval r) (sval s) v) /\
    (ok = false -> forall q, ~ recovers q (sval m) (sval r) (sval s) v).
Proof.
  intros Hc Hr Hs Hm. unfold secp256k1_ecdsa_sig_recover. rewrite !scalar_is_zero_spec by (apply Hr || apply Hs).
  destruct (Z.eqb_spec (sval r) 0) as [Er|Hrn]; [eexists _, _; split; [done|]; split; [done|]; intros _ q (? & _); done|].
  destruct (Z.eqb_spec (sval s) 0) as [Es|Hsn]; [eexists _, _; split; [done|]; split; [done|]; intros _ q (_ & ? & _); done|].
  cbn [orb]. cbv zeta. destruct (land_bits v) as [-> ->]. rewrite above_p_minus_order by done.
  destruct (Z.testbit v 1 && (P - N <=? sval r)) eqn:Eb.
  { eexists _, _. split; [done|]. split; [done|]. intros _ q (_ & _ & Hv & _).
    apply andb_prop in Eb as [Ev Eb%Z.leb_le]. specialize (Hv Ev). lia. }
  destruct (scalar_as_fe r Hr) as (_ & _ & Hx). apply exact_has in Hx.
  assert (Hx2 := has_add 1 1 _ _ _ _ Hx order_as_fe_has ltac:(lia)). rewrite <- fe_add in Hx2.
  set (fx := if Z.testbit v 1 then _ else _).
  assert (Hfx : has 2 (fe (if Z.testbit v 1 then sval r + N else sval r)) fx).
  { unfold fx. destruct (Z.testbit v 1); [exact Hx2|]. eapply has_mono; [exact Hx|lia]. }
  clearbody fx. assert (Hxo := set_xo_spec fx 2 _ (b2z (Z.testbit v 0)) Hfx ltac:(lia)
    ltac:(destruct (Z.testbit v 0); [by right|by left])).
  destruct (secp256k1_ge_set_xo_var fx _) as [X ok]. destruct Hxo as [Ht Hf]. destruct ok; cbn [negb]; cycle 1.
  { eexists _, _. split; [done|]. split; [done|]. intros _ q (_ & _ & _ & _ & y & Hy & _). by apply (Hf eq_refl y). }
  destruct (Ht eq_refl) as (y & Hy & Hpar & _ & HX). clear Ht Hf.
  destruct (inverse_sc r Hr Hrn) as [Oi Ei].
  destruct (scalar_mul_spec _ m (proj1 Oi) (proj1 Hm)) as [O1 V1]. destruct (scalar_negate_spec _ O1) as [O1' V1'].
  destruct (scalar_mul_spec _ s (proj1 Oi) (proj1 Hs)) as [O2 V2].
  set (p := Affine (fe (if Z.testbit v 1 then sval r + N else sval r)) y) in *.
  destruct (ecmult_spec ctx (secp256k1_gej_set_ge X) p _ _ Hc (set_ge_represents _ _ HX) Hy ltac:(discriminate) O2 O1')
    as (qj & -> & Hqj). cbn [mbind option_bind].
  rewrite V1', V1, V2 in Hqj.
  assert (Eq : add (smul ((sval (secp256k1_scalar_inverse_var r) * sval s) mod N) p)
      (smul ((- ((sval (secp256k1_scalar_inverse_var r) * sval m) mod N)) mod N) G) =
    add (smul (sval s * Z.invmod (sval r) N) p) (smul (- (sval m * Z.invmod (sval r) N)) G)).
  { apply (f_equal2 add); (apply smul_sc; [exact Hy || apply G_on_curve|]).
    - rewrite sc_mod, !sc_mul, Ei. ring.
    - rewrite sc_mod, !sc_opp, sc_mod, !sc_mul, Ei. ring. }
  rewrite Eq in Hqj. clear Eq V1 V1' V2 O1 O1' O2. set (q := add _ _) in *.
  destruct (set_gej_var_represents pk qj q Hqj) as [Hq Hq']. assert (Hflag := infinity_flag _ _ Hq').
  destruct (secp256k1_ge_set_gej_var pk qj) as [q' qj']. cbn [fst snd] in *.
  unfold secp256k1_gej_is_infinity. rewrite Hflag. eexists _, _. split; [reflexivity|]. case_decide as Hinf; cbn [Z.eqb].
  - split; [done|]. intros _ q0 (_ & _ & _ & Hn & y0 & Hc0 & Hp0 & E0). apply Hn. rewrite E0, <- Hinf. unfold q, p.
    rewrite (root_by_parity _ y y0 Hy Hc0) by (by rewrite Hpar, Hp0). done.
  - split; [|done]. intros _. exists q. split; [exact Hq|]. split; [done|]. split; [done|]. split.
    { intros Ev. rewrite Ev in Eb. apply Z.leb_gt in Eb. exact Eb. }
    split; [exact Hinf|]. exists y. split; [exact Hy|]. split; [exact Hpar|done].
Qed.

End EcdsaFacts.
