(* ===== verification/Der.v ===== *)
(** * Signatures in DER (libsecp256k1/src/ecdsa_impl.h)

    The encoding of a pair of scalars as an ASN.1 sequence of two integers, and
    its strict parser. A pointer into the input is the list of the bytes from
    it to the end of the input; a read past the end is [None]. Sizes are 64-bit
    [size_t] values and 32-bit [int] values, as in the code. *)

From Stdlib Require Import ZArith Lia List.
From stdpp Require Import base option list.
From S2P Require Import Prelude Words Field Scalar ScalarFacts ScalarOps.
Local Open Scope Z_scope.
Local Open Scope word_scope.

Module Der.
Import Field Scalar ScalarFacts ScalarOps.

(** ** Parsing *)

Definition size (l : bytes) : Z := Z.of_nat (length l).

(** The [while (lenleft > 0)] loop and the test behind it. *)
Fixpoint read_len_loop (lenleft : nat) (ret : Z) (sig : bytes) : option (Z * bytes) :=
  match lenleft with
  | O => if ret <? 128 then Some (-1, sig) else Some (swrap 32 ret, sig)
  | S lenleft' =>
      b ← head sig;
      let ret := Z.lor (u64 (Z.shiftl ret 8)) b in
      if u64 (ret + Z.of_nat lenleft) >? size sig then Some (-1, sig)
      else read_len_loop lenleft' ret (tail sig)
  end.

Definition secp256k1_der_read_len (sig : bytes) : option (Z * bytes) :=
  match sig with
  | [] => Some (-1, sig)
  | b1 :: sig =>
      if b1 =? 0xFF then Some (-1, sig)
      else if Z.land b1 0x80 =? 0 then Some (b1, sig)
      else if b1 =? 0x80 then Some (-1, sig)
      else
        let lenleft := Z.land b1 0x7F in
        if lenleft >? size sig then Some (-1, sig)
        else
          b ← head sig;
          if b =? 0 then Some (-1, sig)
          else if lenleft >? 8 then Some (-1, sig)
          else read_len_loop (Z.to_nat lenleft) 0 sig
  end.

(** The loop that skips leading zero bytes. *)
Fixpoint skip_zeros (rlen : nat) (sig : bytes) : option (nat * bytes) :=
  match rlen with
  | O => Some (O, sig)
  | S rlen' => b ← head sig; if b =? 0 then skip_zeros rlen' (tail sig) else Some (rlen, sig)
  end.

(** [n] bytes from the pointer on. *)
Definition read (n : nat) (sig : bytes) : option bytes :=
  if (n <=? length sig)%nat then Some (take n sig) else None.

(** The byte at the pointer is [b], [rlen > 1], and the top bit of the byte
    behind it, [& 0x80], is [high]. *)
Definition padding (sig : bytes) (rlen b high : Z) : option bool :=
  c0 ← sig !! 0%nat;
  if (c0 =? b) && (rlen >? 1) then c1 ← sig !! 1%nat; Some (Z.land c1 0x80 =? high) else Some false.

(** The part behind the length: the contents of the integer. *)
Definition integer_contents (r : secp256k1_scalar) (rlen : Z) (sig : bytes)
    : option (bool * secp256k1_scalar * bytes) :=
  pad0 ← padding sig rlen 0x00 0x00;
  if (pad0 : bool) then Some (false, r, sig)
  else
    padF ← padding sig rlen 0xFF 0x80;
    if (padF : bool) then Some (false, r, sig)
    else
      b ← head sig;
      let overflow := b2z (Z.land b 0x80 =? 0x80) in
      '(rlen, sig) ← skip_zeros (Z.to_nat rlen) sig;
      let overflow := if (32 <? rlen)%nat then 1 else overflow in
      if overflow =? 0 then
        src ← read rlen sig;
        let ra := memcpy (repeat 0 32) (32 - rlen) src in
        let '(r, overflow) := secp256k1_scalar_set_b32 ra in
        let r := if negb (overflow =? 0) then secp256k1_scalar_set_int 0 else r in
        Some (true, r, drop rlen sig)
      else Some (true, secp256k1_scalar_set_int 0, drop rlen sig).

(** The result, the scalar and the advanced pointer. *)
Definition secp256k1_der_parse_integer (r : secp256k1_scalar) (sig : bytes)
    : option (bool * secp256k1_scalar * bytes) :=
  match sig with
  | [] => Some (false, r, sig)
  | tag :: sig' =>
      if negb (tag =? 0x02) then Some (false, r, sig)
      else
        '(rlen, sig) ← secp256k1_der_read_len sig';
        if (rlen <=? 0) || (rlen >? size sig) then Some (false, r, sig)
        else integer_contents r rlen sig
  end.

(** The result and what is left in [rr] and [rs]. *)
Definition secp256k1_ecdsa_sig_parse (rr rs : secp256k1_scalar) (sig : bytes)
    : option (bool * secp256k1_scalar * secp256k1_scalar) :=
  match sig with
  | [] => Some (false, rr, rs)
  | tag :: sig =>
      if negb (tag =? 0x30) then Some (false, rr, rs)
      else
        '(rlen, sig) ← secp256k1_der_read_len sig;
        if (rlen <? 0) || (rlen >? size sig) then Some (false, rr, rs)
        else if negb (rlen =? size sig) then Some (false, rr, rs)
        else
          '(ok, rr, sig) ← secp256k1_der_parse_integer rr sig;
          if negb ok then Some (false, rr, rs)
          else
            '(ok, rs, sig) ← secp256k1_der_parse_integer rs sig;
            if negb ok then Some (false, rr, rs)
            else Some (match sig with [] => true | _ => false end, rr, rs)
  end.

(** ** Serialising *)

(** [while (len > 1 && p[0] == 0 && p[1] < 0x80) { len--; p++; }] *)
Fixpoint strip (p : bytes) : bytes :=
  match p with
  | b0 :: (b1 :: _) as p' => if (b0 =? 0) && (b1 <? 0x80) then strip p' else p
  | _ => p
  end.

(** The result, the buffer [sig] and the size. *)
Definition secp256k1_ecdsa_sig_serialize (sig : bytes) (sz : Z) (ar as_ : secp256k1_scalar) : bool * bytes * Z :=
  let rp := strip (0 :: secp256k1_scalar_get_b32 ar) in
  let sp := strip (0 :: secp256k1_scalar_get_b32 as_) in
  let lenR := size rp in
  let lenS := size sp in
  if sz <? 6 + lenS + lenR then (false, sig, 6 + lenS + lenR)
  else
    let sig := memcpy sig 0 [0x30] in
    let sig := memcpy sig 1 [wrap 8 (4 + lenS + lenR)] in
    let sig := memcpy sig 2 [0x02] in
    let sig := memcpy sig 3 [wrap 8 lenR] in
    let sig := memcpy sig 4 rp in
    let sig := memcpy sig (4 + length rp) [0x02] in
    let sig := memcpy sig (5 + length rp) [wrap 8 lenS] in
    let sig := memcpy sig (length rp + 6) sp in
    (true, sig, 6 + lenS + lenR).

(** ** Integers in their shortest form *)

(** A positive integer of the encoding: no byte can be left out in front. *)
Definition canonical (l : bytes) : Prop :=
  Forall is_byte l /\
  match l with
  | [] => False
  | [b] => b < 128
  | b :: c :: _ => b < 128 /\ (b = 0 -> 128 <= c)
  end.

Lemma top_bit b : is_byte b -> Z.land b 0x80 = if b <? 128 then 0 else 128.
Proof.
  unfold is_byte. intros Hb. assert (E := land_field b 1 7 ltac:(lia) ltac:(lia)).
  change ((2 ^ 1 - 1) * 2 ^ 7) with 128 in E. rewrite E.
  change (2 ^ 7) with 128. change (2 ^ 1) with 2. destruct (Z.ltb_spec b 128); Z.div_mod_to_equations; lia.
Qed.

Lemma be_word_cons b l : be_word (b :: l) = b * 256 ^ size l + be_word l.
Proof. change (b :: l) with ([b] ++ l). rewrite be_word_concat. reflexivity. Qed.

Lemma be_word_zeros n l : be_word (repeat 0 n ++ l) = be_word l.
Proof. induction n as [|n IH]; [done|]. cbn [repeat app]. by rewrite be_word_cons, IH. Qed.

Lemma size_cons b l : size (b :: l) = 1 + size l.
Proof. unfold size. cbn [length]. lia. Qed.

Lemma size_app l k : size (l ++ k) = size l + size k.
Proof. unfold size. rewrite length_app. lia. Qed.

Lemma size_nonneg l : 0 <= size l.
Proof. unfold size. lia. Qed.

#[local] Hint Resolve size_nonneg : core.

(** The value bounds the size from both sides. *)
Lemma canonical_below l : canonical l -> 2 * be_word l < 256 ^ size l.
Proof.
  intros [Hb Hc]. destruct l as [|b l]; [done|]. inversion Hb as [|? ? Hb0 Hbl]; subst.
  assert (Hr := be_word_range l Hbl). change (Z.of_nat (length l)) with (size l) in Hr.
  rewrite be_word_cons, size_cons, Z.pow_add_r by (auto || lia). change (256 ^ 1) with 256.
  assert (b < 128) by (destruct l; lia). nia.
Qed.

Lemma canonical_above l : canonical l -> 1 < size l -> 256 ^ (size l - 1) <= 2 * be_word l.
Proof.
  intros [Hb Hc] Hs. destruct l as [|b [|c l]]; [done|done|]. inversion Hb as [|? ? Hb0 Hbl]; subst.
  inversion Hbl as [|? ? Hc0 Hl]; subst. unfold is_byte in Hb0, Hc0.
  assert (Hr := be_word_range l Hl). change (Z.of_nat (length l)) with (size l) in Hr.
  rewrite !be_word_cons, !size_cons, Z.add_simpl_l, Z.pow_add_r by (auto || lia). change (256 ^ 1) with 256.
  destruct Hc as [Hc1 Hc2]. destruct (Z.eq_dec b 0) as [E|]; [specialize (Hc2 E)|]; nia.
Qed.

Lemma canonical_inj l k : canonical l -> canonical k -> be_word l = be_word k -> l = k.
Proof.
  intros Hl Hk E. assert (Hs : size l = size k).
  { assert (Hmono : forall a b, canonical a -> canonical b -> be_word a = be_word b -> ~ size a < size b).
    { intros a b Ha Hb Eab Hlt. assert (Hn := size_nonneg a).
      assert (Ha1 : 1 <= size a) by (destruct a; [by destruct Ha as [_ []]|rewrite size_cons; auto with lia; assert (H := size_nonneg a); lia]).
      assert (H1 := canonical_below a Ha). assert (H2 := canonical_above b Hb ltac:(lia)).
      assert (H3 := Z.pow_le_mono_r 256 (size a) (size b - 1) ltac:(lia) ltac:(lia)). lia. }
    assert (H1 := Hmono l k Hl Hk E). assert (H2 := Hmono k l Hk Hl (eq_sym E)). lia. }
  rewrite <- (be_bytes_word l), <- (be_bytes_word k), E by (apply Hl || apply Hk). f_equal. unfold size in Hs. lia.
Qed.

Lemma strip_canonical l :
  Forall is_byte l -> match l with [] => False | b :: _ => b < 128 end ->
  canonical (strip l) /\ be_word (strip l) = be_word l /\ (length (strip l) <= length l)%nat.
Proof.
  induction l as [|b0 [|b1 l] IH]; intros Hb Hh; [done|done|].
  inversion Hb as [|? ? Hb0 Hbl]; subst. unfold is_byte in Hb0.
  change (strip (b0 :: b1 :: l)) with (if (b0 =? 0) && (b1 <? 0x80) then strip (b1 :: l) else b0 :: b1 :: l).
  destruct (Z.eqb_spec b0 0) as [->|Hn]; cbn [andb].
  - destruct (Z.ltb_spec b1 0x80) as [Hlt|Hge].
    + destruct (IH Hbl Hlt) as (H1 & H2 & H3). split; [done|]. split; [|cbn [length] in *; lia].
      rewrite H2, (be_word_cons 0). lia.
    + done.
  - split; [|done]. split; [done|]. split; [done|]. lia.
Qed.

(** ** Reading a length *)

Lemma read_len_short v rest : 0 <= v < 128 -> secp256k1_der_read_len (v :: rest) = Some (v, rest).
Proof.
  intros Hv. unfold secp256k1_der_read_len. destruct (Z.eqb_spec v 0xFF); [lia|].
  rewrite top_bit by (unfold is_byte; lia). destruct (Z.ltb_spec v 128); [done|lia].
Qed.

Lemma read_len_loop_spec n ret sig :
  (n <= length sig)%nat -> Forall is_byte sig -> size sig < 2 ^ 31 -> 0 <= ret < 2 ^ 31 ->
  exists v pre rest, read_len_loop n ret sig = Some (v, rest) /\ sig = pre ++ rest /\ (v = -1 \/ 128 <= v).
Proof.
  revert ret sig. induction n as [|n IH]; intros ret sig Hn Hb Hs Hr; cbn [read_len_loop].
  - destruct (Z.ltb_spec ret 128); [by exists (-1), [], sig; auto|].
    exists ret, [], sig. rewrite swrap_small by (cbn; lia). auto.
  - destruct sig as [|b sig]; [cbn in Hn; lia|]. cbn [head tail mbind option_bind].
    inversion Hb as [|? ? Hb0 Hbl]; subst. unfold is_byte in Hb0. rewrite Z.shiftl_mul_pow2 by lia.
    rewrite (wrap_small 64 (ret * 2 ^ 8)) by lia. rewrite Z.lor_comm, (lor_high b ret 8) by lia.
    set (ret' := b + ret * 2 ^ 8). assert (0 <= ret' < 2 ^ 40) by lia.
    assert (Z.of_nat n < 2 ^ 31) by (unfold size in Hs; cbn [length] in Hs, Hn; lia).
    rewrite wrap_small by lia. destruct (Z.gtb_spec (ret' + Z.of_nat (S n)) (size (b :: sig))).
    { exists (-1), [], (b :: sig). auto. }
    rewrite size_cons in *. destruct (IH ret' sig) as (v & pre & rest & E & -> & Hv); [cbn in Hn; lia|done|lia|lia|].
    exists v, (b :: pre), rest. auto.
Qed.

Lemma read_len_spec sig :
  Forall is_byte sig -> size sig < 2 ^ 31 ->
  exists v pre rest, secp256k1_der_read_len sig = Some (v, rest) /\ sig = pre ++ rest /\
    (v = -1 \/ (0 <= v < 128 /\ pre = [v]) \/ 128 <= v).
Proof.
  intros Hb Hs. destruct sig as [|b1 sig]; [by exists (-1), [], []; auto|]. cbn [secp256k1_der_read_len].
  inversion Hb as [|? ? Hb1 Hbl]; subst. rewrite size_cons in Hs.
  assert (Hfail : exists v pre rest, Some (-1, sig) = Some (v, rest) /\ b1 :: sig = pre ++ rest /\
    (v = -1 \/ (0 <= v < 128 /\ pre = [v]) \/ 128 <= v)).
  { exists (-1), [b1], sig. auto. }
  destruct (b1 =? 0xFF); [exact Hfail|]. rewrite top_bit by done. unfold is_byte in Hb1.
  destruct (Z.ltb_spec b1 128); cbn [Z.eqb].
  { exists b1, [b1], sig. split; [done|]. split; [done|]. right. left. split; [lia|done]. }
  destruct (Z.eqb_spec b1 0x80); [exact Hfail|].
  assert (E7 : Z.land b1 0x7F = b1 - 128).
  { change 0x7F with (Z.ones 7). rewrite Z.land_ones by lia. symmetry. apply (Z.mod_unique _ _ 1); lia. }
  rewrite E7. destruct (Z.gtb_spec (b1 - 128) (size sig)) as [|Hle]; [exact Hfail|].
  destruct sig as [|b2 sig]; [unfold size in Hle; cbn in Hle; lia|]. cbn [head mbind option_bind].
  destruct (b2 =? 0); [exact Hfail|]. destruct (b1 - 128 >? 8); [exact Hfail|].
  destruct (read_len_loop_spec (Z.to_nat (b1 - 128)) 0 (b2 :: sig)) as (v & pre & rest & -> & E & Hv);
    [unfold size in Hle; lia|done|lia|lia|].
  exists v, (b1 :: pre), rest. split; [done|]. split; [by rewrite E|]. destruct Hv; auto.
Qed.

(** ** Reading an integer *)

Lemma skip_zeros_spec n l rest :
  length l = n ->
  exists k m, skip_zeros n (l ++ rest) = Some (length m, m ++ rest) /\ l = repeat 0 k ++ m /\
    match m with [] => True | b :: _ => b <> 0 end.
Proof.
  intros <-. induction l as [|b l IH]; [by exists 0%nat, []|]. cbn [length skip_zeros app head mbind option_bind tail].
  destruct (Z.eqb_spec b 0) as [->|Hn].
  - destruct IH as (k & m & E & -> & Hm). by exists (S k), m.
  - by exists 0%nat, (b :: l).
Qed.

Lemma leading_byte m : Forall is_byte m -> match m with [] => True | b :: _ => b <> 0 end -> m <> [] ->
  256 ^ (size m - 1) <= be_word m.
Proof.
  intros Hb Hh Hn. destruct m as [|b m]; [done|]. inversion Hb as [|? ? Hb0 Hbl]; subst. unfold is_byte in Hb0.
  assert (Hr := be_word_range m Hbl). rewrite be_word_cons, size_cons, Z.add_simpl_l.
  assert (0 < 256 ^ size m) by (apply Z.pow_pos_nonneg; auto; lia). nia.
Qed.

Lemma scalar_zero : scalar_ok (secp256k1_scalar_set_int 0) /\ sval (secp256k1_scalar_set_int 0) = 0.
Proof. split; [split; [unfold limbs_ok, is_word; cbn; lia|done]|done]. Qed.

(** The value of the bytes, zero when it is out of range. *)
Lemma contents_value m :
  Forall is_byte m -> (length m <= 32)%nat ->
  let '(r, overflow) := secp256k1_scalar_set_b32 (memcpy (repeat 0 32) (32 - length m) m) in
  let r := if negb (overflow =? 0) then secp256k1_scalar_set_int 0 else r in
  scalar_ok r /\ sval r = if N <=? be_word m then 0 else be_word m.
Proof.
  intros Hb Hl. assert (E : memcpy (repeat 0 32) (32 - length m) m = repeat 0 (32 - length m) ++ m).
  { unfold memcpy. rewrite drop_ge, app_nil_r by (rewrite repeat_length; lia). f_equal.
    replace (repeat 0 32) with (repeat 0 (32 - length m) ++ repeat 0 (length m)) by (rewrite <- repeat_app; f_equal; lia).
    rewrite take_app_le, take_ge by (rewrite repeat_length; lia). done. }
  rewrite E. destruct (scalar_set_b32_spec (repeat 0 (32 - length m) ++ m)) as (Hok & Hv & Ho).
  { rewrite length_app, repeat_length. lia. }
  { apply Forall_app. split; [|done]. apply Forall_forall. intros x Hx%list_elem_of_In%repeat_spec. by subst. }
  destruct (secp256k1_scalar_set_b32 _) as [r o]. cbn [fst snd] in *. subst o. rewrite be_word_zeros in *.
  assert (Hr := be_word_range m Hb). destruct (Z.leb_spec N (be_word m)); cbn [b2z Z.eqb negb]; [apply scalar_zero|].
  by rewrite Z.mod_small in Hv by lia.
Qed.

Lemma padding_spec b l rest v high :
  Forall is_byte (b :: l) ->
  padding ((b :: l) ++ rest) (size (b :: l)) v high =
  Some (match l with [] => false | c :: _ => (b =? v) && ((if c <? 128 then 0 else 128) =? high) end).
Proof.
  intros Hb. unfold padding. cbn [app lookup list_lookup mbind option_bind]. rewrite size_cons. destruct l as [|c l].
  - cbn. by rewrite !andb_false_r.
  - inversion Hb as [|? ? _ Hb']; subst. inversion Hb' as [|? ? Hc _]; subst. rewrite size_cons.
    destruct (Z.gtb_spec (1 + (1 + size l)) 1); [|assert (H' := size_nonneg l); lia].
    cbn [app lookup list_lookup mbind option_bind]. rewrite top_bit by done. rewrite andb_true_r. by destruct (b =? v).
Qed.

(** Bytes that the test for excessive padding rejects. *)
Definition padded (l : bytes) : bool :=
  match l with
  | b :: c :: _ => ((b =? 0) && (c <? 128)) || ((b =? 255) && negb (c <? 128))
  | _ => false
  end.

Lemma canonical_padded b l : Forall is_byte (b :: l) -> canonical (b :: l) <-> padded (b :: l) = false /\ b < 128.
Proof.
  intros Hb. inversion Hb as [|? ? Hb0 _]; subst. unfold is_byte in Hb0. unfold canonical, padded.
  destruct l as [|c l]; [by intuition|].
  destruct (Z.eqb_spec b 0), (Z.eqb_spec b 255), (Z.ltb_spec c 128); cbn; split; intuition (done || lia).
Qed.

(** Nothing is read but the contents; a scalar other than zero has been read
    from the shortest form of its value. *)
Lemma contents_spec r l rest :
  Forall is_byte l -> l <> [] ->
  exists ok r' pre rest', integer_contents r (size l) (l ++ rest) = Some (ok, r', rest') /\ l ++ rest = pre ++ rest' /\
    (ok = true -> rest' = rest /\ scalar_ok r' /\ (sval r' <> 0 -> canonical l /\ sval r' = be_word l)) /\
    (canonical l -> ok = true /\ sval r' = if N <=? be_word l then 0 else be_word l).
Proof.
  intros Hb Hn. destruct l as [|b l]; [done|]. unfold integer_contents. rewrite !padding_spec by done.
  cbn [mbind option_bind]. assert (Hcan := canonical_padded b l Hb).
  assert (Epad : forall A (x k : A), (if padded (b :: l) then x else k) =
    if match l with [] => false | c :: _ => (b =? 0) && ((if c <? 128 then 0 else 128) =? 0) end then x else
    if match l with [] => false | c :: _ => (b =? 255) && ((if c <? 128 then 0 else 128) =? 128) end then x else k).
  { intros A x k. unfold padded. destruct l as [|c l']; [done|]. by destruct (b =? 0), (b =? 255), (c <? 128). }
  rewrite <- Epad. clear Epad. destruct (padded (b :: l)) eqn:Ep.
  { exists false, r, [], ((b :: l) ++ rest). split_and!; [done|done|done|]. intros [? _]%Hcan. done. }
  cbn [head app mbind option_bind]. change (b :: l ++ rest) with ((b :: l) ++ rest). unfold size. rewrite Nat2Z.id.
  destruct (skip_zeros_spec _ (b :: l) rest eq_refl) as (k & m & -> & El & Hm). cbn [mbind option_bind].
  assert (Hbm : Forall is_byte m) by (rewrite El in Hb; by apply Forall_app in Hb as [_ ?]).
  assert (Em : be_word (b :: l) = be_word m) by (by rewrite El, be_word_zeros).
  assert (Hdrop : drop (length m) (m ++ rest) = rest) by apply drop_app_length.
  assert (Hpre : (b :: l) ++ rest = (b :: l) ++ rest) by done.
  inversion Hb as [|? ? Hb0 _]; subst. rewrite top_bit by done. rewrite Hdrop.
  destruct (Nat.ltb_spec 32 (length m)) as [Hlong|Hshort]; cbn [Z.eqb].
  { exists true, (secp256k1_scalar_set_int 0), (b :: l), rest. destruct scalar_zero as [Hz Ez].
    split_and!; [done|done|by intros _; split_and!|]. intros Hc. split; [done|]. rewrite Em.
    assert (Hbig := leading_byte m Hbm Hm ltac:(destruct m; [cbn in Hlong; lia|done])).
    assert (Hp := Z.pow_le_mono_r 256 32 (size m - 1) ltac:(lia) ltac:(unfold size; lia)).
    destruct (Z.leb_spec N (be_word m)); [done|]. change (256 ^ 32) with (2 ^ 256) in Hp. unfold N in *. lia. }
  destruct (Z.ltb_spec b 128) as [Hlt|Hge]; cbn [Z.eqb b2z].
  2:{ exists true, (secp256k1_scalar_set_int 0), (b :: l), rest. destruct scalar_zero as [Hz Ez].
      split_and!; [done|done|intros _; split_and!; (done || congruence)|]. intros [_ ?]%Hcan. lia. }
  unfold read. rewrite length_app. destruct (Nat.leb_spec (length m) (length m + length rest)); [|lia].
  cbn [mbind option_bind]. rewrite take_app_length. assert (Hv := contents_value m Hbm Hshort).
  destruct (secp256k1_scalar_set_b32 _) as [r' o]. cbv zeta in Hv. destruct Hv as [Hok Hv]. rewrite Em, <- Hv.
  eexists true, _, (b :: l), rest. split; [reflexivity|]. split; [done|]. split; [|done]. intros _.
  split; [done|]. split; [done|]. intros Hnz. split; [by apply Hcan|]. rewrite Hv in Hnz |- *. by destruct (N <=? be_word m).
Qed.

Lemma parse_integer_short r l rest :
  canonical l -> size l < 128 ->
  exists r', secp256k1_der_parse_integer r (0x02 :: size l :: l ++ rest) = Some (true, r', rest) /\ scalar_ok r' /\
    sval r' = if N <=? be_word l then 0 else be_word l.
Proof.
  intros Hc Hs. assert (Hl : l <> []) by (intros ->; by destruct Hc). assert (0 < size l) by (destruct l; [done|rewrite size_cons; assert (H' := size_nonneg l); lia]).
  unfold secp256k1_der_parse_integer. cbn [Z.eqb Pos.eqb negb]. rewrite read_len_short by lia. cbn [mbind option_bind].
  rewrite size_app. destruct (Z.leb_spec (size l) 0); [lia|]. destruct (Z.gtb_spec (size l) (size l + size rest)); [assert (H' := size_nonneg rest); lia|].
  cbn [orb]. destruct (contents_spec r l rest) as (ok & r' & pre & rest' & -> & _ & Hd1 & Hd2); [apply Hc|done|].
  destruct (Hd2 Hc) as [-> Hv]. destruct (Hd1 eq_refl) as (-> & Hok & _). by exists r'.
Qed.

Lemma canonical_short l : canonical l -> be_word l < N -> size l <= 33.
Proof.
  intros Hc Hv. destruct (Z_le_gt_dec (size l) 33) as [|Hgt]; [done|].
  assert (H1 := canonical_above l Hc ltac:(lia)).
  assert (H2 := Z.pow_le_mono_r 256 33 (size l - 1) ltac:(lia) ltac:(lia)). change (256 ^ 33) with (2 ^ 264) in H2.
  unfold N in Hv. lia.
Qed.

Lemma parse_integer_spec r sig :
  Forall is_byte sig -> size sig < 2 ^ 31 ->
  exists ok r' pre rest, secp256k1_der_parse_integer r sig = Some (ok, r', rest) /\ sig = pre ++ rest /\
    (ok = true -> scalar_ok r' /\
      (sval r' <> 0 -> exists l, canonical l /\ be_word l = sval r' /\ pre = 0x02 :: size l :: l)).
Proof.
  intros Hb Hs. destruct sig as [|tag sig]; [by exists false, r, [], []|]. inversion Hb as [|? ? Ht Hbs]; subst.
  rewrite size_cons in Hs. cbn [secp256k1_der_parse_integer]. destruct (Z.eqb_spec tag 0x02) as [->|]; cbn [negb].
  2:{ by exists false, r, [], (tag :: sig). }
  destruct (read_len_spec sig Hbs ltac:(lia)) as (v & pre & sig' & -> & -> & Hv). cbn [mbind option_bind].
  destruct ((v <=? 0) || (v >? size sig')) eqn:Eg; [by exists false, r, (0x02 :: pre), sig'|].
  apply orb_false_iff in Eg as [Hv0%Z.leb_gt Hvs]. destruct (Z.gtb_spec v (size sig')) as [|Hle]; [done|].
  set (l := take (Z.to_nat v) sig'). set (rest := drop (Z.to_nat v) sig').
  assert (El : size l = v) by (unfold size, l in *; rewrite length_take; lia).
  assert (Esig : sig' = l ++ rest) by (symmetry; apply take_drop).
  assert (Hbl : Forall is_byte l) by (apply Forall_app in Hbs as [_ Hbs]; rewrite Esig in Hbs; by apply Forall_app in Hbs as [? _]).
  destruct (contents_spec r l rest Hbl) as (ok & r' & pre' & rest' & E & E' & Hd1 & _).
  { intros En. rewrite En in El. unfold size in El. cbn in El. lia. }
  assert (Ei : integer_contents r v sig' = Some (ok, r', rest')) by (rewrite Esig, <- El; exact E).
  rewrite Ei. exists ok, r', (0x02 :: pre ++ pre'), rest'. split; [done|]. split.
  { rewrite Esig, E'. cbn [app]. by rewrite app_assoc. }
  intros Hok. destruct (Hd1 Hok) as (-> & Hsc & Hd). split; [done|]. intros Hnz. destruct (Hd Hnz) as [Hcan Hval].
  exists l. split; [done|]. split; [done|]. apply app_inv_tail in E' as <-.
  assert (Hsh := canonical_short l Hcan ltac:(rewrite <- Hval; apply Hsc)). rewrite El in *.
  destruct Hv as [?|[[_ ->]|?]]; [lia|done|lia].
Qed.

(** ** Signatures *)

(** The encoding of the pair [(r, s)] of numbers below [2 ^ 256]. *)
Definition der_integer (v : Z) : bytes := let l := strip (0 :: be_bytes 32 v) in 0x02 :: size l :: l.

Definition der_signature (r s : Z) : bytes :=
  0x30 :: size (der_integer r ++ der_integer s) :: der_integer r ++ der_integer s.

Lemma stripped v :
  0 <= v < 2 ^ 256 ->
  canonical (strip (0 :: be_bytes 32 v)) /\ be_word (strip (0 :: be_bytes 32 v)) = v /\ 0 < size (strip (0 :: be_bytes 32 v)) <= 33.
Proof.
  intros Hv.
  destruct (strip_canonical (0 :: be_bytes 32 v)) as (H1 & H2 & H3); [constructor; [done|apply be_bytes_range]|done|].
  split; [done|]. rewrite H2, be_word_cons, be_word_bytes. change (256 ^ Z.of_nat 32) with (2 ^ 256).
  rewrite Z.mod_small by lia. split; [lia|]. cbn [length] in H3. rewrite length_be_bytes in H3.
  destruct (strip _); [by destruct H1|]. unfold size. cbn [length] in *. lia.
Qed.

Lemma der_integer_canonical v :
  0 <= v < 2 ^ 256 -> exists l, der_integer v = 0x02 :: size l :: l /\ canonical l /\ be_word l = v /\ 0 < size l <= 33.
Proof. intros Hv. exists (strip (0 :: be_bytes 32 v)). split; [reflexivity|]. by apply stripped. Qed.

Lemma size_der_integer v : 0 <= v < 2 ^ 256 -> 3 <= size (der_integer v) <= 35.
Proof. intros Hv. destruct (der_integer_canonical v Hv) as (l & -> & _ & _ & Hs). rewrite !size_cons. lia. Qed.

Lemma serialize_spec sig sz ar as_ :
  limbs_ok ar -> limbs_ok as_ -> sz <= size sig ->
  let e := der_signature (sval ar) (sval as_) in
  secp256k1_ecdsa_sig_serialize sig sz ar as_ =
    (negb (sz <? size e), if sz <? size e then sig else e ++ drop (length e) sig, size e).
Proof.
  intros Hr Hs Hz. cbv zeta. unfold secp256k1_ecdsa_sig_serialize. rewrite !scalar_get_b32_spec by done.
  assert (Rr := sval_range ar Hr). assert (Rs := sval_range as_ Hs).
  destruct (stripped (sval ar) Rr) as (_ & _ & Hl). destruct (stripped (sval as_) Rs) as (_ & _ & Hk).
  unfold der_signature, der_integer. set (l := strip (0 :: be_bytes 32 (sval ar))) in *.
  set (k := strip (0 :: be_bytes 32 (sval as_))) in *. clearbody l k.
  assert (Esz : size (0x30 :: size ((2 :: size l :: l) ++ 2 :: size k :: k) :: (2 :: size l :: l) ++ 2 :: size k :: k) = 6 + size k + size l)
    by (rewrite !size_cons, size_app, !size_cons; lia).
  rewrite Esz. destruct (Z.ltb_spec sz (6 + size k + size l)) as [|Hge]; [done|]. cbn [negb].
  assert (Elen : (6 + length k + length l <= length sig)%nat) by (unfold size in *; lia).
  rewrite !(wrap_small 8) by (cbn; lia).
  set (n := 4 + size k + size l).
  rewrite (memcpy_after [] 0 sig sig) by (done || lia).
  rewrite (memcpy_after [0x30] 1 _ sig) by (reflexivity || lia).
  rewrite (memcpy_after [0x30; n] 2 _ sig) by (reflexivity || lia).
  rewrite (memcpy_after [0x30; n; 0x02] 3 _ sig) by (reflexivity || lia).
  rewrite (memcpy_after [0x30; n; 0x02; size l] 4 _ sig) by (reflexivity || lia).
  rewrite (memcpy_after ([0x30; n; 0x02; size l] ++ l) (4 + length l) _ sig) by (reflexivity || lia).
  rewrite (memcpy_after (([0x30; n; 0x02; size l] ++ l) ++ [0x02]) (5 + length l) _ sig)
    by (reflexivity || (rewrite ?length_app; cbn; lia)).
  rewrite (memcpy_after ((([0x30; n; 0x02; size l] ++ l) ++ [0x02]) ++ [size k]) (length l + 6) _ sig)
    by (reflexivity || (rewrite ?length_app; cbn; lia)).
  assert (E2 : size ((2 :: size l :: l) ++ 2 :: size k :: k) = 4 + size k + size l) by (rewrite size_app, !size_cons; lia).
  fold n in E2. rewrite E2. cbn [app]. rewrite <- !app_assoc. cbn [app]. done.
Qed.

(** The whole input is the sequence; a pair without zeros comes from its own
    encoding only. *)
Lemma sig_parse_spec rr rs sig :
  Forall is_byte sig -> size sig < 2 ^ 31 ->
  exists ok r s, secp256k1_ecdsa_sig_parse rr rs sig = Some (ok, r, s) /\
    (ok = true -> scalar_ok r /\ scalar_ok s /\ (sval r <> 0 -> sval s <> 0 -> sig = der_signature (sval r) (sval s))).
Proof.
  intros Hb Hs. destruct sig as [|tag sig]; [by exists false, rr, rs|]. inversion Hb as [|? ? Ht Hbs]; subst.
  rewrite size_cons in Hs. cbn [secp256k1_ecdsa_sig_parse]. destruct (Z.eqb_spec tag 0x30) as [->|]; cbn [negb]; [|by exists false, rr, rs].
  destruct (read_len_spec sig Hbs ltac:(lia)) as (v & pre & sig' & -> & -> & Hv). cbn [mbind option_bind].
  destruct ((v <? 0) || _); [by exists false, rr, rs|]. destruct (Z.eqb_spec v (size sig')) as [->|]; cbn [negb]; [|by exists false, rr, rs].
  apply Forall_app in Hbs as [_ Hbs']. rewrite size_app in Hs. assert (Hpos := size_nonneg pre).
  destruct (parse_integer_spec rr sig' Hbs' ltac:(lia)) as (ok1 & r & p1 & sig1 & -> & -> & H1). cbn [mbind option_bind].
  destruct ok1; cbn [negb]; [|by exists false, r, rs]. apply Forall_app in Hbs' as [_ Hbs1]. rewrite size_app in Hs.
  assert (Hpos1 := size_nonneg p1).
  destruct (parse_integer_spec rs sig1 Hbs1 ltac:(lia)) as (ok2 & s & p2 & sig2 & -> & -> & H2). cbn [mbind option_bind].
  destruct ok2; cbn [negb]; [|by exists false, r, s]. destruct (H1 eq_refl) as [Hr Cr]. destruct (H2 eq_refl) as [Hs' Cs].
  eexists _, r, s. split; [reflexivity|]. destruct sig2; [|done]. intros _. split; [done|]. split; [done|]. intros Hnr Hns.
  destruct (Cr Hnr) as (l & Cl & Vl & ->). destruct (Cs Hns) as (k & Ck & Vk & ->). rewrite app_nil_r in *.
  assert (El : der_integer (sval r) = 0x02 :: size l :: l).
  { destruct (der_integer_canonical (sval r)) as (l' & -> & Cl' & Vl' & _); [apply sval_range, Hr|].
    by rewrite (canonical_inj l' l) by (done || by rewrite Vl). }
  assert (Ek : der_integer (sval s) = 0x02 :: size k :: k).
  { destruct (der_integer_canonical (sval s)) as (k' & -> & Ck' & Vk' & _); [apply sval_range, Hs'|].
    by rewrite (canonical_inj k' k) by (done || by rewrite Vk). }
  unfold der_signature. rewrite El, Ek.
  assert (Hl := canonical_short l Cl ltac:(rewrite Vl; apply Hr)). assert (Hk := canonical_short k Ck ltac:(rewrite Vk; apply Hs')).
  destruct Hv as [Hm|[[_ ->]|Hbig]]; [assert (Hp := size_nonneg ((0x02 :: size l :: l) ++ 0x02 :: size k :: k)); lia|reflexivity|].
  rewrite size_app, !size_cons in Hbig. lia.
Qed.

Lemma sig_parse_der rr rs r s :
  scalar_ok r -> scalar_ok s -> secp256k1_ecdsa_sig_parse rr rs (der_signature (sval r) (sval s)) = Some (true, r, s).
Proof.
  intros Hr Hs. assert (Rr := sval_range r (proj1 Hr)). assert (Rs := sval_range s (proj1 Hs)).
  assert (Sr := size_der_integer _ Rr). assert (Ss := size_der_integer _ Rs).
  unfold der_signature, secp256k1_ecdsa_sig_parse. cbn [Z.eqb Pos.eqb negb].
  rewrite read_len_short by (rewrite size_app; lia). cbn [mbind option_bind].
  set (n := size _). assert (0 <= n) by apply size_nonneg. destruct (Z.ltb_spec n 0); [lia|].
  destruct (Z.gtb_spec n n); [lia|]. cbn [orb]. rewrite Z.eqb_refl. cbn [negb].
  destruct (der_integer_canonical (sval r) Rr) as (l & -> & Cl & Vl & Hl).
  destruct (der_integer_canonical (sval s) Rs) as (k & -> & Ck & Vk & Hk). cbn [app].
  destruct (parse_integer_short rr l (0x02 :: size k :: k) Cl ltac:(lia)) as (r' & -> & Or & Vr). cbn [mbind option_bind negb].
  rewrite <- (app_nil_r k) at 2. destruct (parse_integer_short rs k [] Ck ltac:(lia)) as (s' & -> & Os & Vs). cbn [mbind option_bind negb].
  rewrite Vl in Vr. rewrite Vk in Vs. destruct (Z.leb_spec N (sval r)); [destruct Hr; lia|].
  destruct (Z.leb_spec N (sval s)); [destruct Hs; lia|].
  by rewrite (sval_inj r' r), (sval_inj s' s) by (apply Or || apply Hr || apply Os || apply Hs || done).
Qed.

(** ** Properties *)

(** C22: A pair of scalars is serialised into a buffer exactly when the buffer
    has room for the 8 to 72 bytes it takes; the number of bytes is reported in
    either case, nothing is written on failure or behind the encoding, and the
    parser reads the same pair back from the bytes written. *)
Theorem der_roundtrip (sig : bytes) (sz : Z) (r s rr rs : secp256k1_scalar) :
  scalar_ok r -> scalar_ok s -> 0 <= sz <= size sig ->
  let '(ok, out, n) := secp256k1_ecdsa_sig_serialize sig sz r s in
  8 <= n <= 72 /\ ok = (n <=? sz) /\
  (ok = true -> secp256k1_ecdsa_sig_parse rr rs (take (Z.to_nat n) out) = Some (true, r, s) /\
    drop (Z.to_nat n) out = drop (Z.to_nat n) sig) /\
  (ok = false -> out = sig).
Proof.
  intros Hr Hs Hz. rewrite serialize_spec by (apply Hr || apply Hs || lia). set (e := der_signature _ _).
  assert (He : 8 <= size e <= 72).
  { assert (Sr := size_der_integer _ (sval_range r (proj1 Hr))). assert (Ss := size_der_integer _ (sval_range s (proj1 Hs))).
    unfold e, der_signature. rewrite !size_cons, size_app. lia. }
  split; [done|]. split; [by rewrite Z.leb_antisym|]. destruct (Z.ltb_spec sz (size e)) as [|Hge]; cbn [negb]; [done|].
  split; [|done]. intros _. unfold size at 1 2 3. rewrite Nat2Z.id, take_app_length, drop_app_length.
  split; [by apply sig_parse_der|done].
Qed.

Lemma der_roundtrip_witness :
  secp256k1_ecdsa_sig_parse minus_one minus_one (take 40 (snd (fst
    (secp256k1_ecdsa_sig_serialize (repeat 0 72) 72 minus_one (secp256k1_scalar_set_int 0))))) <> None /\
  snd (secp256k1_ecdsa_sig_serialize (repeat 0 72) 72 minus_one (secp256k1_scalar_set_int 0)) = 40.
Proof.
  assert (H := der_roundtrip (repeat 0 72) 72 minus_one (secp256k1_scalar_set_int 0) minus_one minus_one
    minus_one_ok (proj1 scalar_zero) ltac:(vm_compute; intuition congruence)).
  assert (E : snd (secp256k1_ecdsa_sig_serialize (repeat 0 72) 72 minus_one (secp256k1_scalar_set_int 0)) = 40)
    by (vm_compute; reflexivity).
  split; [|exact E]. destruct (secp256k1_ecdsa_sig_serialize _ _ _ _) as [[ok out] n]. cbn [fst snd] in *. subst n.
  destruct H as (_ & Hok & H & _). destruct (H Hok) as [H' _]. change (Z.to_nat 40) with 40%nat in H'. rewrite H'. discriminate.
Defined.

(** C16: The parser never reads past its input, accepts nothing but whole inputs
    and yields valid scalars; a pair without a zero is accepted from one string
    of bytes only, the one the serialiser writes, so an encoded signature
    cannot be rewritten into another encoding of the same signature. *)
Theorem der_strict (sig : bytes) (rr rs : secp256k1_scalar) :
  Forall is_byte sig -> size sig < 2 ^ 31 ->
  exists ok r s, secp256k1_ecdsa_sig_parse rr rs sig = Some (ok, r, s) /\
    (ok = true -> scalar_ok r /\ scalar_ok s /\
      (sval r <> 0 -> sval s <> 0 -> forall buf, 72 <= size buf ->
        secp256k1_ecdsa_sig_serialize buf (size buf) r s = (true, sig ++ drop (length sig) buf, size sig))).
Proof.
  intros Hb Hs. destruct (sig_parse_spec rr rs sig Hb Hs) as (ok & r & s & E & H). exists ok, r, s. split; [done|].
  intros Hok. destruct (H Hok) as (Hr & Hs' & Hd). split; [done|]. split; [done|]. intros Hnr Hns buf Hbuf.
  rewrite (Hd Hnr Hns). rewrite serialize_spec by (apply Hr || apply Hs' || lia). cbv zeta.
  assert (Sr := size_der_integer _ (sval_range r (proj1 Hr))). assert (Ss := size_der_integer _ (sval_range s (proj1 Hs'))).
  destruct (Z.ltb_spec (size buf) (size (der_signature (sval r) (sval s)))) as [Hlt|]; [|done].
  unfold der_signature in Hlt. rewrite !size_cons, size_app in Hlt. lia.
Qed.

Lemma der_strict_witness :
  exists ok r s, secp256k1_ecdsa_sig_parse minus_one minus_one [0x30; 6; 2; 1; 5; 2; 1; 7] = Some (ok, r, s) /\ ok = true /\ sval s = 7.
Proof.
  destruct (der_strict [0x30; 6; 2; 1; 5; 2; 1; 7] minus_one minus_one) as (ok & r & s & E & _);
    [repeat constructor; (vm_compute; congruence)|reflexivity|].
  exists ok, r, s. split; [exact E|]. vm_compute in E. injection E as <- <- <-. split; reflexivity.
Defined.

End Der.
