(* ===== verification/Eckey.v ===== *)
(** * Keys (libsecp256k1/src/eckey_impl.h)

    Public keys as bytes, compressed or not, and the tweaking of keys. The
    model comes first; then the encodings of a point and what the functions do
    with them. *)

From Stdlib Require Import ZArith Lia List Zmod.
From stdpp Require Import base option list.
From S2P Require Import Prelude Words Field FieldFacts FieldOps FieldExp Scalar ScalarFacts ScalarOps.
From S2P Require Import Curve CurveFacts GroupLaw GroupAssoc PointMul PointOrder.
From S2P Require Import Group GroupFacts GroupOps Points PointConv Ecmult EcmultFacts DoubleMul EcdsaFacts.
Local Open Scope Z_scope.

Module Eckey.
Import Field FieldFacts FieldOps FieldExp Scalar ScalarFacts ScalarOps.
Import Curve CurveFacts GroupLaw GroupAssoc PointMul PointOrder.
Import Group GroupFacts GroupOps Points PointConv Ecmult EcmultFacts DoubleMul EcdsaFacts.

(** ** The code *)

(** [&pub[i]], 32 bytes from there. *)
Definition b32_at (pub : bytes) (i : nat) : bytes := take 32 (drop i pub).

(** [pub[0]]; the size has been tested before. *)
Definition first (pub : bytes) : Z := default 0 (head pub).

(** The result and the point left in [elem]. *)
Definition secp256k1_eckey_pubkey_parse (elem : secp256k1_ge) (pub : bytes) (size : Z) : bool * secp256k1_ge :=
  if (size =? 33) && ((first pub =? 0x02) || (first pub =? 0x03)) then
    let '(x, ok) := secp256k1_fe_set_b32 (b32_at pub 1) in
    if ok =? 0 then (false, elem)
    else let '(r, ok) := secp256k1_ge_set_xo_var x (b2z (first pub =? 0x03)) in (ok, r)
  else if (size =? 65) && ((first pub =? 0x04) || (first pub =? 0x06) || (first pub =? 0x07)) then
    let '(x, okx) := secp256k1_fe_set_b32 (b32_at pub 1) in
    if okx =? 0 then (false, elem)
    else
      let '(y, oky) := secp256k1_fe_set_b32 (b32_at pub 33) in
      if oky =? 0 then (false, elem)
      else
        let elem := secp256k1_ge_set_xy x y in
        if ((first pub =? 0x06) || (first pub =? 0x07)) && negb (secp256k1_fe_is_odd y =? b2z (first pub =? 0x07))
        then (false, elem)
        else (secp256k1_ge_is_valid_var elem, elem)
  else (false, elem).

(** The result, the normalised point, the buffer and the size. *)
Definition secp256k1_eckey_pubkey_serialize (elem : secp256k1_ge) (pub : bytes) (size : Z) (compressed : Z)
    : bool * secp256k1_ge * bytes * Z :=
  if negb (secp256k1_ge_is_infinity elem =? 0) then (false, elem, pub, size)
  else
    let elem := mkGe (secp256k1_fe_normalize_var (gx elem)) (secp256k1_fe_normalize_var (gy elem)) (ge_infinity elem) in
    let pub := memcpy pub 1 (secp256k1_fe_get_b32 (gx elem)) in
    if negb (compressed =? 0) then
      let pub := memcpy pub 0 [Z.lor 0x02 (if negb (secp256k1_fe_is_odd (gy elem) =? 0) then 0x01 else 0x00)] in
      (true, elem, pub, 33)
    else
      let pub := memcpy pub 0 [0x04] in
      let pub := memcpy pub 33 (secp256k1_fe_get_b32 (gy elem)) in
      (true, elem, pub, 65).

(** The result and the key. *)
Definition secp256k1_eckey_privkey_tweak_add (key tweak : secp256k1_scalar) : bool * secp256k1_scalar :=
  let key := fst (secp256k1_scalar_add key tweak) in
  if secp256k1_scalar_is_zero key then (false, key) else (true, key).

Definition secp256k1_eckey_pubkey_tweak_add (ctx : secp256k1_ecmult_context) (key : secp256k1_ge)
    (tweak : secp256k1_scalar) : option (bool * secp256k1_ge) :=
  let pt := secp256k1_gej_set_ge key in
  let one := secp256k1_scalar_set_int 1 in
  pt ← secp256k1_ecmult ctx pt one tweak;
  if negb (secp256k1_gej_is_infinity pt =? 0) then Some (false, key)
  else Some (true, fst (secp256k1_ge_set_gej pt)).

Definition secp256k1_eckey_privkey_tweak_mul (key tweak : secp256k1_scalar) : bool * secp256k1_scalar :=
  if secp256k1_scalar_is_zero tweak then (false, key)
  else (true, secp256k1_scalar_mul key tweak).

Definition secp256k1_eckey_pubkey_tweak_mul (ctx : secp256k1_ecmult_context) (key : secp256k1_ge)
    (tweak : secp256k1_scalar) : option (bool * secp256k1_ge) :=
  if secp256k1_scalar_is_zero tweak then Some (false, key)
  else
    let zero := secp256k1_scalar_set_int 0 in
    let pt := secp256k1_gej_set_ge key in
    pt ← secp256k1_ecmult ctx pt tweak zero;
    Some (true, fst (secp256k1_ge_set_gej pt)).

(** ** Encodings *)

Inductive format := Compressed | Uncompressed | Hybrid.

Definition parity (y : F) : Z := Zmod.to_Z y mod 2.

(** SEC 1, section 2.3.3, and the hybrid form. *)
Definition encode (f : format) (p : point) : bytes :=
  match p with
  | Infinity => []
  | Affine x y =>
      match f with
      | Compressed => 2 + parity y :: be_bytes 32 (Zmod.to_Z x)
      | Uncompressed => 4 :: be_bytes 32 (Zmod.to_Z x) ++ be_bytes 32 (Zmod.to_Z y)
      | Hybrid => 6 + parity y :: be_bytes 32 (Zmod.to_Z x) ++ be_bytes 32 (Zmod.to_Z y)
      end
  end.

(** [l] is an encoding of the point [p] of the curve. *)
Definition encodes (l : bytes) (p : point) : Prop := p <> Infinity /\ on_curve p /\ exists f, l = encode f p.

Lemma word_field (x : F) : be_word (be_bytes 32 (Zmod.to_Z x)) = Zmod.to_Z x.
Proof.
  assert (Hx := to_Z_bound x). rewrite be_word_bytes, Z.mod_small; [done|].
  change (256 ^ Z.of_nat 32) with (2 ^ 256). assert (P < 2 ^ 256) by done. lia.
Qed.

Lemma set_b32_exact l :
  Forall is_byte l -> length l = 32%nat ->
  exists a, secp256k1_fe_set_b32 l = (a, b2z (be_word l <? P)) /\
    (be_word l < P -> exact (fe (be_word l)) a /\ l = be_bytes 32 (Zmod.to_Z (fe (be_word l)))).
Proof.
  intros Hb Hl. exists (fe_of (be_word l)). split; [by apply set_b32_spec|]. intros HP.
  assert (Hr := be_word_range l Hb). rewrite Hl in Hr. change (256 ^ Z.of_nat 32) with (2 ^ 256) in Hr.
  destruct (fe_of_val (be_word l) Hr) as [Ev Hn]. unfold exact. rewrite to_Z_fe, Z.mod_small by lia.
  split; [split; [auto|done]|]. rewrite <- Hl. symmetry. by apply be_bytes_word.
Qed.

Lemma b32_of_encoding (x : F) l1 l2 :
  l1 = be_bytes 32 (Zmod.to_Z x) ++ l2 -> take 32 l1 = be_bytes 32 (Zmod.to_Z x) /\ drop 32 l1 = l2.
Proof.
  intros ->. assert (E := length_be_bytes 32 (Zmod.to_Z x)). rewrite <- E at 1 4. by rewrite take_app_length, drop_app_length.
Qed.

Lemma cons_inv (a b : Z) (l k : bytes) : a :: l = b :: k -> a = b /\ l = k.
Proof. intros E. by injection E. Qed.

Lemma encodes_short b l p :
  length l = 32%nat ->
  encodes (b :: l) p <-> exists x y, p = Affine x y /\ curve x y /\ b = 2 + parity y /\ l = be_bytes 32 (Zmod.to_Z x).
Proof.
  intros Hl. split.
  - intros (Hn & Hc & f & E). destruct p as [|x y]; [done|]. exists x, y. split; [done|]. split; [done|].
    destruct f; cbn [encode] in E; apply cons_inv in E as [Eb El]; [done| |];
      rewrite El, length_app, !length_be_bytes in Hl; discriminate Hl.
  - intros (x & y & -> & Hc & -> & ->). split; [done|]. split; [done|]. by exists Compressed.
Qed.

Lemma encodes_long b l p :
  length l = 64%nat ->
  encodes (b :: l) p <-> exists x y, p = Affine x y /\ curve x y /\ (b = 4 \/ b = 6 + parity y) /\
    take 32 l = be_bytes 32 (Zmod.to_Z x) /\ drop 32 l = be_bytes 32 (Zmod.to_Z y).
Proof.
  intros Hl. split.
  - intros (Hn & Hc & f & E). destruct p as [|x y]; [done|]. exists x, y. split; [done|]. split; [done|].
    destruct f; cbn [encode] in E; apply cons_inv in E as [Eb El]; [rewrite El, length_be_bytes in Hl; discriminate Hl| |];
      destruct (b32_of_encoding x l _ El) as [E1 E2]; auto.
  - intros (x & y & -> & Hc & Hb & E1 & E2). split; [done|]. split; [done|]. rewrite <- (take_drop 32 l), E1, E2.
    destruct Hb as [->| ->]; [by exists Uncompressed|by exists Hybrid].
Qed.

Lemma encodes_length l p : encodes l p -> exists b l', l = b :: l' /\ (length l' = 32%nat \/ length l' = 64%nat).
Proof.
  intros (Hn & _ & f & ->). destruct p as [|x y]; [done|]. destruct f; cbn [encode]; eexists _, _; (split; [reflexivity|]);
    rewrite ?length_app, !length_be_bytes; auto.
Qed.

Lemma parity_cases y : parity y = 0 \/ parity y = 1.
Proof. apply mod2_cases. Qed.

(** A string of bytes encodes at most one point. *)
Lemma encodes_inj l p q : encodes l p -> encodes l q -> p = q.
Proof.
  intros Hp Hq. destruct (encodes_length l p Hp) as (b & l' & -> & [Hl|Hl]).
  - apply encodes_short in Hp as (x & y & -> & Hy & Eb & El); [|done].
    apply encodes_short in Hq as (x' & y' & -> & Hy' & Eb' & El'); [|done].
    assert (Ex : Zmod.to_Z x = Zmod.to_Z x') by (rewrite <- (word_field x), <- (word_field x'); congruence).
    assert (x = x') as <- by (rewrite <- (fe_to_Z x), <- (fe_to_Z x'); by rewrite Ex).
    rewrite (root_by_parity x y y') by (done || unfold parity in *; lia). done.
  - apply encodes_long in Hp as (x & y & -> & _ & _ & Ex & Ey); [|done].
    apply encodes_long in Hq as (x' & y' & -> & _ & _ & Ex' & Ey'); [|done].
    assert (Zmod.to_Z x = Zmod.to_Z x') as E1 by (rewrite <- (word_field x), <- (word_field x'); congruence).
    assert (Zmod.to_Z y = Zmod.to_Z y') as E2 by (rewrite <- (word_field y), <- (word_field y'); congruence).
    by rewrite <- (fe_to_Z x), <- (fe_to_Z x'), <- (fe_to_Z y), <- (fe_to_Z y'), E1, E2.
Qed.

(** ** Parsing *)

(** A point that has been read, or that no point is encoded. *)
Definition reads (pub : bytes) (res : bool * secp256k1_ge) : Prop :=
  (fst res = true -> exists p, represents_ge (snd res) p /\ encodes pub p) /\
  (fst res = false -> forall p, ~ encodes pub p).

Lemma reads_nothing pub e : (forall p, ~ encodes pub p) -> reads pub (false, e).
Proof. intros H. split; [done|]. intros _. exact H. Qed.

Lemma out_of_range (x : F) l : l = be_bytes 32 (Zmod.to_Z x) -> be_word l < P.
Proof. intros ->. rewrite word_field. apply to_Z_bound. Qed.

Lemma parse_short elem b l :
  Forall is_byte l -> length l = 32%nat -> reads (b :: l) (secp256k1_eckey_pubkey_parse elem (b :: l) 33).
Proof.
  intros Hb Hl. unfold secp256k1_eckey_pubkey_parse, b32_at. change (first (b :: l)) with b. cbn [Z.eqb Pos.eqb andb].
  change (drop 1 (b :: l)) with l. rewrite take_ge by lia. destruct ((b =? 2) || (b =? 3)) eqn:Eb.
  2:{ apply reads_nothing. intros p (x & y & _ & _ & -> & _)%encodes_short; [|done].
      by destruct (parity_cases y) as [E|E]; rewrite E in Eb. }
  destruct (set_b32_exact l Hb Hl) as (a & -> & Ha). destruct (Z.ltb_spec (be_word l) P) as [HP|HP]; cbn [b2z Z.eqb].
  2:{ apply reads_nothing. intros p (x & y & _ & _ & _ & El)%encodes_short; [|done]. apply out_of_range in El. lia. }
  destruct (Ha HP) as [Hx El]. set (x := fe (be_word l)) in *. clearbody x. apply exact_has in Hx.
  assert (Ho : b2z (b =? 3) = 0 \/ b2z (b =? 3) = 1) by (destruct (b =? 3); auto).
  assert (H := set_xo_spec a 1 x _ Hx ltac:(lia) Ho). destruct (secp256k1_ge_set_xo_var a _) as [r ok]. destruct H as [Ht Hf].
  assert (Eb2 : b = 2 + b2z (b =? 3)) by (destruct (Z.eqb_spec b 2), (Z.eqb_spec b 3); subst; done).
  split; cbn [fst snd]; intros Hok.
  - destruct (Ht Hok) as (y & Hy & Hpar & _ & Hr). exists (Affine x y). split; [done|]. apply encodes_short; [done|].
    exists x, y. split; [done|]. split; [done|]. unfold parity. by rewrite Hpar.
  - intros p (x' & y & _ & Hy & _ & El')%encodes_short; [|done]. apply (Hf Hok y).
    assert (Ex : Zmod.to_Z x = Zmod.to_Z x') by (rewrite <- (word_field x), <- (word_field x'); congruence).
    by rewrite <- (fe_to_Z x), Ex, fe_to_Z.
Qed.

Lemma parse_long elem b l :
  Forall is_byte l -> length l = 64%nat -> reads (b :: l) (secp256k1_eckey_pubkey_parse elem (b :: l) 65).
Proof.
  intros Hb Hl. unfold secp256k1_eckey_pubkey_parse, b32_at. change (first (b :: l)) with b. cbn [Z.eqb Pos.eqb andb].
  change (drop 1 (b :: l)) with l. change (drop 33 (b :: l)) with (drop 32 l). rewrite (take_ge (drop 32 l)) by (rewrite length_drop; lia).
  destruct ((b =? 4) || (b =? 6) || (b =? 7)) eqn:Eb.
  2:{ apply reads_nothing. intros p (x & y & _ & _ & [->| ->] & _)%encodes_long; [done| |done].
      by destruct (parity_cases y) as [E|E]; rewrite E in Eb. }
  assert (Hbx : Forall is_byte (take 32 l)) by (by apply Forall_take).
  assert (Hby : Forall is_byte (drop 32 l)) by (by apply Forall_drop).
  destruct (set_b32_exact (take 32 l) Hbx) as (a & -> & Ha); [rewrite length_take; lia|].
  destruct (set_b32_exact (drop 32 l) Hby) as (c & -> & Hc); [rewrite length_drop; lia|].
  destruct (Z.ltb_spec (be_word (take 32 l)) P) as [HPx|HPx]; cbn [b2z Z.eqb].
  2:{ apply reads_nothing. intros p (x & y & _ & _ & _ & El & _)%encodes_long; [|done]. apply out_of_range in El. lia. }
  destruct (Z.ltb_spec (be_word (drop 32 l)) P) as [HPy|HPy]; cbn [b2z Z.eqb].
  2:{ apply reads_nothing. intros p (x & y & _ & _ & _ & _ & El)%encodes_long; [|done]. apply out_of_range in El. lia. }
  destruct (Ha HPx) as [Hx Ex]. destruct (Hc HPy) as [Hy Ey]. rewrite (exact_odd _ _ Hy).
  set (x := fe (be_word (take 32 l))) in *. set (y := fe (be_word (drop 32 l))) in *. clearbody x y.
  assert (Hin : forall p, encodes (b :: l) p <-> p = Affine x y /\ curve x y /\ (b = 4 \/ b = 6 + parity y)).
  { intros p. rewrite encodes_long by done. split.
    - intros (x' & y' & -> & Hxy & Hb' & Ex' & Ey').
      assert (E1 : Zmod.to_Z x = Zmod.to_Z x') by (rewrite <- (word_field x), <- (word_field x'); congruence).
      assert (E2 : Zmod.to_Z y = Zmod.to_Z y') by (rewrite <- (word_field y), <- (word_field y'); congruence).
      assert (x = x') as -> by (by rewrite <- (fe_to_Z x), E1, fe_to_Z).
      assert (y = y') as -> by (by rewrite <- (fe_to_Z y), E2, fe_to_Z). done.
    - intros (-> & Hxy & Hb'). by exists x, y. }
  fold (parity y). assert (Hpar : (((b =? 6) || (b =? 7)) && negb (parity y =? b2z (b =? 7))) = negb (bool_decide (b = 4 \/ b = 6 + parity y))).
  { assert (Hbc : b = 4 \/ b = 6 \/ b = 7) by (revert Eb; destruct (Z.eqb_spec b 4), (Z.eqb_spec b 6), (Z.eqb_spec b 7); auto; discriminate).
    destruct Hbc as [->|[->| ->]]; destruct (parity_cases y) as [-> | ->]; reflexivity. }
  rewrite Hpar. case_bool_decide as Hb'; cbn [negb].
  2:{ apply reads_nothing. intros p (_ & _ & ?)%Hin. done. }
  rewrite (ge_is_valid_spec _ x y 1) by (apply (exact_has _ _ Hx) || apply (exact_has _ _ Hy) || lia || done).
  split; cbn [fst snd].
  - intros Hxy%bool_decide_eq_true. exists (Affine x y). split; [|by apply Hin].
    split; [done|]. split; (eapply has_mono; [apply exact_has; eassumption|lia]).
  - intros Hxy%bool_decide_eq_false p (_ & ? & _)%Hin. done.
Qed.

Lemma parse_spec elem pub :
  Forall is_byte pub -> reads pub (secp256k1_eckey_pubkey_parse elem pub (Z.of_nat (length pub))).
Proof.
  intros Hb. destruct (decide (length pub = 33%nat)) as [E|N33]; [|destruct (decide (length pub = 65%nat)) as [E|N65]].
  - rewrite E. destruct pub as [|b l]; [done|]. inversion Hb; subst. apply parse_short; [done|]. cbn in E. lia.
  - rewrite E. destruct pub as [|b l]; [done|]. inversion Hb; subst. apply parse_long; [done|]. cbn in E. lia.
  - unfold secp256k1_eckey_pubkey_parse. destruct (Z.eqb_spec (Z.of_nat (length pub)) 33); [lia|].
    destruct (Z.eqb_spec (Z.of_nat (length pub)) 65); [lia|]. cbn [andb]. apply reads_nothing.
    intros p (b & l & -> & [Hl|Hl])%encodes_length; cbn [length] in *; lia.
Qed.

(** ** Serialising *)

Lemma header_written pub X b :
  (1 + length X <= length pub)%nat -> memcpy (memcpy pub 1 X) 0 [b] = (b :: X) ++ drop (length (b :: X)) pub.
Proof. intros Hl. destruct pub as [|c pub]; [cbn in Hl; lia|]. unfold memcpy. cbn. rewrite drop_0. done. Qed.

Definition chosen (compressed : Z) : format := if compressed =? 0 then Uncompressed else Compressed.

Lemma serialize_key_spec elem p pub sz compressed :
  represents_ge elem p -> p <> Infinity -> (length (encode (chosen compressed) p) <= length pub)%nat ->
  let e := encode (chosen compressed) p in
  exists elem', secp256k1_eckey_pubkey_serialize elem pub sz compressed =
      (true, elem', e ++ drop (length e) pub, Z.of_nat (length e)) /\ represents_ge elem' p.
Proof.
  intros He Hp Hl. destruct p as [|x y]; [done|]. destruct He as (Hi & Hx & Hy). cbv zeta.
  apply (normalize_var_exact 8) in Hx, Hy; [|lia..].
  exists (mkGe (secp256k1_fe_normalize_var (gx elem)) (secp256k1_fe_normalize_var (gy elem)) (ge_infinity elem)).
  split; [|split; [done|]; split; (eapply has_mono; [apply exact_has; eassumption|lia])].
  unfold secp256k1_eckey_pubkey_serialize, secp256k1_ge_is_infinity. rewrite Hi. cbn [Z.eqb negb gx gy].
  rewrite (get_b32_spec _ (proj1 Hx)), (get_b32_spec _ (proj1 Hy)), (proj2 Hx), (proj2 Hy), (exact_odd _ _ Hy).
  set (X := be_bytes 32 (Zmod.to_Z x)) in *. set (Y := be_bytes 32 (Zmod.to_Z y)) in *.
  assert (LX : length X = 32%nat) by apply length_be_bytes. assert (LY : length Y = 32%nat) by apply length_be_bytes.
  unfold chosen in *. destruct (Z.eqb_spec compressed 0) as [->|Hc]; cbn [negb encode] in *; fold X Y in Hl |- *.
  - cbn [length] in Hl. rewrite length_app in Hl. rewrite header_written by lia.
    rewrite (memcpy_after (4 :: X) 33 _ pub) by (done || cbn [length]; lia).
    cbn [app length]. rewrite length_app, LX, LY. done.
  - cbn [length] in Hl. rewrite header_written by lia. cbn [length]. rewrite LX. fold (parity y).
    by destruct (parity_cases y) as [-> | ->].
Qed.

(** ** Tweaking *)

Lemma privkey_tweak_add_spec key tweak :
  scalar_ok key -> scalar_ok tweak ->
  let '(ok, key') := secp256k1_eckey_privkey_tweak_add key tweak in
  scalar_ok key' /\ sval key' = (sval key + sval tweak) mod N /\ ok = negb (sval key' =? 0).
Proof.
  intros Hk Ht. unfold secp256k1_eckey_privkey_tweak_add. destruct (scalar_add_spec key tweak Hk Ht) as (Ho & Hv & _).
  rewrite scalar_is_zero_spec by apply Ho. by destruct (sval (fst (secp256k1_scalar_add key tweak)) =? 0) eqn:E; rewrite E.
Qed.

Lemma privkey_tweak_mul_spec key tweak :
  scalar_ok key -> scalar_ok tweak -> sval tweak <> 0 ->
  let '(ok, key') := secp256k1_eckey_privkey_tweak_mul key tweak in
  ok = true /\ scalar_ok key' /\ sval key' = (sval key * sval tweak) mod N.
Proof.
  intros Hk Ht Hn. unfold secp256k1_eckey_privkey_tweak_mul. rewrite scalar_is_zero_spec by apply Ht.
  destruct (Z.eqb_spec (sval tweak) 0); [done|]. split; [done|]. apply scalar_mul_spec; [apply Hk|apply Ht].
Qed.

Lemma scalar_int_ok v : v = 0 \/ v = 1 -> scalar_ok (secp256k1_scalar_set_int v) /\ sval (secp256k1_scalar_set_int v) = v.
Proof. intros [-> | ->]; (split; [split; [unfold limbs_ok, is_word; cbn; lia|done]|done]). Qed.

Section Tweak.
Context (ctx : secp256k1_ecmult_context) (key : secp256k1_ge) (p : point) (tweak : secp256k1_scalar).
Hypothesis Hctx : good_context ctx.
Hypothesis Hkey : represents_ge key p.
Hypothesis Hcurve : on_curve p.
Hypothesis Hfinite : p <> Infinity.
Hypothesis Htweak : scalar_ok tweak.

Lemma pubkey_tweak_add_spec :
  exists ok key', secp256k1_eckey_pubkey_tweak_add ctx key tweak = Some (ok, key') /\
    let q := add p (smul (sval tweak) G) in
    ok = negb (bool_decide (q = Infinity)) /\ (ok = true -> represents_ge key' q).
Proof using All.
  unfold secp256k1_eckey_pubkey_tweak_add. destruct (scalar_int_ok 1 (or_intror eq_refl)) as [H1 V1].
  destruct (ecmult_spec ctx _ p _ tweak Hctx (set_ge_represents _ _ Hkey) Hcurve Hfinite H1 Htweak) as (pt & -> & Hpt).
  cbn [mbind option_bind]. rewrite V1, smul_1 in Hpt. set (q := add _ _) in *. unfold secp256k1_gej_is_infinity.
  rewrite (infinity_flag _ _ Hpt). case_decide as Hq; cbn [Z.eqb negb].
  - exists false, key. split; [done|]. cbv zeta. by rewrite bool_decide_true.
  - eexists true, _. split; [reflexivity|]. cbv zeta. rewrite bool_decide_false by done. split; [done|]. intros _. by apply set_gej_represents.
Qed.

Lemma pubkey_tweak_mul_spec :
  sval tweak <> 0 ->
  exists key', secp256k1_eckey_pubkey_tweak_mul ctx key tweak = Some (true, key') /\ represents_ge key' (smul (sval tweak) p).
Proof using All.
  intros Hn. unfold secp256k1_eckey_pubkey_tweak_mul. rewrite scalar_is_zero_spec by apply Htweak.
  destruct (Z.eqb_spec (sval tweak) 0); [done|]. destruct (scalar_int_ok 0 (or_introl eq_refl)) as [H0 V0].
  destruct (ecmult_spec ctx _ p tweak _ Hctx (set_ge_represents _ _ Hkey) Hcurve Hfinite Htweak H0) as (pt & -> & Hpt).
  cbn [mbind option_bind]. rewrite V0 in Hpt. change (smul 0 G) with Infinity in Hpt. rewrite add_0_r in Hpt.
  eexists. split; [reflexivity|]. by apply set_gej_represents.
Qed.

End Tweak.

End Eckey.
