(* ===== verification/Api.v ===== *)
(** * The interface of the library
      (libsecp256k1/src/secp256k1.c, modules/recovery/main_impl.h, ext.h)

    Every function the library exports, on bytes, but [secp256k1_ext_scalar_mul],
    which is in [EcmultConst]. A pointer is an [option],
    [None] is NULL; what a function writes through a pointer is in its [out].
    [illegal] lists the conditions the function has reported to the illegal
    callback, which is taken to return, as the code is written for it; with a
    callback that does not return, as the one the Go package installs, the call
    ends at the first of them. The opaque structures are the little-endian
    words of the machine. [None] as the result of a function is what [Ecmult]
    and [EcmultGen] make [None], or a loop that has not ended within the fuel.
    Local variables that are not initialised are parameters where their
    contents could matter. *)

From Stdlib Require Import ZArith Lia List.
From stdpp Require Import base option list strings.
From S2P Require Import Prelude Words Sha256 Field FieldExp Scalar ScalarExp Group Ecmult EcmultGen Ecdsa Der Eckey.
Local Open Scope Z_scope.

Module Api.
Import Sha256 Field FieldExp Scalar ScalarExp Group Ecmult EcmultGen Ecdsa Der Eckey.

(** ** Results and argument checks *)

Record result (O : Type) := mkResult { ret : bool; out : O; illegal : list string }.
Arguments mkResult {O}.
Arguments ret {O}.
Arguments out {O}.
Arguments illegal {O}.

(** [ARG_CHECK(cond)]: [o] is what the outputs hold at this point. *)
Definition ARG_CHECK {O} (cond : bool) (text : string) (o : O) (k : option (result O)) : option (result O) :=
  if cond then k else Some (mkResult false o [text]).

(** [ARG_CHECK(p != NULL)] and the object [p] points to. *)
Definition CHECKED {A O} (p : option A) (text : string) (o : O) (k : A -> option (result O)) : option (result O) :=
  match p with Some a => k a | None => Some (mkResult false o [text]) end.

Notation "'check' c 'else' t 'with' o ';;' k" := (ARG_CHECK c t o k)
  (at level 100, c at level 99, t at level 99, o at level 99, k at level 200, right associativity).
Notation "'let*' x ':=' p 'else' t 'with' o ';;' k" := (CHECKED p t o (fun x => k))
  (at level 100, x name, p at level 99, t at level 99, o at level 99, k at level 200, right associativity).

Definition returns {O} (r : bool) (o : O) : option (result O) := Some (mkResult r o []).

(** ** Contexts *)

Inductive callback_fn := default_illegal_callback_fn | default_error_callback_fn | user_fn (f : Z).
Record secp256k1_callback := mkCallback { fn : callback_fn; data : Z }.

Definition default_illegal_callback : secp256k1_callback := mkCallback default_illegal_callback_fn 0.
Definition default_error_callback : secp256k1_callback := mkCallback default_error_callback_fn 0.

Record secp256k1_context := mkContext {
  ecmult_ctx : secp256k1_ecmult_context;
  ecmult_gen_ctx : secp256k1_ecmult_gen_context;
  illegal_callback : secp256k1_callback;
  error_callback : secp256k1_callback }.

Definition SECP256K1_FLAGS_TYPE_MASK : Z := Z.shiftl 1 8 - 1.
Definition SECP256K1_FLAGS_TYPE_CONTEXT : Z := 1.
Definition SECP256K1_FLAGS_TYPE_COMPRESSION : Z := 2.
Definition SECP256K1_FLAGS_BIT_CONTEXT_VERIFY : Z := Z.shiftl 1 8.
Definition SECP256K1_FLAGS_BIT_CONTEXT_SIGN : Z := Z.shiftl 1 9.
Definition SECP256K1_FLAGS_BIT_COMPRESSION : Z := Z.shiftl 1 8.
Definition SECP256K1_CONTEXT_VERIFY : Z := Z.lor SECP256K1_FLAGS_TYPE_CONTEXT SECP256K1_FLAGS_BIT_CONTEXT_VERIFY.
Definition SECP256K1_CONTEXT_SIGN : Z := Z.lor SECP256K1_FLAGS_TYPE_CONTEXT SECP256K1_FLAGS_BIT_CONTEXT_SIGN.
Definition SECP256K1_EC_COMPRESSED : Z := Z.lor SECP256K1_FLAGS_TYPE_COMPRESSION SECP256K1_FLAGS_BIT_COMPRESSION.
Definition SECP256K1_EC_UNCOMPRESSED : Z := SECP256K1_FLAGS_TYPE_COMPRESSION.

Definition flag (flags bit : Z) : bool := negb (Z.land flags bit =? 0).

(** [gen0] is the uninitialised memory of the new context. *)
Definition secp256k1_context_create (fuel : nat) (junk : bytes) (gen0 : secp256k1_ecmult_gen_context) (flags : Z)
    : option (result (option secp256k1_context)) :=
  if negb (Z.land flags SECP256K1_FLAGS_TYPE_MASK =? SECP256K1_FLAGS_TYPE_CONTEXT)
  then Some (mkResult false None ["Invalid flags"])
  else
    let ecmult := secp256k1_ecmult_context_init in
    let gen := secp256k1_ecmult_gen_context_init gen0 in
    gen ← (if flag flags SECP256K1_FLAGS_BIT_CONTEXT_SIGN
           then secp256k1_ecmult_gen_context_build fuel junk gen else Some gen);
    let ecmult := if flag flags SECP256K1_FLAGS_BIT_CONTEXT_VERIFY
                  then secp256k1_ecmult_context_build ecmult else ecmult in
    returns true (Some (mkContext ecmult gen default_illegal_callback default_error_callback)).

Definition secp256k1_context_clone (gen0 : secp256k1_ecmult_gen_context) (ctx : secp256k1_context) : secp256k1_context :=
  mkContext (secp256k1_ecmult_context_clone (ecmult_ctx ctx))
            (secp256k1_ecmult_gen_context_clone gen0 (ecmult_gen_ctx ctx))
            (illegal_callback ctx) (error_callback ctx).

(** What the memory holds when it is freed. *)
Definition secp256k1_context_destroy (ctx : option secp256k1_context) : option secp256k1_context :=
  match ctx with
  | None => None
  | Some c => Some (mkContext (secp256k1_ecmult_context_clear (ecmult_ctx c))
                (secp256k1_ecmult_gen_context_clear (ecmult_gen_ctx c)) (illegal_callback c) (error_callback c))
  end.

Definition secp256k1_context_set_illegal_callback (ctx : secp256k1_context) (fun_ : option callback_fn) (data : Z)
    : secp256k1_context :=
  mkContext (ecmult_ctx ctx) (ecmult_gen_ctx ctx) (mkCallback (default default_illegal_callback_fn fun_) data) (error_callback ctx).

Definition secp256k1_context_set_error_callback (ctx : secp256k1_context) (fun_ : option callback_fn) (data : Z)
    : secp256k1_context :=
  mkContext (ecmult_ctx ctx) (ecmult_gen_ctx ctx) (illegal_callback ctx) (mkCallback (default default_error_callback_fn fun_) data).

Definition secp256k1_context_randomize (fuel : nat) (junk : bytes) (ctx : secp256k1_context) (seed32 : option bytes)
    : option (result secp256k1_context) :=
  check secp256k1_ecmult_gen_context_is_built (ecmult_gen_ctx ctx)
    else "secp256k1_ecmult_gen_context_is_built(&ctx->ecmult_gen_ctx)" with ctx ;;
  gen ← secp256k1_ecmult_gen_blind fuel junk (ecmult_gen_ctx ctx) seed32;
  returns true (mkContext (ecmult_ctx ctx) gen (illegal_callback ctx) (error_callback ctx)).

(** ** Opaque structures *)

(** The [i]th 64-bit word of the memory. *)
Definition word_at (l : bytes) (i : nat) : Z := le_word (take 8 (drop (8 * i) l)).

Definition fe_storage_bytes (s : secp256k1_fe_storage) : bytes :=
  le_bytes 8 (sn0 s) ++ le_bytes 8 (sn1 s) ++ le_bytes 8 (sn2 s) ++ le_bytes 8 (sn3 s).

Definition scalar_bytes (a : secp256k1_scalar) : bytes :=
  le_bytes 8 (d0 a) ++ le_bytes 8 (d1 a) ++ le_bytes 8 (d2 a) ++ le_bytes 8 (d3 a).

(** [memcpy] of 32 bytes from the memory to a scalar. *)
Definition scalar_from (l : bytes) : secp256k1_scalar :=
  mkScalar (word_at l 0) (word_at l 1) (word_at l 2) (word_at l 3).

(** [sizeof(secp256k1_ge_storage)] is 64. *)
Definition secp256k1_pubkey_load (pubkey : bytes) : result secp256k1_ge :=
  let s := mkGeStorage (mkStorage (word_at pubkey 0) (word_at pubkey 1) (word_at pubkey 2) (word_at pubkey 3))
                       (mkStorage (word_at pubkey 4) (word_at pubkey 5) (word_at pubkey 6) (word_at pubkey 7)) in
  let ge := secp256k1_ge_from_storage s in
  if secp256k1_fe_is_zero (gx ge) then mkResult false ge ["!secp256k1_fe_is_zero(&ge->x)"]
  else mkResult true ge [].

Definition secp256k1_pubkey_save (ge : secp256k1_ge) : bytes :=
  let s := secp256k1_ge_to_storage ge in fe_storage_bytes (gsx s) ++ fe_storage_bytes (gsy s).

(** [sizeof(secp256k1_scalar)] is 32. *)
Definition secp256k1_ecdsa_signature_load (sig : bytes) : secp256k1_scalar * secp256k1_scalar :=
  (scalar_from sig, scalar_from (drop 32 sig)).

Definition secp256k1_ecdsa_signature_save (r s : secp256k1_scalar) : bytes := scalar_bytes r ++ scalar_bytes s.

Definition zeros (n : nat) : bytes := repeat 0 n.

(** ** Public keys *)

(** [Q] is an uninitialised local variable. *)
Definition secp256k1_ec_pubkey_parse (Q : secp256k1_ge) (pubkey input : option bytes) (inputlen : Z)
    : option (result (option bytes)) :=
  let* _p := pubkey else "pubkey != NULL" with None ;;
  let pubkey := zeros 64 in
  let* input := input else "input != NULL" with Some pubkey ;;
  let '(ok, Q) := secp256k1_eckey_pubkey_parse Q input inputlen in
  if negb ok then returns false (Some pubkey)
  else returns true (Some (secp256k1_pubkey_save Q)).

(** The outputs are [output] and [*outputlen]. *)
Definition secp256k1_ec_pubkey_serialize (output : option bytes) (outputlen : option Z) (pubkey : option bytes) (flags : Z)
    : option (result (option bytes * option Z)) :=
  let* len := outputlen else "outputlen != NULL" with (output, None) ;;
  check len >=? (if flag flags SECP256K1_FLAGS_BIT_COMPRESSION then 33 else 65)
    else "*outputlen >= ((flags & SECP256K1_FLAGS_BIT_COMPRESSION) ? 33 : 65)" with (output, Some len) ;;
  let* output := output else "output != NULL" with (None, Some 0) ;;
  let output := memcpy output 0 (zeros (Z.to_nat len)) in
  let* pubkey := pubkey else "pubkey != NULL" with (Some output, Some 0) ;;
  check Z.land flags SECP256K1_FLAGS_TYPE_MASK =? SECP256K1_FLAGS_TYPE_COMPRESSION
    else "(flags & SECP256K1_FLAGS_TYPE_MASK) == SECP256K1_FLAGS_TYPE_COMPRESSION" with (Some output, Some 0) ;;
  let loaded := secp256k1_pubkey_load pubkey in
  if negb (ret loaded) then Some (mkResult false (Some output, Some 0) (illegal loaded))
  else
    let '(ok, _, output, len) :=
      secp256k1_eckey_pubkey_serialize (out loaded) output len (Z.land flags SECP256K1_FLAGS_BIT_COMPRESSION) in
    returns ok (Some output, Some (if (ok : bool) then len else 0)).

Definition secp256k1_ec_seckey_verify (seckey : option bytes) : option (result unit) :=
  let* seckey := seckey else "seckey != NULL" with tt ;;
  let '(sec, overflow) := secp256k1_scalar_set_b32 seckey in
  returns ((overflow =? 0) && negb (secp256k1_scalar_is_zero sec)) tt.

Definition secp256k1_ec_pubkey_create (ctx : secp256k1_context) (pubkey seckey : option bytes)
    : option (result (option bytes)) :=
  let* _p := pubkey else "pubkey != NULL" with None ;;
  let pubkey := zeros 64 in
  check secp256k1_ecmult_gen_context_is_built (ecmult_gen_ctx ctx)
    else "secp256k1_ecmult_gen_context_is_built(&ctx->ecmult_gen_ctx)" with Some pubkey ;;
  let* seckey := seckey else "seckey != NULL" with Some pubkey ;;
  let '(sec, overflow) := secp256k1_scalar_set_b32 seckey in
  if (overflow =? 0) && negb (secp256k1_scalar_is_zero sec) then
    pj ← secp256k1_ecmult_gen (ecmult_gen_ctx ctx) sec;
    let p := fst (secp256k1_ge_set_gej pj) in
    returns true (Some (secp256k1_pubkey_save p))
  else returns false (Some pubkey).

(** The loop over the keys; the reports of [secp256k1_pubkey_load] add up. *)
Fixpoint combine_loop (Qj : secp256k1_gej) (pubnonces : list bytes) (reported : list string) : secp256k1_gej * list string :=
  match pubnonces with
  | [] => (Qj, reported)
  | k :: pubnonces' =>
      let loaded := secp256k1_pubkey_load k in
      combine_loop (secp256k1_gej_add_ge Qj (out loaded)) pubnonces' (reported ++ illegal loaded)
  end.

Definition secp256k1_ec_pubkey_combine (pubnonce : option bytes) (pubnonces : option (list bytes)) (n : nat)
    : option (result (option bytes)) :=
  let* _p := pubnonce else "pubnonce != NULL" with None ;;
  let pubnonce := zeros 64 in
  check (1 <=? n)%nat else "n >= 1" with Some pubnonce ;;
  let* pubnonces := pubnonces else "pubnonces != NULL" with Some pubnonce ;;
  let '(Qj, reported) := combine_loop secp256k1_gej_set_infinity (take n pubnonces) [] in
  if negb (secp256k1_gej_is_infinity Qj =? 0) then Some (mkResult false (Some pubnonce) reported)
  else Some (mkResult true (Some (secp256k1_pubkey_save (fst (secp256k1_ge_set_gej Qj)))) reported).

(** ** Tweaking keys *)

(** [tweak] is [secp256k1_eckey_privkey_tweak_add] or [..._mul]; the two
    functions differ in nothing else. *)
Definition privkey_tweak (tweak_key : secp256k1_scalar -> secp256k1_scalar -> bool * secp256k1_scalar)
    (seckey tweak : option bytes) : option (result (option bytes)) :=
  let* seckey := seckey else "seckey != NULL" with None ;;
  let* tweak := tweak else "tweak != NULL" with Some seckey ;;
  let '(term, overflow) := secp256k1_scalar_set_b32 tweak in
  let sec := fst (secp256k1_scalar_set_b32 seckey) in
  if negb (overflow =? 0) then returns false (Some (zeros 32))
  else
    let '(ok, sec) := tweak_key sec term in
    returns ok (Some (if (ok : bool) then secp256k1_scalar_get_b32 sec else zeros 32)).

Definition secp256k1_ec_privkey_tweak_add : option bytes -> option bytes -> option (result (option bytes)) :=
  privkey_tweak secp256k1_eckey_privkey_tweak_add.

Definition secp256k1_ec_privkey_tweak_mul : option bytes -> option bytes -> option (result (option bytes)) :=
  privkey_tweak secp256k1_eckey_privkey_tweak_mul.

Definition pubkey_tweak
    (tweak_key : secp256k1_ecmult_context -> secp256k1_ge -> secp256k1_scalar -> option (bool * secp256k1_ge))
    (ctx : secp256k1_context) (pubkey tweak : option bytes) : option (result (option bytes)) :=
  check secp256k1_ecmult_context_is_built (ecmult_ctx ctx)
    else "secp256k1_ecmult_context_is_built(&ctx->ecmult_ctx)" with pubkey ;;
  let* pubkey := pubkey else "pubkey != NULL" with None ;;
  let* tweak := tweak else "tweak != NULL" with Some pubkey ;;
  let '(term, overflow) := secp256k1_scalar_set_b32 tweak in
  if negb (overflow =? 0) then returns false (Some (zeros 64))
  else
    let loaded := secp256k1_pubkey_load pubkey in
    if negb (ret loaded) then Some (mkResult false (Some (zeros 64)) (illegal loaded))
    else
      '(ok, p) ← tweak_key (ecmult_ctx ctx) (out loaded) term;
      returns ok (Some (if (ok : bool) then secp256k1_pubkey_save p else zeros 64)).

Definition secp256k1_ec_pubkey_tweak_add : secp256k1_context -> option bytes -> option bytes -> option (result (option bytes)) :=
  pubkey_tweak secp256k1_eckey_pubkey_tweak_add.

Definition secp256k1_ec_pubkey_tweak_mul : secp256k1_context -> option bytes -> option bytes -> option (result (option bytes)) :=
  pubkey_tweak secp256k1_eckey_pubkey_tweak_mul.

(** ** Signatures *)

(** [r0] and [s0] are uninitialised local variables. *)
Definition secp256k1_ecdsa_signature_parse_der (r0 s0 : secp256k1_scalar) (sig input : option bytes)
    : option (result (option bytes)) :=
  let* _p := sig else "sig != NULL" with None ;;
  let* input := input else "input != NULL" with sig ;;
  '(ok, r, s) ← secp256k1_ecdsa_sig_parse r0 s0 input;
  returns ok (Some (if (ok : bool) then secp256k1_ecdsa_signature_save r s else zeros 64)).

(** The scalars in the first 64 bytes and whether both are below the order. *)
Definition compact_scalars (input64 : bytes) : secp256k1_scalar * secp256k1_scalar * bool :=
  let '(r, overflow) := secp256k1_scalar_set_b32 (b32_at input64 0) in
  let ret := overflow =? 0 in
  let '(s, overflow) := secp256k1_scalar_set_b32 (b32_at input64 32) in
  let ret := ret && (overflow =? 0) in
  (r, s, ret).

Definition secp256k1_ecdsa_signature_parse_compact (sig input64 : option bytes) : option (result (option bytes)) :=
  let* _p := sig else "sig != NULL" with None ;;
  let* input64 := input64 else "input64 != NULL" with sig ;;
  let '(r, s, ret) := compact_scalars input64 in
  returns ret (Some (if (ret : bool) then secp256k1_ecdsa_signature_save r s else zeros 64)).

(** The outputs are [output] and [*outputlen]. *)
Definition secp256k1_ecdsa_signature_serialize_der (output : option bytes) (outputlen : option Z) (sig : option bytes)
    : option (result (option bytes * option Z)) :=
  let* o := output else "output != NULL" with (None, outputlen) ;;
  let* len := outputlen else "outputlen != NULL" with (output, None) ;;
  let* sig := sig else "sig != NULL" with (output, outputlen) ;;
  let '(r, s) := secp256k1_ecdsa_signature_load sig in
  let '(ok, o, len) := secp256k1_ecdsa_sig_serialize o len r s in
  returns ok (Some o, Some len).

Definition secp256k1_ecdsa_signature_serialize_compact (output64 sig : option bytes) : option (result (option bytes)) :=
  let* o := output64 else "output64 != NULL" with None ;;
  let* sig := sig else "sig != NULL" with output64 ;;
  let '(r, s) := secp256k1_ecdsa_signature_load sig in
  let o := memcpy o 0 (secp256k1_scalar_get_b32 r) in
  let o := memcpy o 32 (secp256k1_scalar_get_b32 s) in
  returns true (Some o).

Definition secp256k1_ecdsa_signature_normalize (sigout sigin : option bytes) : option (result (option bytes)) :=
  let* sigin := sigin else "sigin != NULL" with sigout ;;
  let '(r, s) := secp256k1_ecdsa_signature_load sigin in
  let ret := negb (secp256k1_scalar_is_high s =? 0) in
  match sigout with
  | None => returns ret None
  | Some _ =>
      let s := if ret then secp256k1_scalar_negate s else s in
      returns ret (Some (secp256k1_ecdsa_signature_save r s))
  end.

Definition secp256k1_ecdsa_verify (ctx : secp256k1_context) (sig msg32 pubkey : option bytes) : option (result unit) :=
  check secp256k1_ecmult_context_is_built (ecmult_ctx ctx)
    else "secp256k1_ecmult_context_is_built(&ctx->ecmult_ctx)" with tt ;;
  let* msg32 := msg32 else "msg32 != NULL" with tt ;;
  let* sig := sig else "sig != NULL" with tt ;;
  let* pubkey := pubkey else "pubkey != NULL" with tt ;;
  let m := fst (secp256k1_scalar_set_b32 msg32) in
  let '(r, s) := secp256k1_ecdsa_signature_load sig in
  if negb (secp256k1_scalar_is_high s =? 0) then returns false tt
  else
    let loaded := secp256k1_pubkey_load pubkey in
    if negb (ret loaded) then Some (mkResult false tt (illegal loaded))
    else ok ← secp256k1_ecdsa_sig_verify (ecmult_ctx ctx) r s (out loaded) m; returns ok tt.

(** ** Nonces *)

(** The nonce from the message, the key, the name of the algorithm, the data
    and the attempt; [None] when the function returns 0. *)
Definition secp256k1_nonce_function : Type :=
  bytes -> bytes -> option bytes -> option bytes -> Z -> option bytes.

(** [for (i = 0; i <= counter; i++)]: [n] more rounds. *)
Fixpoint nonce_rounds (n : nat) (junk : bytes) (rng : secp256k1_rfc6979_hmac_sha256_t) (nonce32 : bytes) : bytes :=
  match n with
  | O => nonce32
  | S n' => let '(rng, nonce32) := secp256k1_rfc6979_hmac_sha256_generate junk rng 32 in nonce_rounds n' junk rng nonce32
  end.

Definition nonce_function_rfc6979 (junk : bytes) : secp256k1_nonce_function := fun msg32 key32 algo16 data counter =>
  let keydata := take 32 key32 ++ take 32 msg32 in
  let keydata := match data with None => keydata | Some d => keydata ++ take 32 d end in
  let keydata := match algo16 with None => keydata | Some a => keydata ++ take 16 a end in
  let rng := secp256k1_rfc6979_hmac_sha256_initialize junk keydata in
  Some (nonce_rounds (S (Z.to_nat counter)) junk rng []).

(** ** Signing *)

(** The [while (1)] loop: [Some None] when the nonce function fails. [recid] is
    the last argument of [secp256k1_ecdsa_sig_sign]. *)
Fixpoint sign_loop (fuel : nat) (gen : secp256k1_ecmult_gen_context) (noncefp : secp256k1_nonce_function)
    (msg32 seckey : bytes) (noncedata : option bytes) (sec msg : secp256k1_scalar) (recid : option Z) (count : Z)
    : option (option signed) :=
  match fuel with
  | O => None
  | S fuel' =>
      match noncefp msg32 seckey None noncedata count with
      | None => Some None
      | Some nonce32 =>
          let '(non, overflow) := secp256k1_scalar_set_b32 nonce32 in
          let next := sign_loop fuel' gen noncefp msg32 seckey noncedata sec msg recid (wrap 32 (count + 1)) in
          if (overflow =? 0) && negb (secp256k1_scalar_is_zero non) then
            res ← secp256k1_ecdsa_sig_sign gen sec msg non recid;
            if Ecdsa.ret res then Some (Some res) else next
          else next
      end
  end.

(** The scalar of a secret key and the loop, as both signing functions have it;
    [None] inside when they return 0. *)
Definition sign_with (fuel : nat) (junk : bytes) (gen : secp256k1_ecmult_gen_context) (noncefp : option secp256k1_nonce_function)
    (msg32 seckey : bytes) (noncedata : option bytes) (recid : option Z) : option (option signed) :=
  let noncefp := default (nonce_function_rfc6979 junk) noncefp in
  let '(sec, overflow) := secp256k1_scalar_set_b32 seckey in
  if (overflow =? 0) && negb (secp256k1_scalar_is_zero sec) then
    let msg := fst (secp256k1_scalar_set_b32 msg32) in
    sign_loop fuel gen noncefp msg32 seckey noncedata sec msg recid 0
  else Some None.

Definition secp256k1_ecdsa_sign (fuel : nat) (junk : bytes) (ctx : secp256k1_context) (signature msg32 seckey : option bytes)
    (noncefp : option secp256k1_nonce_function) (noncedata : option bytes) : option (result (option bytes)) :=
  check secp256k1_ecmult_gen_context_is_built (ecmult_gen_ctx ctx)
    else "secp256k1_ecmult_gen_context_is_built(&ctx->ecmult_gen_ctx)" with signature ;;
  let* msg32 := msg32 else "msg32 != NULL" with signature ;;
  let* _p := signature else "signature != NULL" with None ;;
  let* seckey := seckey else "seckey != NULL" with signature ;;
  res ← sign_with fuel junk (ecmult_gen_ctx ctx) noncefp msg32 seckey noncedata None;
  match (res : option signed) with
  | Some sg => returns true (Some (secp256k1_ecdsa_signature_save (Ecdsa.sigr sg) (Ecdsa.sigs sg)))
  | None => returns false (Some (zeros 64))
  end.

(** ** Recoverable signatures *)

Definition secp256k1_ecdsa_recoverable_signature_load (sig : bytes) : secp256k1_scalar * secp256k1_scalar * Z :=
  (scalar_from sig, scalar_from (drop 32 sig), default 0 (sig !! 64%nat)).

Definition secp256k1_ecdsa_recoverable_signature_save (r s : secp256k1_scalar) (recid : Z) : bytes :=
  scalar_bytes r ++ scalar_bytes s ++ [wrap 8 recid].

Definition secp256k1_ecdsa_recoverable_signature_parse_compact (sig input64 : option bytes) (recid : Z)
    : option (result (option bytes)) :=
  let* _p := sig else "sig != NULL" with None ;;
  let* input64 := input64 else "input64 != NULL" with sig ;;
  check (recid >=? 0) && (recid <=? 3) else "recid >= 0 && recid <= 3" with sig ;;
  let '(r, s, ret) := compact_scalars input64 in
  returns ret (Some (if (ret : bool) then secp256k1_ecdsa_recoverable_signature_save r s recid else zeros 65)).

(** The outputs are [output64] and [*recid]. *)
Definition secp256k1_ecdsa_recoverable_signature_serialize_compact (output64 : option bytes) (recid : option Z) (sig : option bytes)
    : option (result (option bytes * option Z)) :=
  let* o := output64 else "output64 != NULL" with (None, recid) ;;
  let* sig := sig else "sig != NULL" with (output64, recid) ;;
  let* _r := recid else "recid != NULL" with (output64, None) ;;
  let '(r, s, recid) := secp256k1_ecdsa_recoverable_signature_load sig in
  let o := memcpy o 0 (secp256k1_scalar_get_b32 r) in
  let o := memcpy o 32 (secp256k1_scalar_get_b32 s) in
  returns true (Some o, Some recid).

Definition secp256k1_ecdsa_recoverable_signature_convert (sig sigin : option bytes) : option (result (option bytes)) :=
  let* _p := sig else "sig != NULL" with None ;;
  let* sigin := sigin else "sigin != NULL" with sig ;;
  let '(r, s, recid) := secp256k1_ecdsa_recoverable_signature_load sigin in
  returns true (Some (secp256k1_ecdsa_signature_save r s)).

(** [recid0] is the uninitialised local variable. *)
Definition secp256k1_ecdsa_sign_recoverable (fuel : nat) (junk : bytes) (recid0 : Z) (ctx : secp256k1_context)
    (signature msg32 seckey : option bytes) (noncefp : option secp256k1_nonce_function) (noncedata : option bytes)
    : option (result (option bytes)) :=
  check secp256k1_ecmult_gen_context_is_built (ecmult_gen_ctx ctx)
    else "secp256k1_ecmult_gen_context_is_built(&ctx->ecmult_gen_ctx)" with signature ;;
  let* msg32 := msg32 else "msg32 != NULL" with signature ;;
  let* _p := signature else "signature != NULL" with None ;;
  let* seckey := seckey else "seckey != NULL" with signature ;;
  res ← sign_with fuel junk (ecmult_gen_ctx ctx) noncefp msg32 seckey noncedata (Some recid0);
  match (res : option signed) with
  | Some sg => returns true (Some (secp256k1_ecdsa_recoverable_signature_save (Ecdsa.sigr sg) (Ecdsa.sigs sg)
                 (default recid0 (Ecdsa.recid sg))))
  | None => returns false (Some (zeros 65))
  end.

(** [q] is an uninitialised local variable. *)
Definition secp256k1_ecdsa_recover (q : secp256k1_ge) (ctx : secp256k1_context) (pubkey signature msg32 : option bytes)
    : option (result (option bytes)) :=
  check secp256k1_ecmult_context_is_built (ecmult_ctx ctx)
    else "secp256k1_ecmult_context_is_built(&ctx->ecmult_ctx)" with pubkey ;;
  let* msg32 := msg32 else "msg32 != NULL" with pubkey ;;
  let* signature := signature else "signature != NULL" with pubkey ;;
  let* _p := pubkey else "pubkey != NULL" with None ;;
  let '(r, s, recid) := secp256k1_ecdsa_recoverable_signature_load signature in
  let m := fst (secp256k1_scalar_set_b32 msg32) in
  '(ok, q) ← secp256k1_ecdsa_sig_recover (ecmult_ctx ctx) r s q m recid;
  returns ok (Some (if (ok : bool) then secp256k1_pubkey_save q else zeros 64)).

(** ** The functions the Go package calls (ext.h) *)

Definition secp256k1_context_create_sign_verify (fuel : nat) (junk : bytes) (gen0 : secp256k1_ecmult_gen_context)
    : option (result (option secp256k1_context)) :=
  secp256k1_context_create fuel junk gen0 (Z.lor SECP256K1_CONTEXT_SIGN SECP256K1_CONTEXT_VERIFY).

(** [ret] of a call, the reports of the calls before it in front. *)
Definition reported {O} (before : list string) (o : O) : option (result O) := Some (mkResult false o before).

(** [sig], [pubkey] and [q] are uninitialised local variables; the output is
    [pubkey_out]. *)
Definition secp256k1_ext_ecdsa_recover (sig pubkey : bytes) (q : secp256k1_ge) (ctx : secp256k1_context)
    (pubkey_out sigdata msgdata : bytes) : option (result bytes) :=
  p ← secp256k1_ecdsa_recoverable_signature_parse_compact (Some sig) (Some sigdata) (default 0 (sigdata !! 64%nat));
  if negb (ret p) then reported (illegal p) pubkey_out
  else
    r ← secp256k1_ecdsa_recover q ctx (Some pubkey) (out p) (Some msgdata);
    if negb (ret r) then reported (illegal r) pubkey_out
    else
      s ← secp256k1_ec_pubkey_serialize (Some pubkey_out) (Some 65) (out r) SECP256K1_EC_UNCOMPRESSED;
      Some (mkResult (ret s) (default pubkey_out (fst (out s))) (illegal s)).

Definition secp256k1_ext_ecdsa_verify (sig pubkey : bytes) (Q : secp256k1_ge) (ctx : secp256k1_context)
    (sigdata msgdata pubkeydata : bytes) (pubkeylen : Z) : option (result unit) :=
  p ← secp256k1_ecdsa_signature_parse_compact (Some sig) (Some sigdata);
  if negb (ret p) then reported (illegal p) tt
  else
    k ← secp256k1_ec_pubkey_parse Q (Some pubkey) (Some pubkeydata) pubkeylen;
    if negb (ret k) then reported (illegal k) tt
    else secp256k1_ecdsa_verify ctx (out p) (Some msgdata) (out k).

Definition secp256k1_ext_reencode_pubkey (pubkey : bytes) (Q : secp256k1_ge) (out_ : bytes) (outlen : Z)
    (pubkeydata : bytes) (pubkeylen : Z) : option (result bytes) :=
  k ← secp256k1_ec_pubkey_parse Q (Some pubkey) (Some pubkeydata) pubkeylen;
  if negb (ret k) then reported (illegal k) out_
  else
    let flag := if outlen =? 33 then SECP256K1_EC_COMPRESSED else SECP256K1_EC_UNCOMPRESSED in
    s ← secp256k1_ec_pubkey_serialize (Some out_) (Some outlen) (out k) flag;
    Some (mkResult (ret s) (default out_ (fst (out s))) (illegal s)).

End Api.
