(* ===== verification/ApiKeys.v ===== *)
(** * Opaque structures of the interface

    What the bytes of a parsed public key and of a parsed signature stand for,
    and that saving and loading are inverse to each other. *)

From Stdlib Require Import ZArith Lia List Zmod.
From stdpp Require Import base option list strings.
From S2P Require Import Prelude Words Field FieldFacts FieldOps FieldExp Scalar ScalarFacts ScalarOps.
From S2P Require Import Curve CurveFacts PointMul PointOrder Group GroupFacts GroupOps Points PointConv.
From S2P Require Import Ecmult EcmultGen Ecdsa EcdsaFacts Eckey Api.
Local Open Scope Z_scope.

Module ApiKeys.
Import Field FieldFacts FieldOps FieldExp Scalar ScalarFacts ScalarOps Curve CurveFacts PointMul PointOrder.
Import Group GroupFacts GroupOps Points PointConv Ecmult EcmultGen Ecdsa EcdsaFacts Eckey Api.

(** ** Words in memory *)

Lemma word_at_0 x rest : is_word x -> word_at (le_bytes 8 x ++ rest) 0 = x.
Proof.
  unfold is_word. intros Hx. unfold word_at. change (drop (8 * 0) (le_bytes 8 x ++ rest)) with (le_bytes 8 x ++ rest).
  rewrite <- (length_le_bytes 8 x) at 1. rewrite take_app_length, le_word_bytes. apply Z.mod_small. exact Hx.
Qed.

Lemma word_at_S x rest i : word_at (le_bytes 8 x ++ rest) (S i) = word_at rest i.
Proof.
  unfold word_at. replace (8 * S i)%nat with (length (le_bytes 8 x) + 8 * i)%nat by (rewrite length_le_bytes; lia).
  rewrite drop_app_add. done.
Qed.

Lemma scalar_from_bytes a rest : limbs_ok a -> scalar_from (scalar_bytes a ++ rest) = a.
Proof.
  destruct a as [a0 a1 a2 a3]. intros (H0 & H1 & H2 & H3). unfold scalar_from, scalar_bytes. cbn [d0 d1 d2 d3] in *.
  rewrite <- !app_assoc. rewrite !word_at_S, !word_at_0 by done. done.
Qed.

Lemma length_scalar_bytes a : length (scalar_bytes a) = 32%nat.
Proof. unfold scalar_bytes. by rewrite !length_app, !length_le_bytes. Qed.

Lemma drop_scalar_bytes a rest : drop 32 (scalar_bytes a ++ rest) = rest.
Proof. rewrite <- (length_scalar_bytes a) at 1. apply drop_app_length. Qed.

(** ** Signatures *)

Lemma signature_roundtrip r s :
  limbs_ok r -> limbs_ok s -> secp256k1_ecdsa_signature_load (secp256k1_ecdsa_signature_save r s) = (r, s).
Proof.
  intros Hr Hs. unfold secp256k1_ecdsa_signature_load, secp256k1_ecdsa_signature_save.
  rewrite drop_scalar_bytes, scalar_from_bytes by done. by rewrite <- (app_nil_r (scalar_bytes s)), scalar_from_bytes.
Qed.

Lemma recoverable_roundtrip r s v :
  limbs_ok r -> limbs_ok s -> 0 <= v < 256 ->
  secp256k1_ecdsa_recoverable_signature_load (secp256k1_ecdsa_recoverable_signature_save r s v) = (r, s, v).
Proof.
  intros Hr Hs Hv. unfold secp256k1_ecdsa_recoverable_signature_load, secp256k1_ecdsa_recoverable_signature_save.
  rewrite drop_scalar_bytes, !scalar_from_bytes by done. rewrite wrap_small by (cbn; lia).
  rewrite app_assoc, lookup_app_r by (rewrite length_app, !length_scalar_bytes; lia).
  by rewrite length_app, !length_scalar_bytes.
Qed.

(** ** Public keys *)

(** The seven is not a square: no point of the curve has the abscissa zero. *)
Lemma abscissa_nonzero x y : curve x y -> x <> fe 0.
Proof.
  intros Hc ->. destruct (sqrt_spec fe_seven) as (r & ok & E & _ & H & _); [apply seven_magnitude; lia|].
  assert (Hok : ok = false) by (change ok with (snd (r, ok)); rewrite <- E; vm_compute; reflexivity).
  subst ok. assert (false = true); [|done]. apply H. exists (Zmod.to_Z y). change (val fe_seven) with 7.
  apply fe_eq. rewrite fe_mul, fe_to_Z. rewrite Hc. by apply fe_eq.
Qed.

(** The bytes of the parsed key [p]. *)
Definition is_key (k : bytes) (p : point) : Prop :=
  on_curve p /\ exists s, stored s p /\ k = fe_storage_bytes (gsx s) ++ fe_storage_bytes (gsy s).

Lemma save_is_key ge p : represents_ge ge p -> on_curve p -> p <> Infinity -> is_key (secp256k1_pubkey_save ge) p.
Proof. intros Hg Hc Hp. split; [done|]. eexists. split; [by apply to_storage_stored|]. reflexivity. Qed.

Lemma storage_from_bytes s t rest :
  storage_ok s -> storage_ok t ->
  let k := fe_storage_bytes s ++ fe_storage_bytes t ++ rest in
  mkGeStorage (mkStorage (word_at k 0) (word_at k 1) (word_at k 2) (word_at k 3))
              (mkStorage (word_at k 4) (word_at k 5) (word_at k 6) (word_at k 7)) = mkGeStorage s t.
Proof.
  destruct s as [s0 s1 s2 s3], t as [t0 t1 t2 t3]. unfold storage_ok. cbn [sn0 sn1 sn2 sn3]. intros Hs Ht. cbv zeta.
  unfold fe_storage_bytes. cbn [sn0 sn1 sn2 sn3]. rewrite <- !app_assoc, !word_at_S.
  rewrite !word_at_0 by (unfold is_word; lia). done.
Qed.

Lemma load_is_key k p :
  is_key k p -> exists ge, secp256k1_pubkey_load k = mkResult true ge [] /\ represents_ge ge p /\ p <> Infinity.
Proof.
  intros [Hc (s & Hs & ->)]. exists (secp256k1_ge_from_storage s). assert (Hf := stored_fits _ _ Hs).
  destruct s as [sx sy]. destruct Hf as [Hx Hy]. cbn [gsx gsy] in *. unfold secp256k1_pubkey_load.
  assert (E := storage_from_bytes sx sy [] Hx Hy). cbv zeta in E. rewrite app_nil_r in E. rewrite E. clear E.
  assert (Hr := from_storage_represents _ _ Hs). split; [|split; [done|by intros ->]].
  destruct p as [|x y]; [done|]. destruct Hs as (a & b & Ha & Hb & E). injection E as -> ->.
  cbn [secp256k1_ge_from_storage gsx gsy gx]. rewrite storage_roundtrip by apply Ha.
  destruct (secp256k1_fe_is_zero a) eqn:Ez; [|done]. exfalso. apply is_zero_spec in Ez; [|apply Ha].
  apply (abscissa_nonzero x y Hc). rewrite (proj2 Ha) in Ez. by rewrite <- (fe_to_Z x), Ez.
Qed.

(** A key has one form only. *)
Lemma is_key_unique k k' p : is_key k p -> is_key k' p -> k = k'.
Proof.
  intros [_ (s & Hs & ->)] [_ (s' & Hs' & ->)]. destruct p as [|x y]; [done|].
  destruct Hs as (a & b & Ha & Hb & ->). destruct Hs' as (a' & b' & Ha' & Hb' & ->).
  by rewrite (exact_inj _ _ _ Ha Ha'), (exact_inj _ _ _ Hb Hb').
Qed.

(** ** Scalars of the interface *)

(** A string of 32 bytes. *)
Definition is_b32 (l : bytes) : Prop := length l = 32%nat /\ Forall is_byte l.

Lemma set_b32_scalar l :
  is_b32 l ->
  exists a, secp256k1_scalar_set_b32 l = (a, b2z (N <=? be_word l)) /\ scalar_ok a /\ sval a = be_word l mod N.
Proof.
  intros [Hl Hb]. destruct (scalar_set_b32_spec l Hl Hb) as (Ho & Hv & Hf). destruct (secp256k1_scalar_set_b32 l) as [a f].
  cbn [fst snd] in *. subst f. by exists a.
Qed.

(** [secp256k1_ec_seckey_verify] and the test of the functions that take a key. *)
Definition valid_seckey (l : bytes) : bool := (0 <? be_word l) && (be_word l <? N).

Lemma seckey_test l :
  is_b32 l ->
  exists a, secp256k1_scalar_set_b32 l = (a, b2z (N <=? be_word l)) /\ scalar_ok a /\ sval a = be_word l mod N /\
    ((b2z (N <=? be_word l) =? 0) && negb (secp256k1_scalar_is_zero a)) = valid_seckey l /\
    (valid_seckey l = true -> sval a = be_word l /\ 0 < be_word l < N).
Proof.
  intros Hl. destruct (set_b32_scalar l Hl) as (a & E & Ho & Hv). exists a. split; [done|]. split; [done|]. split; [done|].
  destruct Hl as [Hl Hb]. assert (Hr := be_word_range l Hb). rewrite scalar_is_zero_spec by apply Ho. rewrite Hv.
  unfold valid_seckey. destruct (Z.leb_spec N (be_word l)), (Z.ltb_spec 0 (be_word l)), (Z.ltb_spec (be_word l) N); try lia;
    cbn [b2z Z.eqb andb negb]; try done; rewrite Z.mod_small by lia.
  - destruct (Z.eqb_spec (be_word l) 0); [lia|]. split; [done|]. intros _. lia.
  - destruct (Z.eqb_spec (be_word l) 0); [|lia]. done.
Qed.

End ApiKeys.
