(* ===== verification/ApiFacts.v ===== *)
(** * The interface on bytes: keys, verification and recovery

    The functions of [Api] against the encodings of [Eckey] and the textbook
    notions of [EcdsaFacts], from the bytes a caller passes to the bytes it
    gets back. *)

From Stdlib Require Import ZArith Lia List Zmod.
From stdpp Require Import base option list strings.
From S2P Require Import Prelude Words Sha256 Sha256Facts Field FieldFacts FieldOps FieldExp Scalar ScalarFacts ScalarOps.
From S2P Require Import Curve CurveFacts PointMul PointOrder Group GroupFacts GroupOps Points PointConv.
From S2P Require Import Ecmult EcmultFacts DoubleMul EcmultGen GenFacts Ecdsa EcdsaFacts Eckey Api ApiKeys.
Local Open Scope Z_scope.

Module ApiFacts.
Import Sha256 Sha256Facts Field FieldFacts FieldOps FieldExp Scalar ScalarFacts ScalarOps Curve CurveFacts PointMul PointOrder.
Import Group GroupFacts GroupOps Points PointConv Ecmult EcmultFacts DoubleMul EcmultGen GenFacts Ecdsa EcdsaFacts Eckey Api ApiKeys.

(** ** Contexts *)

(** A context for signing and verifying. *)
Definition good_ctx (ctx : secp256k1_context) : Prop :=
  good_context (ecmult_ctx ctx) /\ good_gen (ecmult_gen_ctx ctx).

Lemma verify_built ctx : good_ctx ctx -> secp256k1_ecmult_context_is_built (ecmult_ctx ctx) = true.
Proof. intros [[(l & E & _) _] _]. unfold secp256k1_ecmult_context_is_built. by rewrite E. Qed.

Lemma sign_built ctx : good_ctx ctx -> secp256k1_ecmult_gen_context_is_built (ecmult_gen_ctx ctx) = true.
Proof. intros [_ [(l & E & _) _]]. unfold secp256k1_ecmult_gen_context_is_built. by rewrite E. Qed.

Lemma create_good fuel junk gen0 :
  buffer junk ->
  exists ctx, secp256k1_context_create_sign_verify (S fuel) junk gen0 = returns true (Some ctx) /\ good_ctx ctx.
Proof.
  intros Hj. unfold secp256k1_context_create_sign_verify, secp256k1_context_create.
  destruct (build_spec fuel junk (secp256k1_ecmult_gen_context_init gen0) Hj eq_refl) as (gen & E & Hg).
  change (flag _ SECP256K1_FLAGS_BIT_CONTEXT_SIGN) with true. change (flag _ SECP256K1_FLAGS_BIT_CONTEXT_VERIFY) with true.
  change (negb _) with false. cbv iota zeta. rewrite E. cbn [mbind option_bind]. eexists. split; [reflexivity|].
  split; [|exact Hg]. apply build_good. by right.
Qed.

Lemma clone_same gen0 ctx : good_ctx ctx -> secp256k1_context_clone gen0 ctx = ctx.
Proof.
  destruct ctx as [e g i r]. intros [He [(rows & Ep & _) _]]. unfold secp256k1_context_clone. cbn [ecmult_ctx ecmult_gen_ctx] in *.
  rewrite clone_good by done. unfold secp256k1_ecmult_gen_context_clone. rewrite Ep. by destruct g; cbn in *; subst.
Qed.

Lemma randomize_good fuel junk ctx seed res :
  buffer junk -> good_ctx ctx -> match seed with None => True | Some l => Forall is_byte l end ->
  secp256k1_context_randomize fuel junk ctx seed = Some res -> ret res = true /\ good_ctx (out res) /\ illegal res = [].
Proof.
  intros Hj [He Hg] Hs. unfold secp256k1_context_randomize, ARG_CHECK. rewrite sign_built by done.
  destruct (secp256k1_ecmult_gen_blind fuel junk (ecmult_gen_ctx ctx) seed) as [gen|] eqn:E; [|discriminate].
  cbn [mbind option_bind]. intros Er. injection Er as <-. split; [done|]. split; [|done]. split; [done|].
  eapply (blind_spec fuel junk (ecmult_gen_ctx ctx) seed); [done|apply Hg| |exact E]. by destruct seed.
Qed.

(** ** Public keys *)

Lemma pubkey_create_spec ctx pk seckey :
  good_ctx ctx -> is_b32 seckey ->
  exists k, secp256k1_ec_pubkey_create ctx (Some pk) (Some seckey) = returns (valid_seckey seckey) (Some k) /\
    (valid_seckey seckey = true -> is_key k (smul (be_word seckey) G)).
Proof.
  intros Hc Hs. unfold secp256k1_ec_pubkey_create, CHECKED, ARG_CHECK. rewrite sign_built by done.
  destruct (seckey_test seckey Hs) as (sec & -> & Ho & _ & -> & Hv). destruct (valid_seckey seckey); [|by eexists].
  destruct (Hv eq_refl) as [Ev Hr]. destruct (ecmult_gen_spec _ sec (proj2 Hc) Ho) as (pj & -> & Hpj). cbn [mbind option_bind].
  eexists. split; [reflexivity|]. intros _. rewrite Ev in Hpj. apply save_is_key; [by apply set_gej_represents|apply smul_on_curve, G_on_curve|].
  intros E%G_multiple_zero. rewrite Z.mod_small in E by lia. lia.
Qed.

Lemma pubkey_parse_spec Q pk input :
  Forall is_byte input ->
  exists ok k, secp256k1_ec_pubkey_parse Q (Some pk) (Some input) (Z.of_nat (length input)) = returns ok (Some k) /\
    (ok = true -> exists p, is_key k p /\ encodes input p) /\ (ok = false -> forall p, ~ encodes input p).
Proof.
  intros Hb. unfold secp256k1_ec_pubkey_parse, CHECKED. assert (H := parse_spec Q input Hb).
  destruct (secp256k1_eckey_pubkey_parse Q input _) as [ok ge]. destruct H as [Ht Hf]. cbn [fst snd] in *.
  destruct ok; cbn [negb]; eexists _, _; (split; [reflexivity|]); [|done]. split; [|done].
  intros _. destruct (Ht eq_refl) as (p & Hr & He). exists p. split; [|done]. apply save_is_key; [done|apply He|apply He].
Qed.

(** The two formats as flags. *)
Definition flags_of (f : format) : Z :=
  match f with Compressed => SECP256K1_EC_COMPRESSED | _ => SECP256K1_EC_UNCOMPRESSED end.

Definition key_size (f : format) : Z := match f with Compressed => 33 | _ => 65 end.

Lemma length_encode f p : p <> Infinity -> Z.of_nat (length (encode f p)) = key_size f.
Proof. destruct p as [|x y]; [done|]. intros _. destruct f; cbn [encode length]; rewrite ?length_app, !length_be_bytes; done. Qed.

Lemma memset_drop (b : bytes) n k : (n <= length b)%nat -> drop k (memcpy b 0 (zeros n)) = drop k (zeros n ++ drop n b).
Proof. intros Hn. unfold memcpy. cbn [take app Nat.add]. unfold zeros. by rewrite repeat_length. Qed.

(** The encoding, the rest of the [len] bytes cleared. *)
Lemma pubkey_serialize_spec o len k p f :
  f <> Hybrid -> is_key k p -> key_size f <= len <= Z.of_nat (length o) ->
  secp256k1_ec_pubkey_serialize (Some o) (Some len) (Some k) (flags_of f) =
  returns true (Some (encode f p ++ zeros (Z.to_nat (len - key_size f)) ++ drop (Z.to_nat len) o), Some (key_size f)).
Proof.
  intros Hf Hk Hl. destruct (load_is_key k p Hk) as (ge & El & Hr & Hp). unfold secp256k1_ec_pubkey_serialize, CHECKED, ARG_CHECK.
  assert (E1 : (len >=? (if flag (flags_of f) SECP256K1_FLAGS_BIT_COMPRESSION then 33 else 65)) = true).
  { destruct f; [| |done]; cbn [key_size] in Hl; apply Z.geb_le; exact (proj1 Hl). }
  rewrite E1. replace (Z.land (flags_of f) SECP256K1_FLAGS_TYPE_MASK =? SECP256K1_FLAGS_TYPE_COMPRESSION) with true by (by destruct f).
  rewrite El. cbn [ret out negb]. cbv zeta.
  assert (Ef : chosen (Z.land (flags_of f) SECP256K1_FLAGS_BIT_COMPRESSION) = f) by (by destruct f).
  assert (Hlen : Z.of_nat (length (encode f p)) = key_size f) by (by apply length_encode).
  assert (Hz : length (memcpy o 0 (zeros (Z.to_nat len))) = length o).
  { apply length_memcpy. unfold zeros. rewrite repeat_length. lia. }
  destruct (serialize_key_spec ge p (memcpy o 0 (zeros (Z.to_nat len))) len (Z.land (flags_of f) SECP256K1_FLAGS_BIT_COMPRESSION) Hr Hp)
    as (ge' & -> & _); [rewrite Ef, Hz; lia|].
  rewrite Ef, Hlen. unfold returns. do 2 f_equal. f_equal. f_equal. f_equal.
  rewrite memset_drop by lia. assert (0 < key_size f) by (by destruct f).
  rewrite drop_app_le by (unfold zeros; rewrite repeat_length; lia). f_equal. unfold zeros.
  replace (repeat 0 (Z.to_nat len)) with (repeat 0 (length (encode f p)) ++ repeat 0 (Z.to_nat (len - key_size f)))
    by (rewrite <- repeat_app; f_equal; lia).
  rewrite <- (repeat_length 0 (length (encode f p))) at 1. apply drop_app_length.
Qed.

(** ** Verification *)

Definition sig_r (sigdata : bytes) : Z := be_word (b32_at sigdata 0).
Definition sig_s (sigdata : bytes) : Z := be_word (b32_at sigdata 32).

Lemma b32_at_b32 l i : Forall is_byte l -> (i + 32 <= length l)%nat -> is_b32 (b32_at l i).
Proof. intros Hb Hl. split; [unfold b32_at; rewrite length_take, length_drop; lia|by apply Forall_take, Forall_drop]. Qed.

Lemma compact_spec l :
  Forall is_byte l -> (64 <= length l)%nat ->
  exists r s, compact_scalars l = (r, s, (sig_r l <? N) && (sig_s l <? N)) /\ scalar_ok r /\ scalar_ok s /\
    ((sig_r l <? N) && (sig_s l <? N) = true -> sval r = sig_r l /\ sval s = sig_s l).
Proof.
  intros Hb Hl. unfold compact_scalars, sig_r, sig_s.
  assert (H0 := b32_at_b32 l 0 Hb ltac:(lia)). assert (H1 := b32_at_b32 l 32 Hb ltac:(lia)).
  assert (R0 := be_word_range _ (proj2 H0)). assert (R1 := be_word_range _ (proj2 H1)).
  destruct (set_b32_scalar _ H0) as (r & -> & Or & Vr). destruct (set_b32_scalar _ H1) as (s & -> & Os & Vs).
  exists r, s. split; [|split; [done|]; split; [done|]].
  - do 2 f_equal; rewrite Z.leb_antisym; [by destruct (_ <? N)|by destruct (be_word (b32_at l 32) <? N)].
  - intros [E0%Z.ltb_lt E1%Z.ltb_lt]%andb_prop. by rewrite Vr, Vs, !Z.mod_small by lia.
Qed.

Lemma ecdsa_verify_spec ctx r s k q msg :
  good_ctx ctx -> scalar_ok r -> scalar_ok s -> is_key k q -> is_b32 msg ->
  secp256k1_ecdsa_verify ctx (Some (secp256k1_ecdsa_signature_save r s)) (Some msg) (Some k) =
  returns ((sval s <=? N / 2) && ecdsa_valid q (be_word msg mod N) (sval r) (sval s)) tt.
Proof.
  intros Hc Hr Hs Hk Hm. unfold secp256k1_ecdsa_verify, CHECKED, ARG_CHECK. rewrite verify_built by done.
  rewrite signature_roundtrip by (apply Hr || apply Hs). destruct (set_b32_scalar msg Hm) as (m & -> & Om & <-). cbn [fst].
  rewrite scalar_is_high_spec by apply Hs. rewrite Z.leb_antisym. destruct (N / 2 <? sval s); cbn [b2z Z.eqb negb andb]; [done|].
  destruct (load_is_key k q Hk) as (ge & -> & Hge & Hq). cbn [ret out negb].
  rewrite (verify_spec _ r s ge q m) by (done || apply Hc || apply Hk). done.
Qed.

Lemma ext_verify_spec sig0 pk0 Q0 ctx sigdata msg pub :
  good_ctx ctx -> Forall is_byte sigdata -> (64 <= length sigdata)%nat -> is_b32 msg -> Forall is_byte pub ->
  exists b, secp256k1_ext_ecdsa_verify sig0 pk0 Q0 ctx sigdata msg pub (Z.of_nat (length pub)) = returns b tt /\
    (b = true <-> sig_r sigdata < N /\ sig_s sigdata <= N / 2 /\
      exists q, encodes pub q /\ ecdsa_valid q (be_word msg mod N) (sig_r sigdata) (sig_s sigdata) = true).
Proof.
  intros Hc Hb Hl Hm Hp. unfold secp256k1_ext_ecdsa_verify, secp256k1_ecdsa_signature_parse_compact, CHECKED.
  destruct (compact_spec sigdata Hb Hl) as (r & s & -> & Or & Os & Hv). cbn [mbind option_bind returns ret out illegal].
  assert (HN : N / 2 < N) by done.
  destruct ((sig_r sigdata <? N) && (sig_s sigdata <? N)) eqn:E; cbn [negb].
  2:{ eexists. split; [reflexivity|]. split; [done|]. intros (H1 & H2 & _).
      apply andb_false_iff in E as [E%Z.ltb_ge|E%Z.ltb_ge]; lia. }
  destruct (Hv eq_refl) as [Vr Vs]. apply andb_prop in E as [E0%Z.ltb_lt E1%Z.ltb_lt].
  destruct (pubkey_parse_spec Q0 pk0 pub Hp) as (ok & k & -> & Ht & Hf). cbn [mbind option_bind returns ret out illegal].
  destruct ok; cbn [negb].
  2:{ eexists. split; [reflexivity|]. split; [done|]. intros (_ & _ & q & Hq & _). by destruct (Hf eq_refl q). }
  destruct (Ht eq_refl) as (q & Hk & Hq). rewrite (ecdsa_verify_spec ctx r s k q msg) by done. rewrite Vr, Vs.
  eexists. split; [reflexivity|]. rewrite andb_true_iff, Z.leb_le. split.
  - intros [H1 H2]. split; [done|]. split; [done|]. by exists q.
  - intros (_ & H1 & q' & Hq' & H2). split; [done|]. by rewrite (encodes_inj _ _ _ Hq Hq').
Qed.

(** ** Recovery *)

Lemma ecdsa_recover_spec q0 ctx pk r s v msg :
  good_ctx ctx -> scalar_ok r -> scalar_ok s -> 0 <= v < 256 -> is_b32 msg ->
  exists ok k, secp256k1_ecdsa_recover q0 ctx (Some pk) (Some (secp256k1_ecdsa_recoverable_signature_save r s v)) (Some msg)
      = returns ok (Some k) /\
    (ok = true -> exists q, is_key k q /\ recovers q (be_word msg mod N) (sval r) (sval s) v) /\
    (ok = false -> forall q, ~ recovers q (be_word msg mod N) (sval r) (sval s) v).
Proof.
  intros Hc Hr Hs Hv Hm. unfold secp256k1_ecdsa_recover, CHECKED, ARG_CHECK. rewrite verify_built by done.
  rewrite recoverable_roundtrip by (apply Hr || apply Hs || done).
  destruct (set_b32_scalar msg Hm) as (m & -> & Om & <-). cbn [fst].
  destruct (recover_spec (ecmult_ctx ctx) r s q0 m v (proj1 Hc) Hr Hs Om) as (ok & q' & -> & Ht & Hf). cbn [mbind option_bind].
  eexists ok, _. split; [reflexivity|]. split; [|done]. intros ->. destruct (Ht eq_refl) as (q & Hq & Hrec).
  exists q. split; [|done]. apply save_is_key; [done|by eapply recovers_on_curve|apply Hrec].
Qed.

(** The recovery number, the 65th byte. *)
Definition sig_v (sigdata : bytes) : Z := default 0 (sigdata !! 64%nat).

(** [q] is the key the 65 bytes and the message lead to. *)
Definition recovers_from (sigdata msg : bytes) (q : point) : Prop :=
  sig_r sigdata < N /\ sig_s sigdata < N /\
  recovers q (be_word msg mod N) (sig_r sigdata) (sig_s sigdata) (sig_v sigdata).

Lemma sig_v_byte sigdata : Forall is_byte sigdata -> 0 <= sig_v sigdata < 256.
Proof. intros Hb. unfold sig_v. destruct (sigdata !! 64%nat) as [b|] eqn:E; [exact (Forall_lookup_1 _ _ _ _ Hb E)|cbn; lia]. Qed.

Lemma ext_recover_illegal sig0 pk0 q0 ctx o sigdata msg :
  3 < sig_v sigdata ->
  secp256k1_ext_ecdsa_recover sig0 pk0 q0 ctx o sigdata msg = Some (mkResult false o ["recid >= 0 && recid <= 3"%string]).
Proof.
  intros Hv. unfold secp256k1_ext_ecdsa_recover, secp256k1_ecdsa_recoverable_signature_parse_compact, CHECKED, ARG_CHECK.
  fold (sig_v sigdata). destruct (Z.leb_spec (sig_v sigdata) 3); [lia|]. by rewrite andb_false_r.
Qed.

Lemma ext_recover_spec sig0 pk0 q0 ctx o sigdata msg :
  good_ctx ctx -> Forall is_byte sigdata -> length sigdata = 65%nat -> is_b32 msg -> length o = 65%nat -> sig_v sigdata <= 3 ->
  exists ok o', secp256k1_ext_ecdsa_recover sig0 pk0 q0 ctx o sigdata msg = returns ok o' /\
    (ok = true -> exists q, recovers_from sigdata msg q /\ o' = encode Uncompressed q) /\
    (ok = false -> o' = o /\ forall q, ~ recovers_from sigdata msg q).
Proof.
  intros Hc Hb Hl Hm Ho Hv3. assert (Hvb := sig_v_byte sigdata Hb).
  unfold secp256k1_ext_ecdsa_recover, secp256k1_ecdsa_recoverable_signature_parse_compact, CHECKED, ARG_CHECK.
  fold (sig_v sigdata). destruct (Z.geb_spec (sig_v sigdata) 0); [|lia]. destruct (Z.leb_spec (sig_v sigdata) 3); [|lia]. cbn [andb].
  destruct (compact_spec sigdata Hb ltac:(lia)) as (r & s & -> & Or & Os & Hv).
  cbn [mbind option_bind returns ret out illegal].
  destruct ((sig_r sigdata <? N) && (sig_s sigdata <? N)) eqn:E; cbn [negb].
  2:{ eexists _, _. split; [reflexivity|]. split; [done|]. intros _. split; [done|]. intros q (H1 & H2 & _).
      apply andb_false_iff in E as [E%Z.ltb_ge|E%Z.ltb_ge]; lia. }
  destruct (Hv eq_refl) as [Vr Vs]. apply andb_prop in E as [E0%Z.ltb_lt E1%Z.ltb_lt].
  destruct (ecdsa_recover_spec q0 ctx pk0 r s (sig_v sigdata) msg Hc Or Os Hvb Hm) as (ok & k & -> & Ht & Hf).
  rewrite Vr, Vs in Ht, Hf. cbn [mbind option_bind returns ret out illegal]. destruct ok; cbn [negb].
  2:{ eexists _, _. split; [reflexivity|]. split; [done|]. intros _. split; [done|]. intros q (_ & _ & Hq). by apply (Hf eq_refl q). }
  destruct (Ht eq_refl) as (q & Hk & Hq). change SECP256K1_EC_UNCOMPRESSED with (flags_of Uncompressed).
  rewrite (pubkey_serialize_spec o 65 k q Uncompressed) by (done || cbn [key_size]; lia).
  cbn [mbind option_bind returns ret out illegal fst default]. eexists true, _. split; [reflexivity|]. split; [|done].
  intros _. exists q. split; [done|]. cbn [key_size]. change (zeros (Z.to_nat (65 - 65))) with (@nil Z).
  rewrite drop_ge by (change (Z.to_nat 65) with 65%nat; lia). cbn [app]. unfold id. by rewrite app_nil_r.
Qed.

(** ** Conversion of keys *)

Lemma reencode_spec pk0 Q0 o outlen pub f :
  f <> Hybrid -> outlen = key_size f -> Forall is_byte pub -> Z.of_nat (length o) = outlen ->
  exists ok o', secp256k1_ext_reencode_pubkey pk0 Q0 o outlen pub (Z.of_nat (length pub)) = returns ok o' /\
    (ok = true -> exists p, encodes pub p /\ o' = encode f p) /\
    (ok = false -> o' = o /\ forall p, ~ encodes pub p).
Proof.
  intros Hf -> Hb Ho. unfold secp256k1_ext_reencode_pubkey.
  destruct (pubkey_parse_spec Q0 pk0 pub Hb) as (ok & k & -> & Ht & Hn). cbn [mbind option_bind returns ret out illegal].
  destruct ok; cbn [negb]; cycle 1.
  { eexists _, _. split; [reflexivity|]. split; [done|]. intros _. split; [done|]. by apply Hn. }
  destruct (Ht eq_refl) as (p & Hk & Hp). cbv zeta.
  replace (if key_size f =? 33 then SECP256K1_EC_COMPRESSED else SECP256K1_EC_UNCOMPRESSED) with (flags_of f) by (by destruct f).
  rewrite (pubkey_serialize_spec o (key_size f) k p f) by (done || lia).
  cbn [mbind option_bind returns ret out illegal fst default]. eexists true, _. split; [reflexivity|]. split; [|done].
  intros _. exists p. split; [done|]. rewrite Z.sub_diag. change (zeros (Z.to_nat 0)) with (@nil Z).
  rewrite drop_ge by lia. cbn [app]. unfold id. by rewrite app_nil_r.
Qed.

End ApiFacts.
