(* ===== verification/ApiSign.v ===== *)
(** * The interface on bytes: nonces, signing and key arithmetic *)

From Stdlib Require Import ZArith Lia List Zmod.
From stdpp Require Import base option list strings.
From S2P Require Import Prelude Words Fips Sha256 Sha256Facts Field FieldFacts FieldOps FieldExp Scalar ScalarFacts ScalarOps.
From S2P Require Import Curve CurveFacts GroupLaw GroupAssoc PointMul PointOrder Group GroupFacts GroupOps Points PointConv.
From S2P Require Import Ecmult EcmultFacts DoubleMul EcmultGen GenFacts Ecdsa EcdsaFacts Der Eckey Api ApiKeys ApiFacts.
Local Open Scope Z_scope.

Module ApiSign.
Import Sha256 Sha256Facts Field FieldFacts FieldOps FieldExp Scalar ScalarFacts ScalarOps Curve CurveFacts GroupLaw GroupAssoc PointMul PointOrder.
Import Group GroupFacts GroupOps Points PointConv Ecmult EcmultFacts DoubleMul EcmultGen GenFacts Ecdsa EcdsaFacts Eckey Api ApiKeys ApiFacts.

(** ** Nonces *)

(** The candidate after [n] that were rejected, RFC 6979, section 3.2, step h. *)
Fixpoint rfc6979_candidate (n : nat) (KV : bytes * bytes) : bytes :=
  let V := Fips.HMAC (fst KV) (snd KV) in
  match n with O => V | S n' => rfc6979_candidate n' (Fips.rfc6979_next (fst KV, V)) end.

Lemma next_word32 KV : word32 (fst (Fips.rfc6979_next KV)).
Proof. apply word32_hmac. Qed.

Lemma rounds_step n junk rng nonce :
  nonce_rounds (S n) junk rng nonce =
  nonce_rounds n junk (fst (secp256k1_rfc6979_hmac_sha256_generate junk rng 32)) (snd (secp256k1_rfc6979_hmac_sha256_generate junk rng 32)).
Proof. cbn [nonce_rounds]. by destruct (secp256k1_rfc6979_hmac_sha256_generate junk rng 32). Qed.

Lemma rounds_next n junk V K nonce :
  buffer junk -> word32 V -> word32 K ->
  nonce_rounds (S n) junk (mkRng V K 1) nonce = rfc6979_candidate n (Fips.rfc6979_next (K, V)).
Proof.
  intros Hj. revert V K nonce. induction n as [|n IH]; intros V K nonce HV HK; rewrite rounds_step;
    assert (Hg := generate_next junk V K Hj HV HK); assert (Hk := next_word32 (K, V));
    destruct (Fips.rfc6979_next (K, V)) as [K' V']; cbn [fst] in Hk; rewrite Hg; cbn [fst snd].
  - reflexivity.
  - rewrite IH by (exact Hk || apply word32_hmac). reflexivity.
Qed.

Lemma rounds_first n junk V K nonce :
  buffer junk -> word32 V -> word32 K -> nonce_rounds (S n) junk (mkRng V K 0) nonce = rfc6979_candidate n (K, V).
Proof.
  intros Hj HV HK. rewrite rounds_step, generate_first by done. cbn [fst snd]. destruct n as [|n]; [reflexivity|].
  rewrite rounds_next by (exact Hj || exact HK || apply word32_hmac). reflexivity.
Qed.

Lemma candidate_b32 n KV : is_b32 (rfc6979_candidate n KV).
Proof. revert KV. induction n as [|n IH]; intros KV; [apply word32_hmac|apply IH]. Qed.

(** What seeds the generator. *)
Definition nonce_seed (msg32 key32 : bytes) (algo16 data : option bytes) : bytes :=
  key32 ++ msg32 ++ default [] data ++ default [] algo16.

Definition sized (n : nat) (l : option bytes) : Prop :=
  match l with None => True | Some l => length l = n /\ Forall is_byte l end.

Lemma nonce_rfc6979_spec junk msg32 key32 algo16 data counter :
  buffer junk -> is_b32 msg32 -> is_b32 key32 -> sized 32 data -> sized 16 algo16 ->
  nonce_function_rfc6979 junk msg32 key32 algo16 data counter =
  Some (rfc6979_candidate (Z.to_nat counter) (Fips.rfc6979_seed (nonce_seed msg32 key32 algo16 data))).
Proof.
  intros Hj [Lm Bm] [Lk Bk] Hd Ha. unfold nonce_function_rfc6979. rewrite !take_ge by lia.
  assert (E : (match algo16 with
      | None => match data with None => key32 ++ msg32 | Some d => (key32 ++ msg32) ++ take 32 d end
      | Some a => match data with None => key32 ++ msg32 | Some d => (key32 ++ msg32) ++ take 32 d end ++ take 16 a
      end) = nonce_seed msg32 key32 algo16 data).
  { unfold nonce_seed. destruct algo16 as [a|], data as [d|]; cbn [default] in *; unfold id; rewrite ?take_ge by (cbn in *; lia);
      rewrite ?app_nil_r, <- ?app_assoc; done. }
  cbv zeta. rewrite E. clear E.
  assert (Hseed : Forall is_byte (nonce_seed msg32 key32 algo16 data) /\ (length (nonce_seed msg32 key32 algo16 data) <= 112)%nat).
  { unfold nonce_seed. rewrite !Forall_app, !length_app. destruct algo16 as [a|], data as [d|]; cbn [default sized length] in *; unfold id;
      split; try lia; split_and!; intuition. }
  destruct (rng_seed_spec junk (nonce_seed msg32 key32 algo16 data) Hj (proj1 Hseed)) as (Hok & Hkv & Hre); [lia|].
  destruct (secp256k1_rfc6979_hmac_sha256_initialize _ _) as [V K re]. cbn [k v retry] in *. subst re.
  rewrite rounds_first by (done || apply Hok). by rewrite Hkv.
Qed.

(** ** The signing loop *)

(** A nonce function that always answers with 32 bytes. *)
Definition answers (noncefp : secp256k1_nonce_function) (msg32 seckey : bytes) (data : option bytes) : Prop :=
  forall c, exists l, noncefp msg32 seckey None data c = Some l /\ is_b32 l.

(** What the attempt with the nonce [l] gives. *)
Definition attempt (d m : Z) (l : bytes) : option (Z * Z * Z) :=
  if valid_seckey l then ecdsa_sign d m (be_word l) else None.

Section Loop.
Context (gen : secp256k1_ecmult_gen_context) (noncefp : secp256k1_nonce_function).
Context (msg32 seckey : bytes) (data : option bytes) (sec msg : secp256k1_scalar) (recid : option Z).
Hypothesis Hgen : good_gen gen.
Hypothesis Hsec : scalar_ok sec.
Hypothesis Hmsg : scalar_ok msg.
Hypothesis Hans : answers noncefp msg32 seckey data.

(** The nonce of an attempt leads to a signature. *)
Definition succeeds (c : Z) : Prop :=
  exists l t, noncefp msg32 seckey None data c = Some l /\ attempt (sval sec) (sval msg) l = Some t.

(** The result is the one of the first attempt that succeeds. *)
Lemma sign_loop_spec n count :
  0 <= count -> count + Z.of_nat n < 2 ^ 32 -> succeeds (count + Z.of_nat n) ->
  exists fuel res c l t, (fuel <= S n)%nat /\
    (forall fuel', (fuel <= fuel')%nat -> sign_loop fuel' gen noncefp msg32 seckey data sec msg recid count = Some (Some res)) /\
    count <= c <= count + Z.of_nat n /\ (forall c', count <= c' < c -> ~ succeeds c') /\
    noncefp msg32 seckey None data c = Some l /\ attempt (sval sec) (sval msg) l = Some t /\ signed_as res recid (Some t).
Proof using All.
  revert count. induction n as [|n IH]; intros count Hc Hn Hs; (destruct (Hans count) as (l & El & Hl));
    destruct (seckey_test l Hl) as (non & En & On & _ & Et & Hv).
  all: assert (Hstep : forall t, attempt (sval sec) (sval msg) l = Some t -> exists res, signed_as res recid (Some t) /\
    forall fuel', (1 <= fuel')%nat -> sign_loop fuel' gen noncefp msg32 seckey data sec msg recid count = Some (Some res)).
  1,3: intros t Ht; unfold attempt in Ht; destruct (valid_seckey l); [|done]; destruct (Hv eq_refl) as [Ev Hr];
    destruct (sign_spec gen sec msg non recid Hgen Hsec Hmsg On ltac:(lia)) as (res & Es & Hres);
    rewrite Ev, Ht in Hres; exists res; split; [exact Hres|]; intros [|fuel'] Hf; [lia|];
    cbn [sign_loop]; rewrite El, En, Et, Es; cbn [mbind option_bind]; destruct t as [[r s] v];
    destruct Hres as (-> & _); done.
  - rewrite Z.add_0_r in Hs. destruct Hs as (l' & t & El' & Ht). rewrite El in El'. injection El' as <-.
    destruct (Hstep t Ht) as (res & Hres & Hf). exists 1%nat, res, count, l, t. split_and!; try done; lia.
  - destruct (attempt (sval sec) (sval msg) l) as [t|] eqn:Ht.
    { destruct (Hstep t eq_refl) as (res & Hres & Hf). exists 1%nat, res, count, l, t. split_and!; try done; lia. }
    clear Hstep. destruct (IH (count + 1)) as (fuel & res & c & l' & t & Hf & Hrun & Hc' & Hmin & El' & Ht' & Hres); [lia|lia| |].
    { by replace (count + 1 + Z.of_nat n) with (count + Z.of_nat (S n)) by lia. }
    exists (S fuel), res, c, l', t. split; [lia|]. split; [|split; [lia|split; [|done]]].
    + intros [|fuel'] Hf'; [lia|]. cbn [sign_loop]. rewrite El, En, Et, wrap_small by lia.
      destruct (valid_seckey l) eqn:Evl; [|apply Hrun; lia]. destruct (Hv eq_refl) as [Ev Hr].
      destruct (sign_spec gen sec msg non recid Hgen Hsec Hmsg On ltac:(lia)) as (res' & -> & Hres').
      unfold attempt in Ht. rewrite Evl in Ht. rewrite Ev, Ht in Hres'. cbn [mbind option_bind]. cbn in Hres'. rewrite Hres'.
      apply Hrun. lia.
    + intros c' Hc''. destruct (decide (c' = count)) as [->|Hne]; [|apply Hmin; lia].
      intros (l'' & t'' & E1 & E2). rewrite El in E1. injection E1 as <-. congruence.
Qed.

End Loop.

(** ** Signing *)

(** The nonce function in use. *)
Definition nonce_fn (junk : bytes) (noncefp : option secp256k1_nonce_function) : secp256k1_nonce_function :=
  default (nonce_function_rfc6979 junk) noncefp.

(** The attempt [c] at signing [msg32] with [seckey] gives [t]. *)
Definition attempt_gives (noncefp : secp256k1_nonce_function) (msg32 seckey : bytes) (data : option bytes) (c : Z) (t : Z * Z * Z) : Prop :=
  exists l, noncefp msg32 seckey None data c = Some l /\ attempt (be_word seckey) (be_word msg32 mod N) l = Some t.

(** [t] is the signature of the first attempt that gives one. *)
Definition signs (noncefp : secp256k1_nonce_function) (msg32 seckey : bytes) (data : option bytes) (t : Z * Z * Z) : Prop :=
  exists c, 0 <= c /\ attempt_gives noncefp msg32 seckey data c t /\
    forall c' t', 0 <= c' < c -> ~ attempt_gives noncefp msg32 seckey data c' t'.

Lemma sign_with_spec fuel junk gen noncefp msg32 seckey data recid n t0 :
  good_gen gen -> is_b32 msg32 -> is_b32 seckey -> valid_seckey seckey = true ->
  answers (nonce_fn junk noncefp) msg32 seckey data ->
  Z.of_nat n < 2 ^ 32 -> attempt_gives (nonce_fn junk noncefp) msg32 seckey data (Z.of_nat n) t0 -> (n < fuel)%nat ->
  exists res t, sign_with fuel junk gen noncefp msg32 seckey data recid = Some (Some res) /\
    signs (nonce_fn junk noncefp) msg32 seckey data t /\ signed_as res recid (Some t).
Proof.
  intros Hg Hm Hs Hv Hans Hn Ha Hf. unfold sign_with. fold (nonce_fn junk noncefp).
  destruct (seckey_test seckey Hs) as (sec & -> & Os & _ & -> & Hvs). rewrite Hv. destruct (Hvs Hv) as [Es _].
  destruct (set_b32_scalar msg32 Hm) as (msg & -> & Om & Em). cbn [fst].
  destruct (sign_loop_spec gen (nonce_fn junk noncefp) msg32 seckey data sec msg recid Hg Os Om Hans n 0) as
    (fuel0 & res & c & l & t & Hf0 & Hrun & Hc & Hmin & El & Ht & Hres); [lia|lia| |].
  { destruct Ha as (l & El & Ht). exists l, t0. by rewrite Es, Em. }
  rewrite Es, Em in Ht. exists res, t. split; [apply Hrun; lia|]. split; [|done].
  exists c. split; [lia|]. split; [by exists l|]. intros c' t' Hc' (l' & El' & Ht'). apply (Hmin c'); [lia|].
  exists l', t'. by rewrite Es, Em.
Qed.

(** What is known of such a signature. *)
Lemma signs_valid noncefp msg32 seckey data r s v :
  signs noncefp msg32 seckey data (r, s, v) -> is_b32 seckey -> valid_seckey seckey = true ->
  0 <= r < N /\ 0 < s <= N / 2 /\ 0 <= v <= 3 /\
  (r <> 0 -> ecdsa_valid (smul (be_word seckey) G) (be_word msg32 mod N) r s = true /\
    recovers (smul (be_word seckey) G) (be_word msg32 mod N) r s v).
Proof.
  intros (c & _ & (l & _ & Ha) & _) Hs Hv. unfold attempt in Ha. destruct (valid_seckey l) eqn:Hl; [|done].
  unfold valid_seckey in Hl, Hv. apply andb_prop in Hl as [Hl1%Z.ltb_lt Hl2%Z.ltb_lt]. apply andb_prop in Hv as [Hv1%Z.ltb_lt Hv2%Z.ltb_lt].
  destruct (sign_inv _ _ _ _ _ _ (conj Hl1 Hl2) Ha) as (b & x & y & _ & _ & Er & Hs0 & Hs1 & _ & Ev).
  assert (Hr : 0 <= r < N) by (rewrite Er; by apply Z.mod_pos_bound).
  split; [done|]. split; [lia|]. split.
  { rewrite Ev. destruct b, (N <=? Zmod.to_Z x), (mod2_cases (Zmod.to_Z y)) as [-> | ->]; vm_compute; split; congruence. }
  intros Hr0. split; [by apply (sign_valid _ _ (be_word l) _ _ v)|]. apply (sign_recovers _ _ (be_word l)); [done| |done|done].
  intros E%sc_eq. rewrite Z.mod_small in E by lia. change (0 mod N) with 0 in E. lia.
Qed.

(** The bytes of the pair [(r, s)]. *)
Definition compact (r s : Z) : bytes := be_bytes 32 r ++ be_bytes 32 s.

Lemma compact_written o r s :
  limbs_ok r -> limbs_ok s -> (64 <= length o)%nat ->
  memcpy (memcpy o 0 (secp256k1_scalar_get_b32 r)) 32 (secp256k1_scalar_get_b32 s) = compact (sval r) (sval s) ++ drop 64 o.
Proof.
  intros Hr Hs Ho. rewrite !scalar_get_b32_spec by done. unfold compact.
  rewrite (memcpy_after [] 0 o o) by (done || lia). cbn [app].
  rewrite (memcpy_after (be_bytes 32 (sval r)) 32 _ o) by (rewrite ?length_be_bytes; done || lia).
  by rewrite length_app, !length_be_bytes.
Qed.

Lemma length_compact r s : length (compact r s) = 64%nat.
Proof. unfold compact. by rewrite length_app, !length_be_bytes. Qed.

Lemma compact_bytes r s : Forall is_byte (compact r s).
Proof. apply Forall_app. split; apply be_bytes_range. Qed.

Lemma compact_r r s rest : 0 <= r < N -> sig_r (compact r s ++ rest) = r.
Proof.
  intros Hr. unfold sig_r, b32_at, compact. rewrite drop_0, <- app_assoc. rewrite <- (length_be_bytes 32 r) at 1.
  rewrite take_app_length, be_word_bytes. apply Z.mod_small. change (256 ^ Z.of_nat 32) with (2 ^ 256). unfold N in Hr. lia.
Qed.

Lemma compact_s r s rest : 0 <= s < N -> sig_s (compact r s ++ rest) = s.
Proof.
  intros Hs. unfold sig_s, b32_at, compact. rewrite <- app_assoc.
  assert (Hd : drop 32 (be_bytes 32 r ++ be_bytes 32 s ++ rest) = be_bytes 32 s ++ rest).
  { rewrite <- (length_be_bytes 32 r) at 1. apply drop_app_length. }
  rewrite Hd. rewrite <- (length_be_bytes 32 s) at 1.
  rewrite take_app_length, be_word_bytes. apply Z.mod_small. change (256 ^ Z.of_nat 32) with (2 ^ 256). unfold N in Hs. lia.
Qed.

Lemma compact_v r s v : sig_v (compact r s ++ [v]) = v.
Proof. unfold sig_v. rewrite lookup_app_r by (rewrite length_compact; lia). by rewrite length_compact. Qed.

Lemma serialize_recoverable o recid1 r s v :
  limbs_ok r -> limbs_ok s -> 0 <= v <= 3 -> (64 <= length o)%nat ->
  secp256k1_ecdsa_recoverable_signature_serialize_compact (Some o) (Some recid1)
    (Some (secp256k1_ecdsa_recoverable_signature_save r s v)) = returns true (Some (compact (sval r) (sval s) ++ drop 64 o), Some v).
Proof.
  intros Hr Hs Hv Ho. unfold secp256k1_ecdsa_recoverable_signature_serialize_compact, CHECKED.
  rewrite recoverable_roundtrip by (done || lia). cbv zeta. by rewrite compact_written.
Qed.

Lemma sign_recoverable_spec fuel junk recid0 ctx sig0 msg32 seckey noncefp data n t0 :
  good_ctx ctx -> is_b32 msg32 -> is_b32 seckey -> valid_seckey seckey = true ->
  answers (nonce_fn junk noncefp) msg32 seckey data ->
  Z.of_nat n < 2 ^ 32 -> attempt_gives (nonce_fn junk noncefp) msg32 seckey data (Z.of_nat n) t0 -> (n < fuel)%nat ->
  exists r s v, secp256k1_ecdsa_sign_recoverable fuel junk recid0 ctx (Some sig0) (Some msg32) (Some seckey) noncefp data =
      returns true (Some (secp256k1_ecdsa_recoverable_signature_save r s v)) /\
    scalar_ok r /\ scalar_ok s /\ signs (nonce_fn junk noncefp) msg32 seckey data (sval r, sval s, v).
Proof.
  intros Hc Hm Hs Hv Hans Hn Ha Hf. unfold secp256k1_ecdsa_sign_recoverable, CHECKED, ARG_CHECK. rewrite sign_built by done.
  destruct (sign_with_spec fuel junk (ecmult_gen_ctx ctx) noncefp msg32 seckey data (Some recid0) n t0 (proj2 Hc) Hm Hs Hv Hans Hn Ha Hf)
    as (res & [[r s] v] & -> & Hsg & Hres). cbn [mbind option_bind]. destruct Hres as (_ & Or & Os & Vr & Vs & Ev).
  exists (Ecdsa.sigr res), (Ecdsa.sigs res), v. rewrite Ev, Vr, Vs. cbn [option_map default]. unfold id. done.
Qed.

End ApiSign.
