(* ===== verification/ApiProps.v ===== *)
(** * Properties of the interface

    Verification, recovery, signing, conversion and tweaking of keys and the
    contexts, as the functions that the Go package calls behave on bytes. *)

From Stdlib Require Import ZArith Lia List Ring Zmod.
From stdpp Require Import base option list strings.
From S2P Require Import Prelude Words Fips Sha256 Sha256Facts Field FieldFacts FieldOps FieldExp Scalar ScalarFacts ScalarOps ScalarExp.
From S2P Require Import Curve CurveFacts GroupLaw GroupAssoc PointMul PointOrder Group GroupFacts GroupOps Points PointConv.
From S2P Require Import Ecmult EcmultFacts DoubleMul EcmultGen GenFacts Ecdsa EcdsaFacts Der Eckey Api ApiKeys ApiFacts ApiSign.
Local Open Scope Z_scope.

Module ApiProps.
Import Sha256 Sha256Facts Field FieldFacts FieldOps FieldExp Scalar ScalarFacts ScalarOps ScalarExp Curve CurveFacts GroupLaw GroupAssoc PointMul PointOrder.
Import Group GroupFacts GroupOps Points PointConv Ecmult EcmultFacts DoubleMul EcmultGen GenFacts Ecdsa EcdsaFacts Eckey Api ApiKeys ApiFacts ApiSign.

(** ** A signature to try them on *)

(** The key 1 signs the message 0 with the nonce 1. *)
Definition one32 : bytes := be_bytes 32 1.
Definition gx0 : Z := 0x79BE667EF9DCBBAC55A06295CE870B07029BFCDB2DCE28D959F2815B16F81798.

Lemma G_abscissa : exists y, G = Affine (fe gx0) y /\ Zmod.to_Z y mod 2 = 0.
Proof. eexists. split; [reflexivity|vm_compute; reflexivity]. Qed.

Lemma toy_sign : ecdsa_sign 1 0 1 = Some (gx0, gx0, 0).
Proof. vm_compute. reflexivity. Qed.

Lemma toy_valid : ecdsa_valid G 0 gx0 gx0 = true.
Proof. rewrite <- (smul_1 G). apply (sign_valid 1 0 1 gx0 gx0 0); [done|exact toy_sign|done]. Qed.

Lemma toy_recovers : recovers G 0 gx0 gx0 0.
Proof.
  rewrite <- (smul_1 G). apply (sign_recovers 1 0 1); [done| |exact toy_sign|done].
  intros E%sc_eq. vm_compute in E. discriminate.
Qed.

(** The numbers the bytes are read as. *)
Lemma toy_r : sig_r (compact gx0 gx0) = gx0.
Proof. vm_compute. reflexivity. Qed.
Lemma toy_s : sig_s (compact gx0 gx0) = gx0.
Proof. vm_compute. reflexivity. Qed.
Lemma toy_rv : sig_r (compact gx0 gx0 ++ [0]) = gx0.
Proof. vm_compute. reflexivity. Qed.
Lemma toy_sv : sig_s (compact gx0 gx0 ++ [0]) = gx0.
Proof. vm_compute. reflexivity. Qed.
Lemma toy_v : sig_v (compact gx0 gx0 ++ [0]) = 0.
Proof. vm_compute. reflexivity. Qed.

Lemma zeros_bytes n : Forall is_byte (zeros n).
Proof. apply Forall_forall. intros x Hx%list_elem_of_In%repeat_spec. subst. done. Qed.

Lemma junk_buffer : buffer (zeros 64).
Proof. split; [reflexivity|apply zeros_bytes]. Qed.

Lemma one32_b32 : is_b32 one32.
Proof. split; [apply length_be_bytes|apply be_bytes_range]. Qed.

Lemma zeros_b32 : is_b32 (zeros 32).
Proof. split; [reflexivity|apply zeros_bytes]. Qed.

Lemma zero_word : be_word (zeros 32) mod N = 0.
Proof. reflexivity. Qed.

Definition gen_zero : secp256k1_ecmult_gen_context :=
  mkGenContext None (secp256k1_scalar_set_int 0) secp256k1_gej_clear.

Definition ge_zero : secp256k1_ge := mkGe secp256k1_fe_clear secp256k1_fe_clear 0.

Lemma G_encoded f : encodes (encode f G) G.
Proof. split; [discriminate|]. split; [apply G_on_curve|]. by exists f. Qed.

Lemma encode_bytes f p : Forall is_byte (encode f p).
Proof.
  destruct p as [|x y]; [constructor|]. assert (Hp := parity_cases y).
  destruct f; cbn [encode]; (constructor; [unfold is_byte; lia|]); rewrite ?Forall_app; auto using be_bytes_range.
Qed.

(** ** Verification *)

(** C3: On a context for verification, any 64 bytes as the signature, 32 bytes
    as the message and any bytes as the key, [secp256k1_ext_ecdsa_verify]
    returns without reporting an error, and answers 1 exactly when the first
    number is below the group order, the second one in the lower half, the key
    is an encoding of a point of the curve and the signature is valid under
    this point by the definition of ECDSA. *)
Theorem ext_ecdsa_verify_decides (sig0 pk0 : bytes) (Q0 : secp256k1_ge) (ctx : secp256k1_context) (sigdata msg pub : bytes) :
  good_ctx ctx -> Forall is_byte sigdata -> length sigdata = 64%nat -> is_b32 msg -> Forall is_byte pub ->
  exists b, secp256k1_ext_ecdsa_verify sig0 pk0 Q0 ctx sigdata msg pub (Z.of_nat (length pub)) = returns b tt /\
    (b = true <-> sig_r sigdata < N /\ sig_s sigdata <= N / 2 /\
      exists q, encodes pub q /\ ecdsa_valid q (be_word msg mod N) (sig_r sigdata) (sig_s sigdata) = true).
Proof. intros Hc Hb Hl. apply ext_verify_spec; [done|done|lia]. Qed.

Lemma ext_ecdsa_verify_decides_witness :
  exists ctx, secp256k1_ext_ecdsa_verify [] [] ge_zero ctx (compact gx0 gx0) (zeros 32) (encode Compressed G) 33 = returns true tt.
Proof.
  destruct (create_good 0 (zeros 64) gen_zero junk_buffer) as (ctx & _ & Hc). exists ctx.
  destruct (ext_ecdsa_verify_decides [] [] ge_zero ctx (compact gx0 gx0) (zeros 32) (encode Compressed G) Hc
    (compact_bytes _ _) (length_compact _ _) zeros_b32 (encode_bytes _ _)) as (b & E & Hb).
  rewrite toy_r, toy_s in Hb.
  assert (b = true) as -> by (apply Hb; rewrite zero_word; split; [reflexivity|]; split; [discriminate|]; exists G; split; [apply G_encoded|exact toy_valid]).
  exact E.
Defined.

(** ** Recovery *)

(** C7: On a context for verification, any 65 bytes as the signature with its
    recovery number and 32 bytes as the message: a recovery number above 3 is
    reported to the illegal callback; otherwise nothing is reported and
    [secp256k1_ext_ecdsa_recover] answers 1 exactly when the signature leads to
    a key, which it then writes in the uncompressed encoding. There is at most
    one such key, it is a point of the curve, and the signature is valid under
    it. *)
Theorem ext_ecdsa_recover_decides (sig0 pk0 : bytes) (q0 : secp256k1_ge) (ctx : secp256k1_context) (o sigdata msg : bytes) :
  good_ctx ctx -> Forall is_byte sigdata -> length sigdata = 65%nat -> is_b32 msg -> length o = 65%nat ->
  if 3 <? sig_v sigdata then
    secp256k1_ext_ecdsa_recover sig0 pk0 q0 ctx o sigdata msg = Some (mkResult false o ["recid >= 0 && recid <= 3"%string])
  else exists ok o', secp256k1_ext_ecdsa_recover sig0 pk0 q0 ctx o sigdata msg = returns ok o' /\
    (ok = true -> exists q, o' = encode Uncompressed q /\ recovers_from sigdata msg q /\
      (forall q', recovers_from sigdata msg q' -> q' = q) /\ on_curve q /\ q <> Infinity /\
      ecdsa_valid q (be_word msg mod N) (sig_r sigdata) (sig_s sigdata) = true) /\
    (ok = false -> o' = o /\ forall q, ~ recovers_from sigdata msg q).
Proof.
  intros Hc Hb Hl Hm Ho. destruct (Z.ltb_spec 3 (sig_v sigdata)); [by apply ext_recover_illegal|].
  destruct (ext_recover_spec sig0 pk0 q0 ctx o sigdata msg) as (ok & o' & E & Ht & Hf); [done..|].
  exists ok, o'. split; [done|]. split; [|done]. intros Hok. destruct (Ht Hok) as (q & Hq & Eo). exists q.
  split; [done|]. split; [done|]. destruct Hq as (Hr & Hs & Hq).
  assert (R0 := be_word_range _ (proj2 (b32_at_b32 sigdata 0 Hb ltac:(lia)))).
  assert (R1 := be_word_range _ (proj2 (b32_at_b32 sigdata 32 Hb ltac:(lia)))).
  split; [intros q' (_ & _ & Hq'); by eapply recovers_unique|]. split; [by eapply recovers_on_curve|]. split; [apply Hq|].
  apply (recovers_valid q _ _ _ (sig_v sigdata)); [|..|exact Hq]; unfold sig_r, sig_s in *; lia.
Qed.

Lemma ext_ecdsa_recover_decides_witness :
  exists ctx, secp256k1_ext_ecdsa_recover [] [] ge_zero ctx (zeros 65) (compact gx0 gx0 ++ [0]) (zeros 32) =
    returns true (encode Uncompressed G).
Proof.
  destruct (create_good 0 (zeros 64) gen_zero junk_buffer) as (ctx & _ & Hc). exists ctx.
  assert (Hb : Forall is_byte (compact gx0 gx0 ++ [0])) by (apply Forall_app; split; [apply compact_bytes|repeat constructor; done]).
  assert (H := ext_ecdsa_recover_decides [] [] ge_zero ctx (zeros 65) (compact gx0 gx0 ++ [0]) (zeros 32) Hc Hb eq_refl zeros_b32 eq_refl).
  rewrite toy_v in H. destruct H as (ok & o' & E & Ht & Hf).
  assert (HG : recovers_from (compact gx0 gx0 ++ [0]) (zeros 32) G).
  { unfold recovers_from. rewrite toy_rv, toy_sv, toy_v, zero_word. split; [reflexivity|]. split; [reflexivity|exact toy_recovers]. }
  destruct ok; [|by destruct (proj2 (Hf eq_refl) G)]. destruct (Ht eq_refl) as (q & -> & _ & Hu & _).
  rewrite <- (Hu G HG) in E. exact E.
Defined.

(** ** Signing *)

(** C4: With a good context, a secret key between 1 and the order less one, and
    a nonce function that answers with 32 bytes, of which the attempt [n] is the
    nonce of a signature, the signing loop ends within [n + 1] rounds and
    [secp256k1_ecdsa_sign_recoverable] returns the signature of the first such
    attempt. Written in the compact form its second number is in the lower
    half, [secp256k1_ext_ecdsa_verify] accepts it under every encoding of the
    key's point and [secp256k1_ext_ecdsa_recover] recovers this point from it,
    unless its first number is zero, which the signing code does not exclude. *)
Theorem sign_verify_recover (fuel n : nat) (junk : bytes) (recid0 recid1 : Z) (ctx : secp256k1_context)
    (sig0 msg seckey o : bytes) (noncefp : option secp256k1_nonce_function) (data : option bytes) (t : Z * Z * Z)
    (v0 p0 : bytes) (q0 : secp256k1_ge) :
  good_ctx ctx -> is_b32 msg -> is_b32 seckey -> valid_seckey seckey = true ->
  answers (nonce_fn junk noncefp) msg seckey data ->
  Z.of_nat n < 2 ^ 32 -> attempt_gives (nonce_fn junk noncefp) msg seckey data (Z.of_nat n) t -> (n < fuel)%nat ->
  length o = 65%nat ->
  exists sig r s v,
    secp256k1_ecdsa_sign_recoverable fuel junk recid0 ctx (Some sig0) (Some msg) (Some seckey) noncefp data = returns true (Some sig) /\
    signs (nonce_fn junk noncefp) msg seckey data (r, s, v) /\
    secp256k1_ecdsa_recoverable_signature_serialize_compact (Some o) (Some recid1) (Some sig) =
      returns true (Some (compact r s ++ drop 64 o), Some v) /\
    s <= N / 2 /\
    (r <> 0 ->
      let key := smul (be_word seckey) G in
      (forall f, secp256k1_ext_ecdsa_verify v0 p0 q0 ctx (compact r s) msg (encode f key) (Z.of_nat (length (encode f key))) = returns true tt) /\
      (forall o', length o' = 65%nat ->
        secp256k1_ext_ecdsa_recover v0 p0 q0 ctx o' (compact r s ++ [v]) msg = returns true (encode Uncompressed key))).
Proof.
  intros Hc Hm Hs Hv Hans Hn Ha Hf Lo.
  destruct (sign_recoverable_spec fuel junk recid0 ctx sig0 msg seckey noncefp data n t) as (r & s & v & E & Or & Os & Hsg); [done..|].
  destruct (signs_valid _ _ _ _ _ _ _ Hsg Hs Hv) as (Rr & Rs & Rv & Hval).
  eexists _, (sval r), (sval s), v. split; [exact E|]. split; [done|].
  split; [apply serialize_recoverable; [apply Or|apply Os|done|lia]|]. split; [lia|]. intros Hr0. cbv zeta.
  destruct (Hval Hr0) as [Hvalid Hrec]. assert (HN : N / 2 < N) by done. set (key := smul (be_word seckey) G) in *.
  assert (Hkey : forall f, encodes (encode f key) key).
  { intros f. split; [apply Hrec|]. split; [apply smul_on_curve, G_on_curve|by exists f]. }
  split.
  - intros f. destruct (ext_verify_spec v0 p0 q0 ctx (compact (sval r) (sval s)) msg (encode f key) Hc (compact_bytes _ _)
      ltac:(rewrite length_compact; lia) Hm (encode_bytes _ _)) as (b & -> & Hb).
    rewrite <- (app_nil_r (compact (sval r) (sval s))), compact_r, compact_s in Hb by lia.
    assert (b = true) as -> by (apply Hb; split; [lia|]; split; [lia|]; by exists key). done.
  - intros o' Lo'. assert (Hsd : Forall is_byte (compact (sval r) (sval s) ++ [v])).
    { apply Forall_app. split; [apply compact_bytes|]. constructor; [unfold is_byte; lia|constructor]. }
    destruct (ext_recover_spec v0 p0 q0 ctx o' (compact (sval r) (sval s) ++ [v]) msg Hc Hsd) as (ok & o'' & -> & Ht & Hfl).
    { rewrite length_app, length_compact. done. } { done. } { done. } { rewrite compact_v. lia. }
    assert (HG : recovers_from (compact (sval r) (sval s) ++ [v]) msg key).
    { unfold recovers_from. rewrite compact_r, compact_s, compact_v by lia. split; [lia|]. split; [lia|done]. }
    destruct ok; [|by destruct (proj2 (Hfl eq_refl) key)]. destruct (Ht eq_refl) as (q & Hq & ->).
    by rewrite (recovers_unique q key _ _ _ _ (proj2 (proj2 Hq)) (proj2 (proj2 HG))).
Qed.

Definition nonce_one : secp256k1_nonce_function := fun _ _ _ _ _ => Some one32.

Lemma sign_verify_recover_witness :
  exists ctx sig, secp256k1_ecdsa_sign_recoverable 1 (zeros 64) 0 ctx (Some []) (Some (zeros 32)) (Some one32) (Some nonce_one) None =
    returns true (Some sig).
Proof.
  destruct (create_good 0 (zeros 64) gen_zero junk_buffer) as (ctx & _ & Hc). exists ctx.
  assert (E1 : be_word one32 = 1) by (vm_compute; reflexivity).
  destruct (sign_verify_recover 1 0 (zeros 64) 0 0 ctx [] (zeros 32) one32 (zeros 65) (Some nonce_one) None (gx0, gx0, 0) [] [] ge_zero)
    as (sig & r & s & v & E & _).
  - exact Hc.
  - exact zeros_b32.
  - exact one32_b32.
  - vm_compute. reflexivity.
  - intros c. exists one32. split; [reflexivity|exact one32_b32].
  - reflexivity.
  - exists one32. split; [reflexivity|]. unfold attempt. rewrite E1, zero_word.
    replace (valid_seckey one32) with true by (vm_compute; reflexivity). exact toy_sign.
  - lia.
  - reflexivity.
  - exists sig. exact E.
Defined.

Lemma b32_octets l : is_b32 l -> Fips.int2octets (be_word l) = l.
Proof. intros [Hl Hb]. unfold Fips.int2octets. rewrite <- Hl. by apply be_bytes_word. Qed.

Lemma b32_word l : is_b32 l -> 0 <= be_word l < 2 ^ 256.
Proof. intros [Hl Hb]. assert (H := be_word_range l Hb). rewrite Hl in H. exact H. Qed.

Lemma bits2octets_low l : is_b32 l -> be_word l < N -> Fips.bits2octets N l = l.
Proof.
  intros Hl Hlt. unfold Fips.bits2octets. rewrite Z.mod_small by (assert (H := b32_word l Hl); lia).
  by apply b32_octets.
Qed.

Lemma bits2octets_high l : is_b32 l -> N <= be_word l -> Fips.bits2octets N l <> l.
Proof.
  intros Hl Hge E. assert (Hw := b32_word l Hl). apply (f_equal be_word) in E.
  unfold Fips.bits2octets, Fips.int2octets in E. rewrite be_word_bytes in E.
  assert (Hm := Z.mod_pos_bound (be_word l) N ltac:(done)). change (256 ^ Z.of_nat 32) with (2 ^ 256) in E.
  assert (N < 2 ^ 256) by done. rewrite (Z.mod_small _ (2 ^ 256)) in E; lia.
Qed.

(** C29: The default nonce of attempt [counter], for a message below the group
    order, is the candidate of RFC 6979 for the key, the message and the
    optional data and algorithm name after [counter] rejected ones, whatever the
    uninitialised memory holds. The standard reduces the message modulo the
    order before it seeds the generator and the code does not: for a message
    that is not below the order, the nonce is the candidate of the generator
    seeded with the message as it is, and this is another seed than the
    standard's. *)
Theorem nonce_is_rfc6979 (junk msg32 key32 : bytes) (algo16 data : option bytes) (counter : Z) :
  buffer junk -> is_b32 msg32 -> is_b32 key32 -> sized 32 data -> sized 16 algo16 -> 0 <= counter < 2 ^ 32 - 1 ->
  let nonce := nonce_function_rfc6979 junk msg32 key32 algo16 data counter in
  let extra := default [] data ++ default [] algo16 in
  (be_word msg32 < N ->
     nonce = Some (rfc6979_candidate (Z.to_nat counter)
       (Fips.rfc6979_seed (Fips.rfc6979_input N (be_word key32) msg32 extra)))) /\
  (N <= be_word msg32 ->
     nonce = Some (rfc6979_candidate (Z.to_nat counter)
       (Fips.rfc6979_seed (Fips.int2octets (be_word key32) ++ msg32 ++ extra))) /\
     Fips.int2octets (be_word key32) ++ msg32 ++ extra <> Fips.rfc6979_input N (be_word key32) msg32 extra).
Proof.
  intros Hj Hm Hk Hd Ha _. cbv zeta. rewrite nonce_rfc6979_spec by done. unfold Fips.rfc6979_input, nonce_seed.
  rewrite b32_octets by done. split; intros Hw; [by rewrite bits2octets_low|]. split; [done|].
  intros E%app_inv_head%app_inv_tail. by apply (bits2octets_high msg32 Hm Hw).
Qed.

Lemma nonce_is_rfc6979_witness :
  nonce_function_rfc6979 (zeros 64) (zeros 32) one32 None None 0 = nonce_function_rfc6979 (repeat 255 64) (zeros 32) one32 None None 0.
Proof.
  assert (Hj : buffer (repeat 255 64)) by (split; [reflexivity|]; repeat constructor; (vm_compute; congruence)).
  assert (H0 : be_word (zeros 32) < N) by (vm_compute; reflexivity).
  transitivity (Some (rfc6979_candidate (Z.to_nat 0)
    (Fips.rfc6979_seed (Fips.rfc6979_input N (be_word one32) (zeros 32) (default [] None ++ default [] None))))).
  - exact (proj1 (nonce_is_rfc6979 (zeros 64) (zeros 32) one32 None None 0 junk_buffer zeros_b32 one32_b32 I I ltac:(lia)) H0).
  - symmetry.
    exact (proj1 (nonce_is_rfc6979 (repeat 255 64) (zeros 32) one32 None None 0 Hj zeros_b32 one32_b32 I I ltac:(lia)) H0).
Defined.

(** ** Keys *)

(** C21: [secp256k1_ext_reencode_pubkey] converts exactly the encodings of points
    of the curve (compressed, uncompressed or hybrid), writes the encoding of
    the same point in the format the length of the output asks for, and leaves
    the output alone otherwise; converting its output again gives the same
    point, so compressing and decompressing are inverse to each other. *)
Theorem reencode_roundtrip (pk0 : bytes) (Q0 : secp256k1_ge) (o pub : bytes) (f : format) :
  f <> Hybrid -> Forall is_byte pub -> Z.of_nat (length o) = key_size f ->
  exists ok o', secp256k1_ext_reencode_pubkey pk0 Q0 o (key_size f) pub (Z.of_nat (length pub)) = returns ok o' /\
    (ok = false -> o' = o /\ forall p, ~ encodes pub p) /\
    (ok = true -> exists p, encodes pub p /\ o' = encode f p /\
      forall g o2, g <> Hybrid -> Z.of_nat (length o2) = key_size g ->
        secp256k1_ext_reencode_pubkey pk0 Q0 o2 (key_size g) o' (Z.of_nat (length o')) = returns true (encode g p)).
Proof.
  intros Hf Hb Ho. destruct (reencode_spec pk0 Q0 o (key_size f) pub f) as (ok & o' & E & Ht & Hn); [done..|].
  exists ok, o'. split; [done|]. split; [done|]. intros Hok. destruct (Ht Hok) as (p & Hp & ->). exists p. split; [done|]. split; [done|].
  intros g o2 Hg Ho2. destruct (reencode_spec pk0 Q0 o2 (key_size g) (encode f p) g) as (ok' & o3 & -> & Ht' & Hn');
    [done|done|apply encode_bytes|done|].
  assert (He : encodes (encode f p) p) by (split; [apply Hp|]; split; [apply Hp|by exists f]).
  destruct ok'; [|by destruct (proj2 (Hn' eq_refl) p)]. destruct (Ht' eq_refl) as (p' & Hp' & ->). by rewrite (encodes_inj _ _ _ Hp' He).
Qed.

Lemma reencode_roundtrip_witness :
  secp256k1_ext_reencode_pubkey [] ge_zero (zeros 65) 65 (encode Compressed G) 33 = returns true (encode Uncompressed G).
Proof.
  destruct (reencode_roundtrip [] ge_zero (zeros 65) (encode Compressed G) Uncompressed) as (ok & o' & E & Hf & Ht);
    [discriminate|apply encode_bytes|reflexivity|].
  destruct ok; [|by destruct (proj2 (Hf eq_refl) G (G_encoded _))]. destruct (Ht eq_refl) as (p & Hp & Eo & _).
  rewrite (encodes_inj _ _ _ Hp (G_encoded Compressed)) in Eo. subst o'. exact E.
Defined.

(** The tweak functions on scalars and points. *)
Lemma tweak_scalars seckey tweak :
  is_b32 seckey -> is_b32 tweak -> valid_seckey seckey = true ->
  exists sec term, secp256k1_scalar_set_b32 tweak = (term, b2z (N <=? be_word tweak)) /\
    fst (secp256k1_scalar_set_b32 seckey) = sec /\ scalar_ok sec /\ scalar_ok term /\
    sval sec = be_word seckey /\ sval term = be_word tweak mod N /\ 0 < be_word seckey < N.
Proof.
  intros Hs Ht Hv. destruct (seckey_test seckey Hs) as (sec & -> & Os & _ & _ & Hvs). destruct (Hvs Hv) as [Es Hr].
  destruct (set_b32_scalar tweak Ht) as (term & -> & Ot & Et). by exists sec, term.
Qed.

Lemma scalar_b32_word a : scalar_ok a -> is_b32 (secp256k1_scalar_get_b32 a) /\ be_word (secp256k1_scalar_get_b32 a) = sval a.
Proof.
  intros Ha. rewrite scalar_get_b32_spec by apply Ha. split; [split; [apply length_be_bytes|apply be_bytes_range]|].
  rewrite be_word_bytes. apply Z.mod_small. apply sval_range, Ha.
Qed.

Lemma key_multiple_finite d : 0 < d < N -> smul d G <> Infinity.
Proof. intros Hd E%G_multiple_zero. rewrite Z.mod_small in E by lia. lia. Qed.

(** The key of a scalar, in the form the interface stores it. *)
Lemma create_is_key ctx pk a k :
  good_ctx ctx -> scalar_ok a -> sval a <> 0 -> is_key k (smul (sval a) G) ->
  secp256k1_ec_pubkey_create ctx (Some pk) (Some (secp256k1_scalar_get_b32 a)) = returns true (Some k).
Proof.
  intros Hc Ha Hn Hk. destruct (scalar_b32_word a Ha) as [Hb Ew]. assert (Hr := scalar_range a Ha).
  destruct (pubkey_create_spec ctx pk (secp256k1_scalar_get_b32 a) Hc Hb) as (k' & -> & Hk').
  assert (Hv : valid_seckey (secp256k1_scalar_get_b32 a) = true).
  { unfold valid_seckey. rewrite Ew. destruct (Z.ltb_spec 0 (sval a)), (Z.ltb_spec (sval a) N); lia || done. }
  rewrite Hv in *. specialize (Hk' eq_refl). rewrite Ew in Hk'. by rewrite (is_key_unique _ _ _ Hk Hk').
Qed.

Lemma product_nonzero a b : 0 < a < N -> 0 < b < N -> (a * b) mod N <> 0.
Proof.
  intros Ha Hb E. assert (E' : Zmod.mul (sc a) (sc b) = sc 0) by (rewrite <- sc_mul; apply sc_eq; by rewrite E).
  apply (proj1 (Zmod.mul_0_iff_prime prime_N _ _)) in E' as [E'|E']; apply sc_zero in E'; lia.
Qed.

Lemma multiple_mod k : smul (k mod N) G = smul k G.
Proof. apply smul_mod; [apply G_on_curve|done|apply point_order, G_on_curve]. Qed.

(** A pair of functions on a secret and on a public key that act alike. *)
Definition act_alike (ctx : secp256k1_context) (pk : bytes) (secret public : option (result (option bytes))) (expected : bool) : Prop :=
  exists d' k', secret = returns expected (Some d') /\ public = returns expected (Some k') /\
    (expected = true -> secp256k1_ec_pubkey_create ctx (Some pk) (Some d') = returns true (Some k')).

Section Commute.
Context (ctx : secp256k1_context) (pk seckey tweak k : bytes).
Hypothesis Hc : good_ctx ctx.
Hypothesis Hs : is_b32 seckey.
Hypothesis Ht : is_b32 tweak.
Hypothesis Hv : valid_seckey seckey = true.
Hypothesis Hk : is_key k (smul (be_word seckey) G).

Lemma tweak_add_commutes :
  act_alike ctx pk (secp256k1_ec_privkey_tweak_add (Some seckey) (Some tweak)) (secp256k1_ec_pubkey_tweak_add ctx (Some k) (Some tweak))
    ((be_word tweak <? N) && negb ((be_word seckey + be_word tweak) mod N =? 0)).
Proof using All.
  destruct (tweak_scalars seckey tweak Hs Ht Hv) as (sec & term & Et & Es & Os & Ot & Vs & Vt & Hr).
  destruct (load_is_key k _ Hk) as (ge & El & Hge & Hfin). assert (Htr := be_word_range tweak (proj2 Ht)).
  unfold secp256k1_ec_privkey_tweak_add, privkey_tweak, secp256k1_ec_pubkey_tweak_add, pubkey_tweak, CHECKED, ARG_CHECK.
  rewrite verify_built by done. rewrite Et, Es, El. rewrite Z.leb_antisym.
  destruct (Z.ltb_spec (be_word tweak) N) as [Hlt|_]; cbn [negb b2z Z.eqb ret out andb]; [|eexists _, _; split_and!; [reflexivity..|done]].
  rewrite Z.mod_small in Vt by lia. assert (Ha := privkey_tweak_add_spec sec term Os Ot).
  destruct (secp256k1_eckey_privkey_tweak_add sec term) as [ok d']. destruct Ha as (Od & Vd & Eok). rewrite Vs, Vt in Vd.
  destruct (pubkey_tweak_add_spec (ecmult_ctx ctx) ge _ term (proj1 Hc) Hge ltac:(apply Hk) Hfin Ot) as (ok' & p' & -> & Eok' & Hp').
  rewrite Vt, <- smul_add, <- multiple_mod, <- Vd in Eok', Hp' by apply G_on_curve. cbn [mbind option_bind]. rewrite <- Vd, <- Eok.
  assert (Heq : ok' = ok).
  { rewrite Eok', Eok. f_equal. apply eq_bool_prop_intro. rewrite !Is_true_true, bool_decide_eq_true, Z.eqb_eq.
    split; [|by intros ->]. intros E%G_multiple_zero. by rewrite Z.mod_small in E by (by apply scalar_range). }
  rewrite Heq in *. eexists _, _. split; [reflexivity|]. split; [reflexivity|]. intros Hok.
  assert (Hnz : sval d' <> 0) by (intros E; by rewrite Eok, E in Hok). rewrite Hok. apply create_is_key; [done..|].
  apply save_is_key; [by apply Hp'|apply smul_on_curve, G_on_curve|]. apply key_multiple_finite. assert (Hdr := scalar_range d' Od). lia.
Qed.

Lemma tweak_mul_commutes :
  act_alike ctx pk (secp256k1_ec_privkey_tweak_mul (Some seckey) (Some tweak)) (secp256k1_ec_pubkey_tweak_mul ctx (Some k) (Some tweak))
    ((be_word tweak <? N) && negb (be_word tweak =? 0)).
Proof using All.
  destruct (tweak_scalars seckey tweak Hs Ht Hv) as (sec & term & Et & Es & Os & Ot & Vs & Vt & Hr).
  destruct (load_is_key k _ Hk) as (ge & El & Hge & Hfin). assert (Htr := be_word_range tweak (proj2 Ht)).
  unfold secp256k1_ec_privkey_tweak_mul, privkey_tweak, secp256k1_ec_pubkey_tweak_mul, pubkey_tweak, CHECKED, ARG_CHECK.
  rewrite verify_built by done. rewrite Et, Es, El. rewrite Z.leb_antisym.
  destruct (Z.ltb_spec (be_word tweak) N) as [Hlt|_]; cbn [negb b2z Z.eqb ret out andb]; [|eexists _, _; split_and!; [reflexivity..|done]].
  rewrite Z.mod_small in Vt by lia. destruct (Z.eqb_spec (be_word tweak) 0) as [Ez|Hnz]; cbn [negb].
  { unfold secp256k1_eckey_privkey_tweak_mul, secp256k1_eckey_pubkey_tweak_mul. rewrite scalar_is_zero_spec, Vt, Ez by apply Ot.
    eexists _, _. split_and!; [reflexivity..|done]. }
  assert (Hnt : sval term <> 0) by (by rewrite Vt).
  assert (Ha := privkey_tweak_mul_spec sec term Os Ot Hnt). destruct (secp256k1_eckey_privkey_tweak_mul sec term) as [ok d'].
  destruct Ha as (-> & Od & Vd). rewrite Vs, Vt in Vd.
  destruct (pubkey_tweak_mul_spec (ecmult_ctx ctx) ge _ term (proj1 Hc) Hge ltac:(apply Hk) Hfin Ot Hnt) as (p' & -> & Hp').
  rewrite Vt, <- smul_mul, Z.mul_comm, <- multiple_mod, <- Vd in Hp' by apply G_on_curve. cbn [mbind option_bind].
  eexists _, _. split; [reflexivity|]. split; [reflexivity|]. intros _.
  assert (Hdn : sval d' <> 0) by (rewrite Vd; apply product_nonzero; lia).
  apply create_is_key; [done..|]. apply save_is_key; [done|apply smul_on_curve, G_on_curve|]. apply key_multiple_finite.
  assert (Hdr := scalar_range d' Od). lia.
Qed.

End Commute.

(** C23: Tweaking a secret key and tweaking its public key, by addition or by
    multiplication, succeed together, and the tweaked public key is the public
    key of the tweaked secret key; they fail together when the tweak is not
    below the order, when the sum is zero and when the factor is zero. *)
Theorem tweaks_commute (ctx : secp256k1_context) (pk seckey tweak : bytes) :
  good_ctx ctx -> is_b32 seckey -> is_b32 tweak -> valid_seckey seckey = true ->
  exists k, secp256k1_ec_pubkey_create ctx (Some pk) (Some seckey) = returns true (Some k) /\
    act_alike ctx pk (secp256k1_ec_privkey_tweak_add (Some seckey) (Some tweak))
      (secp256k1_ec_pubkey_tweak_add ctx (Some k) (Some tweak))
      ((be_word tweak <? N) && negb ((be_word seckey + be_word tweak) mod N =? 0)) /\
    act_alike ctx pk (secp256k1_ec_privkey_tweak_mul (Some seckey) (Some tweak))
      (secp256k1_ec_pubkey_tweak_mul ctx (Some k) (Some tweak))
      ((be_word tweak <? N) && negb (be_word tweak =? 0)).
Proof.
  intros Hc Hs Ht Hv. destruct (pubkey_create_spec ctx pk seckey Hc Hs) as (k & Ek & Hk). rewrite Hv in Ek. specialize (Hk Hv).
  exists k. split; [exact Ek|]. split; [by apply tweak_add_commutes|by apply tweak_mul_commutes].
Qed.

Lemma tweaks_commute_witness :
  exists ctx k, secp256k1_ec_pubkey_create ctx (Some []) (Some one32) = returns true (Some k) /\
    exists k', secp256k1_ec_pubkey_tweak_add ctx (Some k) (Some one32) = returns true (Some k').
Proof.
  destruct (create_good 0 (zeros 64) gen_zero junk_buffer) as (ctx & _ & Hc). exists ctx.
  destruct (tweaks_commute ctx [] one32 one32 Hc one32_b32 one32_b32 ltac:(vm_compute; reflexivity)) as (k & E & (d' & k' & _ & H & _) & _).
  exists k. split; [exact E|]. exists k'. rewrite H. vm_compute. reflexivity.
Defined.

(** ** Contexts *)

(** The contexts a program gets from [secp256k1_context_create_sign_verify], the
    way go-ethereum's binding makes its context: created for signing and
    verifying, then cloned, given callbacks and randomised in any order. A
    context [secp256k1_context_create] makes for one purpose only lacks a table
    and is not among them. *)
Inductive reachable : secp256k1_context -> Prop :=
  | created fuel junk gen0 res ctx :
      buffer junk -> secp256k1_context_create_sign_verify (S fuel) junk gen0 = Some res -> out res = Some ctx -> reachable ctx
  | cloned gen0 ctx : reachable ctx -> reachable (secp256k1_context_clone gen0 ctx)
  | illegal_callback_set ctx f d : reachable ctx -> reachable (secp256k1_context_set_illegal_callback ctx f d)
  | error_callback_set ctx f d : reachable ctx -> reachable (secp256k1_context_set_error_callback ctx f d)
  | randomized fuel junk ctx seed res :
      buffer junk -> match seed with None => True | Some l => Forall is_byte l end -> reachable ctx ->
      secp256k1_context_randomize fuel junk ctx seed = Some res -> reachable (out res).

Lemma reachable_good ctx : reachable ctx -> good_ctx ctx.
Proof.
  induction 1 as [fuel junk gen0 res ctx Hj E Eo|gen0 ctx _ IH|ctx f d _ IH|ctx f d _ IH|fuel junk ctx seed res Hj Hs _ IH E].
  - destruct (create_good fuel junk gen0 Hj) as (ctx' & E' & Hg). rewrite E in E'. injection E' as ->. cbn in Eo. by injection Eo as <-.
  - by rewrite clone_same.
  - exact IH.
  - exact IH.
  - by destruct (randomize_good fuel junk ctx seed res Hj IH Hs E) as (_ & ? & _).
Qed.

(** C20: Creating a context for signing and verifying ends, and every context
    made from it by cloning, setting callbacks and randomising, in any order,
    keeps the tables of the generator and the blinding consistent: public keys
    come out the same in all of them, whatever the blinding. *)
Theorem contexts_stay_good (fuel : nat) (junk : bytes) (gen0 : secp256k1_ecmult_gen_context) (ctx ctx' : secp256k1_context) :
  buffer junk -> reachable ctx -> reachable ctx' ->
  (exists c, secp256k1_context_create_sign_verify (S fuel) junk gen0 = returns true (Some c) /\ reachable c) /\
  good_context (ecmult_ctx ctx) /\ good_gen (ecmult_gen_ctx ctx) /\
  forall pk seckey, is_b32 seckey -> valid_seckey seckey = true ->
    exists k, secp256k1_ec_pubkey_create ctx (Some pk) (Some seckey) = returns true (Some k) /\
      secp256k1_ec_pubkey_create ctx' (Some pk) (Some seckey) = returns true (Some k) /\
      is_key k (smul (be_word seckey) G).
Proof.
  intros Hj Hc%reachable_good Hc'%reachable_good. split; [|split; [apply Hc|split; [apply Hc|]]].
  - destruct (create_good fuel junk gen0 Hj) as (c & E & _). exists c. split; [done|].
    by apply (created fuel junk gen0 (mkResult true (Some c) [])).
  - intros pk seckey Hs Hv. destruct (pubkey_create_spec ctx pk seckey Hc Hs) as (k & E & Hk).
    destruct (pubkey_create_spec ctx' pk seckey Hc' Hs) as (k' & E' & Hk'). rewrite Hv in E, E'. exists k.
    split; [done|]. split; [|by apply Hk]. by rewrite (is_key_unique k k' _ (Hk Hv) (Hk' Hv)).
Qed.

Lemma contexts_stay_good_witness :
  exists c k, reachable c /\ secp256k1_ec_pubkey_create c (Some []) (Some one32) = returns true (Some k).
Proof.
  destruct (create_good 0 (zeros 64) gen_zero junk_buffer) as (c & E & _). exists c.
  assert (Hr : reachable c) by exact (created 0 (zeros 64) gen_zero (mkResult true (Some c) []) c junk_buffer E eq_refl).
  destruct (contexts_stay_good 0 (zeros 64) gen_zero c (secp256k1_context_clone gen_zero c) junk_buffer Hr (cloned gen_zero c Hr))
    as (_ & _ & _ & H).
  destruct (H [] one32 one32_b32 ltac:(vm_compute; reflexivity)) as (k & Ek & _). exists k. split; [exact Hr|exact Ek].
Defined.

(** ** Normal form of signatures *)

(** C24: Normalising a signature replaces its second number by the smaller of
    the two that go with it, tells whether that changed it, and is the identity
    the second time; [secp256k1_ecdsa_verify], which accepts numbers in the
    lower half only, accepts the normalised signature exactly when the original
    one is valid by the definition of ECDSA. *)
Theorem normalize_then_verify (ctx : secp256k1_context) (sig0 k msg : bytes) (r s : secp256k1_scalar) (q : point) :
  good_ctx ctx -> scalar_ok r -> scalar_ok s -> is_key k q -> is_b32 msg ->
  exists s', secp256k1_ecdsa_signature_normalize (Some sig0) (Some (secp256k1_ecdsa_signature_save r s)) =
      returns (N / 2 <? sval s) (Some (secp256k1_ecdsa_signature_save r s')) /\
    scalar_ok s' /\ sval s' = Z.min (sval s) ((- sval s) mod N) /\
    secp256k1_ecdsa_signature_normalize (Some sig0) (Some (secp256k1_ecdsa_signature_save r s')) =
      returns false (Some (secp256k1_ecdsa_signature_save r s')) /\
    secp256k1_ecdsa_verify ctx (Some (secp256k1_ecdsa_signature_save r s')) (Some msg) (Some k) =
      returns (ecdsa_valid q (be_word msg mod N) (sval r) (sval s)) tt.
Proof.
  intros Hc Hr Hs Hk Hm.
  assert (Hstep : forall t, scalar_ok t -> secp256k1_ecdsa_signature_normalize (Some sig0) (Some (secp256k1_ecdsa_signature_save r t)) =
    returns (N / 2 <? sval t) (Some (secp256k1_ecdsa_signature_save r (if N / 2 <? sval t then secp256k1_scalar_negate t else t)))).
  { intros t Ht. unfold secp256k1_ecdsa_signature_normalize, CHECKED. rewrite signature_roundtrip by (apply Hr || apply Ht).
    rewrite scalar_is_high_spec by apply Ht. by destruct (N / 2 <? sval t). }
  assert (Hh : 2 * (N / 2) + 1 = N) by reflexivity. assert (Hsr := scalar_range s Hs).
  rewrite Hstep by done. eexists. split; [reflexivity|]. destruct (Z.ltb_spec (N / 2) (sval s)) as [Hhigh|Hlow].
  - assert (Hv := negated_value s Hs ltac:(lia)). assert (Ho := proj1 (scalar_negate_spec s Hs)).
    assert (E : (- sval s) mod N = N - sval s) by (symmetry; apply (Z.mod_unique _ _ (-1)); lia).
    split; [done|]. split; [rewrite Hv, E; lia|]. rewrite Hstep by done.
    rewrite (ecdsa_verify_spec ctx r _ k q msg) by done. rewrite Hv.
    destruct (Z.ltb_spec (N / 2) (N - sval s)); [lia|]. split; [done|]. destruct (Z.leb_spec (N - sval s) (N / 2)); [|lia].
    cbn [andb]. rewrite valid_negated by (apply Hk || lia). done.
  - split; [done|]. split.
    { destruct (Z.eq_dec (sval s) 0) as [-> |]; [reflexivity|].
      assert (E : (- sval s) mod N = N - sval s) by (symmetry; apply (Z.mod_unique _ _ (-1)); lia). lia. }
    rewrite Hstep by done. rewrite (ecdsa_verify_spec ctx r _ k q msg) by done.
    destruct (Z.ltb_spec (N / 2) (sval s)); [lia|]. split; [done|]. by destruct (Z.leb_spec (sval s) (N / 2)); [|lia].
Qed.

Lemma normalize_then_verify_witness :
  exists s', secp256k1_ecdsa_signature_normalize (Some []) (Some (secp256k1_ecdsa_signature_save minus_one minus_one)) =
    returns true (Some (secp256k1_ecdsa_signature_save minus_one s')) /\ sval s' = 1.
Proof.
  destruct (create_good 0 (zeros 64) gen_zero junk_buffer) as (c & E & Hc).
  destruct (pubkey_create_spec c [] one32 Hc one32_b32) as (k & _ & Hk).
  destruct (normalize_then_verify c [] k (zeros 32) minus_one minus_one _ Hc minus_one_ok minus_one_ok (Hk ltac:(vm_compute; reflexivity)) zeros_b32)
    as (s' & E' & _ & Ev & _). exists s'. split; [exact E'|]. rewrite Ev. vm_compute. reflexivity.
Defined.

(** ** Combining keys *)

Definition sum (ps : list point) : point := fold_left add ps Infinity.

Lemma combine_spec Qj p ks ps rep :
  represents Qj p -> on_curve p -> Forall2 is_key ks ps ->
  exists Qj', combine_loop Qj ks rep = (Qj', rep) /\ represents Qj' (fold_left add ps p) /\ on_curve (fold_left add ps p).
Proof.
  intros Hq Hp H. revert Qj p Hq Hp. induction H as [|k q ks ps Hk _ IH]; intros Qj p Hq Hp; [by exists Qj|].
  cbn [combine_loop fold_left]. destruct (load_is_key k q Hk) as (ge & -> & Hge & Hfin). cbn [out illegal]. rewrite app_nil_r.
  apply IH; [apply unified_represents; [done|done|done|apply Hk|done]|apply add_on_curve; [done|apply Hk]].
Qed.

(** Combining any number of public keys gives the key of their sum, and
    fails exactly when the sum is the point at infinity. *)
Theorem combine_is_sum (pk : bytes) (ks : list bytes) (ps : list point) :
  Forall2 is_key ks ps -> ks <> [] ->
  exists k, secp256k1_ec_pubkey_combine (Some pk) (Some ks) (length ks) = returns (negb (bool_decide (sum ps = Infinity))) (Some k) /\
    (sum ps <> Infinity -> is_key k (sum ps)).
Proof.
  intros Hk Hn. unfold secp256k1_ec_pubkey_combine, CHECKED, ARG_CHECK. rewrite take_ge by lia.
  replace (1 <=? length ks)%nat with true by (by destruct ks).
  destruct (combine_spec secp256k1_gej_set_infinity Infinity ks ps [] eq_refl I Hk) as (Qj & -> & HQ & HC).
  fold (sum ps) in *. unfold secp256k1_gej_is_infinity. rewrite (infinity_flag _ _ HQ). case_decide as Hinf; cbn [Z.eqb negb].
  - eexists. rewrite bool_decide_true by done. split; [reflexivity|done].
  - eexists. rewrite bool_decide_false by done. split; [reflexivity|]. intros _. apply save_is_key; [by apply set_gej_represents|done|done].
Qed.

Lemma combine_is_sum_witness :
  exists k, secp256k1_ec_pubkey_combine (Some []) (Some [secp256k1_pubkey_save secp256k1_ge_const_g]) 1 = returns true (Some k).
Proof.
  destruct (combine_is_sum [] [secp256k1_pubkey_save secp256k1_ge_const_g] [G]) as (k & E & _).
  - repeat constructor; try (by apply G_on_curve). apply save_is_key; [apply G_represents|apply G_on_curve|discriminate].
  - discriminate.
  - exists k. rewrite bool_decide_false in E by discriminate. exact E.
Defined.

End ApiProps.
