(* ===== verification/EcmultConst.v ===== *)
(** * Constant-time multiplication (libsecp256k1/src/ecmult_const_impl.h, ext.h)

    [secp256k1_ecmult_const] multiplies a point by a scalar with a sequence of
    operations that does not depend on the scalar: both halves of the
    endomorphism split are written with odd digits only, every lookup reads the
    whole table, and the error that making the halves odd has brought in is
    taken back at the end. [secp256k1_ext_scalar_mul] is the function of the Go
    package that calls it.

    The library is built without VERIFY, so [VERIFY_CHECK] and [VERIFY_SETUP]
    do nothing. [None] is a read outside an array, or a loop that has not ended
    within the fuel. The local variable [tmpa], which the first lookup moves
    into before it is ever set, is a parameter. *)

From Stdlib Require Import ZArith Lia List.
From stdpp Require Import base option list strings.
From S2P Require Import Prelude Words Field FieldExp Scalar ScalarExp Group Ecmult Eckey Api.
Local Open Scope Z_scope.

Module EcmultConst.
Import Field FieldExp Scalar ScalarExp Group Ecmult Eckey Api.

Definition WNAF_BITS : Z := 128.
Definition WNAF_SIZE (w : Z) : Z := Z.quot (WNAF_BITS + w - 1) w.

(** ** Lookup *)

(** The loop over the table; [n] entries are left, from index [m] on. *)
Fixpoint table_scan (n : nat) (pre : list secp256k1_ge) (m idx_n : Z) (x y : secp256k1_fe)
    : option (secp256k1_fe * secp256k1_fe) :=
  match n with
  | O => Some (x, y)
  | S n' =>
      e ← at_index pre m;
      let flag := b2z (m =? idx_n) in
      table_scan n' pre (m + 1) idx_n (secp256k1_fe_cmov x (gx e) flag) (secp256k1_fe_cmov y (gy e) flag)
  end.

(** [r] is what the variable holds before. *)
Definition ECMULT_CONST_TABLE_GET_GE (r : secp256k1_ge) (pre : list secp256k1_ge) (n w : Z) : option secp256k1_ge :=
  let abs_n := n * (b2z (n >? 0) * 2 - 1) in
  let idx_n := Z.quot abs_n 2 in
  '(x, y) ← table_scan (ECMULT_TABLE_SIZE w) pre 0 idx_n (gx r) (gy r);
  let neg_y := secp256k1_fe_negate y 1 in
  Some (mkGe x (secp256k1_fe_cmov y neg_y (b2z (negb (n =? abs_n)))) 0).

(** ** Odd digits *)

(** The [while] loop. The array is written from index 0 up; it is the list of
    what has been written. The result is the array and [u]. *)
Fixpoint wnaf_const_loop (fuel : nat) (s : secp256k1_scalar) (w global_sign : Z) (wnaf : list Z) (word u_last u : Z)
    : option (list Z * Z) :=
  match fuel with
  | O => None
  | S fuel' =>
      if word * w <? WNAF_BITS then
        let '(s, u) := secp256k1_scalar_shr_int s w in
        let even := b2z (Z.land u 1 =? 0) in
        let sign := 2 * b2z (u_last >? 0) - 1 in
        let u := u + sign * even in
        let u_last := u_last - sign * even * Z.shiftl 1 w in
        wnaf_const_loop fuel' s w global_sign (wnaf ++ [u_last * global_sign]) (word + 1) u u
      else Some (wnaf, u)
  end.

(** The digits and the skew. *)
Definition secp256k1_wnaf_const (s : secp256k1_scalar) (w : Z) : option (list Z * Z) :=
  let flip := secp256k1_scalar_is_high s in
  let bit := Z.lxor flip (b2z (negb (secp256k1_scalar_is_even s))) in
  let neg_s := secp256k1_scalar_negate s in
  let not_neg_one := b2z (negb (secp256k1_scalar_is_one neg_s)) in
  let s := secp256k1_scalar_cadd_bit s bit not_neg_one in
  let '(s, global_sign) := secp256k1_scalar_cond_negate s flip in
  let global_sign := global_sign * (not_neg_one * 2 - 1) in
  let skew := Z.shiftl 1 bit in
  let '(s, u_last) := secp256k1_scalar_shr_int s w in
  '(wnaf, u) ← wnaf_const_loop (S (Z.to_nat WNAF_BITS)) s w global_sign [] 0 u_last 0;
  Some (wnaf ++ [u * global_sign], skew).

(** ** Multiplication *)

(** [for (j = 0; j < n; ++j) secp256k1_gej_double_nonzero(r, r, NULL)] *)
Fixpoint double_nonzero_times (n : nat) (r : secp256k1_gej) : secp256k1_gej :=
  match n with O => r | S n' => double_nonzero_times n' (fst (secp256k1_gej_double_nonzero r r None)) end.

(** The lookup of digit [i] and the addition; [tmpa] is the variable after. *)
Definition const_add (pre : list secp256k1_ge) (wnaf : list Z) (i : Z) (r : secp256k1_gej) (tmpa : secp256k1_ge)
    : option (secp256k1_gej * secp256k1_ge) :=
  n ← at_index wnaf i;
  tmpa ← ECMULT_CONST_TABLE_GET_GE tmpa pre n WINDOW_A;
  Some (secp256k1_gej_add_ge r tmpa, tmpa).

(** The remaining iterations, from digit [i - 1] down to 0. *)
Fixpoint const_loop (pre_a pre_a_lam : list secp256k1_ge) (wnaf_1 wnaf_lam : list Z) (i : nat)
    (r : secp256k1_gej) (tmpa : secp256k1_ge) : option secp256k1_gej :=
  match i with
  | O => Some r
  | S i' =>
      let r := double_nonzero_times (Z.to_nat (WINDOW_A - 1)) r in
      '(r, tmpa) ← const_add pre_a wnaf_1 (Z.of_nat i') r tmpa;
      '(r, tmpa) ← const_add pre_a_lam wnaf_lam (Z.of_nat i') r tmpa;
      const_loop pre_a pre_a_lam wnaf_1 wnaf_lam i' r tmpa
  end.

(** The block at the end that takes the skew back. *)
Definition correct_skew (a : secp256k1_ge) (skew_1 skew_lam : Z) (r : secp256k1_gej) : secp256k1_gej :=
  let tmpj := secp256k1_gej_set_ge a in
  let tmpj := fst (secp256k1_gej_double_var tmpj tmpj None) in
  let correction := fst (secp256k1_ge_set_gej tmpj) in
  let correction_1_stor := secp256k1_ge_to_storage a in
  let correction_lam_stor := secp256k1_ge_to_storage a in
  let a2_stor := secp256k1_ge_to_storage correction in
  let correction_1_stor := secp256k1_ge_storage_cmov correction_1_stor a2_stor (b2z (skew_1 =? 2)) in
  let correction_lam_stor := secp256k1_ge_storage_cmov correction_lam_stor a2_stor (b2z (skew_lam =? 2)) in
  let correction := secp256k1_ge_neg (secp256k1_ge_from_storage correction_1_stor) in
  let r := secp256k1_gej_add_ge r correction in
  let correction := secp256k1_ge_neg (secp256k1_ge_from_storage correction_lam_stor) in
  let correction := secp256k1_ge_mul_lambda correction in
  secp256k1_gej_add_ge r correction.

Definition secp256k1_ecmult_const (tmpa : secp256k1_ge) (a : secp256k1_ge) (scalar : secp256k1_scalar)
    : option secp256k1_gej :=
  let '(q_1, q_lam) := secp256k1_scalar_split_lambda scalar in
  '(wnaf_1, skew_1) ← secp256k1_wnaf_const q_1 (WINDOW_A - 1);
  '(wnaf_lam, skew_lam) ← secp256k1_wnaf_const q_lam (WINDOW_A - 1);
  let r := secp256k1_gej_set_ge a in
  let '(pre_a, Z) := secp256k1_ecmult_odd_multiples_table_globalz_windowa r in
  let pre_a := map (fun e => mkGe (gx e) (secp256k1_fe_normalize_weak (gy e)) (ge_infinity e)) pre_a in
  let pre_a_lam := map secp256k1_ge_mul_lambda pre_a in
  i ← at_index wnaf_1 (WNAF_SIZE (WINDOW_A - 1));
  tmpa ← ECMULT_CONST_TABLE_GET_GE tmpa pre_a i WINDOW_A;
  let r := secp256k1_gej_set_ge tmpa in
  i ← at_index wnaf_lam (WNAF_SIZE (WINDOW_A - 1));
  tmpa ← ECMULT_CONST_TABLE_GET_GE tmpa pre_a_lam i WINDOW_A;
  let r := secp256k1_gej_add_ge r tmpa in
  r ← const_loop pre_a pre_a_lam wnaf_1 wnaf_lam (Z.to_nat (WNAF_SIZE (WINDOW_A - 1))) r tmpa;
  let r := mkGej (jx r) (jy r) (secp256k1_fe_mul (jz r) Z) (infinity r) in
  Some (correct_skew a skew_1 skew_lam r).

(** ** The function of the package *)

(** [point] is read and written. *)
Definition secp256k1_ext_scalar_mul (tmpa : secp256k1_ge) (point : option bytes) (scalar : option bytes)
    : option (result (option bytes)) :=
  let* p := point else "point != NULL" with point ;;
  let* sc := scalar else "scalar != NULL" with point ;;
  let feX := fst (secp256k1_fe_set_b32 (b32_at p 0)) in
  let feY := fst (secp256k1_fe_set_b32 (b32_at p 32)) in
  let ge := secp256k1_ge_set_xy feX feY in
  let '(s, overflow) := secp256k1_scalar_set_b32 sc in
  if negb (overflow =? 0) || secp256k1_scalar_is_zero s then returns false point
  else
    res ← secp256k1_ecmult_const tmpa ge s;
    let ge := fst (secp256k1_ge_set_gej res) in
    let x := secp256k1_fe_normalize (gx ge) in
    let y := secp256k1_fe_normalize (gy ge) in
    let p := memcpy p 0 (secp256k1_fe_get_b32 x) in
    let p := memcpy p 32 (secp256k1_fe_get_b32 y) in
    returns true (Some p).

End EcmultConst.
