(* ===== verification/ConstWnaf.v ===== *)
(** * Odd digits of the constant-time multiplication

    [secp256k1_wnaf_const] ends and writes a short number, made odd by adding
    its skew, with a fixed number of digits that are all odd. *)

From Stdlib Require Import ZArith Lia List.
From stdpp Require Import base list option.
From S2P Require Import Prelude Words Field Scalar ScalarFacts ScalarOps Ecmult Wnaf EcmultConst.
Local Open Scope Z_scope.

Module ConstWnaf.
Import Field Scalar ScalarFacts ScalarOps Ecmult Wnaf EcmultConst.

(** The number that digits in base [2 ^ w] stand for, the least significant
    first. *)
Definition windows_value (w : Z) (l : list Z) : Z := foldr (fun d v => d + 2 ^ w * v) 0 l.

Definition odd_digit (w d : Z) : Prop := d mod 2 = 1 /\ Z.abs d <= 2 ^ w - 1.

Lemma windows_app w l k : 0 <= w ->
  windows_value w (l ++ k) = windows_value w l + 2 ^ (w * Z.of_nat (length l)) * windows_value w k.
Proof.
  intros Hw. induction l as [|d l IH].
  - cbn [app length windows_value foldr]. rewrite Z.mul_0_r. fold (windows_value w k). lia.
  - cbn [app length]. change (d + 2 ^ w * windows_value w (l ++ k) =
      d + 2 ^ w * windows_value w l + 2 ^ (w * Z.of_nat (S (length l))) * windows_value w k).
    rewrite IH, Nat2Z.inj_succ, Z.mul_succ_r, Z.pow_add_r by lia. ring.
Qed.

Lemma windows_scale w g l : windows_value w (map (fun d => d * g) l) = windows_value w l * g.
Proof.
  induction l as [|d l IH]; [done|]. change (d * g + 2 ^ w * windows_value w (map (fun d => d * g) l) =
    (d + 2 ^ w * windows_value w l) * g). rewrite IH. ring.
Qed.

(** ** The loop *)

Section Loop.
Context (w g : Z) (Hw : 1 <= w <= 15).

(** The number of rounds: [n] windows cover the bits and [n - 1] do not. *)
Lemma size_bounds : (WNAF_SIZE w - 1) * w < WNAF_BITS <= WNAF_SIZE w * w /\ 1 <= WNAF_SIZE w <= WNAF_BITS.
Proof using Hw.
  unfold WNAF_SIZE, WNAF_BITS. rewrite Z.quot_div_nonneg by lia.
  assert (E := Z.div_mod (128 + w - 1) w ltac:(lia)). assert (Hm := Z.mod_pos_bound (128 + w - 1) w ltac:(lia)).
  set (q := (128 + w - 1) / w) in *. nia.
Qed.

(** One round: the next digit is made odd at the cost of the one before. *)
Lemma odd_round u_last u :
  1 <= u_last < 2 ^ w -> u_last mod 2 = 1 -> 0 <= u < 2 ^ w ->
  let even := b2z (Z.land u 1 =? 0) in
  let sign := 2 * b2z (u_last >? 0) - 1 in
  let u' := u + sign * even in
  let d := u_last - sign * even * Z.shiftl 1 w in
  odd_digit w d /\ 1 <= u' < 2 ^ w /\ u' mod 2 = 1 /\ d + 2 ^ w * u' = u_last + 2 ^ w * u.
Proof using Hw.
  intros Hl Ho Hu. cbv zeta. rewrite Z.shiftl_mul_pow2, Z.mul_1_l by lia.
  destruct (Z.gtb_spec u_last 0); [|lia]. cbn [b2z]. change (2 * 1 - 1) with 1.
  assert (Hp : 2 ^ w = 2 * 2 ^ (w - 1)) by (rewrite <- Z.pow_succ_r by lia; f_equal; lia).
  assert (0 < 2 ^ (w - 1)) by (apply Z.pow_pos_nonneg; lia).
  change (Z.land u 1) with (Z.land u (Z.ones 1)). rewrite Z.land_ones by lia. change (2 ^ 1) with 2.
  assert (Hm := Z.mod_pos_bound u 2 ltac:(lia)). unfold odd_digit.
  destruct (Z.eqb_spec (u mod 2) 0) as [E|E]; cbn [b2z].
  - assert (u <> 2 ^ w - 1) by (intros ->; rewrite Hp in E; Z.div_mod_to_equations; lia).
    split; [split; [rewrite Hp; Z.div_mod_to_equations; lia|lia]|]. split; [lia|]. split; [Z.div_mod_to_equations; lia|lia].
  - split; [split; [rewrite Z.mul_0_r, Z.mul_0_l, Z.sub_0_r; done|lia]|].
    split; [|split; [rewrite Z.mul_0_r, Z.add_0_r|]; lia]. split; [|lia]. assert (u <> 0) by (intros ->; done). lia.
Qed.

Lemma const_loop_spec (m : nat) fuel s acc word u_last u :
  limbs_ok s -> (m < fuel)%nat -> word = WNAF_SIZE w - Z.of_nat m -> 0 <= word ->
  1 <= u_last < 2 ^ w -> u_last mod 2 = 1 -> sval s < 2 ^ (w * Z.of_nat m) -> (m = 0%nat -> u = u_last) ->
  exists ds v, wnaf_const_loop fuel s w g acc word u_last u = Some (acc ++ map (fun d => d * g) ds, v) /\
    length ds = m /\ Forall (odd_digit w) ds /\ 1 <= v < 2 ^ w /\ v mod 2 = 1 /\
    windows_value w ds + 2 ^ (w * Z.of_nat m) * v = u_last + 2 ^ w * sval s.
Proof using Hw.
  assert (Hn := size_bounds). revert fuel s acc word u_last u. induction m as [|m IH];
    intros fuel s acc word u_last u Hs Hf Ew Hword Hl Ho Hlt Hu; (destruct fuel as [|fuel]; [lia|]); cbn [wnaf_const_loop].
  - replace word with (WNAF_SIZE w) in * by lia. destruct (Z.ltb_spec (WNAF_SIZE w * w) WNAF_BITS); [lia|].
    specialize (Hu eq_refl). subst u. exists [], u_last. cbn [map]. rewrite app_nil_r. split; [done|]. split; [done|].
    split; [constructor|]. split; [done|]. split; [done|]. cbn [Z.of_nat] in Hlt |- *. rewrite Z.mul_0_r in Hlt |- *.
    change (2 ^ 0) with 1 in *. assert (Hr := sval_range s Hs). cbn [windows_value foldr]. lia.
  - destruct (Z.ltb_spec (word * w) WNAF_BITS) as [_|Hge]; [|nia].
    destruct (scalar_shr_int_spec s w Hs Hw) as (Hs' & Es & Eu). destruct (secp256k1_scalar_shr_int s w) as [s' u0].
    cbn [fst snd] in *. assert (Hp : 0 < 2 ^ w) by (apply Z.pow_pos_nonneg; lia).
    assert (Hu0 : 0 <= u0 < 2 ^ w) by (subst u0; by apply Z.mod_pos_bound).
    destruct (odd_round u_last u0 Hl Ho Hu0) as (Hd & Hu' & Ho' & Ev).
    set (u' := u0 + _) in *. set (d := u_last - _) in *.
    destruct (IH fuel s' (acc ++ [d * g]) (word + 1) u' u') as (ds & v & -> & Hlen & Hds & Hv & Hov & Eval);
      [done|lia|lia|lia|done|done| |done|].
    { rewrite Es. apply Z.div_lt_upper_bound; [done|]. rewrite <- Z.pow_add_r by lia.
      replace (w + w * Z.of_nat m) with (w * Z.of_nat (S m)) by lia. done. }
    exists (d :: ds), v. cbn [map]. rewrite <- app_assoc. split; [done|]. split; [cbn; lia|].
    split; [by constructor|]. split; [done|]. split; [done|].
    change (d + 2 ^ w * windows_value w ds + 2 ^ (w * Z.of_nat (S m)) * v = u_last + 2 ^ w * sval s).
    assert (Ediv := Z.div_mod (sval s) (2 ^ w) ltac:(lia)). rewrite <- Es, <- Eu in Ediv.
    rewrite Nat2Z.inj_succ, Z.mul_succ_r, Z.pow_add_r, (Z.mul_comm (2 ^ (w * _)) (2 ^ w)), <- Z.mul_assoc by lia.
    rewrite <- Z.add_assoc, <- Z.mul_add_distr_l, Eval, Ediv.
    replace (d + 2 ^ w * (u' + 2 ^ w * sval s')) with (d + 2 ^ w * u' + 2 ^ w * (2 ^ w * sval s')) by ring.
    rewrite Ev. ring.
Qed.

End Loop.

(** ** Making the number odd *)

Lemma order_bounds : N mod 2 = 1 /\ 2 ^ 255 < N < 2 ^ 256 /\ 2 * (N / 2) + 1 = N.
Proof. by split_and!. Qed.

(** A short number given modulo the order, and the flags the code computes:
    its sign, its parity and whether it is minus one. *)
Lemma short_value k : Z.abs k < 2 ^ 128 -> k mod N = if k <? 0 then k + N else k.
Proof.
  intros Hk. destruct order_bounds as (_ & HN & _). destruct (Z.ltb_spec k 0).
  - symmetry. apply (Z.mod_unique _ _ (-1)); lia.
  - apply Z.mod_small. lia.
Qed.

Section Short.
Context (k : Z) (s : secp256k1_scalar) (Hs : scalar_ok s) (Ek : sval s = k mod N) (Hk : Z.abs k < 2 ^ 128).

Lemma flip_sign : secp256k1_scalar_is_high s = b2z (k <? 0).
Proof using All.
  rewrite scalar_is_high_spec, Ek, short_value by (apply Hs || done). destruct order_bounds as (_ & HN & Hh).
  destruct (Z.ltb_spec k 0); [destruct (Z.ltb_spec (N / 2) (k + N))|destruct (Z.ltb_spec (N / 2) k)]; reflexivity || lia.
Qed.

Lemma bit_parity : Z.lxor (b2z (k <? 0)) (b2z (negb (secp256k1_scalar_is_even s))) = k mod 2.
Proof using All.
  rewrite scalar_is_even_spec, Ek, short_value, Zeven_mod by done. destruct order_bounds as (Ho & _ & _).
  assert (Hm := Z.mod_pos_bound k 2 ltac:(lia)). assert (Hc : k mod 2 = 0 \/ k mod 2 = 1) by lia. destruct (k <? 0).
  - assert (E : (k + N) mod 2 = 1 - k mod 2) by (Z.div_mod_to_equations; lia). rewrite E. by destruct Hc as [->| ->].
  - by destruct Hc as [->| ->].
Qed.

Lemma minus_one_test : secp256k1_scalar_is_one (secp256k1_scalar_negate s) = (k =? -1).
Proof using All.
  destruct (scalar_negate_spec s Hs) as [Hn En]. rewrite scalar_is_one_spec, En, Ek, (short_value k Hk) by apply Hn.
  destruct order_bounds as (_ & HN & _). apply eq_true_iff_eq. rewrite !Z.eqb_eq. destruct (Z.ltb_spec k 0).
  - replace (- (k + N)) with (- k + (-1) * N) by lia. rewrite Z.mod_add, Z.mod_small by lia. lia.
  - destruct (Z.eq_dec k 0) as [->|Hz]; [done|]. replace (- k) with (N - k + (-1) * N) by lia.
    rewrite Z.mod_add, Z.mod_small by lia. lia.
Qed.

(** Adding the skew neither overflows nor leaves the range. *)
Lemma skew_added :
  let one := b2z (negb (k =? -1)) in
  scalar_ok (secp256k1_scalar_cadd_bit s (k mod 2) one) /\
  sval (secp256k1_scalar_cadd_bit s (k mod 2) one) = k mod N + one * 2 ^ (k mod 2) /\
  (k < 0 -> k + one * 2 ^ (k mod 2) < 0).
Proof using All.
  intros one. destruct order_bounds as (_ & HN & _). assert (Hm := Z.mod_pos_bound k 2 ltac:(lia)).
  assert (Hneg : k < 0 -> k + one * 2 ^ (k mod 2) < 0).
  { assert (Hc : k mod 2 = 0 \/ k mod 2 = 1) by lia. unfold one. intros Hlt.
    destruct (Z.eqb_spec k (-1)) as [->|Hne]; [reflexivity|]. cbn [negb b2z].
    destruct Hc as [E|E]; rewrite E; change (2 ^ 0) with 1; change (2 ^ 1) with 2; Z.div_mod_to_equations; lia. }
  assert (Hp : 1 <= 2 ^ (k mod 2) <= 2) by (assert (Hc : k mod 2 = 0 \/ k mod 2 = 1) by lia; destruct Hc as [->| ->]; done).
  assert (H1 : one = 0 \/ one = 1) by (unfold one; destruct (k =? -1); [by left|by right]).
  assert (Hlt : k mod N + one * 2 ^ (k mod 2) < N).
  { rewrite short_value by done. destruct (Z.ltb_spec k 0); [lia|destruct H1 as [->| ->]; lia]. }
  destruct (scalar_cadd_bit_spec s (k mod 2) one) as [Hl Ev]; [apply Hs|lia|done|rewrite Ek; lia|].
  rewrite Ek in Ev. split; [split; [done|by rewrite Ev]|done].
Qed.

(** The scalar that the digits are taken from, its sign, and the skew. *)
Lemma odd_form :
  let flip := secp256k1_scalar_is_high s in
  let bit := Z.lxor flip (b2z (negb (secp256k1_scalar_is_even s))) in
  let one := b2z (negb (secp256k1_scalar_is_one (secp256k1_scalar_negate s))) in
  exists s' g, secp256k1_scalar_cond_negate (secp256k1_scalar_cadd_bit s bit one) flip = (s', g) /\ scalar_ok s' /\
    (bit = 0 \/ bit = 1) /\ (g * (one * 2 - 1) = 1 \/ g * (one * 2 - 1) = -1) /\
    sval s' mod 2 = 1 /\ sval s' <= 2 ^ 128 + 1 /\ sval s' * (g * (one * 2 - 1)) = k + 2 ^ bit.
Proof using All.
  cbv zeta. rewrite flip_sign, bit_parity, minus_one_test.
  destruct skew_added as (Hok & Ev & Hneg). rewrite (short_value k Hk) in Ev.
  assert (Hm := Z.mod_pos_bound k 2 ltac:(lia)). assert (Hc : k mod 2 = 0 \/ k mod 2 = 1) by lia.
  set (one := b2z (negb (k =? -1))) in *.
  assert (H1 : one = 0 /\ k = -1 \/ one = 1 /\ k <> -1) by (unfold one; destruct (Z.eqb_spec k (-1)); [left|right]; done).
  rewrite (scalar_cond_negate_spec _ _ Hok). set (t := secp256k1_scalar_cadd_bit s (k mod 2) one) in *. clearbody t one.
  destruct order_bounds as (_ & HN & _). destruct (Z.ltb_spec k 0) as [Hlt|Hge]; cbn [b2z Z.eqb]; (eexists _, _; split; [reflexivity|]).
  - specialize (Hneg Hlt). destruct (scalar_negate_spec t Hok) as [Hno En].
    assert (En' : sval (secp256k1_scalar_negate t) = - (k + one * 2 ^ (k mod 2))).
    { rewrite En, Ev. symmetry. apply (Z.mod_unique _ _ (-1)); [|ring]. left.
      assert (0 <= one * 2 ^ (k mod 2)) by (apply Z.mul_nonneg_nonneg; lia). lia. }
    rewrite En'. split; [exact Hno|]. split; [exact Hc|]. split; [destruct H1 as [[-> _]|[-> _]]; [by left|by right]|].
    destruct Hc as [E|E], H1 as [[-> ?]|[-> ?]]; rewrite E in *; change (2 ^ 0) with 1; change (2 ^ 1) with 2;
      (split; Z.div_mod_to_equations; lia).
  - destruct H1 as [[_ ?]|[-> _]]; [lia|]. rewrite Ev. split; [exact Hok|]. split; [exact Hc|]. split; [by left|].
    destruct Hc as [E|E]; rewrite E in *; change (2 ^ 0) with 1; change (2 ^ 1) with 2; (split; [Z.div_mod_to_equations; lia|lia]).
Qed.

End Short.

Lemma odd_digit_sign w g d : g = 1 \/ g = -1 -> odd_digit w d -> odd_digit w (d * g).
Proof. intros [->| ->] [Ho Hr]; (split; [Z.div_mod_to_equations; lia|lia]). Qed.

Lemma wnaf_const_spec s w k :
  1 <= w <= 15 -> scalar_ok s -> sval s = k mod N -> Z.abs k < 2 ^ 128 ->
  exists l skew, secp256k1_wnaf_const s w = Some (l, skew) /\ Z.of_nat (length l) = 1 + WNAF_SIZE w /\
    (skew = 1 \/ skew = 2) /\ Forall (odd_digit w) l /\ windows_value w l = k + skew.
Proof.
  intros Hw Hs Ek Hk. unfold secp256k1_wnaf_const.
  destruct (odd_form k s Hs Ek Hk) as (s' & g & -> & Hs' & Hbit & Hg & Hodd & Hsz & Hval).
  set (bit := Z.lxor _ _) in *. set (g' := g * _) in *. clearbody g' bit.
  destruct (scalar_shr_int_spec s' w (proj1 Hs') Hw) as (Hl2 & E2 & Eu).
  destruct (secp256k1_scalar_shr_int s' w) as [s2 u_last]. cbn [fst snd] in *.
  assert (Hn := size_bounds w Hw).
  assert (Hp : 2 ^ w = 2 * 2 ^ (w - 1)) by (rewrite <- Z.pow_succ_r by lia; f_equal; lia).
  assert (0 < 2 ^ (w - 1)) by (apply Z.pow_pos_nonneg; lia).
  assert (Hr := Z.mod_pos_bound (sval s') (2 ^ w) ltac:(lia)). rewrite <- Eu in Hr.
  assert (Ho : u_last mod 2 = 1).
  { rewrite Eu, <- Hodd. apply Z.mod_mod_divide. exists (2 ^ (w - 1)). lia. }
  assert (Hbig : sval s2 < 2 ^ (w * Z.of_nat (Z.to_nat (WNAF_SIZE w)))).
  { rewrite E2. apply Z.div_lt_upper_bound; [lia|].
    assert (Hpow : 2 ^ 128 <= 2 ^ (w * Z.of_nat (Z.to_nat (WNAF_SIZE w)))) by (apply Z.pow_le_mono_r; unfold WNAF_BITS in *; lia).
    nia. }
  destruct (const_loop_spec w g' Hw (Z.to_nat (WNAF_SIZE w)) (S (Z.to_nat WNAF_BITS)) s2 [] 0 u_last 0)
    as (ds & v & -> & Hlen & Hds & Hv & Hov & Eval); [done|unfold WNAF_BITS in *; lia|lia|lia| |done|done|lia|].
  { split; [|lia]. assert (u_last <> 0) by (intros E; rewrite E in Ho; done). lia. }
  cbn [mbind option_bind app]. eexists _, _. split; [reflexivity|]. split; [rewrite length_app, length_map; cbn [length]; lia|].
  rewrite Z.shiftl_mul_pow2, Z.mul_1_l by lia. split; [destruct Hbit as [->| ->]; [by left|by right]|]. split.
  - apply Forall_app. split; [apply Forall_map; eapply Forall_impl; [intros d; by apply odd_digit_sign|exact Hds]|].
    constructor; [|constructor]. apply odd_digit_sign; [done|]. split; [done|lia].
  - rewrite <- Hval. change [v * g'] with (map (fun d => d * g') [v]). rewrite <- map_app, windows_scale, windows_app by lia.
    rewrite Hlen. cbn [windows_value foldr]. rewrite Z.mul_0_r, Z.add_0_r. fold (windows_value w ds). rewrite Eval. f_equal.
    assert (Ediv := Z.div_mod (sval s') (2 ^ w) ltac:(lia)). rewrite <- E2, <- Eu in Ediv. lia.
Qed.

End ConstWnaf.
