(* ===== verification/ConstMul.v ===== *)
(** * Constant-time multiplication is multiplication

    A lookup returns the multiple its digit names whatever the variable held
    before, the loop adds up the odd digits of both halves of the scalar, and
    the correction takes exactly the skew back. *)

From Stdlib Require Import ZArith Lia Ring Field Zmod.
From stdpp Require Import base option list.
From S2P Require Import Prelude Words Field FieldFacts FieldExp Scalar ScalarFacts ScalarOps ScalarExp.
From S2P Require Import Curve CurveFacts GroupLaw GroupAssoc PointMul PointOrder.
From S2P Require Import Group GroupFacts GroupOps Points PointConv Tables Ecmult Wnaf EcmultFacts DoubleMul EcmultConst ConstWnaf.
Local Open Scope Z_scope.

Module ConstMul.
Import Field FieldFacts Scalar ScalarFacts ScalarOps ScalarExp.
Import Curve CurveFacts GroupLaw GroupAssoc PointMul PointOrder.
Import Group GroupFacts GroupOps Points PointConv Tables Ecmult Wnaf EcmultFacts DoubleMul EcmultConst ConstWnaf.

(** ** Lookup *)

Definition small_entry (b : secp256k1_ge) : Prop := magnitude 8 (gx b) /\ magnitude 1 (gy b).

(** Once the entry has been passed, the variable keeps it. *)
Lemma scan_keeps n pre (m : nat) idx x y :
  Forall small_entry pre -> idx < Z.of_nat m -> (m + n <= length pre)%nat -> magnitude 8 x -> magnitude 1 y ->
  table_scan n pre (Z.of_nat m) idx x y = Some (x, y).
Proof.
  intros Hp. revert m. induction n as [|n IH]; intros m Hi Hl Hx Hy; [done|]. cbn [table_scan].
  rewrite at_index_nat. destruct (lookup_lt_is_Some_2 pre m) as [e He]; [lia|]. rewrite He. cbn [mbind option_bind].
  destruct (Z.eqb_spec (Z.of_nat m) idx); [lia|]. cbn [b2z].
  assert (Hs : small_entry e) by (rewrite Forall_lookup in Hp; by apply (Hp m)). destruct Hs as [Hex Hey].
  rewrite (cmov_keep 8 8), (cmov_keep 1 1) by (done || lia).
  replace (Z.of_nat m + 1) with (Z.of_nat (S m)) by lia. apply IH; [lia|lia|done|done].
Qed.

Lemma scan_finds n pre (m i : nat) b x y :
  Forall small_entry pre -> (m <= i < m + n)%nat -> (m + n <= length pre)%nat -> pre !! i = Some b ->
  table_scan n pre (Z.of_nat m) (Z.of_nat i) x y = Some (gx b, gy b).
Proof.
  intros Hp. revert m x y. induction n as [|n IH]; intros m x y Hi Hl Hb; [lia|]. cbn [table_scan].
  rewrite at_index_nat. destruct (lookup_lt_is_Some_2 pre m) as [e He]; [lia|]. rewrite He. cbn [mbind option_bind].
  replace (Z.of_nat m + 1) with (Z.of_nat (S m)) by lia.
  destruct (Z.eqb_spec (Z.of_nat m) (Z.of_nat i)) as [E|E]; [|apply IH; [lia|lia|done]].
  apply Nat2Z.inj in E. subst i. rewrite He in Hb. injection Hb as ->. cbn [b2z].
  assert (Hs : small_entry b) by (rewrite Forall_lookup in Hp; by apply (Hp m)). destruct Hs as [Hex Hey].
  rewrite (cmov_take 8), (cmov_take 1) by (done || lia). apply scan_keeps; [done|lia|lia|done|done].
Qed.

Lemma finite_multiple n w p : on_curve p -> p <> Infinity -> 1 <= w <= 15 -> odd_digit w n -> smul n p <> Infinity.
Proof.
  intros Hp Hpn Hw [Ho Hr] E. apply multiple_zero in E; [|done..].
  assert (2 ^ w <= 2 ^ 15) by (apply Z.pow_le_mono_r; lia). assert (HN : 2 ^ 15 < N) by done.
  apply Z.mod_divide in E as [c Ec]; [|lia]. assert (c = 0) by nia. subst c. rewrite Ec in Ho. done.
Qed.

Section Lookup.
Context (u : F) (pre : list secp256k1_ge) (p : point).
Context (Hp : on_curve p) (Hpn : p <> Infinity).
Context (Ht : table_at u (ECMULT_TABLE_SIZE WINDOW_A) pre p) (Hs : Forall small_entry pre).

Lemma const_get_spec r n :
  odd_digit (WINDOW_A - 1) n ->
  exists b, ECMULT_CONST_TABLE_GET_GE r pre n WINDOW_A = Some b /\ represents_ge_at u b (smul n p).
Proof using Hp Hpn Ht Hs.
  intros Hd. assert (Hn0 : n <> 0) by (intros ->; by destruct Hd). destruct Ht as [Hl Htab].
  destruct (digit_index WINDOW_A n (ECMULT_TABLE_SIZE WINDOW_A)) as (i & Hi & Ha & Hq);
    [done|done|right; exact Hd|done|].
  assert (Hfin := finite_multiple n (WINDOW_A - 1) p Hp Hpn ltac:(done) Hd).
  rewrite <- Hl in Hi. destruct (lookup_lt_is_Some_2 pre i Hi) as [e He]. specialize (Htab i e He).
  unfold ECMULT_CONST_TABLE_GET_GE. cbv zeta.
  assert (Eabs : n * (b2z (n >? 0) * 2 - 1) = Z.abs n) by (destruct (Z.gtb_spec n 0); cbn [b2z]; lia). rewrite Eabs.
  assert (Eidx : Z.quot (Z.abs n) 2 = Z.of_nat i).
  { rewrite Ha, Z.quot_div_nonneg by lia. symmetry. apply (Z.div_unique _ _ _ 1); lia. }
  rewrite Eidx, (scan_finds _ pre 0 i e) by (done || lia). cbn [mbind option_bind].
  assert (Hsm : small_entry e) by (rewrite Forall_lookup in Hs; by apply (Hs i)). destruct Hsm as [Hex Hey].
  eexists. split; [done|]. rewrite (smul_signed n _ p ltac:(lia) Ha) in Hfin |- *.
  destruct (Z.gtb_spec n 0); [destruct (Z.eqb_spec n (Z.abs n)); [|lia]|destruct (Z.eqb_spec n (Z.abs n)); [lia|]];
    cbn [negb b2z]; destruct (smul _ p) as [|x y]; try done; destruct Htab as (Hei & Hx & Hy); split; try done.
  - cbn [gx gy]. split; [done|]. destruct Hy as [_ Hy].
    eapply has_eq; [eapply (has_cmov_keep 1 2); [split; [exact Hey|exact Hy]|eapply (has_negate 1); [by split|lia|lia]|lia|lia]|lia|done].
  - cbn [gx gy]. split; [done|]. destruct Hy as [_ Hy].
    eapply has_eq; [eapply (has_cmov_take 2); [eapply (has_negate 1); [by split|lia|lia]|lia]|lia|ring].
Qed.

End Lookup.

(** One digit, on multiples of the generator. *)
Lemma const_add_spec u pre g l r e tmpa (i : nat) d :
  u <> fe 0 -> smul g G <> Infinity -> table_at u (ECMULT_TABLE_SIZE WINDOW_A) pre (smul g G) -> Forall small_entry pre ->
  l !! i = Some d -> odd_digit (WINDOW_A - 1) d -> represents_at u r (smul e G) ->
  exists r' t, const_add pre l (Z.of_nat i) r tmpa = Some (r', t) /\ represents_at u r' (smul (e + d * g) G).
Proof.
  intros Hu Hg Ht Hs Hl Hd Hr. unfold const_add. rewrite at_index_nat, Hl. cbn [mbind option_bind].
  destruct (const_get_spec u pre (smul g G) ltac:(auto with curve) Hg Ht Hs tmpa d Hd) as (b & -> & Hb).
  cbn [mbind option_bind]. eexists _, _. split; [done|]. rewrite <- add_multiple.
  apply unified_at_scale; [done..|auto with curve|auto with curve|].
  apply (finite_multiple d (WINDOW_A - 1)); [auto with curve|done..].
Qed.

Lemma double_nonzero_spec u n r e :
  u <> fe 0 -> represents_at u r (smul e G) ->
  represents_at u (double_nonzero_times n r) (smul (2 ^ Z.of_nat n * e) G).
Proof.
  intros Hu. revert r e. induction n as [|n IH]; intros r e Hr; [by rewrite Z.mul_1_l|]. cbn [double_nonzero_times].
  replace (2 ^ Z.of_nat (S n) * e) with (2 ^ Z.of_nat n * (e + e)) by (rewrite Nat2Z.inj_succ, Z.pow_succ_r by lia; ring).
  apply IH. rewrite smul_add by auto with curve. apply double_at; auto with curve.
Qed.

(** ** The loop *)

(** The number the digits from [i] on stand for. *)
Definition above (w : Z) (l : list Z) (i : nat) : Z := windows_value w (drop i l).

Lemma above_step w l i d : l !! i = Some d -> above w l i = d + 2 ^ w * above w l (S i).
Proof. intros H. unfold above. by rewrite (drop_S _ _ _ H). Qed.

Section Loop.
Context (u : F) (Hu : u <> fe 0) (pre pre_lam : list secp256k1_ge) (l1 l2 : list Z) (g1 g2 : Z).
Context (Hg1 : smul g1 G <> Infinity) (Hg2 : smul g2 G <> Infinity).
Context (Ht1 : table_at u (ECMULT_TABLE_SIZE WINDOW_A) pre (smul g1 G)) (Hs1 : Forall small_entry pre).
Context (Ht2 : table_at u (ECMULT_TABLE_SIZE WINDOW_A) pre_lam (smul g2 G)) (Hs2 : Forall small_entry pre_lam).
Context (Hd1 : Forall (odd_digit (WINDOW_A - 1)) l1) (Hd2 : Forall (odd_digit (WINDOW_A - 1)) l2).
Context (Hll : length l1 = length l2).

Definition sum_above (i : nat) : Z := above (WINDOW_A - 1) l1 i * g1 + above (WINDOW_A - 1) l2 i * g2.

Lemma const_loop_multiplies i r tmpa :
  (i <= length l1)%nat -> represents_at u r (smul (sum_above i) G) ->
  exists r', const_loop pre pre_lam l1 l2 i r tmpa = Some r' /\ represents_at u r' (smul (sum_above 0) G).
Proof using All.
  revert r tmpa. induction i as [|i IH]; intros r tmpa Hi Hr; [by exists r|]. cbn [const_loop].
  destruct (lookup_lt_is_Some_2 l1 i) as [c1 E1]; [lia|]. destruct (lookup_lt_is_Some_2 l2 i) as [c2 E2]; [lia|].
  assert (O1 : odd_digit (WINDOW_A - 1) c1) by (rewrite Forall_lookup in Hd1; by apply (Hd1 i)).
  assert (O2 : odd_digit (WINDOW_A - 1) c2) by (rewrite Forall_lookup in Hd2; by apply (Hd2 i)).
  apply (double_nonzero_spec u (Z.to_nat (WINDOW_A - 1)) _ _ Hu) in Hr.
  destruct (const_add_spec u pre g1 l1 _ _ tmpa i c1 Hu Hg1 Ht1 Hs1 E1 O1 Hr) as (r1 & t1 & -> & H1).
  cbn [mbind option_bind].
  destruct (const_add_spec u pre_lam g2 l2 _ _ t1 i c2 Hu Hg2 Ht2 Hs2 E2 O2 H1) as (r2 & t2 & -> & H2).
  cbn [mbind option_bind]. apply IH; [lia|].
  replace (sum_above i) with (2 ^ Z.of_nat (Z.to_nat (WINDOW_A - 1)) * sum_above (S i) + c1 * g1 + c2 * g2); [done|].
  unfold sum_above. rewrite (above_step _ _ _ _ E1), (above_step _ _ _ _ E2), Z2Nat.id by done. ring.
Qed.

End Loop.

(** ** The correction *)

(** [skew * p], for a skew of 1 or 2, from the two stored points. *)
Lemma skew_stored a p skew :
  represents_ge a p -> on_curve p -> p <> Infinity -> skew = 1 \/ skew = 2 ->
  let tmpj := secp256k1_gej_set_ge a in
  let a2 := secp256k1_ge_to_storage (fst (secp256k1_ge_set_gej (fst (secp256k1_gej_double_var tmpj tmpj None)))) in
  stored (secp256k1_ge_storage_cmov (secp256k1_ge_to_storage a) a2 (b2z (skew =? 2))) (smul skew p).
Proof.
  intros Ha Hp Hpn Hk tmpj a2. assert (H1 : stored (secp256k1_ge_to_storage a) p) by (by apply to_storage_stored).
  assert (H2 : stored a2 (add p p)).
  { apply to_storage_stored; [|intros E; by apply Hpn, double_nz]. apply set_gej_represents.
    apply double_represents; [by apply set_ge_represents|done]. }
  rewrite storage_cmov_select by (eauto using stored_fits || (destruct (skew =? 2); cbn; lia)).
  destruct Hk as [->| ->]; [by rewrite smul_1|by rewrite smul_2].
Qed.

Lemma correct_skew_spec a p skew_1 skew_lam r q :
  represents_ge a p -> on_curve p -> p <> Infinity -> skew_1 = 1 \/ skew_1 = 2 -> skew_lam = 1 \/ skew_lam = 2 ->
  represents r q -> on_curve q ->
  represents (correct_skew a skew_1 skew_lam r) (add (add q (neg (smul skew_1 p))) (endo (neg (smul skew_lam p)))).
Proof.
  intros Ha Hp Hpn H1 H2 Hr Hq. unfold correct_skew. cbv zeta.
  assert (Hf : forall k, k = 1 \/ k = 2 -> neg (smul k p) <> Infinity).
  { intros k Hk. rewrite <- smul_opp. intros E%multiple_zero; [|done..].
    destruct Hk as [->| ->]; by vm_compute in E. }
  assert (S1 := from_storage_represents _ _ (skew_stored a p skew_1 Ha Hp Hpn H1)).
  assert (S2 := from_storage_represents _ _ (skew_stored a p skew_lam Ha Hp Hpn H2)). cbv zeta in S1, S2.
  apply ge_neg_represents in S1, S2. apply represents_ge_one, mul_lambda_represents_at, represents_ge_one in S2.
  assert (N1 := Hf skew_1 H1). assert (N2 := Hf skew_lam H2).
  apply unified_represents; [apply unified_represents; [done|exact S1|done|auto with curve|done]|exact S2|auto with curve|auto with curve|].
  destruct (neg (smul skew_lam p)); done.
Qed.

(** ** The whole multiplication *)

Definition weak_y (e : secp256k1_ge) : secp256k1_ge :=
  mkGe (gx e) (secp256k1_fe_normalize_weak (gy e)) (ge_infinity e).

Lemma weak_y_table u sz pre p :
  on_curve p -> p <> Infinity -> Z.of_nat sz <= 2 ^ 13 -> table_at u sz pre p ->
  table_at u sz (map weak_y pre) p /\ Forall small_entry (map weak_y pre).
Proof.
  intros Hp Hpn Hsz [Hl Ht].
  assert (Hw : forall i b, map weak_y pre !! i = Some b -> represents_ge_at u b (smul (2 * Z.of_nat i + 1) p) /\ small_entry b).
  { intros i b Hb. rewrite list_lookup_fmap in Hb. destruct (pre !! i) as [c|] eqn:E; [|done]. injection Hb as <-.
    assert (Hi := lookup_lt_Some _ _ _ E). specialize (Ht i c E).
    assert (Hf : smul (2 * Z.of_nat i + 1) p <> Infinity).
    { apply (finite_multiple _ 15); [done|done|lia|]. split; [Z.div_mod_to_equations; lia|lia]. }
    destruct (smul _ p) as [|x y]; [done|]. destruct Ht as (Hinf & Hx & Hy).
    apply (has_weak 8) in Hy; [|lia]. split; [|split; [apply Hx|apply Hy]].
    split; [done|]. split; [done|]. eapply has_mono; [exact Hy|lia]. }
  split; [split; [by rewrite length_map|]|].
  - intros i b Hb. by apply Hw.
  - apply Forall_lookup. intros i b Hb. by apply (Hw i).
Qed.

Lemma lambda_small pre : Forall small_entry pre -> Forall small_entry (map secp256k1_ge_mul_lambda pre).
Proof.
  intros H. apply Forall_map. eapply Forall_impl; [exact H|]. intros e [Hx Hy]. split; [|exact Hy].
  assert (Hb : has 8 (ev beta) beta) by (split; [unfold magnitude; vm_compute; intuition congruence|done]).
  assert (He : has 8 (ev (gx e)) (gx e)) by done. cbn [secp256k1_ge_mul_lambda gx].
  eapply (has_mono 1 8); [|lia]. eapply has_mul; [exact He|exact Hb|lia|lia].
Qed.

Lemma rescaled u r z p :
  u <> fe 0 -> has 8 u z -> represents_at u r p ->
  represents (mkGej (jx r) (jy r) (secp256k1_fe_mul (jz r) z) (infinity r)) p.
Proof.
  intros Hu Hz Hr. assert (H := final_z u r z p Hu Hz Hr). destruct p as [|x y]; [exact Hr|].
  rewrite (proj1 Hr) in H |- *. exact H.
Qed.

Lemma last_above w l (n : nat) d : length l = S n -> l !! n = Some d -> above w l n = d.
Proof.
  intros Hl Hd. rewrite (above_step _ _ _ _ Hd). unfold above. rewrite drop_ge by lia. cbn [windows_value foldr]. lia.
Qed.

(** The sum of the digits of both halves, less the skews, is the scalar. *)
Lemma skew_taken_back g k1 k2 s1 s2 s :
  (k1 + lambda * k2) mod N = s ->
  let p := smul g G in
  add (add (smul ((k1 + s1) * g + (k2 + s2) * (lambda * g)) G) (neg (smul s1 p))) (endo (neg (smul s2 p))) = smul s p.
Proof.
  intros Hk p. assert (Hp : on_curve p) by (unfold p; auto with curve).
  rewrite <- !smul_opp, endo_lambda by auto with curve. unfold p. rewrite <- !smul_mul, <- !smul_add by auto with curve.
  rewrite <- Hk. rewrite smul_mul, smul_mod, <- smul_mul by (auto using point_order with curve || done). f_equal. ring.
Qed.

Lemma ecmult_const_spec tmpa a p s :
  represents_ge a p -> on_curve p -> p <> Infinity -> scalar_ok s ->
  exists r, secp256k1_ecmult_const tmpa a s = Some r /\ represents r (smul (sval s) p).
Proof.
  intros Ha Hp Hpn Hs. unfold secp256k1_ecmult_const.
  destruct (split_lambda_spec s Hs) as (q1 & q2 & k1 & k2 & -> & O1 & O2 & E1 & E2 & B1 & B2 & Ek).
  destruct (wnaf_const_spec q1 (WINDOW_A - 1) k1) as (l1 & s1 & -> & L1 & S1 & D1 & V1); [done..|].
  destruct (wnaf_const_spec q2 (WINDOW_A - 1) k2) as (l2 & s2 & -> & L2 & S2 & D2 & V2); [done..|].
  cbn [mbind option_bind].
  assert (Ht := globalz_table_spec _ p (set_ge_represents a p Ha) Hp Hpn).
  destruct (secp256k1_ecmult_odd_multiples_table_globalz_windowa _) as [pre gz].
  destruct Ht as (u & Hu & Hz & Ht). apply odds_table in Ht; [|done|vm_compute; lia].
  apply weak_y_table in Ht as [Ht Hsm]; [|done|done|vm_compute; discriminate]. fold weak_y.
  set (pre_a := map weak_y pre) in *. destruct (generated_point p Hp) as [g Eg].
  assert (Hlam := table_lambda u _ _ p Hp Ht). assert (Hsl := lambda_small _ Hsm).
  rewrite endo_lambda, Eg, <- smul_mul in Hlam by auto with curve. rewrite Eg in Ht, Hpn.
  assert (Hgl : smul (lambda * g) G <> Infinity).
  { rewrite smul_mul by auto with curve. intros E%multiple_zero; [|auto with curve|done]. by vm_compute in E. }
  change (WNAF_SIZE (WINDOW_A - 1)) with (Z.of_nat 32) in *. rewrite !at_index_nat, Nat2Z.id.
  destruct (lookup_lt_is_Some_2 l1 32) as [c1 C1]; [lia|]. destruct (lookup_lt_is_Some_2 l2 32) as [c2 C2]; [lia|].
  assert (X1 : odd_digit (WINDOW_A - 1) c1) by (rewrite Forall_lookup in D1; by apply (D1 32%nat)).
  assert (X2 : odd_digit (WINDOW_A - 1) c2) by (rewrite Forall_lookup in D2; by apply (D2 32%nat)).
  rewrite C1. cbn [mbind option_bind].
  destruct (const_get_spec u pre_a (smul g G) ltac:(auto with curve) Hpn Ht Hsm tmpa c1 X1) as (t1 & -> & T1).
  cbn [mbind option_bind]. rewrite C2. cbn [mbind option_bind].
  destruct (const_get_spec u _ (smul (lambda * g) G) ltac:(auto with curve) Hgl Hlam Hsl t1 c2 X2) as (t2 & -> & T2).
  cbn [mbind option_bind].
  destruct (const_loop_multiplies u Hu _ _ l1 l2 g (lambda * g) Hpn Hgl Ht Hsm Hlam Hsl D1 D2 ltac:(lia) 32
    (secp256k1_gej_add_ge (secp256k1_gej_set_ge t1) t2) t2) as (r & -> & Hr); [lia| |].
  { unfold sum_above. rewrite (last_above _ l1 32 _ ltac:(lia) C1), (last_above _ l2 32 _ ltac:(lia) C2), <- add_multiple.
    apply unified_at_scale; [done| |done|auto with curve|auto with curve|by apply (finite_multiple c2 (WINDOW_A - 1)); auto with curve].
    rewrite smul_mul by auto with curve. by apply set_ge_at. }
  cbn [mbind option_bind]. eexists. split; [done|].
  apply (rescaled u r gz _ Hu Hz) in Hr. unfold sum_above, above in Hr. rewrite !drop_0, V1, V2 in Hr.
  rewrite <- Eg in Hpn. assert (H := correct_skew_spec a p s1 s2 _ _ Ha Hp Hpn S1 S2 Hr ltac:(auto with curve)).
  rewrite Eg in H at 1 2. rewrite (skew_taken_back g k1 k2 s1 s2 (sval s) Ek), <- Eg in H. exact H.
Qed.

End ConstMul.
