(* ===== verification/ConstProps.v ===== *)
(** * Properties of the constant-time multiplication

    What [secp256k1_ext_scalar_mul] returns on bytes, and that two parties who
    multiply each other's points agree. *)

From Stdlib Require Import ZArith Lia List Ring Zmod.
From stdpp Require Import base option list strings.
From S2P Require Import Prelude Words Sha256Facts Field FieldFacts FieldOps FieldExp Scalar ScalarFacts ScalarOps ScalarExp.
From S2P Require Import Curve CurveFacts GroupLaw GroupAssoc PointMul PointOrder Group GroupFacts GroupOps Points PointConv.
From S2P Require Import Ecmult EcmultFacts Eckey Api ApiKeys ApiFacts EcmultConst ConstWnaf ConstMul.
Local Open Scope Z_scope.

Module ConstProps.
Import Field FieldFacts FieldOps FieldExp Scalar ScalarFacts ScalarOps ScalarExp Curve CurveFacts GroupLaw GroupAssoc PointMul PointOrder.
Import Group GroupFacts GroupOps Points PointConv Ecmult EcmultFacts Eckey Api ApiKeys ApiFacts EcmultConst ConstWnaf ConstMul.

(** A point as two numbers of 32 bytes. *)
Definition xy_bytes (p : point) : bytes :=
  match p with Infinity => [] | Affine x y => be_bytes 32 (Zmod.to_Z x) ++ be_bytes 32 (Zmod.to_Z y) end.

(** The point that 64 bytes are read as; a coordinate of [P] or more is reduced. *)
Definition read_xy (b : bytes) : point := Affine (fe (be_word (b32_at b 0))) (fe (be_word (b32_at b 32))).

Lemma fe_of_magnitude v : 0 <= v < 2 ^ 256 -> magnitude 1 (fe_of v).
Proof.
  intros Hv. assert (Hd : forall l, 0 <= digit v l <= M52).
  { intros l. unfold digit, M52. assert (H := Z.mod_pos_bound (v / 2 ^ (52 * l)) (2 ^ 52) ltac:(lia)). lia. }
  assert (H4 : digit v 4 < 2 ^ 48).
  { unfold digit. change (2 ^ (52 * 4)) with (2 ^ 208). Z.to_euclidean_division_equations. lia. }
  assert (H0 := Hd 0). assert (H1 := Hd 1). assert (H2 := Hd 2). assert (H3 := Hd 3). assert (H4' := Hd 4).
  unfold magnitude, fe_of, M52, M48 in *. cbn [n0 n1 n2 n3 n4]. lia.
Qed.

Lemma set_b32_has l : is_b32 l -> has 1 (fe (be_word l)) (fst (secp256k1_fe_set_b32 l)).
Proof.
  intros [Hl Hb]. rewrite set_b32_spec by done. cbn [fst].
  assert (Hr := be_word_range l Hb). rewrite Hl in Hr. change (256 ^ Z.of_nat 32) with (2 ^ 256) in Hr.
  destruct (fe_of_val (be_word l) Hr) as [Ev Hn]. split; [|unfold ev; by rewrite Ev].
  apply fe_of_magnitude. done.
Qed.

Lemma read_xy_represents b :
  Forall is_byte b -> length b = 64%nat ->
  represents_ge (secp256k1_ge_set_xy (fst (secp256k1_fe_set_b32 (b32_at b 0))) (fst (secp256k1_fe_set_b32 (b32_at b 32)))) (read_xy b).
Proof.
  intros Hb Hl. split; [done|]. cbn [secp256k1_ge_set_xy gx gy].
  split; (eapply has_mono; [apply set_b32_has, b32_at_b32; [done|lia]|lia]).
Qed.

Lemma write_xy b a p :
  length b = 64%nat -> represents_ge a p -> p <> Infinity ->
  memcpy (memcpy b 0 (secp256k1_fe_get_b32 (secp256k1_fe_normalize (gx a)))) 32
    (secp256k1_fe_get_b32 (secp256k1_fe_normalize (gy a))) = xy_bytes p.
Proof.
  intros Hl Ha Hpn. destruct p as [|x y]; [done|]. destruct Ha as (_ & Hx & Hy).
  destruct (normalize_exact 8 x (gx a) Hx ltac:(lia)) as [Nx Ex]. destruct (normalize_exact 8 y (gy a) Hy ltac:(lia)) as [Ny Ey].
  rewrite !get_b32_spec, Ex, Ey by done. unfold memcpy, xy_bytes. rewrite take_0, !length_be_bytes. cbn [app].
  assert (L := length_be_bytes 32 (Zmod.to_Z x)). rewrite take_app_le, take_ge by lia.
  rewrite drop_ge, app_nil_r by (rewrite length_app, length_drop; lia). done.
Qed.

Lemma valid_multiple k p : is_b32 k -> valid_seckey k = true -> on_curve p -> p <> Infinity -> smul (be_word k) p <> Infinity.
Proof.
  intros Hk Vk Hp Hpn E. apply multiple_zero in E; [|done|done]. destruct (seckey_test k Hk) as (a & _ & _ & _ & _ & H).
  destruct (H Vk) as [_ Hr]. rewrite Z.mod_small in E by lia. lia.
Qed.

(** The function on bytes that are read as a point of the curve. *)
Lemma ext_scalar_mul_spec tmpa b sc :
  Forall is_byte b -> length b = 64%nat -> is_b32 sc -> on_curve (read_xy b) ->
  secp256k1_ext_scalar_mul tmpa (Some b) (Some sc) =
  if valid_seckey sc then returns true (Some (xy_bytes (smul (be_word sc) (read_xy b)))) else returns false (Some b).
Proof.
  intros Hb Hl Hs Hc. unfold secp256k1_ext_scalar_mul, CHECKED.
  destruct (seckey_test sc Hs) as (a & -> & Ho & Hv & Et & Hval).
  replace (negb (b2z (N <=? be_word sc) =? 0) || secp256k1_scalar_is_zero a) with (negb (valid_seckey sc))
    by (rewrite <- Et; by rewrite negb_andb, negb_involutive).
  destruct (valid_seckey sc) eqn:E; cbn [negb]; [|done]. destruct (Hval eq_refl) as [Ea Hr].
  destruct (ecmult_const_spec tmpa _ (read_xy b) a (read_xy_represents b Hb Hl) Hc ltac:(done) Ho) as (r & -> & Hres).
  cbn [mbind option_bind]. unfold returns. do 3 f_equal. apply set_gej_represents in Hres as [Hge _]. rewrite Ea in Hge.
  apply write_xy; [done|done|by apply valid_multiple].
Qed.

Lemma xy_bytes_ok p : p <> Infinity -> Forall is_byte (xy_bytes p) /\ length (xy_bytes p) = 64%nat /\ read_xy (xy_bytes p) = p.
Proof.
  destruct p as [|x y]; [done|]. intros _. unfold xy_bytes, read_xy, b32_at. split; [apply Forall_app; auto using be_bytes_range|].
  split; [by rewrite length_app, !length_be_bytes|]. rewrite drop_0.
  destruct (b32_of_encoding x _ (be_bytes 32 (Zmod.to_Z y)) eq_refl) as [-> ->].
  rewrite (take_ge (be_bytes 32 _)) by (rewrite length_be_bytes; lia). by rewrite !word_field, !fe_to_Z.
Qed.

(** C19: On a NULL pointer [secp256k1_ext_scalar_mul] reports the argument and
    leaves the bytes alone. On 64 bytes that are read as a point of the curve
    and a scalar of 32 bytes it returns 0 and leaves the point as it is exactly
    when the scalar is zero or not below the group order; otherwise it returns 1
    and the bytes of the multiple, whatever the uninitialised variable of the
    multiplication held. *)
Theorem ext_scalar_mul_multiplies (tmpa : secp256k1_ge) (b sc : bytes) (point scalar : option bytes) :
  Forall is_byte b -> length b = 64%nat -> is_b32 sc -> on_curve (read_xy b) ->
  (secp256k1_ext_scalar_mul tmpa (Some b) (Some sc) =
    if valid_seckey sc then returns true (Some (xy_bytes (smul (be_word sc) (read_xy b)))) else returns false (Some b)) /\
  (valid_seckey sc = true -> smul (be_word sc) (read_xy b) <> Infinity /\
    read_xy (xy_bytes (smul (be_word sc) (read_xy b))) = smul (be_word sc) (read_xy b)) /\
  secp256k1_ext_scalar_mul tmpa None scalar = Some (mkResult false None ["point != NULL"]) /\
  secp256k1_ext_scalar_mul tmpa (Some b) None = Some (mkResult false (Some b) ["scalar != NULL"]).
Proof.
  intros Hb Hl Hs Hc. split; [by apply ext_scalar_mul_spec|]. split; [|done]. intros Hv.
  assert (Hf := valid_multiple sc _ Hs Hv Hc ltac:(done)). split; [exact Hf|by apply xy_bytes_ok].
Qed.

(** Two secret keys and any point of the curve: multiplying the point first
    by the one and then by the other with [secp256k1_ext_scalar_mul] gives the
    same bytes in either order. *)
Theorem shared_secret_agrees (t1 t2 t3 t4 : secp256k1_ge) (b k1 k2 : bytes) :
  Forall is_byte b -> length b = 64%nat -> is_b32 k1 -> is_b32 k2 -> on_curve (read_xy b) ->
  valid_seckey k1 = true -> valid_seckey k2 = true ->
  exists q1 q2 secret,
    secp256k1_ext_scalar_mul t1 (Some b) (Some k1) = returns true (Some q1) /\
    secp256k1_ext_scalar_mul t2 (Some b) (Some k2) = returns true (Some q2) /\
    secp256k1_ext_scalar_mul t3 (Some q1) (Some k2) = returns true (Some secret) /\
    secp256k1_ext_scalar_mul t4 (Some q2) (Some k1) = returns true (Some secret).
Proof.
  intros Hb Hl H1 H2 Hc V1 V2.
  destruct (xy_bytes_ok _ (valid_multiple k1 _ H1 V1 Hc ltac:(done))) as (B1 & L1 & R1).
  destruct (xy_bytes_ok _ (valid_multiple k2 _ H2 V2 Hc ltac:(done))) as (B2 & L2 & R2).
  exists (xy_bytes (smul (be_word k1) (read_xy b))), (xy_bytes (smul (be_word k2) (read_xy b))),
    (xy_bytes (smul (be_word k1 * be_word k2) (read_xy b))).
  rewrite !ext_scalar_mul_spec, V1, V2, R1, R2 by (done || rewrite ?R1, ?R2; auto with curve).
  rewrite <- !smul_mul, (Z.mul_comm (be_word k2)) by done. done.
Qed.

(** The generator and the keys 2 and 3. *)
Definition g_bytes : bytes := xy_bytes G.
Definition key (k : Z) : bytes := be_bytes 32 k.

Lemma key_b32 k : is_b32 (key k).
Proof. split; [apply length_be_bytes|apply be_bytes_range]. Qed.

Lemma g_bytes_ok : Forall is_byte g_bytes /\ length g_bytes = 64%nat /\ read_xy g_bytes = G.
Proof. apply xy_bytes_ok. discriminate. Qed.

Lemma g_bytes_on_curve : on_curve (read_xy g_bytes).
Proof. rewrite (proj2 (proj2 g_bytes_ok)). apply G_on_curve. Qed.

Lemma key_valid k : 0 < k < N -> valid_seckey (key k) = true /\ be_word (key k) = k.
Proof.
  intros Hk. assert (HN : N < 2 ^ 256) by reflexivity. assert (E : be_word (key k) = k).
  { unfold key. rewrite be_word_bytes. change (256 ^ Z.of_nat 32) with (2 ^ 256). apply Z.mod_small. lia. }
  split; [|exact E]. unfold valid_seckey. rewrite E. destruct (Z.ltb_spec 0 k), (Z.ltb_spec k N); lia || reflexivity.
Qed.

Lemma ext_scalar_mul_multiplies_witness :
  exists tmpa, secp256k1_ext_scalar_mul tmpa (Some g_bytes) (Some (key 2)) = returns true (Some (xy_bytes (smul 2 G))).
Proof.
  exists (mkGe secp256k1_fe_clear secp256k1_fe_clear 0).
  destruct g_bytes_ok as (Hb & Hl & Hr). assert (Hc := g_bytes_on_curve).
  destruct (ext_scalar_mul_multiplies (mkGe secp256k1_fe_clear secp256k1_fe_clear 0) g_bytes (key 2) None None Hb Hl (key_b32 2) Hc) as [E _].
  destruct (key_valid 2 ltac:(split; reflexivity)) as [Hv Hw]. rewrite Hv, Hw, Hr in E. exact E.
Defined.

Lemma shared_secret_agrees_witness :
  exists t q1 q2 secret,
    secp256k1_ext_scalar_mul t (Some q1) (Some (key 3)) = returns true (Some secret) /\
    secp256k1_ext_scalar_mul t (Some q2) (Some (key 2)) = returns true (Some secret).
Proof.
  destruct g_bytes_ok as (Hb & Hl & _). set (t := mkGe secp256k1_fe_clear secp256k1_fe_clear 0). exists t.
  destruct (shared_secret_agrees t t t t g_bytes (key 2) (key 3) Hb Hl (key_b32 2) (key_b32 3) g_bytes_on_curve
    (proj1 (key_valid 2 ltac:(split; reflexivity))) (proj1 (key_valid 3 ltac:(split; reflexivity))))
    as (q1 & q2 & secret & _ & _ & E1 & E2).
  exists q1, q2, secret. split; [exact E1|exact E2].
Defined.

End ConstProps.
